(* ===== verification/_CoqProject ===== *)
-Q . S2P
Prelude.v
PyText.v
Bytes.v
Sv39Image.v
Multichase.v
SdImage.v
MemImage.v
Csv.v
CsvText.v
PyFloat.v
Binary64.v
PyDict.v
FloatError.v
PySearch.v
PyRegex.v
PyNumber.v
PyJson.v
FloatRepr.v
Argparse.v
Machine.v
Xml.v
ArchTrace.v
IssueTrace.v
IssueWindow.v
PipelineTrace.v
Pipeline3p.v
ParallelMap.v
AreaReport.v
ElfSymbols.v
KernelExtract.v
BootSignposts.v
BootWatch.v
BootWorkbook.v
BootReport.v
BootLook.v
BootProfile.v
Compliance.v
UartLoad.v
Gem5.v
QemuTrace.v
RomInit.v
CoremarkCompare.v
Options.v
ImagePrograms.v
TracePrograms.v
SynthPrograms.v
SessionPrograms.v
SynthFlow.v
Programs.v
CardFlow.v
ReportFlow.v
