(* ===== verification/Prelude.v ===== *)
(** * OpenRV64 tooling: verification library (root file)

    OpenRV64 is a RISC-V core with its simulation, FPGA and synthesis flows.
    The RTL is Verilog; the Python programs under [src/tools] and [src/synth]
    build the memory and boot images the core runs, check and summarise the
    traces and logs the simulators print, and drive and summarise synthesis.
    This library models those programs and proves what the rest of the flow
    relies on: that an image means what it should mean, that an accepted trace
    has the properties it was checked for, and that a report says what its
    inputs say.

    ** Conventions

    Definitions keep the names of the code and are executable.  Python integers
    are [Z]; bytes are [list Z] with values in 0..255; strings are [string],
    seen as lists of ASCII characters; floats are the binary64 values of
    [PyFloat].  The language is Python 3.12 or later, where [sum] of floats is
    compensated ([float_sum]).  A call that may raise returns [result], an exception with its
    message being a value; a loop that may raise is [foldM], a comprehension
    [mapR]; state that a loop mutates is passed explicitly.  A dictionary whose
    order matters is an association list ([PyDict]); the others are [gmap].
    The core of a program takes what it reads as arguments: a file is its bytes,
    lines or rows, a command a function from its arguments to the lines it
    prints, a report the list of its lines.  Whole programs, from the command
    line to the files, run on the host of [Machine].  Notations are in [py_scope]; [ok_step],
    [ok_inv] and [b2p] take successful computations and boolean tests apart.

    ** Shared layer

    - [Prelude]: results, loops and their rules, Python slices and item access,
      ranges, pairwise relations, bit tests.
    - [PyText], [Csv], [PyFloat], [PyDict], [PySearch], [PyRegex], [Bytes]:
      integers as text with round-trip lemmas, words and lines; CSV rows by
      column; binary64 division and fixed-point printing; ordered dictionaries,
      sums, stable sorting and counters; bisection with its specification;
      regular expressions with a declarative meaning the matcher is sound and
      complete for; struct, CRC-32, SHA-256 and little-endian words.
    - [CsvText], [PyNumber], [PyJson]: the CSV reader and writer with their
      round trip; [float(text)] and [repr]; JSON with [loads_dumps] (what is
      printed is read back) and [loads_good].
    - [Binary64], [FloatError], [FloatRepr], [Xml]: division rounds to nearest even
      ([division_rounds]) and gives valid values; the shortest [repr] of every
      binary64 value reads back as it ([valid_printable]), so that whatever was read
      from JSON can be written and read again; what repeated addition, [sum] and
      taking a sum away again lose to rounding ([remainder_error]); ElementTree's
      writer, with [parse_printed].
    - [Argparse]: the parser of the Standard Library as the programs use it:
      abbreviations, attached values, positionals, sub-commands, exclusive
      groups.  [parse_args_exits] and [typed_attr] say how it fails and what it
      leaves when it does not.
    - [Machine]: the host (files, directories, what cannot be written, the two
      output streams) and the programs on it as a state and error monad, with
      the judgements [changes] (what may be written), [observes] (nothing at all)
      and [commits] (nothing unless it succeeds), and rules for what a successful
      run went through.

    ** Images

    - [Sv39Image] (tools/make_4h_sv39_image.py, tools/make_shared_sv39_image.py):
      [FourHart.build] and [Shared.build].  The contract is the Sv39 walk of the
      privileged architecture (Module [Sv39]): [fourhart_translation] and
      [shared_translation] show that the walk from each root maps exactly the
      window, [fourhart_contents] that the template is copied.
    - [SdImage] (tools/make-fpga-sd-image.py): layout, header codec, payload
      checks, [build] and [verify].  [header_roundtrip], [build_verifies],
      [verify_bytes_sound]; [trampoline_boots] executes the generated entry
      code.  [CardFlow] composes two runs of the program: [card_verifies].
    - [MemImage] (tools/bin2mem.py, tools/elf2mem.py): ELF loading, overlap
      checks and the $readmemh writers.  [read_memh] is the reader of the
      format; [elf_image_faithful] and [bin2mem_roundtrip] go through it and say
      which inputs are accepted, [load_elf_sound] bounds every accepted segment.
    - [Multichase] (tools/gen_multichase_ring.py): generator, permutation,
      successor table and emitted assembly; [emit_single_ring] walks the emitted
      words, [emit_correct] adds what is refused, [order_keeps_locality] is the
      grouping.
    - [KernelExtract] (tools/extract-riscv-kernel-function.py): ELF symbols,
      alternatives, jump decoding and the emitted assembly.
      [jal_target_bounds] is against the J-type encoding; [extract_faithful]
      assembles the emitted body and compares it with the binary.

    ** Traces and logs

    - [ArchTrace] (tools/check_arch_trace.py, Module [Check];
      tools/branch_oracle_from_trace.py, Module [Oracle]): [validate_correct]
      characterises the traces that are accepted, [oracle_correct] the records.
    - [IssueTrace], [IssueWindow] (tools/issue_window_experiment.py): the
      committed stream with its dependence links, pipe assignment, and the
      cycle-by-cycle scheduler as a state machine.  Invariants of every
      reachable state ([window_safe]), hazards, termination and accounting of
      [schedule], and the choice of a maximal group ([choose_correct]).
    - [PipelineTrace] (tools/pipeline_trace.py) and [Pipeline3p]
      (tools/pipeline_trace_3p.py): the records and the report of the
      single-issue and the three-issue pipeline; nothing of the trace is lost
      ([collect_faithful], [retirement_faithful]), accepted traces have one
      identity per UID ([load_sound]), exclusive tables partition
      ([summary_partitions]).
    - [ElfSymbols] (tools/elf_symbols.py): [symbolize_correct] specifies the
      nearest symbol over all tables.
    - [BootSignposts] (tools/linux_boot_signposts.py): [extract_brackets]
      replaces bisection, sorting and dictionaries by filters over the records.
    - [BootWatch] (tools/linux_boot_watch.py): built on the two files above;
      [stream_preserved] for the stream, [live_annotation] ([SessionPrograms]) for
      what the program prints and writes while it follows it.
    - [BootReport] (tools/linux_boot_report.py): built on the same;
      [intervals_sound] follows two milestones from the log lines to the row between
      them (whose differences the program clamps at zero), [outcome_correct] is the longest stretch without retirement.
      [BootWorkbook] has the formats, colours and charts of its workbook, and
      [BootLook] says that they are on the cells they are meant for.
    - [BootProfile] (tools/linux_boot_pc_histogram.py): samples, classes and the
      report, with the totals of its histograms as lemmas.
    - [QemuTrace] (tools/qemu_one_insn_trace.py) and [Gem5] (the
      tools/gem5_hpi_* reports): summaries of other simulators.  [hot_correct]
      specifies the hottest counters, [read_blocks_sections] the blocks of a
      statistics file.

    - [CoremarkCompare] (tools/compare_coremark_pipelines.py): the OpenRV64 and the
      HPI trace of the same workload side by side.  [load_orv_faithful] says that
      nothing of the trace is lost, [comparison_matched] that the windows and calls
      of the two sides are the same-numbered ones.

    ** Hardware sessions

    - [Compliance] (tools/compliance.py): the whole program on the host of
      [Machine], with the images of [MemImage] and the reports of [PyJson] and [Xml];
      the class [Environment] has the commands it starts, as changes of the host
      within the files they may touch.  [run_simulates_elf] says that a result is
      the verdict on a simulation of that ELF file's image, [suite_sound] ties the
      exit status of a suite to the runs, [reports_read_back] the two report files
      to the results of the runs, [diff_correct] characterises a pass of the differential mode.
    - [UartLoad] (tools/fpga-uart-linux-load.py): the block protocol over a serial
      device, with the transcript of the wire.  [session_faithful] says what was
      sent and acknowledged, [read_until_correct] that the bounded buffer loses no
      marker, [main_terminates] that the program ends under the laws of the device
      and the clock; a simulated board instantiates them.

    ** Synthesis

    - [ParallelMap] (synth/core/parallel_map.py): hierarchy, worker scripts,
      concurrent completion as an order of results, recursive areas.
      [accumulate_correct] covers cycles and termination,
      [completion_order_irrelevant] the interleaving of the workers.
    - [AreaReport] (synth/core/summarize_resources.py; Module [Core4pf] for
      synth/nangate45/summarize-core-4pf.py): the walk that attributes area to
      categories, memory inference and the reports.  [walk_exact] is stated in
      exact arithmetic, over the interface of sums the walk is written against,
      which the floats implement.
    - [SynthFlow], [ReportFlow]: the two programs together.  [areas_recovered]
      says that the summary finds the areas the workers reported, exactly in exact
      arithmetic and up to rounding in doubles, with a bound; [merged_report_reads]
      that the file between them is read as it was meant.
    - [RomInit] (tools/check_yosys_rom_init.py): the count of non-zero ROM
      initialisation words of a netlist; [accepted_rom].

    ** Whole programs

    - [Options]: a module per program with its [argparse] parser and the reads of
      its [main]; [command_lines_typed] covers all twenty-nine.
    - [ImagePrograms], [TracePrograms], [SynthPrograms], [SessionPrograms]: [main] of
      the programs that work on files, from the options to the files and the lines
      printed, around the components above.
    - [Programs]: the table of these twenty-seven programs and [Compliance] with the
      files each may write; [programs_safe] is the contract they share.

    ** Bounds and fuel

    Fuel stands for recursion or loops the code leaves unbounded, and is never
    the answer: the scheduler's [run] has one step more than its own progress
    check allows, so [schedule_accounts] shows it returns;
    [accumulate] and [walk] are bounded by the number of modules
    ([accumulate_correct], [walk_terminates]); [bisect_loop] by the length of
    the list; [find_all] by the length of the text, as the record expressions
    consume a character ([find_all_fuel]); the search for the decimal exponent of a
    float by the range of binary64 ([magnitude_number] needs no more than its fuel).  The loops of [UartLoad] wait for the
    outside world, so their fuel has no bound of its own: [main_terminates] shows
    that some fuel gives a result and its lemmas that more fuel gives the same.
    Integer width appears where the code masks or packs: page-table entries,
    struct fields, CRC-32, SHA-256, SplitMix64, instruction words.

    ** Not modelled

    The layout of help and usage texts; positions in the messages of JSON errors;
    the size limit of CSV fields; the limit of 4300 digits on conversions between
    integers and decimal text; non-ASCII text.  On the host: symbolic links and two
    names of one file, read permissions, a full disk, and the state a failing worker of
    [parallel_map] leaves while others still run (their files are within what
    [programs_safe] allows; that a future is cancelled is not in the model).
    [UartLoad] keeps an interface of its own for the serial device and the clock
    instead of the host of [Machine]; its options are in [Options].  The standard
    input of [linux_boot_watch] is the list of its lines, and pipes that break are
    left out.  [compliance.py] starts its commands one at a time; what they print
    and change is a parameter, as are [shutil.which] and the expressions of --match.
    nm, addr2line, dtc and the C preprocessor, objdump, Yosys, openpyxl and the
    simulators are parameters.  The Verilog, the assembly and C tests, shell
    scripts and make files are in other languages and outside this library. *)

From stdpp Require Export base numbers list strings gmap sorting pretty.
From Stdlib Require Export ZArith Lia.

Open Scope Z_scope.

(** ** Notations of the development *)

Declare Scope py_scope.
Delimit Scope py_scope with py.

(** ** Python exceptions and fallible computations

    The exception classes the modelled code raises, each with the text of the
    message it is raised with.  [ExitWith] is [SystemExit] with a message
    (what [raise SystemExit("...")] and [parser.error("...")] produce),
    [SystemExit] the one with a status. *)

Inductive exn :=
  | ValueError (msg : string)
  | TypeError (msg : string)
  | OverflowError (msg : string)
  | StructError (msg : string)
  | RuntimeError (msg : string)
  | KeyError (msg : string)
  | AttributeError (msg : string)
  | IndexError (msg : string)
  | ZeroDivisionError (msg : string)
  | TimeoutError (msg : string)
  | TimeoutExpired (command : string)    (* of subprocess *)
  | FileNotFoundError (msg : string)
  | OSError (msg : string)               (* the other errors of the operating system *)
  | StopIteration
  | ArgumentTypeError (msg : string)
  | ExitWith (msg : string)
  | SystemExit (status : Z).

#[export] Instance exn_eq_dec : EqDecision exn.
Proof. solve_decision. Defined.

(** A computation that returns a value or raises. *)
Inductive result (A : Type) :=
  | Ok (a : A)
  | Err (e : exn).
Arguments Ok {A} _.
Arguments Err {A} _.

#[export] Instance result_ret : MRet result := λ A a, Ok a.
#[export] Instance result_bind : MBind result := λ A B f m,
  match m with Ok a => f a | Err e => Err e end.
#[export] Instance result_fmap : FMap result := λ A B f m,
  match m with Ok a => Ok (f a) | Err e => Err e end.

(** [if b: raise e] followed by the rest of the body. *)
Notation "'raise' e 'when' b ;; k" := (if b then Err e else k)
  (at level 100, e at level 0, b at level 80, k at level 200,
   right associativity) : py_scope.
Open Scope py_scope.

Definition is_Ok {A} (r : result A) : bool :=
  match r with Ok _ => true | Err _ => false end.

(** A [for x in xs] loop that threads a state and may raise. *)
Fixpoint foldM {S A} (f : S → A → result S) (s : S) (xs : list A) : result S :=
  match xs with
  | [] => Ok s
  | x :: xs => s' ← f s x; foldM f s' xs
  end.

(** A list comprehension whose body may raise. *)
Fixpoint mapR {A B} (f : A → result B) (xs : list A) : result (list B) :=
  match xs with
  | [] => Ok []
  | x :: xs => y ← f x; ys ← mapR f xs; Ok (y :: ys)
  end.

Lemma bind_Ok {A B} (m : result A) (f : A → result B) b :
  (m ≫= f) = Ok b ↔ ∃ a, m = Ok a ∧ f a = Ok b.
Proof.
  destruct m as [a|e]; simpl; split; [by eauto| |done|by intros (? & ? & _)].
  by intros (? & [= ->] & ?).
Qed.

Lemma guard_Ok {A} (b : bool) e (k : result A) x :
  (raise e when b;; k) = Ok x ↔ b = false ∧ k = Ok x.
Proof. destruct b; split; [done|by intros [? _]|done|by intros [_ ?]]. Qed.

Lemma Ok_inj {A} (a b : A) : Ok a = Ok b → a = b.
Proof. by intros [= ->]. Qed.

Lemma foldM_app {S A} (f : S → A → result S) s xs ys :
  foldM f s (xs ++ ys) = (foldM f s xs ≫= λ s', foldM f s' ys).
Proof.
  revert s; induction xs as [|x xs IH]; intros s; [done|].
  simpl. destruct (f s x); simpl; [apply IH | done].
Qed.

(** A loop nested in another is a loop over the concatenation. *)
Lemma foldM_join {S A} (f : S → A → result S) s ls :
  foldM f s (mjoin ls) = foldM (foldM f) s ls.
Proof.
  revert s; induction ls as [|l ls IH]; intros s; [done|].
  change (mjoin (l :: ls)) with (l ++ mjoin ls). rewrite foldM_app. simpl.
  destruct (foldM f s l); [apply IH|done].
Qed.

(** Rule of inference for loops: an invariant indexed by the elements already
    consumed. *)
Lemma foldM_inv {S A} (P : list A → S → Prop) (f : S → A → result S) s xs s' :
  P [] s →
  (∀ done x s1 s2, P done s1 → f s1 x = Ok s2 → (done ++ [x]) `prefix_of` xs →
     P (done ++ [x]) s2) →
  foldM f s xs = Ok s' → P xs s'.
Proof.
  intros H0 Hstep.
  cut (∀ done rest s0, xs = done ++ rest → P done s0 →
    foldM f s0 rest = Ok s' → P xs s').
  { intros Hgen Hf. by apply (Hgen [] xs s). }
  intros don rest. revert don.
  induction rest as [|x rest IH]; intros don s0 -> Hp Hf; simpl in Hf.
  - simplify_eq. by rewrite app_nil_r.
  - apply bind_Ok in Hf as (s1 & Hx & Hf).
    replace (don ++ x :: rest) with ((don ++ [x]) ++ rest) in *
      by by rewrite <-app_assoc.
    eapply IH; [done| |done].
    eapply Hstep; [done|done|]. by exists rest.
Qed.

(** A loop whose body never raises on states satisfying an invariant. *)
Lemma foldM_total {S A} (P : list A → S → Prop) (f : S → A → result S) s xs :
  P [] s →
  (∀ done x s1, P done s1 → (done ++ [x]) `prefix_of` xs →
     ∃ s2, f s1 x = Ok s2 ∧ P (done ++ [x]) s2) →
  ∃ s', foldM f s xs = Ok s' ∧ P xs s'.
Proof.
  intros H0 Hstep.
  cut (∀ rest done s0, xs = done ++ rest → P done s0 →
    ∃ s', foldM f s0 rest = Ok s' ∧ P xs s').
  { intros Hgen. by apply (Hgen xs [] s). }
  induction rest as [|x rest IH]; intros don s0 -> Hp; simpl.
  - exists s0. by rewrite app_nil_r.
  - destruct (Hstep don x s0 Hp) as (s2 & -> & Hs2).
    { exists rest. by rewrite <-app_assoc. }
    simpl. apply (IH (don ++ [x]) s2); [by rewrite <-app_assoc|done].
Qed.

Lemma mapR_Ok {A B} (f : A → result B) xs ys :
  mapR f xs = Ok ys ↔ Forall2 (λ x y, f x = Ok y) xs ys.
Proof.
  revert ys; induction xs as [|x xs IH]; intros ys; simpl.
  - split; [intros [= <-]; constructor | by inversion 1].
  - split.
    + intros (y & Hy & (ys' & Hys & [= <-])%bind_Ok)%bind_Ok.
      constructor; [done|]. by apply IH.
    + inversion 1 as [|?? ys' ? Hy Hys]; subst.
      rewrite Hy; simpl. apply IH in Hys. by rewrite Hys.
Qed.

Lemma mapR_total {A B} (f : A → result B) (g : A → B) xs :
  (∀ x, x ∈ xs → f x = Ok (g x)) → mapR f xs = Ok (g <$> xs).
Proof.
  induction xs as [|x xs IH]; intros H; [done|]. simpl.
  rewrite H by set_solver. simpl. rewrite IH by set_solver. done.
Qed.

Lemma mapR_exists {A B} (f : A → result B) xs :
  (∀ x, x ∈ xs → ∃ y, f x = Ok y) → ∃ ys, mapR f xs = Ok ys.
Proof.
  induction xs as [|x xs IH]; intros H; [by exists []|].
  destruct (H x) as [y Hy]; [set_solver|]. destruct IH as [ys Hys]; [set_solver|].
  exists (y :: ys). simpl. by rewrite Hy, Hys.
Qed.

(** ** Tactics *)

(** Peels one [Ok] out of a chain of binds and guards in hypothesis [H]. *)
Ltac ok_step H :=
  lazymatch type of H with
  | mbind _ _ = Ok _ => apply bind_Ok in H; destruct H as (? & ? & H)
  | (if ?b then Err _ else _) = Ok _ => destruct b eqn:?; [discriminate H|]
  | Ok _ = Ok _ => injection H as H
  end.
Ltac ok_inv H := repeat ok_step H.

(** Turns boolean tests in the context into propositions [lia] understands. *)
Ltac b2p :=
  repeat match goal with
  | H : andb _ _ = true |- _ => apply andb_true_iff in H as [? ?]
  | H : orb _ _ = false |- _ => apply orb_false_iff in H as [? ?]
  | H : orb _ _ = true |- _ => apply orb_true_iff in H
  | H : andb _ _ = false |- _ => apply andb_false_iff in H
  | H : negb _ = true |- _ => apply negb_true_iff in H
  | H : negb _ = false |- _ => apply negb_false_iff in H
  | H : (_ =? _)%Z = true |- _ => apply Z.eqb_eq in H
  | H : (_ =? _)%Z = false |- _ => apply Z.eqb_neq in H
  | H : (_ <? _)%Z = true |- _ => apply Z.ltb_lt in H
  | H : (_ <? _)%Z = false |- _ => apply Z.ltb_ge in H
  | H : (_ <=? _)%Z = true |- _ => apply Z.leb_le in H
  | H : (_ <=? _)%Z = false |- _ => apply Z.leb_gt in H
  | H : bool_decide _ = true |- _ => apply bool_decide_eq_true in H
  | H : bool_decide _ = false |- _ => apply bool_decide_eq_false in H
  end.

(** Splits on the test of an [if] or the scrutinee of a [match] in the goal. *)
Ltac case_goal :=
  match goal with
  | |- context [if ?b then _ else _] => destruct b eqn:?
  | |- context [match ?x with _ => _ end] => destruct x eqn:?
  end.

(** ** Python list slices

    [slice l a b] is [l[a:b]] and [slice_assign l a b new] is
    [l[a:b] = new], with Python's clipping of the bounds (a negative index
    counts from the end). *)

Definition zlen {A} (l : list A) : Z := Z.of_nat (length l).

Definition slice_index (n i : Z) : Z :=
  if i <? 0 then Z.max 0 (i + n) else Z.min i n.

Definition slice {A} (l : list A) (a b : Z) : list A :=
  let lo := slice_index (zlen l) a in
  let hi := slice_index (zlen l) b in
  take (Z.to_nat (hi - lo)) (drop (Z.to_nat lo) l).

Definition slice_assign {A} (l : list A) (a b : Z) (new : list A) : list A :=
  let lo := slice_index (zlen l) a in
  let hi := slice_index (zlen l) b in
  take (Z.to_nat lo) l ++ new ++ drop (Z.to_nat (Z.max lo hi)) l.

Section slices.
Context {A : Type}.
Implicit Types l new : list A.

Lemma slice_inside l a b :
  0 ≤ a ≤ b → b ≤ zlen l →
  slice l a b = take (Z.to_nat (b - a)) (drop (Z.to_nat a) l).
Proof.
  intros. unfold slice, slice_index.
  destruct (Z.ltb_spec a 0), (Z.ltb_spec b 0); try lia.
  by rewrite !Z.min_l by lia.
Qed.

Lemma slice_clipped l a b :
  0 ≤ a ≤ b → slice l a b = take (Z.to_nat (b - a)) (drop (Z.to_nat a) l).
Proof.
  intros. unfold slice, slice_index.
  destruct (Z.ltb_spec a 0), (Z.ltb_spec b 0); try lia.
  destruct (Z.le_gt_cases a (zlen l)).
  - rewrite (Z.min_l a) by done. destruct (Z.le_gt_cases b (zlen l)).
    + by rewrite Z.min_l.
    + rewrite Z.min_r by lia. rewrite !take_ge; rewrite ?length_drop; unfold zlen in *; lia || done.
  - rewrite !drop_ge by (unfold zlen in *; lia). by rewrite !take_nil.
Qed.

Lemma length_slice_inside l a b :
  0 ≤ a ≤ b → b ≤ zlen l → length (slice l a b) = Z.to_nat (b - a).
Proof.
  intros. rewrite slice_inside by done.
  rewrite length_take, length_drop. unfold zlen in *. lia.
Qed.

Lemma zlen_slice_inside l a b :
  0 ≤ a ≤ b → b ≤ zlen l → zlen (slice l a b) = b - a.
Proof. intros. unfold zlen. rewrite length_slice_inside by done. lia. Qed.

Lemma lookup_slice_inside l a b (i : nat) :
  0 ≤ a ≤ b → b ≤ zlen l →
  slice l a b !! i =
    if decide (Z.of_nat i < b - a) then l !! Z.to_nat (a + Z.of_nat i) else None.
Proof.
  intros. rewrite slice_inside by done. case_decide.
  - rewrite lookup_take_lt by lia. rewrite lookup_drop. f_equal. lia.
  - apply lookup_take_ge. lia.
Qed.

(** Two lists that agree on [a..b) have equal slices there. *)
Lemma slice_ext l1 l2 a b :
  0 ≤ a ≤ b → b ≤ zlen l1 → b ≤ zlen l2 →
  (∀ i, a ≤ i < b → l1 !! Z.to_nat i = l2 !! Z.to_nat i) →
  slice l1 a b = slice l2 a b.
Proof.
  intros Hab H1 H2 Heq. apply list_eq. intros i.
  rewrite !lookup_slice_inside by done. case_decide; [|done].
  apply Heq. lia.
Qed.

Lemma slice_assign_inside l a b new :
  0 ≤ a ≤ b → b ≤ zlen l →
  slice_assign l a b new =
    take (Z.to_nat a) l ++ new ++ drop (Z.to_nat b) l.
Proof.
  intros. unfold slice_assign, slice_index.
  destruct (Z.ltb_spec a 0), (Z.ltb_spec b 0); try lia.
  rewrite !Z.min_l by lia. by rewrite Z.max_r by lia.
Qed.

(** Assigning a slice of its own length writes in place. *)
Lemma zlen_slice_assign l a b new :
  0 ≤ a → b = a + zlen new → b ≤ zlen l →
  zlen (slice_assign l a b new) = zlen l.
Proof.
  intros. rewrite slice_assign_inside by (unfold zlen in *; lia).
  unfold zlen in *.
  rewrite !length_app, length_take, length_drop. lia.
Qed.

Lemma lookup_slice_assign l a b new i :
  0 ≤ a → b = a + zlen new → b ≤ zlen l → 0 ≤ i →
  slice_assign l a b new !! Z.to_nat i =
    if decide (a ≤ i < b) then new !! Z.to_nat (i - a) else l !! Z.to_nat i.
Proof.
  intros. rewrite slice_assign_inside by (unfold zlen in *; lia).
  unfold zlen in *. case_decide.
  - rewrite lookup_app_r by (rewrite length_take; lia).
    rewrite length_take, lookup_app_l by lia. f_equal. lia.
  - destruct (decide (i < a)).
    + rewrite lookup_app_l by (rewrite length_take; lia).
      by rewrite lookup_take_lt by lia.
    + rewrite lookup_app_r by (rewrite length_take; lia).
      rewrite length_take, lookup_app_r by lia.
      rewrite lookup_drop. f_equal. lia.
Qed.

Lemma slice_slice_assign_eq l a b new :
  0 ≤ a → b = a + zlen new → b ≤ zlen l →
  slice (slice_assign l a b new) a b = new.
Proof.
  intros. assert (0 ≤ zlen new) by (unfold zlen; lia).
  apply list_eq. intros i.
  rewrite lookup_slice_inside by (rewrite ?zlen_slice_assign; lia).
  case_decide.
  - rewrite lookup_slice_assign by lia. rewrite decide_True by lia.
    f_equal. lia.
  - symmetry. apply lookup_ge_None. unfold zlen in *. lia.
Qed.

Lemma slice_slice_assign_ne l a b new c d :
  0 ≤ a → b = a + zlen new → b ≤ zlen l →
  0 ≤ c ≤ d → d ≤ zlen l → (d ≤ a ∨ b ≤ c) →
  slice (slice_assign l a b new) c d = slice l c d.
Proof.
  intros. apply slice_ext; [lia|rewrite zlen_slice_assign; lia|lia|].
  intros i Hi. rewrite lookup_slice_assign by lia.
  by rewrite decide_False by lia.
Qed.
End slices.

(** ** Hint databases

    [py]: facts the components share; [rewrite_db] style lemmas live in the
    autorewrite base [len] (lengths). *)
Create HintDb py discriminated.

Lemma zlen_nonneg {A} (l : list A) : 0 ≤ zlen l.
Proof. unfold zlen. lia. Qed.
Lemma zlen_nil {A} : zlen (@nil A) = 0.
Proof. done. Qed.
Lemma zlen_cons {A} (x : A) l : zlen (x :: l) = 1 + zlen l.
Proof. unfold zlen. simpl. lia. Qed.
Lemma zlen_app {A} (l1 l2 : list A) : zlen (l1 ++ l2) = zlen l1 + zlen l2.
Proof. unfold zlen. rewrite length_app. lia. Qed.
Lemma zlen_replicate {A} n (x : A) : zlen (replicate n x) = Z.of_nat n.
Proof. unfold zlen. by rewrite length_replicate. Qed.
Lemma zlen_fmap {A B} (f : A → B) l : zlen (f <$> l) = zlen l.
Proof. unfold zlen. by rewrite length_fmap. Qed.

Lemma zlen_snoc {A} (l : list A) x : zlen (l ++ [x]) = zlen l + 1.
Proof. unfold zlen. rewrite length_app. simpl. lia. Qed.

Create Rewrite HintDb len.
#[export] Hint Rewrite @zlen_nil @zlen_cons @zlen_app @zlen_replicate @zlen_fmap : len.
#[export] Hint Resolve zlen_nonneg : py.

(** [range(n)] as a list of Python integers. *)
Definition zrange (a b : Z) : list Z := seqZ a (b - a).

Lemma elem_of_zrange a b i : i ∈ zrange a b ↔ a ≤ i < b.
Proof. unfold zrange. rewrite elem_of_seqZ. lia. Qed.

Lemma zlen_zrange a b : a ≤ b → zlen (zrange a b) = b - a.
Proof. intros. unfold zlen, zrange. rewrite length_seqZ. lia. Qed.

Lemma zrange_prefix a b done x :
  (done ++ [x]) `prefix_of` zrange a b →
  done = zrange a x ∧ a ≤ x < b.
Proof.
  intros [rest Hr].
  assert (Hx : zrange a b !! length done = Some x).
  { rewrite Hr, <-app_assoc. by apply list_lookup_middle. }
  unfold zrange in *. apply lookup_seqZ in Hx as [Hx Hlt].
  split; [|lia].
  assert (Hd : done = take (length done) (seqZ a (b - a))).
  { rewrite Hr, <-app_assoc. by rewrite take_app_length. }
  rewrite Hd. apply list_eq. intros i.
  destruct (decide (i < length done)%nat).
  - rewrite lookup_take_lt by done.
    by rewrite !lookup_seqZ_lt by lia.
  - rewrite lookup_take_ge by lia. symmetry. apply lookup_seqZ_ge. lia.
Qed.

Lemma zrange_empty a b : b ≤ a → zrange a b = [].
Proof. intros. unfold zrange, seqZ. by replace (Z.to_nat (b - a)) with 0%nat by lia. Qed.

Lemma zrange_snoc a b : a ≤ b → zrange a (b + 1) = zrange a b ++ [b].
Proof.
  intros. unfold zrange. replace (b + 1 - a) with ((b - a) + 1) by lia.
  rewrite seqZ_app by lia. do 2 f_equal. unfold seqZ. simpl. f_equal. lia.
Qed.

Lemma zrange_cons a b : a < b → zrange a b = a :: zrange (a + 1) b.
Proof.
  intros. unfold zrange. rewrite seqZ_cons by lia. f_equal. f_equal; lia.
Qed.

Lemma zrange_app a b c : a ≤ b ≤ c → zrange a b ++ zrange b c = zrange a c.
Proof.
  intros. unfold zrange. replace (c - a) with ((b - a) + (c - b)) by lia.
  rewrite seqZ_app by lia. f_equal. f_equal; lia.
Qed.

Lemma lookup_zrange a b (i : nat) :
  zrange a b !! i = if decide (a + Z.of_nat i < b) then Some (a + Z.of_nat i) else None.
Proof.
  unfold zrange. case_decide; [by apply lookup_seqZ_lt; lia | apply lookup_seqZ_ge; lia].
Qed.

Lemma zrange_sorted a b : StronglySorted Z.le (zrange a b).
Proof.
  remember (Z.to_nat (b - a)) as n eqn:Hn. revert a Hn.
  induction n as [|n IH]; intros a Hn; [rewrite zrange_empty by lia; constructor|].
  rewrite zrange_cons by lia. constructor; [apply IH; lia|].
  apply Forall_forall. intros x Hx%elem_of_zrange. lia.
Qed.

Lemma NoDup_zrange a b : NoDup (zrange a b).
Proof. apply NoDup_seqZ. Qed.

Lemma join_cons {A} (x : list A) ls : mjoin (x :: ls) = x ++ mjoin ls.
Proof. done. Qed.

(** A property of a bounded range, by evaluating a test on all of it. *)
Lemma zrange_check (P : Z → bool) a b i (Q : Prop) :
  forallb P (zrange a b) = true → a ≤ i < b → (P i = true → Q) → Q.
Proof.
  intros H Hi HQ. apply HQ. rewrite forallb_forall in H. apply H.
  by apply list_elem_of_In, elem_of_zrange.
Qed.

(** [range(a, b, step)] for a positive step. *)
Definition range_step (a b step : Z) : list Z :=
  (λ k, a + k * step) <$> zrange 0 ((b - a + step - 1) / step).

(** [enumerate(l)] *)
Definition enumerate {A} (l : list A) : list (Z * A) := zip (zrange 0 (zlen l)) l.

Lemma length_enumerate {A} (l : list A) : length (enumerate l) = length l.
Proof.
  unfold enumerate. rewrite length_zip_with. unfold zrange, zlen.
  rewrite length_seqZ. lia.
Qed.

Lemma lookup_enumerate {A} (l : list A) (i : nat) :
  enumerate l !! i = (λ x, (Z.of_nat i, x)) <$> l !! i.
Proof.
  unfold enumerate. rewrite lookup_zip_with, lookup_zrange.
  destruct (l !! i) as [x|] eqn:Hx; simpl.
  - apply lookup_lt_Some in Hx. rewrite decide_True by (unfold zlen; lia). done.
  - by destruct (decide _).
Qed.

Lemma enumerate_prefix {A} (l : list A) done i x :
  (done ++ [(i, x)]) `prefix_of` enumerate l →
  i = Z.of_nat (length done) ∧ l !! length done = Some x.
Proof.
  intros [rest Hr].
  assert (enumerate l !! length done = Some (i, x)) as H
    by (rewrite Hr, <-app_assoc; by apply list_lookup_middle).
  rewrite lookup_enumerate in H. destruct (l !! length done); simplify_eq/=. done.
Qed.

(** ** Python item access

    [get_item l i] is [l[i]] and [set_item l i x] is [l[i] = x]: negative
    indices count from the end, an index out of range raises [IndexError]. *)

Definition item_index {A} (l : list A) (i : Z) : result nat :=
  let j := if i <? 0 then i + zlen l else i in
  raise (IndexError "list index out of range") when (j <? 0) || (zlen l <=? j);;
  Ok (Z.to_nat j).

Definition get_item {A} (l : list A) (i : Z) : result A :=
  j ← item_index l i;
  match l !! j with
  | Some x => Ok x
  | None => Err (IndexError "list index out of range")
  end.

Definition set_item {A} (l : list A) (i : Z) (x : A) : result (list A) :=
  j ← item_index l i; Ok (<[j:=x]> l).

Lemma item_index_Ok {A} (l : list A) i :
  0 ≤ i < zlen l → item_index l i = Ok (Z.to_nat i).
Proof.
  intros Hi. unfold item_index. destruct (Z.ltb_spec i 0); [lia|].
  destruct (Z.ltb_spec i 0), (Z.leb_spec (zlen l) i); try lia. done.
Qed.

Lemma get_item_Ok {A} (l : list A) i x :
  0 ≤ i → l !! Z.to_nat i = Some x → get_item l i = Ok x.
Proof.
  intros Hi Hx. pose proof (lookup_lt_Some _ _ _ Hx). unfold get_item.
  rewrite item_index_Ok by (unfold zlen; lia). simpl. by rewrite Hx.
Qed.

Lemma get_item_inv {A} (l : list A) i x :
  0 ≤ i → get_item l i = Ok x → l !! Z.to_nat i = Some x.
Proof.
  intros Hi Hg. destruct (l !! Z.to_nat i) as [y|] eqn:E.
  - rewrite (get_item_Ok _ _ _ Hi E) in Hg. by apply Ok_inj in Hg as <-.
  - unfold get_item in Hg. apply bind_Ok in Hg as (n & Hn & Hg). unfold item_index in Hn.
    apply guard_Ok in Hn as [Hb Hn]. apply Ok_inj in Hn as <-. destruct (Z.ltb_spec i 0);
      [lia|]. by rewrite E in Hg.
Qed.
Lemma get_item_nat {A} (l : list A) (i : nat) x :
  l !! i = Some x → get_item l (Z.of_nat i) = Ok x.
Proof. intros Hx. apply get_item_Ok; [lia|]. by rewrite Nat2Z.id. Qed.

(** [l[-1]] *)
Lemma get_item_last {A} (l : list A) x : last l = Some x → get_item l (-1) = Ok x.
Proof.
  intros Hx. rewrite last_lookup in Hx. pose proof (lookup_lt_Some _ _ _ Hx).
  unfold get_item, item_index, zlen. simpl.
  destruct (Z.ltb_spec (-1 + Z.of_nat (length l)) 0); [lia|].
  destruct (Z.leb_spec (Z.of_nat (length l)) (-1 + Z.of_nat (length l))); [lia|].
  simpl. replace (Z.to_nat (-1 + Z.of_nat (length l))) with (pred (length l)) by lia.
  by rewrite Hx.
Qed.

Lemma set_item_Ok {A} (l : list A) i x :
  0 ≤ i < zlen l → set_item l i x = Ok (<[Z.to_nat i:=x]> l).
Proof. intros Hi. unfold set_item. by rewrite item_index_Ok. Qed.

(** Swapping one element out of a list for another one. *)
Lemma insert_Permutation {A} (l : list A) (i : nat) x y :
  l !! i = Some x → <[i:=y]> l ++ [x] ≡ₚ l ++ [y].
Proof.
  intros Hx. pose proof (lookup_lt_Some _ _ _ Hx) as Hlt.
  rewrite insert_take_drop by done.
  transitivity ((take i l ++ x :: drop (S i) l) ++ [y]);
    [|by rewrite take_drop_middle].
  rewrite <-!app_assoc. apply Permutation_app_head.
  transitivity (x :: y :: drop (S i) l).
  - change (x :: y :: drop (S i) l) with ([x] ++ y :: drop (S i) l).
    apply Permutation_app_comm.
  - rewrite perm_swap. change (y :: x :: drop (S i) l) with ([y] ++ x :: drop (S i) l).
    apply Permutation_app_comm.
Qed.

(** ** Pairwise relations over lists *)

Fixpoint Pairwise {A} (R : A → A → Prop) (l : list A) : Prop :=
  match l with [] => True | x :: l => Forall (R x) l ∧ Pairwise R l end.

Lemma Pairwise_perm {A} (R : A → A → Prop) l k :
  (∀ x y, R x y → R y x) → l ≡ₚ k → Pairwise R l → Pairwise R k.
Proof.
  intros Hs. induction 1 as [|x l k Hp IH|x y l|l k m H1 IH1 H2 IH2]; simpl.
  - done.
  - intros [Hx Hl]. split; [by rewrite <-Hp | auto].
  - intros [Hy [Hx Hl]]. inversion Hy; subst. split; [constructor; auto|done].
  - auto.
Qed.

Lemma Pairwise_lookup {A} (R : A → A → Prop) l i j x y :
  Pairwise R l → (i < j)%nat → l !! i = Some x → l !! j = Some y → R x y.
Proof.
  revert i j. induction l as [|z l IH]; [done|].
  intros [|i] [|j]; simpl; intros [Hz Hl] Hij Hx Hy; try lia.
  - injection Hx as ->. rewrite Forall_lookup in Hz. eauto.
  - apply (IH i j); [done|lia|done..].
Qed.

Lemma Pairwise_app {A} (R : A → A → Prop) l k :
  Pairwise R (l ++ k) ↔ Pairwise R l ∧ Pairwise R k ∧ ∀ x y, x ∈ l → y ∈ k → R x y.
Proof.
  induction l as [|z l IH]; simpl.
  - split; [intros ?; split_and!; [done..|by intros ?? ?%elem_of_nil]|naive_solver].
  - rewrite Forall_app, IH, !Forall_forall. split.
    + intros ([Hz Hk] & Hl & Hk' & Hlk). split_and!; try done.
      intros x y [->|Hx]%elem_of_cons Hy; [by apply Hk|by apply Hlk].
    + intros ([Hz Hl] & Hk & Hlk). split_and!; try done; intros; apply Hlk; set_solver.
Qed.

Lemma Pairwise_lookup_2 {A} (R : A → A → Prop) l :
  (∀ (i j : nat) x y, (i < j)%nat → l !! i = Some x → l !! j = Some y → R x y) → Pairwise R l.
Proof.
  induction l as [|z l IH]; intros H; simpl; [done|]. split.
  - apply Forall_lookup. intros j y Hy. by apply (H 0%nat (S j)); [lia| |].
  - apply IH. intros i j x y Hij Hx Hy. by apply (H (S i) (S j)); [lia| |].
Qed.

Lemma Pairwise_fmap {A B} (R : B → B → Prop) (f : A → B) l :
  Pairwise R (f <$> l) ↔ Pairwise (λ x y, R (f x) (f y)) l.
Proof.
  induction l as [|x l IH]; simpl; [done|]. rewrite Forall_fmap. by rewrite IH.
Qed.

Lemma Pairwise_impl {A} (R S : A → A → Prop) l :
  (∀ x y, x ∈ l → y ∈ l → R x y → S x y) → Pairwise R l → Pairwise S l.
Proof.
  induction l as [|x l IH]; simpl; [done|]. intros H [Hx Hl]. split.
  - rewrite Forall_forall in Hx |- *. intros y Hy. apply H; set_solver.
  - apply IH; [|done]. intros; apply H; set_solver.
Qed.

Lemma Pairwise_StronglySorted {A} (R : A → A → Prop) l : StronglySorted R l ↔ Pairwise R l.
Proof.
  induction l as [|x l IH]; simpl; split; intros H.
  - done.
  - constructor.
  - apply StronglySorted_inv in H as [? ?]. by rewrite <-IH.
  - destruct H as [Hx Hl]. constructor; [by apply IH | done].
Qed.

(** A checking loop: no state, only errors. *)
Lemma foldM_unit {A} (f : unit → A → result unit) xs :
  foldM f tt xs = Ok tt ↔ Forall (λ x, f tt x = Ok tt) xs.
Proof.
  induction xs as [|x xs IH]; simpl; [split; auto|].
  rewrite bind_Ok, Forall_cons, <-IH. split.
  - intros ([] & ? & ?). done.
  - intros [? ?]. by exists tt.
Qed.

Lemma Pairwise_filter {A} (R : A → A → Prop) (P : A → Prop) `{∀ x, Decision (P x)} l :
  Pairwise R l → Pairwise R (filter P l).
Proof.
  induction l as [|x l IH]; [done|]. intros [Hx Hl]. rewrite filter_cons.
  case_decide; [|by apply IH]. split; [|by apply IH].
  apply Forall_forall. intros y [_ Hy]%list_elem_of_filter.
  rewrite Forall_forall in Hx. by apply Hx.
Qed.

Lemma filter_all {A} (P : A → Prop) `{∀ x, Decision (P x)} l : Forall P l → filter P l = l.
Proof. induction 1 as [|x l Hx _ IH]; [done|]. by rewrite filter_cons_True, IH. Qed.
Lemma filter_none {A} (P : A → Prop) `{∀ x, Decision (P x)} l : Forall (λ x, ¬ P x) l → filter P l = [].
Proof. induction 1 as [|x l Hx _ IH]; [done|]. by rewrite filter_cons_False. Qed.

Lemma head_drop {A} (l : list A) n : head (drop n l) = l !! n.
Proof. rewrite head_lookup, lookup_drop. f_equal. lia. Qed.
Lemma last_take_S {A} (l : list A) n : (n < length l)%nat → last (take (S n) l) = l !! n.
Proof.
  intros Hn. rewrite last_lookup, length_take. replace (pred _) with n by lia. apply lookup_take_lt. lia.
Qed.

(** ** Bit masks *)

(** [bool(mask & (1 << i))] *)
Definition bit (mask i : Z) : bool := negb (Z.land mask (Z.shiftl 1 i) =? 0).

Lemma bit_testbit mask i : 0 ≤ i → bit mask i = Z.testbit mask i.
Proof.
  intros Hi. unfold bit. destruct (Z.testbit mask i) eqn:Hb.
  - apply negb_true_iff, Z.eqb_neq. intros H.
    assert (Z.testbit (Z.land mask (Z.shiftl 1 i)) i = false) as H0 by (rewrite H; apply Z.bits_0).
    rewrite Z.land_spec, Hb, Z.shiftl_spec, Z.sub_diag in H0 by lia. done.
  - apply negb_false_iff, Z.eqb_eq. apply Z.bits_inj'. intros j Hj.
    rewrite Z.bits_0, Z.land_spec, Z.shiftl_spec by lia.
    destruct (decide (j = i)) as [->|]; [by rewrite Hb|].
    replace (Z.testbit 1 (j - i)) with false; [apply andb_false_r|].
    destruct (decide (j < i)); [by rewrite Z.testbit_neg_r by lia|].
    symmetry. apply (Z.bits_above_log2 1); simpl; lia.
Qed.
