(* ===== verification/PyText.v ===== *)
(** * Integers as text

    Python's [format] of integers (decimal, and hexadecimal with zero padding)
    and its [int(text, base)], on ASCII text.  The components print addresses,
    words and counters with the first group and read traces and options with
    the second; the round-trip lemmas at the end connect the two. *)

From stdpp Require Import base numbers list strings sorting.
From Stdlib Require Import ZArith Lia Ascii.
From S2P Require Import Prelude.

Open Scope Z_scope.

Abbreviation chars := String.list_ascii_of_string.
Abbreviation of_chars := String.string_of_list_ascii.

(** ** Characters *)

Definition code (c : ascii) : Z := Z.of_N (N_of_ascii c).

Definition char_of (z : Z) : ascii := ascii_of_N (Z.to_N z).

(** The value of an alphanumeric digit, whatever the base (0-9, a-z, A-Z). *)
Definition digit_value (c : ascii) : option Z :=
  let n := code c in
  if (48 <=? n) && (n <=? 57) then Some (n - 48)
  else if (97 <=? n) && (n <=? 122) then Some (n - 87)
  else if (65 <=? n) && (n <=? 90) then Some (n - 55)
  else None.

Definition digit_char (d : Z) : ascii :=
  char_of (if d <? 10 then 48 + d else 87 + d).

#[global] Arguments code : simpl never.
#[global] Arguments digit_value : simpl never.
#[global] Arguments digit_char : simpl never.

(** ** Printing *)

(** The digits of [n], most significant first. *)
Fixpoint digits_go (fuel : nat) (base n : Z) (acc : list Z) : list Z :=
  match fuel with
  | O => acc
  | S fuel =>
      if n <? base then n :: acc
      else digits_go fuel base (n / base) (n mod base :: acc)
  end.

(** [log2 n + 1] digits are enough for every base from 2 on. *)
Definition digits (base n : Z) : list Z :=
  digits_go (S (Z.to_nat (Z.log2 n))) base n [].

Definition zeros (n : nat) : list ascii := replicate n "0"%char.

(** [f"{n:0{width}x}"] and friends: sign-aware zero padding. *)
Definition format_int (base width n : Z) : string :=
  let ds := digit_char <$> digits base (Z.abs n) in
  let sign := if n <? 0 then ["-"%char] else [] in
  of_chars (sign ++ zeros (Z.to_nat (width - zlen ds - zlen sign)) ++ ds).

Definition str_int (n : Z) : string := format_int 10 0 n.      (* str(n) *)
Definition hex_int (n : Z) : string := format_int 16 0 n.      (* f"{n:x}" *)
Definition hex_pad (w n : Z) : string := format_int 16 w n.    (* f"{n:0wx}" *)
Definition hex_alt (n : Z) : string :=                         (* f"{n:#x}" *)
  if n <? 0 then "-0x" +:+ hex_int (- n) else "0x" +:+ hex_int n.

(** Right justification by spaces, [f"{n:wd}"]. *)
Definition pad_left (w : Z) (s : string) : string :=
  of_chars (replicate (Z.to_nat (w - zlen (chars s))) " "%char) +:+ s.
(** Left justification, [f"{s:<w}"]. *)
Definition pad_right (w : Z) (s : string) : string :=
  s +:+ of_chars (replicate (Z.to_nat (w - zlen (chars s))) " "%char).

(** [sep.join(parts)] *)
Fixpoint join (sep : string) (parts : list string) : string :=
  match parts with
  | [] => ""
  | [p] => p
  | p :: ps => p +:+ sep +:+ join sep ps
  end.

(** ** Parsing: [int(text, base)] *)

(** Reads digits of [base], with single underscores between digits; [prev]
    tells whether the character before was a digit. Returns the value and the
    unread rest. *)
Fixpoint int_digits (base : Z) (s : list ascii) (prev : bool) (acc : Z)
    : option (Z * list ascii) :=
  let stop := if prev then Some (acc, s) else None in
  match s with
  | [] => stop
  | c :: s' =>
      match digit_value c with
      | Some d => if d <? base then int_digits base s' true (acc * base + d) else stop
      | None =>
          if bool_decide (c = "_"%char) then
            if prev then int_digits base s' false acc else None
          else stop
      end
  end.

Fixpoint strip_left (s : list ascii) : list ascii :=
  match s with
  | c :: s' => if Ascii.is_space c then strip_left s' else s
  | [] => []
  end.

(** The base and the digits after an optional [0x]/[0o]/[0b] prefix; a prefix
    may be followed by one underscore. *)
Definition int_prefix (base : Z) (s : list ascii) : Z * list ascii * bool :=
  match s with
  | z :: p :: s' =>
      let value :=
        if bool_decide (p = "x"%char ∨ p = "X"%char) then 16
        else if bool_decide (p = "o"%char ∨ p = "O"%char) then 8
        else if bool_decide (p = "b"%char ∨ p = "B"%char) then 2 else 0 in
      if bool_decide (z = "0"%char) && negb (value =? 0)
         && ((base =? 0) || (base =? value))
      then match s' with
           | u :: s'' => if bool_decide (u = "_"%char) then (value, s'', false)
                         else (value, s', false)
           | [] => (value, s', false)
           end
      else if base =? 0 then (10, s, bool_decide (z = "0"%char)) else (base, s, false)
  | _ => if base =? 0 then (10, s, false) else (base, s, false)
  end.

(** [int(text, base)] for base 0 or 2..36; [None] is [ValueError].  Of ASCII text [int]
    strips the white space of C only: the separators 28..31, blanks for [str.strip], are
    not stripped.  The limit of 4300 decimal digits is left out. *)
Definition py_int (base : Z) (text : string) : option Z :=
  let s := strip_left (chars text) in
  let '(neg, s) :=
    match s with
    | c :: s' => if bool_decide (c = "-"%char) then (true, s')
                 else if bool_decide (c = "+"%char) then (false, s') else (false, s)
    | [] => (false, [])
    end in
  let '(b, s, zero_only) := int_prefix base s in
  match int_digits b s false 0 with
  | Some (v, rest) =>
      match strip_left rest with
      | [] => if zero_only && negb (v =? 0) then None
              else Some (if neg : bool then - v else v)
      | _ => None
      end
  | None => None
  end.

Example py_int_examples :
  py_int 16 "deadBEEF" = Some 0xdeadbeef ∧ py_int 16 " 0x1_0 " = Some 16 ∧
  py_int 10 "12_3" = Some 123 ∧ py_int 10 "1__2" = None ∧ py_int 10 "_1" = None ∧
  py_int 10 "" = None ∧ py_int 10 "-5" = Some (-5) ∧ py_int 0 "0x20" = Some 32 ∧
  py_int 0 "010" = None ∧ py_int 0 "00" = Some 0 ∧ py_int 16 "0b1" = Some 0xb1 ∧
  py_int 0 "0b1" = Some 1 ∧ py_int 10 "0x1" = None ∧
  py_int 10 (of_chars [char_of 9; "5"%char; char_of 11]) = Some 5 ∧
  py_int 10 (of_chars [char_of 28; "5"%char]) = None.
Proof. repeat split; vm_compute; reflexivity. Qed.

Example format_examples :
  hex_pad 16 0xabc = "0000000000000abc" ∧ str_int 0 = "0" ∧ str_int (-12) = "-12" ∧
  hex_alt 0x23000 = "0x23000" ∧ hex_pad 4 (-1) = "-001" ∧ pad_left 5 "ab" = "   ab".
Proof. repeat split; vm_compute; reflexivity. Qed.

(** ** Digits *)

Definition digits_value (base : Z) (ds : list Z) : Z :=
  foldl (λ a d, a * base + d) 0 ds.

Lemma digit_value_char d : 0 ≤ d < 36 → digit_value (digit_char d) = Some d.
Proof.
  intros Hd.
  assert (Hall : Forall (λ d, digit_value (digit_char d) = Some d) (seqZ 0 36)).
  { by repeat constructor. }
  rewrite Forall_forall in Hall. apply Hall. apply elem_of_seqZ. lia.
Qed.

Lemma digits_go_spec fuel base n acc :
  2 ≤ base → 0 ≤ n < base ^ Z.of_nat fuel → (0 < fuel)%nat →
  ∃ ds, digits_go fuel base n acc = ds ++ acc ∧ ds ≠ [] ∧
    Forall (λ d, 0 ≤ d < base) ds ∧
    ∀ a, foldl (λ a d, a * base + d) a ds = a * base ^ zlen ds + n.
Proof.
  intros Hb. revert n acc. induction fuel as [|fuel IH]; intros n acc Hn Hf; [lia|].
  simpl. destruct (Z.ltb_spec n base).
  - exists [n]. split_and!; [done|done|by repeat constructor; lia|].
    intros a. simpl. rewrite zlen_cons, zlen_nil. lia.
  - assert (n / base < base ^ Z.of_nat fuel).
    { apply Z.div_lt_upper_bound; [lia|].
      rewrite Nat2Z.inj_succ, Z.pow_succ_r in Hn by lia. lia. }
    assert (1 ≤ n / base) by (apply Z.div_le_lower_bound; lia).
    destruct (IH (n / base) (n mod base :: acc)) as (ds & -> & Hne & Hds & Hv).
    { lia. }
    { destruct fuel; [simpl in *; lia|lia]. }
    exists (ds ++ [n mod base]). split_and!.
    + by rewrite <-app_assoc.
    + by destruct ds.
    + apply Forall_app; split; [done|]. constructor; [|done].
      apply Z.mod_pos_bound. lia.
    + intros a. rewrite foldl_app. simpl. rewrite Hv, zlen_app.
      rewrite zlen_cons, zlen_nil, Z.add_0_r.
      rewrite Z.pow_add_r by (pose proof (zlen_nonneg ds); lia).
      pose proof (Z.div_mod n base). lia.
Qed.

Lemma digits_spec base n :
  2 ≤ base → 0 ≤ n →
  digits base n ≠ [] ∧ Forall (λ d, 0 ≤ d < base) (digits base n) ∧
  ∀ a, foldl (λ a d, a * base + d) a (digits base n) = a * base ^ zlen (digits base n) + n.
Proof.
  intros Hb Hn. unfold digits.
  destruct (digits_go_spec (S (Z.to_nat (Z.log2 n))) base n []) as (ds & -> & ?); [lia| |lia|].
  - split; [done|]. rewrite Nat2Z.inj_succ, Z2Nat.id by apply Z.log2_nonneg.
    destruct (decide (n = 0)) as [->|].
    { apply Z.pow_pos_nonneg; [lia|]. simpl. lia. }
    eapply Z.lt_le_trans; [apply Z.log2_spec; lia|].
    apply Z.pow_le_mono_l. pose proof (Z.log2_nonneg n). lia.
  - by rewrite app_nil_r.
Qed.

Lemma int_digits_print base ds rest prev a :
  0 ≤ base ≤ 36 → Forall (λ d, 0 ≤ d < base) ds → ds ≠ [] →
  int_digits base ((digit_char <$> ds) ++ rest) prev a =
  int_digits base rest true (foldl (λ a d, a * base + d) a ds).
Proof.
  intros Hb Hds Hne. revert prev a.
  induction Hds as [|d ds Hd Hds IH]; intros prev a; [done|].
  simpl. rewrite digit_value_char by lia.
  destruct (Z.ltb_spec d base); [|lia].
  destruct ds as [|d' ds]; [done|]. by rewrite IH.
Qed.

Lemma int_digits_zeros base k ds prev a :
  1 ≤ base ≤ 36 → Forall (λ d, 0 ≤ d < base) ds → ds ≠ [] → a = 0 →
  int_digits base (zeros k ++ (digit_char <$> ds)) prev a =
  Some (foldl (λ a d, a * base + d) 0 ds, []).
Proof.
  intros Hb Hds Hne ->. revert prev. induction k as [|k IH]; intros prev.
  - unfold zeros; cbn [replicate app]. rewrite <-(app_nil_r (digit_char <$> ds)).
    by rewrite int_digits_print by (done || lia).
  - change (zeros (S k) ++ (digit_char <$> ds))
      with ((digit_char <$> [0]) ++ (zeros k ++ (digit_char <$> ds))).
    rewrite int_digits_print; [apply IH|lia|by repeat constructor; lia|done].
Qed.

(** A character printed by [digit_char] is no sign, blank, or base marker. *)
Definition plain_digit (c : ascii) : bool :=
  negb (Ascii.is_space c) && negb (bool_decide (c = "-"%char))
  && negb (bool_decide (c = "+"%char)) && negb (bool_decide (c = "_"%char))
  && negb (bool_decide (c = "x"%char)) && negb (bool_decide (c = "X"%char))
  && negb (bool_decide (c = "o"%char)) && negb (bool_decide (c = "O"%char)).

Lemma plain_digit_char d : 0 ≤ d < 16 → plain_digit (digit_char d) = true.
Proof.
  intros Hd.
  assert (Hall : Forall (λ d, plain_digit (digit_char d) = true) (seqZ 0 16)).
  { by repeat constructor. }
  rewrite Forall_forall in Hall. apply Hall. apply elem_of_seqZ. lia.
Qed.

Lemma chars_of_chars l : chars (of_chars l) = l.
Proof. apply String.list_ascii_of_string_of_list_ascii. Qed.
Lemma of_chars_chars s : of_chars (chars s) = s.
Proof. apply String.string_of_list_ascii_of_string. Qed.
Lemma chars_app s t : chars (s +:+ t) = chars s ++ chars t.
Proof. induction s as [|c s IH]; [done|]. simpl. f_equal. apply IH. Qed.

(** The text [int] reads after a plain first character. *)
Lemma py_int_plain base l :
  base = 10 ∨ base = 16 → l ≠ [] → Forall (λ c, plain_digit c = true) l →
  py_int base (of_chars l) =
    match int_digits base l false 0 with
    | Some (v, rest) => match strip_left rest with [] => Some v | _ => None end
    | None => None
    end.
Proof.
  intros Hb Hne Hl. unfold py_int. rewrite chars_of_chars.
  destruct l as [|c l]; [done|].
  assert (Hs : strip_left (c :: l) = c :: l).
  { inversion Hl as [|?? Hc _]; subst. unfold plain_digit in Hc. b2p.
    simpl. by destruct (Ascii.is_space c). }
  rewrite Hs. inversion Hl as [|?? Hc Hl']; subst. unfold plain_digit in Hc. b2p.
  rewrite !bool_decide_eq_false_2 by done.
  assert (Hp : int_prefix base (c :: l) = (base, c :: l, false)).
  { destruct l as [|p l]; simpl; [by destruct Hb as [-> | ->]|].
    inversion Hl' as [|?? Hp _]; subst. unfold plain_digit in Hp. b2p.
    rewrite (bool_decide_eq_false_2 (p = "x"%char ∨ _)) by (by intros [?|?]).
    rewrite (bool_decide_eq_false_2 (p = "o"%char ∨ _)) by (by intros [?|?]).
    destruct (bool_decide (p = "b"%char ∨ _)); destruct Hb as [-> | ->]; simpl;
      by rewrite ?andb_false_r. }
  rewrite Hp. destruct (int_digits _ _ _ _) as [[v rest]|] eqn:E; [|done].
  by destruct (strip_left rest).
Qed.

(** Printing then reading: every non-negative integer survives, at any
    padding, in base 10 and 16. *)
Lemma py_int_format base w n :
  base = 10 ∨ base = 16 → 0 ≤ n → py_int base (format_int base w n) = Some n.
Proof.
  intros Hb Hn. unfold format_int.
  destruct (Z.ltb_spec n 0); [lia|]. rewrite Z.abs_eq, app_nil_l by done.
  destruct (digits_spec base n) as (Hne & Hds & Hv); [lia|done|].
  rewrite py_int_plain.
  - rewrite int_digits_zeros by (done || lia). simpl. f_equal. by rewrite Hv.
  - done.
  - destruct (digits base n); [done|]. by destruct (zeros _).
  - apply Forall_app; split.
    + apply Forall_replicate. by vm_compute.
    + apply Forall_fmap. eapply Forall_impl; [exact Hds|].
      intros d Hd. simpl in *. apply plain_digit_char. lia.
Qed.

Lemma hex_pad_int w n : 0 ≤ n → py_int 16 (hex_pad w n) = Some n.
Proof. intros. apply py_int_format; auto. Qed.
Lemma str_int_int n : 0 ≤ n → py_int 10 (str_int n) = Some n.
Proof. intros. apply py_int_format; auto. Qed.

(** A number below [base ^ w] prints in exactly [w] characters. *)
Lemma digits_length base n w :
  2 ≤ base → 0 ≤ n < base ^ w → 1 ≤ w → zlen (digits base n) ≤ w.
Proof.
  intros Hb Hn Hw. unfold digits.
  cut (∀ fuel n acc w, 1 ≤ w → 0 ≤ n < base ^ w →
    zlen (digits_go fuel base n acc) ≤ w + zlen acc).
  { intros H. specialize (H (S (Z.to_nat (Z.log2 n))) n [] w Hw Hn).
    rewrite zlen_nil in H. lia. }
  clear n w Hn Hw. induction fuel as [|fuel IH]; intros n acc w Hw Hn; simpl; [lia|].
  destruct (Z.ltb_spec n base); [rewrite zlen_cons; lia|].
  assert (w ≠ 1) by (intros ->; rewrite Z.pow_1_r in Hn; lia).
  etrans; [apply (IH _ _ (w - 1)); [lia|]|rewrite zlen_cons; lia].
  split; [apply Z.div_pos; lia|]. apply Z.div_lt_upper_bound; [lia|].
  rewrite <-Z.pow_succ_r by lia. replace (Z.succ (w - 1)) with w by lia. lia.
Qed.

Lemma hex_pad_length w n :
  1 ≤ w → 0 ≤ n < 16 ^ w → zlen (chars (hex_pad w n)) = w.
Proof.
  intros Hw Hn. unfold hex_pad, format_int. rewrite chars_of_chars.
  destruct (Z.ltb_spec n 0); [lia|]. rewrite Z.abs_eq by lia.
  unfold zeros. autorewrite with len.
  pose proof (digits_length 16 n w). lia.
Qed.
#[export] Hint Resolve hex_pad_int str_int_int : py.

(** ** Comparison of strings: [a <= b] and [sorted(strings)] *)
Definition str_le (a b : string) : Prop := String.leb a b = true.
#[export] Instance str_le_dec a b : Decision (str_le a b).
Proof. apply bool_eq_dec. Defined.
#[export] Instance str_le_total : Total str_le.
Proof. intros a b. apply String.leb_total. Qed.
Definition sort_strings (l : list string) : list string := merge_sort str_le l.

(** ** [repr] of an ASCII string *)
Definition quote_char : ascii := char_of 39.
Definition double_quote_char : ascii := char_of 34.
Definition escape_char (quote c : ascii) : list ascii :=
  if bool_decide (c = quote) || bool_decide (c = char_of 92) then [char_of 92; c]
  else if bool_decide (c = char_of 10) then [char_of 92; "n"%char]
  else if bool_decide (c = char_of 13) then [char_of 92; "r"%char]
  else if bool_decide (c = char_of 9) then [char_of 92; "t"%char]
  else if (code c <? 32) || (127 <=? code c)
  then [char_of 92; "x"%char] ++ chars (format_int 16 2 (code c))
  else [c].
Definition repr (s : string) : string :=
  let cs := chars s in
  let quote := if bool_decide (quote_char ∈ cs) && negb (bool_decide (double_quote_char ∈ cs))
               then double_quote_char else quote_char in
  of_chars ([quote] ++ mjoin (escape_char quote <$> cs) ++ [quote]).

Example repr_examples :
  repr "abc" = "'abc'" ∧ chars (repr "a'b") = [double_quote_char] ++ chars "a'b" ++ [double_quote_char] ∧
  repr (of_chars [char_of 10; char_of 1]) = "'\n\x01'".
Proof. repeat split; vm_compute; reflexivity. Qed.

(** ** Words and substrings *)

(** Whitespace, as [str.split] and [\s] see it. *)
Definition blank (c : ascii) : bool := Ascii.is_space c || ((28 <=? code c) && (code c <=? 31)).

Fixpoint words_go (current : list ascii) (s : list ascii) : list string :=
  match s with
  | [] => if bool_decide (current = []) then [] else [of_chars current]
  | c :: s =>
      if blank c
      then (if bool_decide (current = []) then [] else [of_chars current]) ++ words_go [] s
      else words_go (current ++ [c]) s
  end.
Definition words (s : list ascii) : list string := words_go [] s.

Fixpoint after_prefix (prefix s : list ascii) : option (list ascii) :=
  match prefix, s with
  | [], _ => Some s
  | p :: prefix, c :: s => if bool_decide (p = c) then after_prefix prefix s else None
  | _ :: _, [] => None
  end.

(** [sub in s] *)
Fixpoint contains_chars (sub s : list ascii) : bool :=
  match after_prefix sub s with
  | Some _ => true
  | None => match s with [] => false | _ :: s => contains_chars sub s end
  end.
Definition contains (sub s : string) : bool := contains_chars (chars sub) (chars s).

(** [s.lower()] *)
Definition lower_char (c : ascii) : ascii :=
  if (65 <=? code c) && (code c <=? 90) then char_of (code c + 32) else c.
Definition lower (s : string) : string := of_chars (lower_char <$> chars s).
(** [s.upper()] *)
Definition upper_char (c : ascii) : ascii :=
  if (97 <=? code c) && (code c <=? 122) then char_of (code c - 32) else c.
Definition upper (s : string) : string := of_chars (upper_char <$> chars s).

(** [s.split(maxsplit=n)]: the last field is the rest of the line, trailing
    blanks included. *)
Fixpoint strip_blanks (s : list ascii) : list ascii :=
  match s with
  | c :: s' => if blank c then strip_blanks s' else s
  | [] => []
  end.
Fixpoint first_word (s : list ascii) : list ascii * list ascii :=
  match s with
  | c :: s' => if blank c then ([], s) else let '(w, rest) := first_word s' in (c :: w, rest)
  | [] => ([], [])
  end.
Fixpoint split_max (n : nat) (s : list ascii) : list string :=
  match strip_blanks s with
  | [] => []
  | s =>
      match n with
      | O => [of_chars s]
      | S n => let '(w, rest) := first_word s in of_chars w :: split_max n rest
      end
  end.

Example split_max_example :
  split_max 2 (chars "  12  T a b ") = ["12"; "T"; "a b "] ∧ split_max 2 (chars "a b") = ["a"; "b"] ∧
  words (chars " x  yz ") = ["x"; "yz"] ∧ contains "Tw" "tTwW" = true.
Proof. repeat split; vm_compute; reflexivity. Qed.

(** [s.partition(sep)] and [s.split(sep, 1)] for one character: the text before
    and after the first [sep], [None] when there is none. *)
Fixpoint split_at (sep : ascii) (s : list ascii) : option (list ascii * list ascii) :=
  match s with
  | [] => None
  | c :: s =>
      if bool_decide (c = sep) then Some ([], s)
      else '(before, after) ← split_at sep s; Some (c :: before, after)
  end.

(** [s.split(sep)] for one character. *)
Fixpoint split_go (sep : ascii) (current s : list ascii) : list (list ascii) :=
  match s with
  | [] => [current]
  | c :: s => if bool_decide (c = sep) then current :: split_go sep [] s
              else split_go sep (current ++ [c]) s
  end.
Definition split_all (sep : ascii) (s : list ascii) : list (list ascii) := split_go sep [] s.

(** A double quote and a line feed. *)
Definition quote : string := of_chars [double_quote_char].
Definition newline : string := of_chars [char_of 10].

(** [s.splitlines()] *)
Definition line_break (c : ascii) : bool :=
  ((10 <=? code c) && (code c <=? 13)) || ((28 <=? code c) && (code c <=? 30)).
Fixpoint splitlines_go (current : list ascii) (s : list ascii) : list (list ascii) :=
  match s with
  | [] => if bool_decide (current = []) then [] else [current]
  | c :: s =>
      if line_break c then
        current :: match s with
                   | d :: s' => if (code c =? 13) && (code d =? 10) then splitlines_go [] s'
                                else splitlines_go [] s
                   | [] => []
                   end
      else splitlines_go (current ++ [c]) s
  end.
Definition splitlines (s : string) : list (list ascii) := splitlines_go [] (chars s).
(** [enumerate(lines, start=1)] *)
Definition numbered {A} (lines : list A) : list (Z * A) := zip (zrange 1 (zlen lines + 1)) lines.

(** [s.rstrip(c)] for one character. *)
Fixpoint rstrip_char (c : ascii) (s : list ascii) : list ascii :=
  match s with
  | [] => []
  | d :: s => match rstrip_char c s with
              | [] => if bool_decide (d = c) then [] else [d]
              | rest => d :: rest
              end
  end.

(** [s.strip()] *)
Definition strip (s : list ascii) : list ascii := rev (strip_blanks (rev (strip_blanks s))).

Example splitlines_example :
  of_chars <$> splitlines (of_chars [ "a"; char_of 10; char_of 10; "b"; char_of 13; char_of 10; "c"]%char)
    = ["a"; ""; "b"; "c"] ∧
  rstrip_char "0"%char (chars "1.500") = chars "1.5".
Proof. split; vm_compute; reflexivity. Qed.
