(* ===== verification/Bytes.v ===== *)
(** * Byte strings

    Python [bytes]/[bytearray] values as lists of integers in [0..256), the
    little-endian conversions [int.to_bytes]/[int.from_bytes], the part of the
    [struct] module the image tools use, [zlib.crc32], [hashlib.sha256] and the
    text conversions of byte strings. *)

From stdpp Require Import base numbers list strings.
From Stdlib Require Import ZArith Lia Ascii.
From S2P Require Import Prelude PyText.

Open Scope Z_scope.

(** ** Bytes *)

Definition is_byte (b : Z) : Prop := 0 ≤ b < 256.
Abbreviation bytes_ok := (Forall is_byte).

(** [bytes(n)] and [bytearray(n)], for [n] not negative. *)
Definition zero_bytes (n : Z) : list Z := replicate (Z.to_nat n) 0.

(** An ASCII string as bytes, [b"..."] or [text.encode("ascii")]. *)
Definition bytes_of (s : string) : list Z := code <$> chars s.

(** The test of a concrete byte string. *)
Lemma bytes_ok_test bs : forallb (λ b, (0 <=? b) && (b <? 256)) bs = true → bytes_ok bs.
Proof.
  intros H. apply Forall_forall. intros b Hb%list_elem_of_In.
  rewrite forallb_forall in H. specialize (H b Hb). b2p. done.
Qed.

(** ** Little-endian integers *)

(** [int.from_bytes(bs, "little")] *)
Definition from_le (bs : list Z) : Z := little_endian_to_Z 8 bs.

(** The [n] low bytes of [v]. *)
Definition le_bytes (n v : Z) : list Z := Z_to_little_endian n 8 v.

(** [v.to_bytes(n, "little")] *)
Definition to_bytes_le (v n : Z) : result (list Z) :=
  raise (OverflowError "can't convert negative int to unsigned") when v <? 0;;
  raise (OverflowError "int too big to convert") when 2 ^ (8 * n) <=? v;;
  Ok (le_bytes n v).

Lemma is_byte_pow b : is_byte b ↔ 0 ≤ b < 2 ^ 8.
Proof. done. Qed.

Lemma zlen_le_bytes n v : 0 ≤ n → zlen (le_bytes n v) = n.
Proof. intros. unfold zlen, le_bytes. apply length_Z_to_little_endian. lia. Qed.

Lemma le_bytes_ok n v : 0 ≤ n → bytes_ok (le_bytes n v).
Proof. intros. apply (Z_to_little_endian_bound n 8 v); lia. Qed.

Lemma from_le_bytes n v : 0 ≤ n → 0 ≤ v < 2 ^ (8 * n) → from_le (le_bytes n v) = v.
Proof.
  intros Hn Hv. unfold from_le, le_bytes.
  rewrite little_endian_to_Z_to_little_endian by lia.
  apply Z.mod_small. by rewrite (Z.mul_comm n).
Qed.

Lemma le_bytes_from n bs : n = zlen bs → bytes_ok bs → le_bytes n (from_le bs) = bs.
Proof. intros -> H. apply Z_to_little_endian_to_Z; [done|lia|done]. Qed.

Lemma from_le_bound bs : bytes_ok bs → 0 ≤ from_le bs < 2 ^ (8 * zlen bs).
Proof.
  intros H. unfold from_le. rewrite Z.mul_comm.
  apply little_endian_to_Z_bound; [lia|done].
Qed.

Lemma to_bytes_le_Ok v n :
  0 ≤ v < 2 ^ (8 * n) → to_bytes_le v n = Ok (le_bytes n v).
Proof.
  intros Hv. unfold to_bytes_le.
  destruct (Z.ltb_spec v 0); [lia|]. by destruct (Z.leb_spec (2 ^ (8 * n)) v); [lia|].
Qed.

(** ** Fixed-width words inside an image *)

(** [image[offset:offset + 8] = value.to_bytes(8, "little")] is written
    [put_u64] by the image builders; [get_u64] reads the same word back. *)
Definition get_u64 (image : list Z) (offset : Z) : Z :=
  from_le (slice image offset (offset + 8)).

Definition store_u64 (image : list Z) (offset value : Z) : result (list Z) :=
  data ← to_bytes_le value 8;
  Ok (slice_assign image offset (offset + 8) data).

Section words.
Implicit Types image : list Z.

Lemma store_u64_Ok image offset value :
  0 ≤ value < 2 ^ 64 →
  store_u64 image offset value =
    Ok (slice_assign image offset (offset + 8) (le_bytes 8 value)).
Proof. intros. unfold store_u64. by rewrite to_bytes_le_Ok. Qed.

Lemma zlen_store image offset value :
  0 ≤ offset → offset + 8 ≤ zlen image →
  zlen (slice_assign image offset (offset + 8) (le_bytes 8 value)) = zlen image.
Proof. intros. apply zlen_slice_assign; rewrite ?zlen_le_bytes; lia. Qed.

Lemma get_store_eq image offset value :
  0 ≤ offset → offset + 8 ≤ zlen image → 0 ≤ value < 2 ^ 64 →
  get_u64 (slice_assign image offset (offset + 8) (le_bytes 8 value)) offset = value.
Proof.
  intros. unfold get_u64.
  rewrite slice_slice_assign_eq by (rewrite ?zlen_le_bytes; lia).
  apply from_le_bytes; lia.
Qed.

Lemma get_store_ne image offset value off' :
  0 ≤ offset → offset + 8 ≤ zlen image → 0 ≤ off' → off' + 8 ≤ zlen image →
  off' + 8 ≤ offset ∨ offset + 8 ≤ off' →
  get_u64 (slice_assign image offset (offset + 8) (le_bytes 8 value)) off' =
  get_u64 image off'.
Proof.
  intros. unfold get_u64.
  rewrite slice_slice_assign_ne; rewrite ?zlen_le_bytes; lia || done.
Qed.

Lemma lookup_store image offset value i :
  0 ≤ offset → offset + 8 ≤ zlen image → 0 ≤ i → (i < offset ∨ offset + 8 ≤ i) →
  slice_assign image offset (offset + 8) (le_bytes 8 value) !! Z.to_nat i =
  image !! Z.to_nat i.
Proof.
  intros. rewrite lookup_slice_assign by (rewrite ?zlen_le_bytes; lia).
  by rewrite decide_False by lia.
Qed.
End words.

(** ** The [struct] module

    A format is a list of field codes: [Cs n] is "<n>s" and [CU n] an unsigned
    integer of [n] bytes ("B" 1, "H" 2, "I" 4, "Q" 8), [CI n] a signed one
    ("i" 4), all little-endian and unpadded ("<"). *)

Inductive code_t := Cs (n : Z) | CU (n : Z) | CI (n : Z).
Inductive field := FB (bs : list Z) | FZ (z : Z).

Definition code_size (c : code_t) : Z :=
  match c with Cs n => n | CU n => n | CI n => n end.
Definition calcsize (fmt : list code_t) : Z := foldr (λ c s, code_size c + s) 0 fmt.

(** [n] bytes: truncated, or padded with zero bytes. *)
Definition fit_bytes (n : Z) (bs : list Z) : list Z :=
  take (Z.to_nat n) bs ++ zero_bytes (n - zlen bs).

Definition pack_field (c : code_t) (f : field) : result (list Z) :=
  match c, f with
  | Cs n, FB bs => Ok (fit_bytes n bs)
  | CU n, FZ z =>
      raise (StructError "argument out of range") when negb ((0 <=? z) && (z <? 2 ^ (8 * n)));;
      Ok (le_bytes n z)
  | CI n, FZ z =>
      raise (StructError "argument out of range")
        when negb ((- 2 ^ (8 * n - 1) <=? z) && (z <? 2 ^ (8 * n - 1)));;
      Ok (le_bytes n z)
  | _, _ => Err (StructError "bad argument")
  end.

Fixpoint pack (fmt : list code_t) (fs : list field) : result (list Z) :=
  match fmt, fs with
  | [], [] => Ok []
  | c :: fmt, f :: fs => bs ← pack_field c f; rest ← pack fmt fs; Ok (bs ++ rest)
  | _, _ => Err (StructError "wrong number of items")
  end.

(** [struct.pack_into(fmt, buffer, offset, ...)] *)
Definition pack_into (fmt : list code_t) (buffer : list Z) (offset : Z) (fs : list field)
    : result (list Z) :=
  raise (StructError "pack_into requires a larger buffer")
    when zlen buffer <? offset + calcsize fmt;;
  bs ← pack fmt fs;
  Ok (slice_assign buffer offset (offset + calcsize fmt) bs).

Definition unpack_field (c : code_t) (bs : list Z) : field :=
  match c with
  | Cs _ => FB bs
  | CU _ => FZ (from_le bs)
  | CI n => let v := from_le bs in
            FZ (if v <? 2 ^ (8 * n - 1) then v else v - 2 ^ (8 * n))
  end.

Fixpoint unpack (fmt : list code_t) (bs : list Z) : list field :=
  match fmt with
  | [] => []
  | c :: fmt =>
      let n := Z.to_nat (code_size c) in
      unpack_field c (take n bs) :: unpack fmt (drop n bs)
  end.

(** [struct.unpack_from(fmt, buffer, offset)] *)
Definition unpack_from (fmt : list code_t) (buffer : list Z) (offset : Z)
    : result (list field) :=
  raise (StructError "unpack_from requires a larger buffer")
    when zlen buffer <? offset + calcsize fmt;;
  Ok (unpack fmt (slice buffer offset (offset + calcsize fmt))).

(** What [pack] keeps of a field: a byte string is padded to its width, an
    integer must be in range. *)
Definition field_fits (c : code_t) (f : field) : Prop :=
  match c, f with
  | Cs n, FB bs => 0 ≤ n
  | CU n, FZ z => 0 ≤ n ∧ 0 ≤ z < 2 ^ (8 * n)
  | _, _ => False
  end.
Definition field_padded (c : code_t) (f : field) : field :=
  match c, f with Cs n, FB bs => FB (fit_bytes n bs) | _, _ => f end.

Lemma zlen_zero_bytes n : 0 ≤ n → zlen (zero_bytes n) = n.
Proof. intros. unfold zero_bytes. rewrite zlen_replicate. lia. Qed.

Lemma zlen_fit_bytes n bs : 0 ≤ n → zlen (fit_bytes n bs) = n.
Proof.
  intros. unfold fit_bytes, zlen, zero_bytes.
  rewrite length_app, length_take, length_replicate. lia.
Qed.

Lemma pack_field_Ok c f :
  field_fits c f → ∃ bs, pack_field c f = Ok bs ∧ zlen bs = code_size c ∧
    unpack_field c bs = field_padded c f.
Proof.
  destruct c as [n|n|n], f as [bs|z]; simpl; try done.
  - intros. eexists; split_and!; [done| |done]. by apply zlen_fit_bytes.
  - intros [Hn Hz]. destruct (Z.leb_spec 0 z), (Z.ltb_spec z (2 ^ (8 * n))); try lia.
    simpl. eexists; split_and!; [done|by apply zlen_le_bytes|].
    by rewrite from_le_bytes.
Qed.

Lemma calcsize_nonneg fmt fs : Forall2 field_fits fmt fs → 0 ≤ calcsize fmt.
Proof.
  induction 1 as [|c f fmt fs Hf _ IH]; simpl; [done|].
  destruct c, f; simpl in *; lia.
Qed.

(** Packing then unpacking returns the fields, byte strings padded to their
    width. *)
Lemma pack_unpack fmt fs :
  Forall2 field_fits fmt fs →
  ∃ bs, pack fmt fs = Ok bs ∧ zlen bs = calcsize fmt ∧
    unpack fmt bs = zip_with field_padded fmt fs.
Proof.
  induction 1 as [|c f fmt fs Hf _ (rest & Hr & Hlen & Hu)]; simpl.
  { by exists []. }
  destruct (pack_field_Ok c f Hf) as (bs & -> & Hbs & Hub). simpl. rewrite Hr. simpl.
  exists (bs ++ rest). split_and!; [done|rewrite zlen_app; lia|].
  assert (Hn : Z.to_nat (code_size c) = length bs) by (unfold zlen in *; lia).
  rewrite Hn, take_app_length, drop_app_length, Hub, Hu. done.
Qed.

(** ** CRC-32

    [zlib.crc32]: the reflected polynomial 0xEDB88320, one byte at a time. *)

Definition crc_shift (c : Z) : Z :=
  let c' := Z.shiftr c 1 in
  if Z.odd c then Z.lxor c' 0xEDB88320 else c'.

Definition crc_byte (c b : Z) : Z :=
  Nat.iter 8 crc_shift (Z.lxor c b).

Definition crc32 (bs : list Z) : Z :=
  Z.lxor (foldl crc_byte 0xFFFFFFFF bs) 0xFFFFFFFF.

(** The published check value of the algorithm. *)
Example crc32_check : crc32 (bytes_of "123456789") = 0xCBF43926.
Proof. vm_compute. reflexivity. Qed.

Lemma lxor_bound n a b : 0 ≤ n → 0 ≤ a < 2 ^ n → 0 ≤ b < 2 ^ n → 0 ≤ Z.lxor a b < 2 ^ n.
Proof.
  intros Hn Ha Hb.
  assert (H0 : 0 ≤ Z.lxor a b) by (apply Z.lxor_nonneg; split; lia).
  split; [done|]. apply Z.bounded_iff_bits_nonneg; [done..|]. intros i Hi.
  rewrite Z.lxor_spec.
  rewrite (proj1 (Z.bounded_iff_bits_nonneg n a Hn ltac:(lia)) ltac:(lia) i Hi).
  by rewrite (proj1 (Z.bounded_iff_bits_nonneg n b Hn ltac:(lia)) ltac:(lia) i Hi).
Qed.

Lemma crc_shift_bound c : 0 ≤ c < 2 ^ 32 → 0 ≤ crc_shift c < 2 ^ 32.
Proof.
  intros Hc. unfold crc_shift.
  assert (0 ≤ Z.shiftr c 1 < 2 ^ 32).
  { rewrite Z.shiftr_div_pow2 by lia. split; [apply Z.div_pos; lia|].
    apply Z.div_lt_upper_bound; lia. }
  destruct (Z.odd c); [|done]. by apply lxor_bound.
Qed.

Lemma crc32_bound bs : bytes_ok bs → 0 ≤ crc32 bs < 2 ^ 32.
Proof.
  intros Hbs. unfold crc32. apply lxor_bound; [lia| |lia].
  assert (Hinit : 0 ≤ 0xFFFFFFFF < 2 ^ 32) by lia. revert Hinit.
  generalize 0xFFFFFFFF. induction Hbs as [|b bs Hb _ IH]; intros c Hc; [done|].
  simpl. apply IH. unfold crc_byte.
  assert (Hx : 0 ≤ Z.lxor c b < 2 ^ 32) by (apply lxor_bound; unfold is_byte in Hb; lia).
  revert Hx. generalize (Z.lxor c b). simpl. intros x Hx.
  repeat apply crc_shift_bound. done.
Qed.

Lemma bytes_of_ok s : bytes_ok (bytes_of s).
Proof.
  unfold bytes_of. apply Forall_fmap, Forall_true. intros c. unfold is_byte, code.
  simpl. destruct c as [[] [] [] [] [] [] [] []]; simpl; lia.
Qed.
Lemma zero_bytes_ok n : bytes_ok (zero_bytes n).
Proof. by apply Forall_replicate. Qed.

#[export] Hint Resolve le_bytes_ok bytes_of_ok zero_bytes_ok crc32_bound : py.

(** A field in the low [n] bits beside a shifted one: or is addition. *)
Lemma lor_shiftl_add a f n : 0 ≤ n → 0 ≤ f < 2 ^ n → Z.lor (Z.shiftl a n) f = a * 2 ^ n + f.
Proof.
  intros Hn Hf. rewrite <-Z.shiftl_mul_pow2 by done.
  rewrite <-(Z.add_lor_land (Z.shiftl a n) f).
  cut (Z.land (Z.shiftl a n) f = 0); [lia|].
  apply Z.bits_inj'. intros i Hi. rewrite Z.land_spec, Z.bits_0.
  destruct (decide (i < n)).
  - by rewrite Z.shiftl_spec_low by lia.
  - rewrite (proj1 (Z.bounded_iff_bits_nonneg n f Hn ltac:(lia)) ltac:(lia) i) by lia.
    by rewrite andb_false_r.
Qed.

(** A packed field list is made of bytes when its byte strings are. *)
Definition field_bytes_ok (f : field) : Prop :=
  match f with FB bs => bytes_ok bs | FZ _ => True end.

Lemma pack_field_bytes_ok c f bs :
  pack_field c f = Ok bs → 0 ≤ code_size c → field_bytes_ok f → bytes_ok bs.
Proof.
  destruct c as [n|n|n], f as [l|z]; simpl; try done; intros H Hn Hf.
  - injection H as <-. apply Forall_app; split; [by apply Forall_take|by auto with py].
  - ok_inv H. subst. by apply le_bytes_ok.
  - ok_inv H. subst. by apply le_bytes_ok.
Qed.

Lemma pack_bytes_ok fmt fs bs :
  pack fmt fs = Ok bs → Forall (λ c, 0 ≤ code_size c) fmt → Forall field_bytes_ok fs →
  bytes_ok bs.
Proof.
  revert fs bs. induction fmt as [|c fmt IH]; intros [|f fs] bs H Hc Hf; try done.
  { injection H as <-. constructor. }
  simpl in H. ok_inv H. inversion Hc; inversion Hf; subst.
  apply Forall_app; split; [by eapply pack_field_bytes_ok|by eapply IH].
Qed.

Lemma slice_assign_bytes_ok buf a b new :
  bytes_ok buf → bytes_ok new → bytes_ok (slice_assign buf a b new).
Proof.
  intros. unfold slice_assign. repeat apply Forall_app_2; auto using Forall_take, Forall_drop.
Qed.

Lemma slice_bytes_ok buf a b : bytes_ok buf → bytes_ok (slice buf a b).
Proof. intros. unfold slice. by apply Forall_take, Forall_drop. Qed.

(** Writing a record into a buffer: what is read back there, and the frame. *)
Lemma pack_into_spec fmt buf off fs :
  Forall2 field_fits fmt fs → Forall field_bytes_ok fs → bytes_ok buf →
  0 ≤ off → off + calcsize fmt ≤ zlen buf →
  ∃ buf', pack_into fmt buf off fs = Ok buf' ∧ zlen buf' = zlen buf ∧ bytes_ok buf' ∧
    unpack_from fmt buf' off = Ok (zip_with field_padded fmt fs) ∧
    ∀ c d, 0 ≤ c ≤ d → d ≤ zlen buf → (d ≤ off ∨ off + calcsize fmt ≤ c) →
      slice buf' c d = slice buf c d.
Proof.
  intros Hfits Hfb Hbuf Hoff Hroom.
  pose proof (calcsize_nonneg _ _ Hfits).
  destruct (pack_unpack _ _ Hfits) as (bs & Hpack & Hlen & Hun).
  assert (Forall (λ c, 0 ≤ code_size c) fmt) as Hc.
  { clear -Hfits. induction Hfits as [|c f ?? Hf _ IH]; constructor; [|done].
    destruct c, f; simpl in *; lia. }
  unfold pack_into. rewrite (proj2 (Z.ltb_ge _ _)) by lia. rewrite Hpack. simpl.
  eexists. split; [done|].
  assert (zlen (slice_assign buf off (off + calcsize fmt) bs) = zlen buf) as Hz
    by (apply zlen_slice_assign; lia).
  split_and!.
  - done.
  - apply slice_assign_bytes_ok; [done|]. by eapply pack_bytes_ok.
  - unfold unpack_from. rewrite Hz, (proj2 (Z.ltb_ge _ _)) by lia.
    rewrite slice_slice_assign_eq by lia. by rewrite Hun.
  - intros c d ???. apply slice_slice_assign_ne; lia.
Qed.

Definition field_nonneg (f : field) : Prop := match f with FZ z => 0 ≤ z | FB _ => True end.

Lemma unpack_nonneg fmt bs :
  bytes_ok bs → Forall (λ c, match c with CI _ => False | _ => True end) fmt →
  Forall field_nonneg (unpack fmt bs).
Proof.
  intros Hb Hf. revert bs Hb. induction Hf as [|c fmt Hc _ IH]; intros bs Hb; [constructor|].
  simpl. constructor; [|apply IH; by apply Forall_drop].
  destruct c as [n|n|n]; simpl; [done| |done].
  apply from_le_bound. by apply Forall_take.
Qed.

Lemma unpack_from_nonneg fmt buf off fs :
  bytes_ok buf → Forall (λ c, match c with CI _ => False | _ => True end) fmt →
  unpack_from fmt buf off = Ok fs → Forall field_nonneg fs.
Proof.
  intros Hb Hf H. unfold unpack_from in H. ok_step H. apply Ok_inj in H as <-.
  apply unpack_nonneg; [by apply slice_bytes_ok|done].
Qed.

(** [text.encode("ascii")] and [data.decode("ascii")]: [None] is a
    [UnicodeError]. *)
Definition encode_ascii (text : string) : option (list Z) :=
  let bs := bytes_of text in
  if forallb (λ b, b <? 128) bs then Some bs else None.
Definition decode_ascii (bs : list Z) : option string :=
  if forallb (λ b, b <? 128) bs then Some (of_chars (char_of <$> bs)) else None.

Lemma char_of_code c : char_of (code c) = c.
Proof. unfold char_of, code. by rewrite N2Z.id, ascii_N_embedding. Qed.

Lemma decode_encode_ascii text bs : encode_ascii text = Some bs → decode_ascii bs = Some text.
Proof.
  unfold encode_ascii, decode_ascii. intros H.
  destruct (forallb _ (bytes_of text)) eqn:E; [|done]. injection H as <-.
  rewrite E. f_equal. unfold bytes_of. rewrite <-list_fmap_compose.
  rewrite (list_fmap_ext _ id); [by rewrite list_fmap_id, of_chars_chars|].
  intros. simpl. apply char_of_code.
Qed.

(** [data.rstrip(b"\0")] *)
Fixpoint rstrip_zeros (bs : list Z) : list Z :=
  match bs with
  | [] => []
  | b :: bs => match rstrip_zeros bs with
               | [] => if b =? 0 then [] else [b]
               | rest => b :: rest
               end
  end.

Lemma rstrip_zeros_app bs n :
  (∀ b, last bs = Some b → b ≠ 0) → rstrip_zeros (bs ++ replicate n 0) = bs.
Proof.
  intros Hl. induction bs as [|b bs IH]; simpl.
  - induction n as [|n IHn]; [done|]. simpl. by rewrite IHn.
  - rewrite IH; [|intros b' Hb'; apply Hl; by destruct bs].
    destruct bs as [|b' bs]; [|done].
    specialize (Hl b eq_refl). by destruct (Z.eqb_spec b 0).
Qed.

(** [data.hex()] *)
Definition hex_of_bytes (bs : list Z) : string := of_chars (mjoin (chars ∘ hex_pad 2 <$> bs)).

(** ** SHA-256

    [hashlib.sha256(data).digest()]: big-endian words, the message padded with
    0x80, zeros and its bit length. *)
Module Sha256.

Definition M32 (x : Z) : Z := Z.land x 0xFFFFFFFF.
Definition rotr (x n : Z) : Z := Z.lor (Z.shiftr x n) (M32 (Z.shiftl x (32 - n))).

(** The constants: the first 32 fractional bits of the square and cube roots of
    the first primes, found bit by bit. *)
Definition root_bits (k p : Z) : Z :=
  let target := Z.shiftl p (32 * k) in
  M32 (foldl (λ r i, let r' := r + Z.shiftl 1 i in if r' ^ k <=? target then r' else r)
         0 (rev (seqZ 0 40))).
Definition is_prime (p : Z) : bool :=
  forallb (λ d, negb (p mod d =? 0)) (seqZ 2 (p - 2)).
Definition first_primes (n : nat) : list Z := take n (filter (λ p, is_prime p = true) (seqZ 2 320)).
Definition K : list Z := Eval vm_compute in root_bits 3 <$> first_primes 64.
Definition H0 : list Z := Eval vm_compute in root_bits 2 <$> first_primes 8.

Definition be_word (bs : list Z) : Z := foldl (λ a b, a * 256 + b) 0 bs.
Definition be_bytes (n v : Z) : list Z := rev (le_bytes n v).

Definition padded (data : list Z) : list Z :=
  data ++ [0x80] ++ zero_bytes ((55 - zlen data) mod 64) ++ be_bytes 8 (8 * zlen data).

Fixpoint chunks (fuel n : nat) (bs : list Z) : list (list Z) :=
  match fuel, bs with
  | S fuel, _ :: _ => take n bs :: chunks fuel n (drop n bs)
  | _, _ => []
  end.

(** The message schedule, newest word first. *)
Definition extend (w : list Z) : list Z :=
  let x := w !!! 14%nat in
  let y := w !!! 1%nat in
  let s0 := Z.lxor (Z.lxor (rotr x 7) (rotr x 18)) (Z.shiftr x 3) in
  let s1 := Z.lxor (Z.lxor (rotr y 17) (rotr y 19)) (Z.shiftr y 10) in
  M32 (w !!! 15%nat + s0 + w !!! 6%nat + s1) :: w.
Definition schedule (block : list Z) : list Z :=
  rev (Nat.iter 48 extend (rev (be_word <$> chunks 16 4 block))).

Definition round (h : list Z) (kw : Z * Z) : list Z :=
  match h with
  | [a; b; c; d; e; f; g; h] =>
      let s1 := Z.lxor (Z.lxor (rotr e 6) (rotr e 11)) (rotr e 25) in
      let ch := Z.lxor (Z.land e f) (Z.land (Z.lxor e 0xFFFFFFFF) g) in
      let t1 := h + s1 + ch + kw.1 + kw.2 in
      let s0 := Z.lxor (Z.lxor (rotr a 2) (rotr a 13)) (rotr a 22) in
      let maj := Z.lxor (Z.lxor (Z.land a b) (Z.land a c)) (Z.land b c) in
      [M32 (t1 + s0 + maj); a; b; c; M32 (d + t1); e; f; g]
  | _ => h
  end.
Definition compress (h block : list Z) : list Z :=
  zip_with (λ a b, M32 (a + b)) h (foldl round h (zip K (schedule block))).

Definition digest (data : list Z) : list Z :=
  let p := padded data in
  mjoin (be_bytes 4 <$> foldl compress H0 (chunks (length p) 64 p)).
End Sha256.

Example sha256_abc : hex_of_bytes (Sha256.digest (bytes_of "abc")) =
  "ba7816bf8f01cfea414140de5dae2223b00361a396177a9cb410ff61f20015ad".
Proof. vm_compute. reflexivity. Qed.
