(* ===== verification/Sv39Image.v ===== *)
(** * Sv39 supervisor images

    [tools/make_4h_sv39_image.py] (Module [FourHart]) replicates a supervisor
    image under four physical prefixes, each with its own three-level page
    table; [tools/make_shared_sv39_image.py] (Module [Shared]) installs one
    table shared by all harts, with an optional remapping fixture.  Module
    [Sv39] is the translation procedure of the RISC-V privileged architecture,
    against which both builders are verified. *)

From stdpp Require Import base numbers list strings.
From Stdlib Require Import ZArith Lia.
From S2P Require Import Prelude PyText Bytes.

Open Scope Z_scope.

(** ** The architecture's address translation *)

Module Sv39.
(** Page-table entry fields. *)
Definition valid (p : Z) : bool := Z.testbit p 0.
Definition readable (p : Z) : bool := Z.testbit p 1.
Definition writable (p : Z) : bool := Z.testbit p 2.
Definition executable (p : Z) : bool := Z.testbit p 3.
Definition flags (p : Z) : Z := p mod 2 ^ 10.
Definition ppn (p : Z) : Z := (p / 2 ^ 10) mod 2 ^ 44.
Definition vpn (va level : Z) : Z := (va / 2 ^ (12 + 9 * level)) mod 2 ^ 9.

(** Bits 63..39 of a canonical address equal bit 38. *)
Definition canonical (va : Z) : bool :=
  (va <? 2 ^ 38) || (2 ^ 64 - 2 ^ 38 <=? va).

(** [walk levels mem a va]: the walk from the table at physical address [a],
    [levels] levels above the last one. [None] is a page fault. *)
Fixpoint walk (levels : nat) (mem : Z → option Z) (a va : Z) : option (Z * Z) :=
  p ← mem (a + vpn va (Z.of_nat levels) * 8);
  if negb (valid p) || (negb (readable p) && writable p) then None
  else if readable p || executable p then
    let span := 2 ^ (12 + 9 * Z.of_nat levels) in
    if negb (ppn p mod 2 ^ (9 * Z.of_nat levels) =? 0) then None
    else Some (ppn p * 2 ^ 12 + va mod span, flags p)
  else match levels with
       | O => None
       | S levels => walk levels mem (ppn p * 2 ^ 12) va
       end.

(** Translation of [va] under [satp.ppn = root_ppn]: physical address and
    entry flags. *)
Definition translate (mem : Z → option Z) (root_ppn va : Z) : option (Z * Z) :=
  if canonical va then walk 2 mem (root_ppn * 2 ^ 12) va else None.
End Sv39.

(** The physical memory an image loaded at [base] provides, read by aligned
    doublewords. *)
Definition phys (base : Z) (image : list Z) (a : Z) : option Z :=
  if (base <=? a) && (a + 8 <=? base + zlen image) then Some (get_u64 image (a - base))
  else None.

(** ** Reading and writing tables of doublewords *)

(** [image] holds the words [f 0, ..., f (n - 1)] from byte [base] on. *)
Definition holds (image : list Z) (base n : Z) (f : Z → Z) : Prop :=
  ∀ w, 0 ≤ w < n → get_u64 image (base + 8 * w) = f w.

Lemma holds_store image base n f k v :
  holds image base n f → 0 ≤ base → base + 8 * n ≤ zlen image →
  0 ≤ k < n → 0 ≤ v < 2 ^ 64 →
  holds (slice_assign image (base + 8 * k) (base + 8 * k + 8) (le_bytes 8 v)) base n
    (λ w, if w =? k then v else f w).
Proof.
  intros Hh Hb Hn Hk Hv w Hw. destruct (Z.eqb_spec w k) as [->|].
  - apply get_store_eq; lia.
  - rewrite get_store_ne by lia. by apply Hh.
Qed.

Lemma holds_frame image image' base n f :
  holds image base n f → 0 ≤ base → base + 8 * n ≤ zlen image →
  zlen image' = zlen image →
  (∀ i, base ≤ i < base + 8 * n → image' !! Z.to_nat i = image !! Z.to_nat i) →
  holds image' base n f.
Proof.
  intros Hh Hb Hn Hlen Heq w Hw. rewrite <-Hh by done. unfold get_u64. f_equal.
  apply slice_ext; [lia..|]. intros i Hi. apply Heq. lia.
Qed.

Lemma from_le_zeros n : from_le (replicate n 0) = 0.
Proof. induction n as [|n IH]; [done|]. unfold from_le in *. simpl. by rewrite IH. Qed.

Lemma holds_zero image base n :
  0 ≤ base → 0 ≤ n → base + 8 * n ≤ zlen image →
  (∀ i, base ≤ i < base + 8 * n → image !! Z.to_nat i = Some 0) →
  holds image base n (λ _, 0).
Proof.
  intros Hb Hn Hlen Hz w Hw. unfold get_u64.
  replace (slice _ _ _) with (replicate 8 0); [by apply from_le_zeros|].
  apply list_eq. intros i. rewrite lookup_slice_inside by lia. case_decide.
  - rewrite Hz by lia. by apply lookup_replicate_2; lia.
  - apply lookup_replicate_None. lia.
Qed.

Lemma holds_ext image base n f g :
  holds image base n f → (∀ w, 0 ≤ w < n → f w = g w) → holds image base n g.
Proof. intros Hh Hfg w Hw. rewrite Hh by done. by apply Hfg. Qed.

(** ** make_4h_sv39_image.py *)

Module FourHart.
Definition PHYSICAL_BASE := 0x80000000.
Definition VIRTUAL_BASE := 0x40000000.
Definition HARTS := 4.
Definition PREFIX_STRIDE := 0x100000.
Definition MAPPED_BYTES := 0x20000.
Definition ROOT_OFFSET := 0x20000.
Definition LEVEL1_OFFSET := 0x21000.
Definition LEVEL0_OFFSET := 0x22000.
Definition IMAGE_BYTES := (HARTS - 1) * PREFIX_STRIDE + LEVEL0_OFFSET + 0x1000.
Definition PTE_FLAGS_RWXAD := 0xCF.

Definition pte (pointer_or_page flags : Z) : Z :=
  Z.lor (Z.shiftl (Z.shiftr pointer_or_page 12) 10) flags.

Definition put_u64 (image : list Z) (offset value : Z) : result (list Z) :=
  data ← to_bytes_le value 8;
  Ok (slice_assign image offset (offset + 8) data).

(** The loop body of [build] for one hart. *)
Definition build_hart (template image : list Z) (hart : Z) : result (list Z) :=
  let prefix := hart * PREFIX_STRIDE in
  let physical_prefix := PHYSICAL_BASE + prefix in
  let image := slice_assign image prefix (prefix + zlen template) template in
  let root := prefix + ROOT_OFFSET in
  let level1 := prefix + LEVEL1_OFFSET in
  let level0 := prefix + LEVEL0_OFFSET in
  let image := slice_assign image root (root + 0x1000) (zero_bytes 0x1000) in
  let image := slice_assign image level1 (level1 + 0x1000) (zero_bytes 0x1000) in
  let image := slice_assign image level0 (level0 + 0x1000) (zero_bytes 0x1000) in
  image ← put_u64 image (root + 1 * 8) (pte (physical_prefix + LEVEL1_OFFSET) 0x1);
  image ← put_u64 image level1 (pte (physical_prefix + LEVEL0_OFFSET) 0x1);
  foldM (λ image page,
      put_u64 image (level0 + page * 8)
        (pte (physical_prefix + page * 0x1000) PTE_FLAGS_RWXAD))
    image (zrange 0 (MAPPED_BYTES / 0x1000)).

Definition build (template : list Z) : result (list Z) :=
  raise (ValueError ("template is " +:+ hex_alt (zlen template)
                     +:+ " bytes; expected at most 0x23000"))
    when LEVEL0_OFFSET + 0x1000 <? zlen template;;
  foldM (build_hart template) (zero_bytes IMAGE_BYTES) (zrange 0 HARTS).
End FourHart.

(** ** make_shared_sv39_image.py *)

Module Shared.
Definition PHYSICAL_BASE := 0x80000000.
Definition VIRTUAL_BASE := 0x40000000.
Definition MAPPED_BYTES := 0x20000.
Definition ROOT_OFFSET := 0x20000.
Definition LEVEL1_OFFSET := 0x21000.
Definition LEVEL0_OFFSET := 0x22000.
Definition IMAGE_BYTES := LEVEL0_OFFSET + 0x1000.
Definition PTE_FLAGS_RWXAD := 0xCF.
Definition PTE_FLAGS_RWAD := 0xC7.

Definition TLBI_TARGET_PAGE := 24.
Definition TLBI_NEW_PAGE := 28.
Definition TLBI_PTE_ALIAS_PAGE := 31.
Definition TLBI_OLD_VALUE := 0x1111222233334444.
Definition TLBI_NEW_VALUE := 0xAAAABBBBCCCCDDDD.

Definition pte (pointer_or_page flags : Z) : Z :=
  Z.lor (Z.shiftl (Z.shiftr pointer_or_page 12) 10) flags.

Definition put_u64 (image : list Z) (offset value : Z) : result (list Z) :=
  data ← to_bytes_le value 8;
  Ok (slice_assign image offset (offset + 8) data).

(** The stores that fill the three tables. *)
Definition map_window (image : list Z) : result (list Z) :=
  image ← put_u64 image (ROOT_OFFSET + 1 * 8) (pte (PHYSICAL_BASE + LEVEL1_OFFSET) 0x1);
  image ← put_u64 image LEVEL1_OFFSET (pte (PHYSICAL_BASE + LEVEL0_OFFSET) 0x1);
  foldM (λ image page,
      put_u64 image (LEVEL0_OFFSET + page * 8)
        (pte (PHYSICAL_BASE + page * 0x1000) PTE_FLAGS_RWXAD))
    image (zrange 0 (MAPPED_BYTES / 0x1000)).

(** The stores of the [if tlbi_test:] block. *)
Definition install_tlbi (image : list Z) : result (list Z) :=
  image ← put_u64 image (LEVEL0_OFFSET + TLBI_PTE_ALIAS_PAGE * 8)
            (pte (PHYSICAL_BASE + LEVEL0_OFFSET) PTE_FLAGS_RWAD);
  image ← put_u64 image (TLBI_TARGET_PAGE * 0x1000) TLBI_OLD_VALUE;
  put_u64 image (TLBI_NEW_PAGE * 0x1000) TLBI_NEW_VALUE.

Definition build (template : list Z) (tlbi_test : bool) : result (list Z) :=
  raise (ValueError ("template is " +:+ hex_alt (zlen template)
                     +:+ " bytes; expected at most " +:+ hex_alt IMAGE_BYTES))
    when IMAGE_BYTES <? zlen template;;
  let image := zero_bytes IMAGE_BYTES in
  let image := slice_assign image 0 (zlen template) template in
  let image := slice_assign image ROOT_OFFSET IMAGE_BYTES
                 (zero_bytes (IMAGE_BYTES - ROOT_OFFSET)) in
  image ← map_window image;
  if tlbi_test then install_tlbi image else Ok image.
End Shared.

(** ** Page-table entries *)

Lemma pte_value p f : 0 ≤ f < 1024 → FourHart.pte p f = p / 4096 * 1024 + f.
Proof.
  intros Hf. unfold FourHart.pte. rewrite lor_shiftl_add by lia.
  by rewrite Z.shiftr_div_pow2 by lia.
Qed.

Lemma pte_bound p f : 0 ≤ f < 1024 → 0 ≤ p < 2 ^ 56 → 0 ≤ FourHart.pte p f < 2 ^ 64.
Proof.
  intros Hf Hp. rewrite pte_value by done.
  assert (0 ≤ p / 4096 < 2 ^ 44); [|lia].
  split; [apply Z.div_pos; lia | apply Z.div_lt_upper_bound; lia].
Qed.

Lemma pte_flags p f : 0 ≤ f < 1024 → Sv39.flags (FourHart.pte p f) = f.
Proof.
  intros Hf. rewrite pte_value by done. unfold Sv39.flags.
  change (2 ^ 10) with 1024. rewrite Z.add_comm, Z.mod_add by lia.
  by apply Z.mod_small.
Qed.

Lemma pte_ppn p f :
  0 ≤ f < 1024 → 0 ≤ p < 2 ^ 56 → Sv39.ppn (FourHart.pte p f) = p / 4096.
Proof.
  intros Hf Hp. rewrite pte_value by done. unfold Sv39.ppn.
  change (2 ^ 10) with 1024. rewrite Z.div_add_l by lia.
  rewrite (Z.div_small f) by lia. rewrite Z.add_0_r. apply Z.mod_small.
  split; [apply Z.div_pos; lia | apply Z.div_lt_upper_bound; lia].
Qed.

(** The flag bits of an entry are those of the flags it was built with. *)
Lemma pte_bit p f i : 0 ≤ f < 1024 → 0 ≤ i < 10 →
  Z.testbit (FourHart.pte p f) i = Z.testbit f i.
Proof.
  intros Hf Hi. rewrite <-(pte_flags p f Hf) at 2. unfold Sv39.flags.
  by rewrite Z.mod_pow2_bits_low by lia.
Qed.

(** ** The walk, one level at a time *)

Section walk.
Context (mem : Z → option Z).

Lemma walk_zero levels a va :
  mem (a + Sv39.vpn va (Z.of_nat levels) * 8) = Some 0 →
  Sv39.walk levels mem a va = None.
Proof. intros H. destruct levels; simpl in *; rewrite H; done. Qed.

(** A pointer entry (flags [0x1]) leads to the table it points to. *)
Lemma walk_pointer levels a va next :
  mem (a + Sv39.vpn va (Z.of_nat (S levels)) * 8) = Some (FourHart.pte next 1) →
  0 ≤ next < 2 ^ 56 → next mod 4096 = 0 →
  Sv39.walk (S levels) mem a va = Sv39.walk levels mem next va.
Proof.
  intros H Hn Hm. cbn [Sv39.walk]. rewrite H. cbn [mbind option_bind].
  unfold Sv39.valid, Sv39.readable, Sv39.writable, Sv39.executable.
  rewrite !pte_bit by lia.
  rewrite pte_ppn by lia. simpl. f_equal.
  pose proof (Z.div_mod next 4096). lia.
Qed.

(** A level-0 leaf entry maps its page. *)
Lemma walk_leaf a va page f :
  mem (a + Sv39.vpn va 0 * 8) = Some (FourHart.pte page f) →
  0 ≤ page < 2 ^ 56 → page mod 4096 = 0 → f = 0xCF ∨ f = 0xC7 →
  Sv39.walk 0 mem a va = Some (page + va mod 4096, f).
Proof.
  intros H Hn Hm Hf. cbn [Sv39.walk]. change (Z.of_nat 0) with 0. rewrite H. cbn [mbind option_bind].
  unfold Sv39.valid, Sv39.readable, Sv39.writable, Sv39.executable.
  rewrite !pte_bit by lia. rewrite pte_ppn, pte_flags by lia.
  assert (Hpage : page / 4096 * 4096 = page).
  { pose proof (Z.div_mod page 4096). lia. }
  change (9 * 0) with 0. rewrite !Z.pow_0_r, Z.mod_1_r.
  change (2 ^ (12 + 0)) with 4096. change (2 ^ 12) with 4096. rewrite Hpage.
  by destruct Hf as [-> | ->].
Qed.
End walk.

(** The words of the three tables (512 entries each, root first) that map
    [pages] pages at virtual address 0x40000000 to [base]. *)
Definition table_word (base w : Z) : Z :=
  if w =? 1 then FourHart.pte (base + 0x21000) 1
  else if w =? 512 then FourHart.pte (base + 0x22000) 1
  else if (1024 <=? w) && (w <? 1056)
    then FourHart.pte (base + (w - 1024) * 4096) 0xCF
  else 0.

(** Any memory whose three table pages at [base + 0x20000] hold [table_word]
    (except that level-0 entries may differ as [leaf] says) translates exactly
    the window 0x40000000 .. +0x20000. *)
Section translation.
Context (mem : Z → option Z) (base : Z) (leaf : Z → Z * Z).
Hypothesis base_ok : 0 ≤ base < 2 ^ 55 ∧ base mod 4096 = 0.
Hypothesis leaf_ok : ∀ page, 0 ≤ page < 32 →
  0 ≤ (leaf page).1 < 2 ^ 56 ∧ (leaf page).1 mod 4096 = 0 ∧
  ((leaf page).2 = 0xCF ∨ (leaf page).2 = 0xC7).
Hypothesis tables : ∀ w, 0 ≤ w < 1536 →
  mem (base + 0x20000 + 8 * w) =
    Some (if (1024 <=? w) && (w <? 1056)
          then let '(p, f) := leaf (w - 1024) in FourHart.pte p f
          else table_word base w).

Let root_ppn := (base + 0x20000) / 4096.

Lemma root_addr : root_ppn * 2 ^ 12 = base + 0x20000.
Proof.
  unfold root_ppn. change (2 ^ 12) with 4096.
  destruct base_ok as [_ Hm].
  assert ((base + 0x20000) mod 4096 = 0).
  { replace 0x20000 with (32 * 4096) by lia. by rewrite Z.mod_add. }
  pose proof (Z.div_mod (base + 0x20000) 4096). lia.
Qed.

Lemma vpn_range va l : 0 ≤ Sv39.vpn va l < 512.
Proof. apply Z.mod_pos_bound. lia. Qed.

Lemma aligned k : (base + k * 4096) mod 4096 = 0.
Proof. destruct base_ok. by rewrite Z.mod_add. Qed.

(** The first two levels leave the level-0 table for addresses of the
    window's 2 MiB region, and fault everywhere else. *)
Lemma translate_level0 va :
  Sv39.canonical va = true →
  Sv39.vpn va 2 = 1 → Sv39.vpn va 1 = 0 →
  Sv39.translate mem root_ppn va = Sv39.walk 0 mem (base + 0x22000) va.
Proof.
  intros Hc H2 H1. unfold Sv39.translate. rewrite Hc, root_addr.
  pose proof (aligned 33) as A1. pose proof (aligned 34) as A2.
  rewrite (walk_pointer _ 1 _ _ (base + 0x21000)); [|change (Z.of_nat 2) with 2; rewrite H2|lia|done].
  - rewrite (walk_pointer _ 0 _ _ (base + 0x22000)); [done| |lia|done].
    change (Z.of_nat 1) with 1. rewrite H1.
    replace (base + 0x21000 + 0 * 8) with (base + 0x20000 + 8 * 512) by lia.
    by rewrite tables by lia.
  - replace (base + 0x20000 + 1 * 8) with (base + 0x20000 + 8 * 1) by lia.
    by rewrite tables by lia.
Qed.

Lemma translate_other va :
  Sv39.vpn va 2 ≠ 1 ∨ Sv39.vpn va 1 ≠ 0 → Sv39.translate mem root_ppn va = None.
Proof.
  intros Hne. unfold Sv39.translate. destruct (Sv39.canonical va); [|done].
  rewrite root_addr. pose proof (vpn_range va 2). pose proof (vpn_range va 1).
  destruct (decide (Sv39.vpn va 2 = 1)) as [H2|H2].
  - pose proof (aligned 33) as A1.
    rewrite (walk_pointer _ 1 _ _ (base + 0x21000)); [|change (Z.of_nat 2) with 2; rewrite H2|lia|done].
    + apply walk_zero. change (Z.of_nat 1) with 1.
      replace (base + 0x21000 + Sv39.vpn va 1 * 8)
        with (base + 0x20000 + 8 * (512 + Sv39.vpn va 1)) by lia.
      rewrite tables by lia. unfold table_word.
      by repeat (case_match; b2p; try lia).
    + replace (base + 0x20000 + 1 * 8) with (base + 0x20000 + 8 * 1) by lia.
      by rewrite tables by lia.
  - apply walk_zero. change (Z.of_nat 2) with 2.
    replace (base + 0x20000 + Sv39.vpn va 2 * 8)
      with (base + 0x20000 + 8 * Sv39.vpn va 2) by lia.
    rewrite tables by lia. unfold table_word. by repeat (case_match; b2p; try lia).
Qed.

Lemma translate_page va :
  0x40000000 ≤ va < 0x40020000 →
  Sv39.translate mem root_ppn va =
    let '(p, f) := leaf ((va - 0x40000000) / 4096) in Some (p + va mod 4096, f).
Proof.
  intros Hva.
  assert (Hv2 : Sv39.vpn va 2 = 1) by (unfold Sv39.vpn; Z.div_mod_to_equations; lia).
  assert (Hv1 : Sv39.vpn va 1 = 0) by (unfold Sv39.vpn; Z.div_mod_to_equations; lia).
  assert (Hv0 : Sv39.vpn va 0 = (va - 0x40000000) / 4096)
    by (unfold Sv39.vpn; Z.div_mod_to_equations; lia).
  rewrite translate_level0; [|unfold Sv39.canonical; destruct (Z.ltb_spec va (2 ^ 38)); [done|lia]|done..].
  set (k := (va - 0x40000000) / 4096) in *.
  assert (Hk : 0 ≤ k < 32) by (unfold k; Z.div_mod_to_equations; lia).
  destruct (leaf_ok k Hk) as (Hp & Hm & Hf).
  pose proof (tables (1024 + k)) as T. destruct (leaf k) as [p f] eqn:El; cbn [fst snd] in *.
  erewrite walk_leaf; [reflexivity| |done|done|done].
  rewrite Hv0.
  replace (base + 0x22000 + k * 8) with (base + 0x20000 + 8 * (1024 + k)) by lia.
  rewrite T by lia. replace (1024 + k - 1024) with k by lia. rewrite El.
  by destruct (Z.leb_spec 1024 (1024 + k)), (Z.ltb_spec (1024 + k) 1056); try lia.
Qed.

Lemma translate_fault va :
  0 ≤ va < 2 ^ 64 → ¬ (0x40000000 ≤ va < 0x40020000) →
  Sv39.translate mem root_ppn va = None.
Proof.
  intros Hva Hout.
  destruct (decide (Sv39.vpn va 2 = 1 ∧ Sv39.vpn va 1 = 0)) as [[H2 H1]|Hne];
    [|apply translate_other; destruct (decide (Sv39.vpn va 2 = 1)); tauto].
  destruct (Sv39.canonical va) eqn:Hc; [|by unfold Sv39.translate; rewrite Hc].
  rewrite translate_level0 by done. apply walk_zero. change (Z.of_nat 0) with 0.
  pose proof (vpn_range va 0).
  assert (32 ≤ Sv39.vpn va 0).
  { unfold Sv39.canonical in Hc. unfold Sv39.vpn in *. b2p.
    Z.div_mod_to_equations. destruct Hc; b2p; lia. }
  replace (base + 0x22000 + Sv39.vpn va 0 * 8)
    with (base + 0x20000 + 8 * (1024 + Sv39.vpn va 0)) by lia.
  rewrite tables by lia. unfold table_word. by repeat (case_match; b2p; try lia).
Qed.
End translation.

(** ** The builders' stores *)

Lemma put_u64_Ok image offset value :
  0 ≤ value < 2 ^ 64 →
  FourHart.put_u64 image offset value =
    Ok (slice_assign image offset (offset + 8) (le_bytes 8 value)).
Proof. apply store_u64_Ok. Qed.

(** [same_outside lo hi image image']: only bytes in [lo..hi) may differ. *)
Definition same_outside (lo hi : Z) (image image' : list Z) : Prop :=
  zlen image' = zlen image ∧
  ∀ i, 0 ≤ i → i < lo ∨ hi ≤ i → image' !! Z.to_nat i = image !! Z.to_nat i.

Lemma same_outside_refl lo hi image : same_outside lo hi image image.
Proof. done. Qed.
Lemma same_outside_trans lo hi i1 i2 i3 :
  same_outside lo hi i1 i2 → same_outside lo hi i2 i3 → same_outside lo hi i1 i3.
Proof.
  intros [L1 H1] [L2 H2]. split; [congruence|].
  intros i Hi Hout. by rewrite H2, H1.
Qed.
Lemma same_outside_weaken lo hi lo' hi' i1 i2 :
  same_outside lo hi i1 i2 → lo' ≤ lo → hi ≤ hi' → same_outside lo' hi' i1 i2.
Proof. intros [L H] ??. split; [done|]. intros i Hi Hout. apply H; lia. Qed.

Lemma same_outside_assign image a b new :
  0 ≤ a → b = a + zlen new → b ≤ zlen image →
  same_outside a b image (slice_assign image a b new).
Proof.
  intros Ha -> Hn. split; [by apply zlen_slice_assign|].
  intros i Hi Hout. rewrite lookup_slice_assign by lia. by rewrite decide_False by lia.
Qed.
Lemma same_outside_store image a v :
  0 ≤ a → a + 8 ≤ zlen image →
  same_outside a (a + 8) image (slice_assign image a (a + 8) (le_bytes 8 v)).
Proof. intros. apply same_outside_assign; rewrite ?zlen_le_bytes; lia. Qed.

Lemma same_outside_holds lo hi image image' base n f :
  same_outside lo hi image image' → holds image base n f →
  0 ≤ base → base + 8 * n ≤ zlen image → hi ≤ base ∨ base + 8 * n ≤ lo →
  holds image' base n f.
Proof.
  intros [L H] Hh Hb Hn Hd. apply (holds_frame image); try done.
  intros i Hi. apply H; lia.
Qed.

#[export] Hint Resolve same_outside_refl same_outside_trans : py.

(** The loop that fills [n] consecutive entries. *)
Lemma entry_loop image L n g :
  0 ≤ L → 0 ≤ n → L + 8 * n ≤ zlen image →
  (∀ page, 0 ≤ page < n → 0 ≤ g page < 2 ^ 64) →
  ∃ image',
    foldM (λ image page, FourHart.put_u64 image (L + page * 8) (g page)) image (zrange 0 n)
      = Ok image' ∧
    same_outside L (L + 8 * n) image image' ∧ holds image' L n g.
Proof.
  intros HL Hn Hlen Hg.
  destruct (foldM_total (λ done img,
      same_outside L (L + 8 * zlen done) image img ∧ holds img L (zlen done) g)
    (λ image page, FourHart.put_u64 image (L + page * 8) (g page)) image (zrange 0 n))
    as (image' & Hf & Hs & Hh).
  - split; [apply same_outside_refl|]. intros w Hw. unfold zlen in Hw. simpl in Hw. lia.
  - intros don x s [Hs Hh] [-> Hx]%zrange_prefix.
    assert (Hk : zlen (zrange 0 x) = x).
    { rewrite zlen_zrange; lia. }
    assert (Hx' : x < n).
    { assert (Hin : x ∈ zrange 0 n) by (apply elem_of_zrange; lia).
      apply elem_of_zrange in Hin. lia. }
    rewrite Hk in *. rewrite put_u64_Ok by (apply Hg; lia).
    eexists; split; [done|]. rewrite zlen_snoc, Hk.
    replace (L + x * 8) with (L + 8 * x) by lia.
    destruct Hs as [Hl Hs].
    split.
    + eapply same_outside_trans;
        [eapply same_outside_weaken; [by split|lia|lia]|].
      eapply same_outside_weaken; [apply same_outside_store; lia|lia|lia].
    + intros w Hw. destruct (decide (w = x)) as [->|].
      * rewrite get_store_eq; [done|lia..|apply Hg; lia].
      * rewrite get_store_ne by lia. apply Hh. lia.
  - assert (Hk : zlen (zrange 0 n) = n).
    { rewrite zlen_zrange; lia. }
    rewrite Hk in *. by exists image'.
Qed.

(** Zeroing a page. *)
Lemma zero_page image a :
  0 ≤ a → a + 0x1000 ≤ zlen image →
  let image' := slice_assign image a (a + 0x1000) (zero_bytes 0x1000) in
  same_outside a (a + 0x1000) image image' ∧
  ∀ i, a ≤ i < a + 0x1000 → image' !! Z.to_nat i = Some 0.
Proof.
  intros Ha Hn. cbn zeta.
  split; [apply same_outside_assign; rewrite ?zlen_zero_bytes; lia|].
  intros i Hi. rewrite lookup_slice_assign by (rewrite ?zlen_zero_bytes; lia).
  rewrite decide_True by lia. unfold zero_bytes. apply lookup_replicate_2. lia.
Qed.

(** The three tables of one prefix, built over zeroed pages: the part of the
    two [build] functions they have in common. *)
Definition install_tables (image : list Z) (offset base : Z) : result (list Z) :=
  image ← FourHart.put_u64 image (offset + 0x20000 + 1 * 8) (FourHart.pte (base + 0x21000) 0x1);
  image ← FourHart.put_u64 image (offset + 0x21000) (FourHart.pte (base + 0x22000) 0x1);
  foldM (λ image page,
      FourHart.put_u64 image (offset + 0x22000 + page * 8)
        (FourHart.pte (base + page * 0x1000) 0xCF))
    image (zrange 0 32).

Lemma install_tables_spec image offset base :
  0 ≤ offset → offset + 0x23000 ≤ zlen image → 0 ≤ base < 2 ^ 55 →
  (∀ i, offset + 0x20000 ≤ i < offset + 0x23000 → image !! Z.to_nat i = Some 0) →
  ∃ image', install_tables image offset base = Ok image' ∧
    same_outside (offset + 0x20000) (offset + 0x23000) image image' ∧
    holds image' (offset + 0x20000) 1536 (table_word base).
Proof.
  intros Ho Hlen Hb Hz. unfold install_tables.
  assert (Hpte : ∀ k f, 0 ≤ k ≤ 34 → 0 ≤ f < 1024 →
            0 ≤ FourHart.pte (base + k * 4096) f < 2 ^ 64)
    by (intros; apply pte_bound; lia).
  pose proof (Hpte 33 1 ltac:(lia) ltac:(lia)) as Hp1.
  pose proof (Hpte 34 1 ltac:(lia) ltac:(lia)) as Hp2.
  change (33 * 4096) with 0x21000 in Hp1. change (34 * 4096) with 0x22000 in Hp2.
  rewrite put_u64_Ok by done. cbn [mbind result_bind].
  rewrite put_u64_Ok by done. cbn [mbind result_bind].
  set (T := offset + 0x20000) in *.
  replace (T + 1 * 8) with (T + 8 * 1) by lia.
  replace (offset + 0x21000) with (T + 8 * 512) by lia.
  replace (offset + 0x22000) with (T + 8 * 1024) by lia.
  assert (HT : 0 ≤ T ∧ T + 8 * 1536 ≤ zlen image) by lia. destruct HT as [HT0 HT1].
  pose proof (holds_zero image T 1536 HT0 ltac:(lia) HT1 ltac:(intros; apply Hz; lia)) as H0.
  pose proof (holds_store image T 1536 _ 1 _ H0 HT0 HT1 ltac:(lia) Hp1) as H1.
  pose proof (same_outside_store image (T + 8 * 1) (FourHart.pte (base + 0x21000) 1)
                ltac:(lia) ltac:(lia)) as S1.
  set (i1 := slice_assign image _ _ _) in *. destruct S1 as [L1 S1].
  pose proof (holds_store i1 T 1536 _ 512 _ H1 HT0 ltac:(lia) ltac:(lia) Hp2) as H2.
  pose proof (same_outside_store i1 (T + 8 * 512) (FourHart.pte (base + 0x22000) 1)
                ltac:(lia) ltac:(lia)) as S2.
  set (i2 := slice_assign i1 _ _ _) in *. destruct S2 as [L2 S2].
  destruct (entry_loop i2 (T + 8 * 1024) 32 (λ page, FourHart.pte (base + page * 4096) 0xCF))
    as (image' & -> & [L3 S3] & H3); [lia..|intros; apply Hpte; lia|].
  exists image'. split_and!; [done| |].
  - split; [lia|]. intros i Hi Hout. rewrite S3, S2, S1 by lia. done.
  - intros w Hw. destruct (decide (1024 ≤ w < 1056)).
    + replace (T + 8 * w) with (T + 8 * 1024 + 8 * (w - 1024)) by lia.
      rewrite H3 by lia. unfold table_word. by repeat (case_match; b2p; try lia).
    + transitivity (get_u64 i2 (T + 8 * w)).
      * unfold get_u64. f_equal. apply slice_ext; [lia..|].
        intros i Hi. apply S3; lia.
      * rewrite H2 by done. unfold table_word. by repeat (case_match; b2p; try lia).
Qed.

(** ** Contents of the four-hart image *)

(** The byte at offset [i] of a supervisor image placed over zeros. *)
Definition template_byte (template : list Z) (i : Z) : option Z :=
  if i <? zlen template then template !! Z.to_nat i else Some 0.

(** Linear arithmetic over the layout constants. *)
Ltac fh_lia :=
  unfold FourHart.IMAGE_BYTES, FourHart.HARTS, FourHart.PREFIX_STRIDE,
    FourHart.LEVEL0_OFFSET, FourHart.PHYSICAL_BASE in *; lia.

(** What [build_hart] establishes for its hart. *)
Definition hart_ready (template image : list Z) (hart : Z) : Prop :=
  let prefix := hart * FourHart.PREFIX_STRIDE in
  holds image (prefix + 0x20000) 1536 (table_word (FourHart.PHYSICAL_BASE + prefix)) ∧
  ∀ i, 0 ≤ i < 0x20000 → image !! Z.to_nat (prefix + i) = template_byte template i.

Lemma build_hart_spec template image hart :
  0 ≤ hart < FourHart.HARTS → zlen template ≤ 0x23000 →
  zlen image = FourHart.IMAGE_BYTES →
  (∀ i, hart * FourHart.PREFIX_STRIDE ≤ i < zlen image → image !! Z.to_nat i = Some 0) →
  ∃ image', FourHart.build_hart template image hart = Ok image' ∧
    same_outside (hart * FourHart.PREFIX_STRIDE) (hart * FourHart.PREFIX_STRIDE + 0x23000)
      image image' ∧
    hart_ready template image' hart.
Proof.
  intros Hh Ht Hlen Hzero. unfold FourHart.build_hart, hart_ready.
  set (prefix := hart * FourHart.PREFIX_STRIDE) in *.
  assert (Hpre : 0 ≤ prefix ∧ prefix + 0x23000 ≤ zlen image).
  { rewrite Hlen. subst prefix. fh_lia. }
  unfold FourHart.ROOT_OFFSET, FourHart.LEVEL1_OFFSET, FourHart.LEVEL0_OFFSET.
  pose proof (zlen_nonneg template) as Htn.
  pose proof (same_outside_assign image prefix (prefix + zlen template) template
                ltac:(lia) eq_refl ltac:(lia)) as [L0 S0].
  assert (T0 : ∀ i, prefix ≤ i < prefix + 0x20000 →
    slice_assign image prefix (prefix + zlen template) template !! Z.to_nat i =
    template_byte template (i - prefix)).
  { intros i Hi. rewrite lookup_slice_assign by lia. unfold template_byte.
    case_decide; destruct (Z.ltb_spec (i - prefix) (zlen template)); try lia; [done|].
    apply Hzero. lia. }
  set (i0 := slice_assign image _ _ _) in *.
  destruct (zero_page i0 (prefix + 0x20000) ltac:(lia) ltac:(lia)) as [[L1 S1] Z1].
  set (i1 := slice_assign i0 _ _ _) in *.
  destruct (zero_page i1 (prefix + 0x21000) ltac:(lia) ltac:(lia)) as [[L2 S2] Z2].
  set (i2 := slice_assign i1 _ _ _) in *.
  destruct (zero_page i2 (prefix + 0x22000) ltac:(lia) ltac:(lia)) as [[L3 S3] Z3].
  set (i3 := slice_assign i2 _ _ _) in *.
  destruct (install_tables_spec i3 prefix (FourHart.PHYSICAL_BASE + prefix))
    as (image' & Hi & [L4 S4] & Htab).
  - lia.
  - lia.
  - subst prefix. fh_lia.
  - intros i Hi. destruct (decide (i < prefix + 0x21000)).
    { rewrite S3, S2 by lia. apply Z1. lia. }
    destruct (decide (i < prefix + 0x22000)).
    { rewrite S3 by lia. apply Z2. lia. }
    apply Z3. lia.
  - exists image'. split_and!; [exact Hi| |exact Htab|].
    + split; [lia|]. intros i Hi' Hout. by rewrite S4, S3, S2, S1, S0 by lia.
    + intros i Hi'. rewrite S4, S3, S2, S1, T0 by lia. f_equal. lia.
Qed.

Lemma hart_ready_frame template image image' hart lo hi :
  same_outside lo hi image image' → hart_ready template image hart →
  zlen image = FourHart.IMAGE_BYTES → 0 ≤ hart < FourHart.HARTS →
  (hart + 1) * FourHart.PREFIX_STRIDE ≤ lo →
  hart_ready template image' hart.
Proof.
  intros Hs [Htab Htmp] Hlen Hh Hlo.
  assert (Hb : 0 ≤ hart * FourHart.PREFIX_STRIDE ∧
               hart * FourHart.PREFIX_STRIDE + 0x23000 ≤ FourHart.IMAGE_BYTES).
  { fh_lia. }
  assert (Hst : (hart + 1) * FourHart.PREFIX_STRIDE = hart * FourHart.PREFIX_STRIDE + 0x100000)
    by fh_lia.
  split.
  - eapply same_outside_holds; [exact Hs|exact Htab|lia..].
  - intros i Hi. destruct Hs as [_ Hs]. rewrite Hs by lia. by apply Htmp.
Qed.

Lemma fourhart_build_spec template :
  zlen template ≤ 0x23000 →
  ∃ image, FourHart.build template = Ok image ∧ zlen image = FourHart.IMAGE_BYTES ∧
    ∀ hart, 0 ≤ hart < FourHart.HARTS → hart_ready template image hart.
Proof.
  intros Ht. unfold FourHart.build.
  destruct (Z.ltb_spec (FourHart.LEVEL0_OFFSET + 0x1000) (zlen template)) as [Hl|_].
  { unfold FourHart.LEVEL0_OFFSET in Hl. lia. }
  destruct (foldM_total (λ done image,
      zlen image = FourHart.IMAGE_BYTES ∧
      (∀ hart, 0 ≤ hart < zlen done → hart_ready template image hart) ∧
      (∀ i, zlen done * FourHart.PREFIX_STRIDE ≤ i < zlen image →
         image !! Z.to_nat i = Some 0))
    (FourHart.build_hart template) (zero_bytes FourHart.IMAGE_BYTES)
    (zrange 0 FourHart.HARTS)) as (image & Hf & Hlen & Hr & _).
  - assert (HL : zlen (zero_bytes FourHart.IMAGE_BYTES) = FourHart.IMAGE_BYTES)
      by (by apply zlen_zero_bytes).
    split_and!; [done|unfold zlen; simpl; lia|]. intros i Hi. rewrite HL in Hi.
    unfold zero_bytes. apply lookup_replicate_2.
    unfold zlen in Hi; simpl in Hi. lia.
  - intros don x image (Hlen & Hr & Hz) [-> Hx]%zrange_prefix.
    assert (Hk : zlen (zrange 0 x) = x).
    { rewrite zlen_zrange; lia. }
    rewrite Hk in *.
    destruct (build_hart_spec template image x Hx Ht Hlen Hz) as (image' & -> & Hs & Hrdy).
    exists image'. split; [done|]. rewrite zlen_snoc, Hk.
    pose proof Hs as [Hl' Hs']. split_and!; [lia| |].
    + intros hart Hhart. destruct (decide (hart = x)) as [->|]; [done|].
      assert (hart * FourHart.PREFIX_STRIDE + FourHart.PREFIX_STRIDE
              ≤ x * FourHart.PREFIX_STRIDE)
        by fh_lia.
      eapply hart_ready_frame; [exact Hs|apply Hr; lia|done|lia|lia].
    + intros i Hi. rewrite Hs'; [apply Hz|..]; fh_lia.
  - exists image. split_and!; [done|done|]. exact Hr.
Qed.

(** ** Contents of the shared image *)

Lemma shared_base_spec template :
  zlen template ≤ Shared.IMAGE_BYTES →
  ∃ image, Shared.build template false = Ok image ∧ zlen image = Shared.IMAGE_BYTES ∧
    holds image Shared.ROOT_OFFSET 1536 (table_word Shared.PHYSICAL_BASE) ∧
    ∀ i, 0 ≤ i < Shared.ROOT_OFFSET → image !! Z.to_nat i = template_byte template i.
Proof.
  intros Ht. unfold Shared.build.
  destruct (Z.ltb_spec Shared.IMAGE_BYTES (zlen template)) as [Hl|_]; [lia|].
  assert (HL : zlen (zero_bytes Shared.IMAGE_BYTES) = Shared.IMAGE_BYTES)
    by (by apply zlen_zero_bytes).
  assert (HI : Shared.IMAGE_BYTES = 0x23000) by done. rewrite HI in *.
  set (z := zero_bytes 0x23000) in *. pose proof (zlen_nonneg template) as Htn.
  pose proof (same_outside_assign z 0 (zlen template) template
                ltac:(lia) eq_refl ltac:(lia)) as [L0 S0].
  assert (T0 : ∀ i, 0 ≤ i < 0x20000 →
    slice_assign z 0 (zlen template) template !! Z.to_nat i = template_byte template i).
  { intros i Hi. rewrite lookup_slice_assign by lia. unfold template_byte.
    case_decide; destruct (Z.ltb_spec i (zlen template)); try lia; [f_equal; lia|].
    unfold z, zero_bytes. apply lookup_replicate_2. lia. }
  set (i0 := slice_assign z _ _ _) in *.
  unfold Shared.ROOT_OFFSET.
  pose proof (same_outside_assign i0 0x20000 0x23000 (zero_bytes (0x23000 - 0x20000))
                ltac:(lia) ltac:(rewrite zlen_zero_bytes; lia) ltac:(lia)) as [L1 S1].
  set (i1 := slice_assign i0 _ _ _) in *.
  destruct (install_tables_spec i1 0 Shared.PHYSICAL_BASE)
    as (image & Hi & [L2 S2] & Htab).
  - lia.
  - lia.
  - unfold Shared.PHYSICAL_BASE. lia.
  - intros i Hi. unfold i1.
    rewrite lookup_slice_assign by (rewrite ?zlen_zero_bytes; lia).
    rewrite decide_True by lia. unfold zero_bytes. apply lookup_replicate_2. lia.
  - exists image. split_and!; [|lia|exact Htab|].
    + assert (Hm : Shared.map_window i1 = Ok image) by exact Hi.
      by rewrite Hm.
    + intros i Hi'. rewrite S2, S1, T0 by lia. done.
Qed.

(** ** The images as seen by the hardware walker *)

(** Tables held by an image loaded at [load] are tables in memory. *)
Lemma phys_tables load image off n f :
  holds image off n f → 0 ≤ off → off + 8 * n ≤ zlen image →
  ∀ w, 0 ≤ w < n → phys load image (load + off + 8 * w) = Some (f w).
Proof.
  intros Hh Ho Hn w Hw. unfold phys.
  destruct (Z.leb_spec load (load + off + 8 * w)); [|lia].
  destruct (Z.leb_spec (load + off + 8 * w + 8) (load + zlen image)); [|lia].
  simpl. rewrite <-Hh by done. do 2 f_equal. lia.
Qed.

Definition window_leaf (base page : Z) : Z * Z := (base + page * 4096, 0xCF).

Lemma window_leaf_ok base page :
  0 ≤ base < 2 ^ 55 → base mod 4096 = 0 → 0 ≤ page < 32 →
  0 ≤ (window_leaf base page).1 < 2 ^ 56 ∧ (window_leaf base page).1 mod 4096 = 0 ∧
  ((window_leaf base page).2 = 0xCF ∨ (window_leaf base page).2 = 0xC7).
Proof.
  intros. unfold window_leaf; simpl. split_and!; [lia|lia| |by left].
  by rewrite Z.mod_add.
Qed.

(** Translation through tables that hold [table_word]. *)
Lemma translate_window mem base va :
  0 ≤ base < 2 ^ 55 → base mod 4096 = 0 →
  (∀ w, 0 ≤ w < 1536 → mem (base + 0x20000 + 8 * w) = Some (table_word base w)) →
  0 ≤ va < 2 ^ 64 →
  Sv39.translate mem ((base + 0x20000) / 4096) va =
    if (0x40000000 <=? va) && (va <? 0x40020000)
    then Some (base + (va - 0x40000000), 0xCF) else None.
Proof.
  intros Hb Hm Ht Hva.
  assert (Ht' : ∀ w, 0 ≤ w < 1536 →
    mem (base + 0x20000 + 8 * w) =
      Some (if (1024 <=? w) && (w <? 1056)
            then let '(p, f) := window_leaf base (w - 1024) in FourHart.pte p f
            else table_word base w)).
  { intros w Hw. rewrite Ht by done. f_equal. unfold table_word.
    destruct ((1024 <=? w) && (w <? 1056)) eqn:E; [|by repeat case_match].
    b2p. by destruct (Z.eqb_spec w 1), (Z.eqb_spec w 512); try lia. }
  destruct ((0x40000000 <=? va) && (va <? 0x40020000)) eqn:E.
  - b2p. rewrite (translate_page mem base (window_leaf base)); try done.
    + unfold window_leaf. do 2 f_equal. Z.div_mod_to_equations. lia.
    + intros page Hp. by apply window_leaf_ok.
  - eapply (translate_fault mem base (window_leaf base)); try done.
    intros Hin. b2p. destruct E; b2p; lia.
Qed.

(** C1: the four-hart image gives every hart its own copy of the mapped
    window: through hart [h]'s root table the hardware walk sends each virtual
    address of the 128 KiB window to the same offset of hart [h]'s physical
    prefix, readable, writable and executable, and faults on every other
    64-bit address. *)
Theorem fourhart_translation template image hart va :
  FourHart.build template = Ok image →
  0 ≤ hart < FourHart.HARTS →
  0 ≤ va < 2 ^ 64 →
  let prefix := FourHart.PHYSICAL_BASE + hart * FourHart.PREFIX_STRIDE in
  Sv39.translate (phys FourHart.PHYSICAL_BASE image)
      ((prefix + FourHart.ROOT_OFFSET) / 4096) va =
    if (FourHart.VIRTUAL_BASE <=? va) && (va <? FourHart.VIRTUAL_BASE + FourHart.MAPPED_BYTES)
    then Some (prefix + (va - FourHart.VIRTUAL_BASE), FourHart.PTE_FLAGS_RWXAD)
    else None.
Proof.
  intros Hbuild Hh Hva prefix.
  assert (Ht : zlen template ≤ 0x23000).
  { unfold FourHart.build in Hbuild.
    destruct (Z.ltb_spec (FourHart.LEVEL0_OFFSET + 0x1000) (zlen template)); [done|fh_lia]. }
  destruct (fourhart_build_spec template Ht) as (image' & Hb & Hlen & Hr).
  rewrite Hb in Hbuild. injection Hbuild as ->. destruct (Hr hart Hh) as [Htab _].
  assert (Hlay : 0 ≤ hart * FourHart.PREFIX_STRIDE ∧
                 hart * FourHart.PREFIX_STRIDE + 0x23000 ≤ FourHart.IMAGE_BYTES) by fh_lia.
  apply (translate_window _ prefix va); [unfold prefix; fh_lia| | |done].
  - unfold prefix. replace (FourHart.PHYSICAL_BASE + hart * FourHart.PREFIX_STRIDE)
      with ((0x80000 + hart * 256) * 4096) by fh_lia. apply Z.mod_mul. lia.
  - intros w Hw.
    pose proof (phys_tables FourHart.PHYSICAL_BASE _ _ _ _ Htab
                  ltac:(lia) ltac:(lia) w Hw) as Hp.
    etransitivity; [|exact Hp]. f_equal. unfold prefix. lia.
Qed.

Lemma fourhart_translation_witness :
  ∃ image, FourHart.build [0x13] = Ok image ∧
    Sv39.translate (phys FourHart.PHYSICAL_BASE image)
      ((FourHart.PHYSICAL_BASE + 2 * FourHart.PREFIX_STRIDE + FourHart.ROOT_OFFSET) / 4096)
      0x40003008 = Some (0x80203008, 0xCF) ∧
    Sv39.translate (phys FourHart.PHYSICAL_BASE image)
      ((FourHart.PHYSICAL_BASE + 2 * FourHart.PREFIX_STRIDE + FourHart.ROOT_OFFSET) / 4096)
      0x40020000 = None.
Proof.
  destruct (fourhart_build_spec [0x13]) as (image & Hb & _); [vm_compute; discriminate|].
  exists image. split; [exact Hb|split].
  - rewrite (fourhart_translation [0x13] image 2 0x40003008 Hb) by (vm_compute; split; congruence).
    reflexivity.
  - rewrite (fourhart_translation [0x13] image 2 0x40020000 Hb) by (vm_compute; split; congruence).
    reflexivity.
Defined.

(** [build] of the four-hart image fails only on an oversized template;
    otherwise it yields an image of the fixed size in which every prefix
    carries the template's first 128 KiB, padded with zeros. *)
Theorem fourhart_contents template :
  (0x23000 < zlen template ∧ FourHart.build template =
     Err (ValueError ("template is " +:+ hex_alt (zlen template)
                      +:+ " bytes; expected at most 0x23000"))) ∨
  (zlen template ≤ 0x23000 ∧ ∃ image, FourHart.build template = Ok image ∧
     zlen image = FourHart.IMAGE_BYTES ∧
     ∀ hart i, 0 ≤ hart < FourHart.HARTS → 0 ≤ i < FourHart.ROOT_OFFSET →
       image !! Z.to_nat (hart * FourHart.PREFIX_STRIDE + i) =
         if i <? zlen template then template !! Z.to_nat i else Some 0).
Proof.
  destruct (decide (zlen template ≤ 0x23000)) as [Ht|Ht]; [right|left].
  - split; [done|]. destruct (fourhart_build_spec template Ht) as (image & Hb & Hlen & Hr).
    exists image. split_and!; [done..|]. intros hart i Hh Hi.
    by destruct (Hr hart Hh) as [_ ->].
  - split; [lia|]. unfold FourHart.build.
    by destruct (Z.ltb_spec (FourHart.LEVEL0_OFFSET + 0x1000) (zlen template)) as [|Hl];
      [|unfold FourHart.LEVEL0_OFFSET in Hl; lia].
Qed.

(** ** The remapping fixture *)

Lemma shared_build_false template image :
  Shared.build template false = Ok image →
  zlen template ≤ Shared.IMAGE_BYTES ∧ zlen image = Shared.IMAGE_BYTES ∧
  holds image Shared.ROOT_OFFSET 1536 (table_word Shared.PHYSICAL_BASE) ∧
  ∀ i, 0 ≤ i < Shared.ROOT_OFFSET → image !! Z.to_nat i = template_byte template i.
Proof.
  intros Hbuild.
  assert (Ht : zlen template ≤ Shared.IMAGE_BYTES).
  { unfold Shared.build in Hbuild.
    destruct (Z.ltb_spec Shared.IMAGE_BYTES (zlen template)); [done|lia]. }
  destruct (shared_base_spec template Ht) as (image' & Hb & ?).
  rewrite Hb in Hbuild. by injection Hbuild as ->.
Qed.

(** With the fixture, [build] is the plain image plus three stores. *)
Lemma shared_build_tlbi template :
  Shared.build template true =
    (Shared.build template false ≫= Shared.install_tlbi).
Proof.
  unfold Shared.build. destruct (_ <? _); [done|]. cbn zeta.
  generalize (slice_assign (slice_assign (zero_bytes Shared.IMAGE_BYTES) 0 (zlen template)
    template) Shared.ROOT_OFFSET Shared.IMAGE_BYTES
    (zero_bytes (Shared.IMAGE_BYTES - Shared.ROOT_OFFSET))).
  intros image. by destruct (Shared.map_window image).
Qed.

(** The level-0 leaves of the shared image. *)
Definition shared_leaf (tlbi_test : bool) (page : Z) : Z * Z :=
  if tlbi_test && (page =? Shared.TLBI_PTE_ALIAS_PAGE)
  then (Shared.PHYSICAL_BASE + Shared.LEVEL0_OFFSET, Shared.PTE_FLAGS_RWAD)
  else (Shared.PHYSICAL_BASE + page * 0x1000, Shared.PTE_FLAGS_RWXAD).

(** The three tables of the shared image, with or without the fixture. *)
Definition shared_word (tlbi_test : bool) (w : Z) : Z :=
  if (1024 <=? w) && (w <? 1056)
  then let '(p, f) := shared_leaf tlbi_test (w - 1024) in FourHart.pte p f
  else table_word Shared.PHYSICAL_BASE w.

Lemma shared_leaf_ok tlbi_test page :
  0 ≤ page < 32 →
  0 ≤ (shared_leaf tlbi_test page).1 < 2 ^ 56 ∧
  (shared_leaf tlbi_test page).1 mod 4096 = 0 ∧
  ((shared_leaf tlbi_test page).2 = 0xCF ∨ (shared_leaf tlbi_test page).2 = 0xC7).
Proof.
  intros Hp. unfold shared_leaf. destruct (_ && _); cbn [fst snd].
  - split_and!; [done..|by right].
  - unfold Shared.PHYSICAL_BASE. split_and!; [lia|lia| |by left].
    by replace (0x80000000 + page * 0x1000) with ((0x80000 + page) * 4096) by lia;
      apply Z.mod_mul.
Qed.

(** The layout, table contents and fixture data of both variants. *)
Lemma shared_build_spec template tlbi_test image :
  Shared.build template tlbi_test = Ok image →
  zlen image = Shared.IMAGE_BYTES ∧
  holds image Shared.ROOT_OFFSET 1536 (shared_word tlbi_test) ∧
  (tlbi_test = true →
     get_u64 image (Shared.TLBI_TARGET_PAGE * 0x1000) = Shared.TLBI_OLD_VALUE ∧
     get_u64 image (Shared.TLBI_NEW_PAGE * 0x1000) = Shared.TLBI_NEW_VALUE).
Proof.
  assert (Hplain : ∀ i, holds i Shared.ROOT_OFFSET 1536 (table_word Shared.PHYSICAL_BASE) →
            holds i Shared.ROOT_OFFSET 1536 (shared_word false)).
  { intros i Hi. eapply holds_ext; [exact Hi|]. intros w Hw.
    unfold shared_word, shared_leaf, table_word. cbn [andb].
    destruct ((1024 <=? w) && (w <? 1056)) eqn:E; [|by repeat case_match].
    b2p. by destruct (Z.eqb_spec w 1), (Z.eqb_spec w 512); try lia. }
  destruct tlbi_test; intros Hbuild.
  - rewrite shared_build_tlbi in Hbuild. apply bind_Ok in Hbuild as (i0 & H0 & Hbuild).
    apply shared_build_false in H0 as (_ & L0 & Htab & _). apply Hplain in Htab.
    unfold Shared.install_tlbi in Hbuild.
    rewrite put_u64_Ok in Hbuild by done. cbn [mbind result_bind] in Hbuild.
    rewrite put_u64_Ok in Hbuild by done. cbn [mbind result_bind] in Hbuild.
    rewrite put_u64_Ok in Hbuild by done. injection Hbuild as <-.
    change (Shared.LEVEL0_OFFSET + Shared.TLBI_PTE_ALIAS_PAGE * 8)
      with (Shared.ROOT_OFFSET + 8 * 1055).
    unfold Shared.IMAGE_BYTES, Shared.ROOT_OFFSET, Shared.LEVEL0_OFFSET,
      Shared.TLBI_TARGET_PAGE, Shared.TLBI_NEW_PAGE in *.
    set (v := Shared.pte _ _).
    assert (Hv : 0 ≤ v < 2 ^ 64) by done.
    pose proof (holds_store i0 0x20000 1536 _ 1055 v Htab ltac:(lia) ltac:(lia) ltac:(lia) Hv)
      as H1.
    pose proof (zlen_store i0 (0x20000 + 8 * 1055) v ltac:(lia) ltac:(lia)) as L1.
    set (i1 := slice_assign i0 _ _ _) in *.
    pose proof (same_outside_store i1 (24 * 0x1000) Shared.TLBI_OLD_VALUE
                  ltac:(lia) ltac:(lia)) as S2.
    pose proof S2 as [L2 _].
    pose proof (get_store_eq i1 (24 * 0x1000) Shared.TLBI_OLD_VALUE
                  ltac:(lia) ltac:(lia) ltac:(done)) as G2.
    set (i2 := slice_assign i1 _ _ _) in *.
    pose proof (same_outside_store i2 (28 * 0x1000) Shared.TLBI_NEW_VALUE
                  ltac:(lia) ltac:(lia)) as S3.
    pose proof S3 as [L3 _]. split_and!; [lia| |intros _; split].
    + eapply (same_outside_holds _ _ i2); [exact S3| |lia..].
      eapply (same_outside_holds _ _ i1); [exact S2| |lia..].
      eapply holds_ext; [exact H1|]. intros w Hw. cbn beta.
      unfold shared_word, shared_leaf, Shared.TLBI_PTE_ALIAS_PAGE. cbn [andb].
      destruct (Z.eqb_spec w 1055) as [->|]; [done|].
      destruct ((1024 <=? w) && (w <? 1056)); [|done].
      by destruct (Z.eqb_spec (w - 1024) 31); [lia|].
    + rewrite get_store_ne by lia. exact G2.
    + apply get_store_eq; [lia..|done].
  - apply shared_build_false in Hbuild as (_ & L & Htab & _).
    split_and!; [done|by apply Hplain|done].
Qed.

Lemma shared_phys_tables template tlbi_test image :
  Shared.build template tlbi_test = Ok image →
  ∀ w, 0 ≤ w < 1536 →
    phys Shared.PHYSICAL_BASE image (Shared.PHYSICAL_BASE + 0x20000 + 8 * w) =
      Some (shared_word tlbi_test w).
Proof.
  intros (L & Htab & _)%shared_build_spec w Hw.
  exact (phys_tables Shared.PHYSICAL_BASE _ Shared.ROOT_OFFSET _ _ Htab
           ltac:(done) ltac:(rewrite L; done) w Hw).
Qed.

(** C10: the single root of the shared image maps the same window to
    the image itself; with the remapping fixture, page 31 is instead a
    non-executable, writable alias of the level-0 page table, and the target
    and replacement pages start with the old and new marker values. *)
Theorem shared_translation template tlbi_test image va :
  Shared.build template tlbi_test = Ok image →
  0 ≤ va < 2 ^ 64 →
  Sv39.translate (phys Shared.PHYSICAL_BASE image)
      ((Shared.PHYSICAL_BASE + Shared.ROOT_OFFSET) / 4096) va =
    (if (Shared.VIRTUAL_BASE <=? va) && (va <? Shared.VIRTUAL_BASE + Shared.MAPPED_BYTES)
     then let page := (va - Shared.VIRTUAL_BASE) / 0x1000 in
          if tlbi_test && (page =? Shared.TLBI_PTE_ALIAS_PAGE)
          then Some (Shared.PHYSICAL_BASE + Shared.LEVEL0_OFFSET + va mod 0x1000,
                     Shared.PTE_FLAGS_RWAD)
          else Some (Shared.PHYSICAL_BASE + (va - Shared.VIRTUAL_BASE),
                     Shared.PTE_FLAGS_RWXAD)
     else None) ∧
  (tlbi_test = true →
     get_u64 image (Shared.TLBI_TARGET_PAGE * 0x1000) = Shared.TLBI_OLD_VALUE ∧
     get_u64 image (Shared.TLBI_NEW_PAGE * 0x1000) = Shared.TLBI_NEW_VALUE).
Proof.
  intros Hbuild Hva. split; [|by apply shared_build_spec in Hbuild as (_ & _ & ?)].
  pose proof (shared_phys_tables _ _ _ Hbuild) as Ht.
  destruct ((Shared.VIRTUAL_BASE <=? va) && _) eqn:E;
    unfold Shared.VIRTUAL_BASE, Shared.MAPPED_BYTES in *.
  - b2p. etransitivity; [apply (translate_page _ Shared.PHYSICAL_BASE (shared_leaf tlbi_test))|].
    + done.
    + apply shared_leaf_ok.
    + exact Ht.
    + lia.
    + unfold shared_leaf. cbn zeta. destruct (_ && _); [done|].
      do 2 f_equal. Z.div_mod_to_equations. lia.
  - apply (translate_fault _ Shared.PHYSICAL_BASE (shared_leaf tlbi_test)); try done.
    intros Hin. b2p. destruct E; b2p; lia.
Qed.

Lemma shared_build_total template tlbi_test :
  zlen template ≤ Shared.IMAGE_BYTES → ∃ image, Shared.build template tlbi_test = Ok image.
Proof.
  intros (image & Hb & _)%shared_base_spec. destruct tlbi_test; [|by exists image].
  rewrite shared_build_tlbi, Hb. cbn [mbind result_bind]. unfold Shared.install_tlbi.
  rewrite put_u64_Ok by done. cbn [mbind result_bind].
  rewrite put_u64_Ok by done. cbn [mbind result_bind].
  rewrite put_u64_Ok by done. by eexists.
Qed.

Lemma shared_translation_witness :
  ∃ image, Shared.build [0x13] true = Ok image ∧
    Sv39.translate (phys Shared.PHYSICAL_BASE image)
      ((Shared.PHYSICAL_BASE + Shared.ROOT_OFFSET) / 4096) 0x4001F0C0
      = Some (0x800220C0, 0xC7) ∧
    get_u64 image 0x18000 = 0x1111222233334444.
Proof.
  destruct (shared_build_total [0x13] true) as [image Hb]; [vm_compute; discriminate|].
  exists image. split; [exact Hb|].
  destruct (shared_translation [0x13] true image 0x4001F0C0 Hb) as [Ht Hd];
    [vm_compute; split; congruence|].
  split; [rewrite Ht; reflexivity|]. destruct (Hd eq_refl) as [Ho _]. exact Ho.
Defined.
