(* ===== verification/Multichase.v ===== *)
(** * Pointer-chase ring generator

    [tools/gen_multichase_ring.py]: a SplitMix64 generator, the forward
    Fisher-Yates permutation, the locality-grouped visiting order, the
    successor table with its self-check, and the emitted assembly. *)

From stdpp Require Import base numbers list strings gmap sorting.
From Stdlib Require Import ZArith Lia Ascii.
From S2P Require Import Prelude PyText.

Open Scope Z_scope.

(** ** SplitMix64

    A generator object is its 64-bit [state]; a call returns the new state
    with the value. *)

Definition MASK64 : Z := Z.shiftl 1 64 - 1.

Definition rng_init (seed : Z) : Z := Z.land seed MASK64.

Definition rng_next (state : Z) : Z * Z :=
  let state := Z.land (state + 0x9E3779B97F4A7C15) MASK64 in
  let value := state in
  let value := Z.land (Z.lxor value (Z.shiftr value 30) * 0xBF58476D1CE4E5B9) MASK64 in
  let value := Z.land (Z.lxor value (Z.shiftr value 27) * 0x94D049BB133111EB) MASK64 in
  (state, Z.lxor value (Z.shiftr value 31)).

Definition bounded (state limit_inclusive : Z) : result (Z * Z) :=
  raise (ValueError "negative RNG limit") when limit_inclusive <? 0;;
  let '(state, value) := rng_next state in
  Ok (state, value mod (limit_inclusive + 1)).

(** ** Permutations *)

(** One turn of the shuffle loop. *)
Definition shuffle_step (base : Z) (s : Z * list Z) (index : Z) : result (Z * list Z) :=
  let '(rng, permutation) := s in
  '(rng, target) ← bounded rng index;
  x ← get_item permutation target;
  permutation ← set_item permutation index x;
  permutation ← set_item permutation target (base + index);
  Ok (rng, permutation).

Definition random_permutation (count base rng : Z) : result (Z * list Z) :=
  foldM (shuffle_step base) (rng, replicate (Z.to_nat count) 0) (zrange 0 count).

(** The loop body over [group_order]. *)
Definition add_group (nodes nodes_per_locality_group : Z) (s : Z * list Z) (group : Z)
    : result (Z * list Z) :=
  let '(rng, order) := s in
  let base := group * nodes_per_locality_group in
  let count := Z.min nodes_per_locality_group (nodes - base) in
  '(rng, p) ← random_permutation count base rng;
  Ok (rng, order ++ p).

Definition make_order (nodes nodes_per_locality_group rng : Z) : result (Z * list Z) :=
  raise (ZeroDivisionError "integer division or modulo by zero")
    when nodes_per_locality_group =? 0;;
  let groups := (nodes + nodes_per_locality_group - 1) / nodes_per_locality_group in
  '(rng, group_order) ← random_permutation groups 0 rng;
  '(rng, order) ← foldM (add_group nodes nodes_per_locality_group) (rng, []) group_order;
  raise (RuntimeError "internal error: generated order is not a permutation")
    when negb (bool_decide (merge_sort Z.le order = zrange 0 nodes));;
  Ok (rng, order).

(** ** Successors *)

Definition link (order : list Z) (successors : list Z) (entry : Z * Z) : result (list Z) :=
  let '(index, node) := entry in
  next ← get_item order ((index + 1) mod zlen order);
  set_item successors node next.

(** One turn of the checking walk: [(visited, node)]. *)
Definition visit (successors : list Z) (s : gset Z * Z) (_ : Z) : result (gset Z * Z) :=
  let '(visited, node) := s in
  raise (RuntimeError "internal error: ring closes before visiting every node")
    when bool_decide (node ∈ visited);;
  next ← get_item successors node;
  Ok ({[node]} ∪ visited, next).

Definition make_successors (order : list Z) : result (list Z) :=
  successors ← foldM (link order) (replicate (length order) 0) (enumerate order);
  '(visited, node) ← foldM (visit successors) (∅, 0) order;
  raise (RuntimeError "internal error: generated links do not form one ring")
    when negb (node =? 0) || negb (Z.of_nat (size visited) =? zlen order);;
  Ok successors.

(** ** Emission

    The generated file is a list of lines; the data lines are structured so
    that their layout can be reasoned about, and [render] prints one. *)

Inductive line :=
  | Text (s : string)              (* comments, directives, labels *)
  | Zero (n : Z)                   (* "    .zero n" *)
  | Quad (offset : Z).             (* "    .quad pointer_chase_arena + offset" *)

Definition dquote : string := String "034"%char EmptyString.

Definition render (l : line) : string :=
  match l with
  | Text s => s
  | Zero n => "    .zero " +:+ str_int n
  | Quad offset => "    .quad pointer_chase_arena + " +:+ str_int offset
  end.

Definition header_lines (stride : Z) : list line :=
  Text <$> ["/*";
    " * Generated Google Multi-Chase-style pointer ring.";
    " *";
    " * Copyright 2015 Google Inc. All Rights Reserved.";
    " * SPDX-License-Identifier: Apache-2.0";
    " *";
    " * Modified for OpenRV64 into a static, deterministic ring.";
    " * Do not edit; regenerate with tools/gen_multichase_ring.py.";
    " */";
    "";
    ".section .rodata.pointer_chase, " +:+ dquote +:+ "a" +:+ dquote;
    ".balign " +:+ str_int stride;
    ".global pointer_chase_arena";
    "pointer_chase_arena:"].

Definition footer_lines : list line :=
  Text <$> [".global pointer_chase_arena_end"; "pointer_chase_arena_end:"; ""].

(** The lines of one element. *)
Definition node_lines (stride : Z) (offsets : list Z) (entry : Z * Z) : result (list line) :=
  let '(node, successor) := entry in
  offset ← get_item offsets node;
  target ← get_item offsets successor;
  let target_offset := successor * stride + target in
  let tail := stride - offset - 8 in
  Ok ((if negb (offset =? 0) then [Zero offset] else [])
      ++ (if node =? 0 then [Text ".global pointer_chase_start"; Text "pointer_chase_start:"]
          else [])
      ++ [Quad target_offset]
      ++ (if negb (tail =? 0) then [Zero tail] else [])).

(** [[rng.bounded(slots - 1) * 8 for _ in range(nodes)]] *)
Definition pick_offsets (slots nodes rng : Z) : result (Z * list Z) :=
  foldM (λ s _, let '(rng, offsets) := s in
           '(rng, k) ← bounded rng (slots - 1); Ok (rng, offsets ++ [k * 8]))
    (rng, []) (zrange 0 nodes).

Definition emit_lines (byte_count stride locality seed : Z) : result (list line) :=
  raise (ExitWith "bytes, stride, and locality must be positive")
    when (byte_count <=? 0) || (stride <=? 0) || (locality <=? 0);;
  raise (ExitWith "stride must be a multiple of 8 and at least 8")
    when (stride <? 8) || negb (stride mod 8 =? 0);;
  raise (ExitWith "bytes must be a multiple of stride")
    when negb (byte_count mod stride =? 0);;
  raise (ExitWith "TLB locality must be a multiple of stride")
    when negb (locality mod stride =? 0);;
  let nodes := byte_count / stride in
  let rng := rng_init seed in
  '(rng, order) ← make_order nodes (locality / stride) rng;
  successors ← make_successors order;
  let slots := stride / 8 in
  '(rng, offsets) ← pick_offsets slots nodes rng;
  body ← mapR (node_lines stride offsets) (enumerate successors);
  Ok (header_lines stride ++ mjoin body ++ footer_lines).

(** The text written to the output file. *)
Definition emit (byte_count stride locality seed : Z) : result string :=
  lines ← emit_lines byte_count stride locality seed;
  Ok (join (String "010"%char EmptyString) (render <$> lines)).

(** ** The shuffle *)

Lemma bounded_total state limit :
  0 ≤ limit → ∃ state' v, bounded state limit = Ok (state', v) ∧ 0 ≤ v ≤ limit.
Proof.
  intros Hl. unfold bounded. destruct (Z.ltb_spec limit 0); [lia|].
  destruct (rng_next state) as [s v]. eexists _, _; split; [done|].
  pose proof (Z.mod_pos_bound v (limit + 1)). lia.
Qed.

(** The two writes of one turn put the new value among the first ones. *)
Lemma shuffle_writes (l : list Z) (i t : nat) x y :
  (t ≤ i)%nat → (i < length l)%nat → l !! t = Some x →
  take (S i) (<[t:=y]> (<[i:=x]> l)) ≡ₚ take i l ++ [y].
Proof.
  intros Hti Hi Hx.
  destruct (decide (t = i)) as [->|Hne].
  - rewrite list_insert_insert, decide_True by done.
    erewrite take_S_r by (by apply list_lookup_insert_eq).
    by rewrite take_insert_ge by lia.
  - erewrite take_S_r by
      (rewrite list_lookup_insert_ne by lia; by apply list_lookup_insert_eq).
    rewrite take_insert_lt by lia. rewrite take_insert_ge by lia.
    apply insert_Permutation. rewrite lookup_take_lt by lia. done.
Qed.

Definition shuffled (count base : Z) (don : list Z) (s : Z * list Z) : Prop :=
  zlen s.2 = Z.max 0 count ∧
  take (length don) s.2 ≡ₚ zrange base (base + zlen don).

Lemma shuffle_step_inv count base don index s :
  shuffled count base don s → (don ++ [index]) `prefix_of` zrange 0 count →
  ∃ s', shuffle_step base s index = Ok s' ∧ shuffled count base (don ++ [index]) s'.
Proof.
  intros [Hlen Hperm] Hpre. destruct s as [rng l]; simpl in *.
  apply zrange_prefix in Hpre as [-> Hi].
  rewrite zlen_zrange in Hperm by lia.
  destruct (bounded_total rng index) as (rng' & t & Ht & Hb); [lia|].
  unfold shuffle_step. rewrite Ht. cbn [mbind result_bind].
  assert (∃ x, l !! Z.to_nat t = Some x) as [x Hx].
  { apply lookup_lt_is_Some. unfold zlen in Hlen. lia. }
  rewrite (get_item_Ok _ _ x) by (done || lia). cbn [mbind result_bind].
  rewrite set_item_Ok by lia. cbn [mbind result_bind].
  rewrite set_item_Ok by (unfold zlen in *; rewrite length_insert; lia).
  eexists; split; [done|].
  assert (length (zrange 0 index) = Z.to_nat index) as Hl
    by (unfold zrange; rewrite length_seqZ; lia).
  split; simpl; [unfold zlen in *; by rewrite !length_insert|].
  rewrite zlen_snoc, zlen_zrange, length_app, Hl by lia.
  replace (length [index]) with 1%nat by done.
  replace (Z.to_nat index + 1)%nat with (S (Z.to_nat index)) by lia.
  rewrite shuffle_writes by (done || (unfold zlen in *; lia)).
  rewrite Z.sub_0_r, Z.add_assoc, zrange_snoc by lia.
  apply Permutation_app_tail. rewrite <-Hl, Hperm. by rewrite Z.sub_0_r.
Qed.

Lemma random_permutation_spec count base rng :
  ∃ rng' p, random_permutation count base rng = Ok (rng', p) ∧
    p ≡ₚ zrange base (base + count).
Proof.
  unfold random_permutation.
  destruct (foldM_total (shuffled count base) (shuffle_step base)
              (rng, replicate (Z.to_nat count) 0) (zrange 0 count))
    as ([rng' p] & Hf & Hlen & Hp).
  - split; simpl; [rewrite zlen_replicate; lia|].
    change (zlen (@nil Z)) with 0. rewrite zrange_empty by lia. by destruct (replicate _ _).
  - intros. by apply (shuffle_step_inv count base done x).
  - exists rng', p. split; [done|]. simpl in *.
    destruct (decide (0 ≤ count)).
    + rewrite zlen_zrange in Hp by lia. rewrite Z.sub_0_r in Hp.
      rewrite <-Hp. rewrite take_ge; [done|].
      unfold zlen, zrange in *. rewrite length_seqZ. lia.
    + rewrite zrange_empty by lia.
      destruct p; [done|]. rewrite zlen_cons in Hlen.
      pose proof (zlen_nonneg p). lia.
Qed.

(** ** The visiting order *)

(** The nodes of locality group [g]. *)
Definition group_nodes (nodes npg g : Z) : list Z :=
  zrange (g * npg) (g * npg + Z.min npg (nodes - g * npg)).

Lemma add_group_spec nodes npg gs s :
  ∃ rng' blocks, foldM (add_group nodes npg) s gs = Ok (rng', s.2 ++ mjoin blocks) ∧
    Forall2 (λ g block, block ≡ₚ group_nodes nodes npg g) gs blocks.
Proof.
  revert s. induction gs as [|g gs IH]; intros [rng l]; simpl.
  - exists rng, []. split; [by rewrite app_nil_r | constructor].
  - destruct (random_permutation_spec (Z.min npg (nodes - g * npg)) (g * npg) rng)
      as (rng1 & p & -> & Hp). cbn [mbind result_bind].
    destruct (IH (rng1, l ++ p)) as (rng2 & blocks & -> & Hb).
    exists rng2, (p :: blocks). simpl. by rewrite <-app_assoc; auto.
Qed.

Lemma mjoin_groups_prefix nodes npg (k : nat) :
  0 < npg → (Z.of_nat k - 1) * npg < nodes →
  mjoin (group_nodes nodes npg <$> zrange 0 (Z.of_nat k))
    = zrange 0 (Z.min nodes (Z.of_nat k * npg)).
Proof.
  intros Hn. induction k as [|k IH]; intros Hk.
  - rewrite !zrange_empty by lia. done.
  - rewrite Nat2Z.inj_succ, <-Z.add_1_r, zrange_snoc by lia.
    rewrite fmap_app, join_app, IH by nia. simpl. rewrite app_nil_r.
    unfold group_nodes. rewrite (Z.min_r nodes (Z.of_nat k * npg)) by nia.
    rewrite zrange_app by nia. f_equal. nia.
Qed.

Lemma mjoin_groups nodes npg :
  0 ≤ nodes → 0 < npg →
  mjoin (group_nodes nodes npg <$> zrange 0 ((nodes + npg - 1) / npg)) = zrange 0 nodes.
Proof.
  intros. pose proof (Z.div_mod (nodes + npg - 1) npg).
  pose proof (Z.mod_pos_bound (nodes + npg - 1) npg).
  assert (0 ≤ (nodes + npg - 1) / npg) by (apply Z.div_pos; lia).
  rewrite <-(Z2Nat.id ((nodes + npg - 1) / npg)) by done.
  rewrite mjoin_groups_prefix by (rewrite ?Z2Nat.id; nia).
  f_equal. rewrite Z2Nat.id by done. nia.
Qed.

Lemma merge_sort_zrange l a b : l ≡ₚ zrange a b → merge_sort Z.le l = zrange a b.
Proof.
  intros Hp. apply (StronglySorted_unique Z.le).
  - apply StronglySorted_merge_sort; apply _.
  - apply zrange_sorted.
  - by rewrite merge_sort_Permutation.
Qed.

Lemma make_order_spec nodes npg rng :
  0 ≤ nodes → 0 < npg →
  ∃ rng' order group_order blocks,
    make_order nodes npg rng = Ok (rng', order) ∧ order ≡ₚ zrange 0 nodes ∧
    group_order ≡ₚ zrange 0 ((nodes + npg - 1) / npg) ∧
    order = mjoin blocks ∧
    Forall2 (λ g block, block ≡ₚ group_nodes nodes npg g) group_order blocks.
Proof.
  intros Hn Hg. unfold make_order. destruct (Z.eqb_spec npg 0); [lia|].
  destruct (random_permutation_spec ((nodes + npg - 1) / npg) 0 rng)
    as (rng1 & gs & -> & Hgs). cbn [mbind result_bind]. rewrite Z.add_0_l in Hgs.
  destruct (add_group_spec nodes npg gs (rng1, [])) as (rng2 & blocks & -> & Hb).
  cbn [mbind result_bind]. simpl.
  assert (mjoin blocks ≡ₚ zrange 0 nodes) as Hp.
  { rewrite <-(mjoin_groups nodes npg) by done. rewrite <-Hgs.
    clear Hgs. induction Hb as [|g b gs bs Hgb Hb IH]; [done|].
    simpl. by rewrite Hgb, IH. }
  exists rng2, (mjoin blocks), gs, blocks.
  rewrite bool_decide_true by (by apply merge_sort_zrange). done.
Qed.

(** ** The ring *)

(** The list index an element of [order] is linked to. *)
Definition next_pos (n k : nat) : nat := (S k) mod n.

Definition linked (order : list Z) (don : list (Z * Z)) (successors : list Z) : Prop :=
  length successors = length order ∧
  ∀ (k : nat) x, (k < length don)%nat → order !! k = Some x →
    successors !! Z.to_nat x = order !! next_pos (length order) k.

Lemma perm_zrange_length order n : order ≡ₚ zrange 0 n → zlen order = Z.max 0 n.
Proof.
  intros Hp%Permutation_length. unfold zlen. rewrite Hp. unfold zrange.
  rewrite length_seqZ. lia.
Qed.

Lemma perm_zrange_elem order n :
  order ≡ₚ zrange 0 n → ∀ y, y ∈ order → 0 ≤ y < zlen order.
Proof.
  intros Hp y Hy. rewrite (perm_zrange_length _ _ Hp).
  assert (y ∈ zrange 0 n) as ?%elem_of_zrange by by rewrite <-Hp. lia.
Qed.

Lemma link_inv n order don entry successors :
  order ≡ₚ zrange 0 n →
  linked order don successors → (don ++ [entry]) `prefix_of` enumerate order →
  ∃ s', link order successors entry = Ok s' ∧ linked order (don ++ [entry]) s'.
Proof.
  intros Hperm [Hlen Hl] Hpre. destruct entry as [i x].
  apply enumerate_prefix in Hpre as [-> Hx].
  assert (NoDup order) as Hnd by (rewrite Hperm; apply NoDup_zrange).
  pose proof (perm_zrange_elem _ _ Hperm) as Hrange.
  pose proof (lookup_lt_Some _ _ _ Hx) as Hlt.
  pose proof (list_elem_of_lookup_2 _ _ _ Hx) as Hin%Hrange.
  assert (next_pos (length order) (length don) < length order)%nat as Hnp
    by (apply Nat.mod_upper_bound; lia).
  destruct (lookup_lt_is_Some_2 order _ Hnp) as [y Hy].
  unfold link.
  rewrite (get_item_Ok _ _ y); cycle 1.
  { apply Z.mod_pos_bound. unfold zlen. lia. }
  { rewrite <-Hy. f_equal. unfold next_pos, zlen.
    rewrite <-(Nat2Z.id (S _ mod _)), Nat2Z.inj_mod. f_equal. f_equal. lia. }
  cbn [mbind result_bind].
  rewrite set_item_Ok by (unfold zlen in *; lia).
  eexists; split; [done|]. split; [by rewrite length_insert|].
  rewrite length_app. intros k z Hk Hz. simpl in Hk.
  destruct (decide (k = length don)) as [->|Hne].
  - rewrite Hx in Hz. injection Hz as <-. rewrite list_lookup_insert_eq; [done|].
    unfold zlen in *. lia.
  - rewrite list_lookup_insert_ne; [apply Hl; [lia|done]|].
    pose proof (list_elem_of_lookup_2 _ _ _ Hz) as Hzr%Hrange.
    intros Heq. apply Hne. eapply NoDup_lookup; [done|done|].
    rewrite Hx. f_equal. lia.
Qed.

(** The node reached after [k] links from position [p]. *)
Definition ring_at (order : list Z) (p k : nat) : Z :=
  order !!! ((p + k) mod length order)%nat.

Definition walked (order : list Z) (p : nat) {A} (don : list A) (s : gset Z * Z) : Prop :=
  s.1 = list_to_set (ring_at order p <$> seq 0 (length don)) ∧
  s.2 = ring_at order p (length don).

Lemma mod_shift_inj (n p i j : nat) :
  (i < n)%nat → (j < n)%nat → ((p + i) mod n = (p + j) mod n)%nat → i = j.
Proof.
  intros Hi Hj Heq.
  pose proof (Nat.div_mod_eq (p + i) n). pose proof (Nat.div_mod_eq (p + j) n).
  assert ((p + i) / n = (p + j) / n)%nat; [|nia].
  rewrite Heq in *. nia.
Qed.

Lemma ring_at_lookup order p k :
  order ≠ [] → order !! ((p + k) mod length order)%nat = Some (ring_at order p k).
Proof.
  intros Hne. apply list_lookup_lookup_total_lt. apply Nat.mod_upper_bound.
  by destruct order.
Qed.

Lemma ring_at_inj order p i j :
  NoDup order → (i < length order)%nat → (j < length order)%nat →
  ring_at order p i = ring_at order p j → i = j.
Proof.
  intros Hnd Hi Hj Heq. assert (order ≠ []) by (by destruct order; simpl in *; [lia|]).
  apply (mod_shift_inj (length order) p); [done..|].
  eapply NoDup_lookup; [done|by apply ring_at_lookup|].
  rewrite Heq. by apply ring_at_lookup.
Qed.

Lemma NoDup_ring order p k :
  NoDup order → (k ≤ length order)%nat → NoDup (ring_at order p <$> seq 0 k).
Proof.
  intros Hnd Hk. apply NoDup_fmap_2_strong; [|apply NoDup_seq].
  intros i j Hi%elem_of_seq Hj%elem_of_seq. apply ring_at_inj; [done|lia|lia].
Qed.

Lemma ring_at_next order successors p k :
  order ≠ [] → linked order (enumerate order) successors →
  successors !! Z.to_nat (ring_at order p k) = Some (ring_at order p (S k)).
Proof.
  intros Hne [Hlen Hl].
  assert (((p + k) mod length order) < length order)%nat
    by (apply Nat.mod_upper_bound; by destruct order).
  rewrite (Hl ((p + k) mod length order)%nat).
  - rewrite <-(ring_at_lookup order p (S k)) by done. f_equal.
    unfold next_pos. rewrite <-Nat.add_1_r, Nat.Div0.add_mod_idemp_l. f_equal. lia.
  - by rewrite length_enumerate.
  - by apply ring_at_lookup.
Qed.

Lemma visit_inv order successors p don x s :
  NoDup order → (∀ y, y ∈ order → 0 ≤ y) → linked order (enumerate order) successors →
  walked order p don s → (don ++ [x]) `prefix_of` order →
  ∃ s', visit successors s x = Ok s' ∧ walked order p (don ++ [x]) s'.
Proof.
  intros Hnd Hpos Hl [Hv Hn] Hpre. destruct s as [visited node]; simpl in *. subst.
  apply prefix_length in Hpre. rewrite length_app in Hpre. simpl in Hpre.
  assert (order ≠ []) as Hne by (intros ->; simpl in *; lia).
  unfold visit. rewrite bool_decide_false; cycle 1.
  { rewrite elem_of_list_to_set, list_elem_of_fmap. intros (j & Heq & Hj%elem_of_seq).
    apply ring_at_inj in Heq; [lia|done|lia|lia]. }
  rewrite (get_item_Ok _ _ (ring_at order p (S (length don)))); cycle 1.
  { apply Hpos. eapply list_elem_of_lookup_2. by apply ring_at_lookup. }
  { by apply ring_at_next. }
  eexists; split; [done|]. unfold walked.
  replace (length (don ++ [x])) with (S (length don)) by (rewrite length_app; simpl; lia).
  split; [cbn [fst]|done].
  rewrite seq_S, fmap_app, list_to_set_app_L. simpl.
  rewrite union_empty_r_L. apply union_comm_L.
Qed.

Lemma make_successors_spec order n :
  order ≡ₚ zrange 0 n →
  ∃ successors, make_successors order = Ok successors ∧ linked order (enumerate order) successors.
Proof.
  intros Hp. pose proof (perm_zrange_elem _ _ Hp) as Hr.
  assert (NoDup order) as Hnd by (rewrite Hp; apply NoDup_zrange).
  unfold make_successors.
  destruct (foldM_total (linked order) (link order) (replicate (length order) 0)
    (enumerate order)) as (successors & -> & Hl).
  { split; [by rewrite length_replicate|]. intros k x Hk. simpl in Hk. lia. }
  { intros don e s. by apply (link_inv n). }
  cbn [mbind result_bind].
  destruct (decide (order = [])) as [->|Hne].
  { exists successors. split; [|done]. done. }
  assert (0 ∈ order) as [p Hp0]%list_elem_of_lookup.
  { rewrite Hp, elem_of_zrange. apply perm_zrange_length in Hp. unfold zlen in Hp.
    destruct order; [done|]. simpl in Hp. lia. }
  pose proof (lookup_lt_Some _ _ _ Hp0) as Hplt.
  destruct (foldM_total (walked order p (A := Z)) (visit successors) (∅, 0) order)
    as ([visited node] & -> & Hv & Hnode).
  { split; [done|]. simpl. unfold ring_at.
    rewrite Nat.add_0_r, Nat.mod_small by done.
    symmetry. by apply list_lookup_total_correct. }
  { intros don x s. apply visit_inv; [done| |done]. intros y Hy. apply Hr in Hy. lia. }
  cbn [mbind result_bind]. simpl in Hv, Hnode.
  assert (node = 0) as ->.
  { rewrite Hnode. unfold ring_at.
    replace (p + length order)%nat with (p + 1 * length order)%nat by lia.
    rewrite Nat.Div0.mod_add, Nat.mod_small by done.
    by apply list_lookup_total_correct. }
  assert (size visited = length order) as Hs.
  { rewrite Hv, size_list_to_set by (apply NoDup_ring; [done|lia]).
    by rewrite length_fmap, length_seq. }
  exists successors. split; [|done]. rewrite Hs. unfold zlen. by rewrite !Z.eqb_refl.
Qed.

(** Following the links of node 0. *)
Definition follow (successors : list Z) (k : nat) : Z :=
  Nat.iter k (λ node, successors !!! Z.to_nat node) 0.

Lemma follow_ring order successors p k :
  order !! p = Some 0 → linked order (enumerate order) successors →
  follow successors k = ring_at order p k.
Proof.
  intros Hp Hl. pose proof (lookup_lt_Some _ _ _ Hp).
  assert (order ≠ []) as Hne by (intros ->; simpl in *; lia).
  induction k as [|k IH]; simpl.
  - unfold ring_at. rewrite Nat.add_0_r, Nat.mod_small by done.
    symmetry. by apply list_lookup_total_correct.
  - unfold follow in *. simpl. rewrite IH.
    apply list_lookup_total_correct. by apply ring_at_next.
Qed.

Lemma NoDup_incl_perm (l k : list Z) :
  NoDup l → length l = length k → (∀ x, x ∈ l → x ∈ k) → l ≡ₚ k.
Proof.
  intros Hnd Hlen Hin. apply submseteq_length_Permutation; [|lia].
  by apply NoDup_submseteq.
Qed.

Lemma single_ring order successors n :
  0 < n → order ≡ₚ zrange 0 n → linked order (enumerate order) successors →
  follow successors <$> seq 0 (Z.to_nat n) ≡ₚ zrange 0 n ∧
  follow successors (Z.to_nat n) = 0.
Proof.
  intros Hn Hp Hl. pose proof (perm_zrange_length _ _ Hp) as Hlen. unfold zlen in Hlen.
  assert (0 ∈ order) as [p Hp0]%list_elem_of_lookup
    by (rewrite Hp, elem_of_zrange; lia).
  pose proof (lookup_lt_Some _ _ _ Hp0) as Hplt.
  assert (NoDup order) as Hnd by (rewrite Hp; apply NoDup_zrange).
  assert (order ≠ []) as Hne by (intros ->; simpl in *; lia).
  replace (Z.to_nat n) with (length order) by lia. split.
  - rewrite (list_fmap_ext _ (ring_at order p)) by (intros; by apply follow_ring).
    rewrite <-Hp. apply NoDup_incl_perm.
    + by apply NoDup_ring.
    + by rewrite length_fmap, length_seq.
    + intros x (j & -> & _)%list_elem_of_fmap.
      eapply list_elem_of_lookup_2. by apply ring_at_lookup.
  - rewrite (follow_ring order _ p) by done. unfold ring_at.
    replace (p + length order)%nat with (p + 1 * length order)%nat by lia.
    rewrite Nat.Div0.mod_add, Nat.mod_small by done.
    by apply list_lookup_total_correct.
Qed.

(** ** What the emitted section denotes *)

(** The bytes the lines lay out. *)
Definition line_size (l : line) : Z :=
  match l with Text _ => 0 | Zero n => n | Quad _ => 8 end.
Definition lines_size (ls : list line) : Z := foldr (λ l n, line_size l + n) 0 ls.

(** The pointers laid out from [base] on: address and target. *)
Fixpoint quads (base : Z) (ls : list line) : list (Z * Z) :=
  match ls with
  | [] => []
  | Quad target :: ls => (base, target) :: quads (base + 8) ls
  | l :: ls => quads (base + line_size l) ls
  end.

(** The address of a label. *)
Fixpoint label_at (name : string) (base : Z) (ls : list line) : option Z :=
  match ls with
  | [] => None
  | Text s :: ls => if decide (s = name) then Some base else label_at name base ls
  | l :: ls => label_at name (base + line_size l) ls
  end.

(** A pointer chase through a table of pointers. *)
Definition chase (table : list (Z * Z)) (start : Z) (k : nat) : Z :=
  Nat.iter k (λ a, default (-1) ((list_to_map table : gmap Z Z) !! a)) start.

Lemma lines_size_app ls ks : lines_size (ls ++ ks) = lines_size ls + lines_size ks.
Proof. induction ls as [|l ls IH]; simpl; [done|]. unfold lines_size in *. lia. Qed.

Lemma quads_app base ls ks :
  quads base (ls ++ ks) = quads base ls ++ quads (base + lines_size ls) ks.
Proof.
  revert base. induction ls as [|l ls IH]; intros base; simpl; [by rewrite Z.add_0_r|].
  rewrite Z.add_assoc. by destruct l; simpl; rewrite IH.
Qed.

Lemma label_at_app name base ls ks :
  label_at name base (ls ++ ks) =
    match label_at name base ls with
    | Some a => Some a
    | None => label_at name (base + lines_size ls) ks
    end.
Proof.
  revert base. induction ls as [|l ls IH]; intros base; simpl; [by rewrite Z.add_0_r|].
  rewrite Z.add_assoc. destruct l; simpl; rewrite ?IH, ?Z.add_0_r; [|done..].
  by case_decide.
Qed.

Section layout.
Variables (stride : Z) (offsets : list Z).
Let off (i : Z) : Z := offsets !!! Z.to_nat i.
Hypothesis off_ok : ∀ i, 0 ≤ i < zlen offsets → 0 ≤ off i ≤ stride - 8.

Definition node_block (entry : Z * Z) : list line :=
  let '(node, successor) := entry in
  (if negb (off node =? 0) then [Zero (off node)] else [])
  ++ (if node =? 0 then [Text ".global pointer_chase_start"; Text "pointer_chase_start:"]
      else [])
  ++ [Quad (successor * stride + off successor)]
  ++ (if negb (stride - off node - 8 =? 0) then [Zero (stride - off node - 8)] else []).

Lemma get_off i : 0 ≤ i < zlen offsets → get_item offsets i = Ok (off i).
Proof.
  intros Hi. apply get_item_Ok; [lia|]. apply list_lookup_lookup_total_lt.
  unfold zlen in Hi. lia.
Qed.

Lemma node_lines_block i j :
  0 ≤ i < zlen offsets → 0 ≤ j < zlen offsets →
  node_lines stride offsets (i, j) = Ok (node_block (i, j)).
Proof. intros. unfold node_lines. by rewrite !get_off by done. Qed.

Lemma node_block_layout base i j :
  lines_size (node_block (i, j)) = stride ∧
  quads base (node_block (i, j)) = [(base + off i, j * stride + off j)] ∧
  label_at "pointer_chase_start:" base (node_block (i, j)) =
    if i =? 0 then Some (base + off i) else None.
Proof.
  unfold node_block.
  destruct (Z.eqb_spec (off i) 0) as [E1|E1], (Z.eqb_spec i 0) as [E2|E2],
    (Z.eqb_spec (stride - off i - 8) 0) as [E3|E3]; simpl; rewrite ?E1;
    repeat split; simpl; rewrite ?Z.add_0_r, ?Z.mul_0_l; try lia; done.
Qed.

Lemma blocks_layout (m : Z) (l : list Z) :
  let blocks := mjoin (node_block <$> zip (zrange m (m + zlen l)) l) in
  lines_size blocks = zlen l * stride ∧
  quads (m * stride) blocks =
    (λ e : Z * Z, (e.1 * stride + off e.1, e.2 * stride + off e.2))
      <$> zip (zrange m (m + zlen l)) l.
Proof.
  revert m. induction l as [|j l IH]; intros m.
  - rewrite zlen_nil, zrange_empty by lia. done.
  - rewrite zlen_cons, zrange_cons by (pose proof (zlen_nonneg l); lia).
    replace (m + (1 + zlen l)) with (m + 1 + zlen l) by lia.
    destruct (IH (m + 1)) as [IHs IHq]. clear IH.
    destruct (node_block_layout (m * stride) m j) as (Hs & Hq & _).
    set (zs := zrange (m + 1) (m + 1 + zlen l)) in *. cbn zeta in IHs, IHq |- *.
    change (mjoin (node_block <$> zip (m :: zs) (j :: l)))
      with (node_block (m, j) ++ mjoin (node_block <$> zip zs l)).
    rewrite lines_size_app, quads_app, Hs, Hq, IHs.
    replace (m * stride + stride) with ((m + 1) * stride) by lia.
    rewrite IHq. split; [lia|done].
Qed.
End layout.

(** ** The chase over the emitted table *)

Section chasing.
Variables (stride n : Z) (off : Z → Z) (order successors : list Z).
Hypothesis off_ok : ∀ i, 0 ≤ i < n → 0 ≤ off i ≤ stride - 8.
Hypothesis n_pos : 0 < n.
Hypothesis order_perm : order ≡ₚ zrange 0 n.
Hypothesis order_linked : linked order (enumerate order) successors.

Let addr (i : Z) : Z := i * stride + off i.
Definition table : list (Z * Z) :=
  (λ e : Z * Z, (addr e.1, addr e.2)) <$> enumerate successors.

Lemma addr_inj i j : 0 ≤ i < n → 0 ≤ j < n → addr i = addr j → i = j.
Proof.
  intros Hi Hj Heq. unfold addr in Heq.
  pose proof (off_ok i Hi). pose proof (off_ok j Hj). nia.
Qed.

Lemma zlen_successors : zlen successors = n.
Proof.
  destruct order_linked as [Hl _]. unfold zlen. rewrite Hl.
  pose proof (perm_zrange_length _ _ order_perm) as H. unfold zlen in H. lia.
Qed.

Lemma table_addresses : table.*1 = addr <$> zrange 0 n.
Proof.
  unfold table. rewrite <-list_fmap_compose, <-zlen_successors.
  unfold enumerate. generalize zlen_successors. intros _.
  rewrite <-(fst_zip (zrange 0 (zlen successors)) successors) at 2.
  - by rewrite <-list_fmap_compose.
  - unfold zrange, zlen. rewrite length_seqZ. lia.
Qed.

Lemma table_NoDup : NoDup table.*1.
Proof.
  rewrite table_addresses. apply NoDup_fmap_2_strong; [|apply NoDup_zrange].
  intros i j Hi%elem_of_zrange Hj%elem_of_zrange. by apply addr_inj.
Qed.

Lemma follow_bound k : 0 ≤ follow successors k < n.
Proof.
  pose proof (perm_zrange_length _ _ order_perm) as Hlen. unfold zlen in Hlen.
  assert (0 ∈ order) as [p Hp0]%list_elem_of_lookup
    by (rewrite order_perm, elem_of_zrange; lia).
  rewrite (follow_ring order _ p) by done.
  apply elem_of_zrange. rewrite <-order_perm. eapply list_elem_of_lookup_2.
  apply ring_at_lookup. intros ->. simpl in *. lia.
Qed.

Lemma chase_follow k : chase table (addr 0) k = addr (follow successors k).
Proof.
  induction k as [|k IH]; [done|]. unfold chase in *. simpl. rewrite IH.
  pose proof (follow_bound k) as Hb.
  rewrite (elem_of_list_to_map_1 table _ (addr (follow successors (S k)))); [done| |].
  - apply table_NoDup.
  - unfold table. apply list_elem_of_fmap.
    exists (follow successors k, follow successors (S k)). split; [done|].
    apply (list_elem_of_lookup_2 _ (Z.to_nat (follow successors k))).
    rewrite lookup_enumerate. simpl.
    rewrite (list_lookup_lookup_total_lt successors).
    + simpl. by rewrite Z2Nat.id by lia.
    + pose proof zlen_successors as H. unfold zlen in H. lia.
Qed.

Lemma chase_ring :
  chase table (addr 0) <$> seq 0 (Z.to_nat n) ≡ₚ table.*1 ∧
  chase table (addr 0) (Z.to_nat n) = addr 0.
Proof.
  destruct (single_ring order successors n) as [Hr Hz]; [done..|]. split.
  - rewrite table_addresses, <-Hr, <-list_fmap_compose.
    rewrite (list_fmap_ext _ (addr ∘ follow successors)); [done|].
    intros. by rewrite chase_follow.
  - by rewrite chase_follow, Hz.
Qed.
End chasing.

Lemma pick_offsets_spec slots nodes rng :
  0 < slots → 0 ≤ nodes →
  ∃ rng' offsets, pick_offsets slots nodes rng = Ok (rng', offsets) ∧
    zlen offsets = nodes ∧ Forall (λ o, ∃ k, o = k * 8 ∧ 0 ≤ k < slots) offsets.
Proof.
  intros Hs Hn. unfold pick_offsets.
  set (P := λ (don : list Z) (s : Z * list Z), zlen s.2 = zlen don ∧
    Forall (λ o, ∃ k, o = k * 8 ∧ 0 ≤ k < slots) s.2).
  destruct (foldM_total P (λ s _, let '(rng, offsets) := s in
    '(rng, k) ← bounded rng (slots - 1); Ok (rng, offsets ++ [k * 8])) (rng, [])
    (zrange 0 nodes)) as ([rng' offs] & -> & Hl & Hf).
  - split; [done|constructor].
  - intros don x [r offs] [Hl Hf] _. simpl in *.
    destruct (bounded_total r (slots - 1)) as (r' & k & -> & Hk); [lia|].
    eexists; split; [done|]. split; simpl; [rewrite !zlen_snoc; lia|].
    apply Forall_app. split; [done|]. apply Forall_singleton. exists k. lia.
  - exists rng', offs. simpl in Hl. rewrite zlen_zrange in Hl by lia.
    split; [done|]. split; [lia|done].
Qed.

Lemma header_layout stride :
  lines_size (header_lines stride) = 0 ∧ quads 0 (header_lines stride) = [] ∧
  label_at "pointer_chase_start:" 0 (header_lines stride) = None.
Proof. done. Qed.

Lemma body_total stride offsets order successors n :
  0 < n → order ≡ₚ zrange 0 n → linked order (enumerate order) successors →
  zlen offsets = n →
  mapR (node_lines stride offsets) (enumerate successors)
    = Ok (node_block stride offsets <$> enumerate successors).
Proof.
  intros Hn Hp Hl Ho. apply mapR_total. intros [i j] Hin.
  apply list_elem_of_lookup in Hin as [k Hk]. rewrite lookup_enumerate in Hk.
  apply fmap_Some in Hk as (j' & Hj & [= -> ->]).
  pose proof (perm_zrange_length _ _ Hp) as Hlen.
  pose proof Hl as [Hls Hl']. pose proof (lookup_lt_Some _ _ _ Hj) as Hk.
  apply node_lines_block; [unfold zlen in *; lia|].
  assert (Z.of_nat k ∈ order) as [q Hq]%list_elem_of_lookup
    by (rewrite Hp, elem_of_zrange; unfold zlen in *; lia).
  pose proof (lookup_lt_Some _ _ _ Hq) as Hq'.
  rewrite (Hl' q (Z.of_nat k)), Nat2Z.id in Hj || specialize (Hl' q (Z.of_nat k)).
  rewrite length_enumerate, Nat2Z.id in Hl'. rewrite Hl' in Hj by done.
  apply list_elem_of_lookup_2 in Hj.
  pose proof (perm_zrange_elem _ _ Hp _ Hj). unfold zlen in *. lia.
Qed.

(** Arguments [emit] accepts. *)
Definition valid_arena (byte_count stride locality : Z) : bool :=
  (0 <? byte_count) && (0 <? stride) && (0 <? locality) && (stride mod 8 =? 0)
  && (byte_count mod stride =? 0) && (locality mod stride =? 0).

Lemma valid_arena_facts byte_count stride locality :
  valid_arena byte_count stride locality = true →
  8 ≤ stride ∧ stride mod 8 = 0 ∧ byte_count = byte_count / stride * stride ∧
  0 < byte_count / stride ∧ 0 < locality / stride.
Proof.
  unfold valid_arena. intros H. b2p.
  assert (8 ≤ stride) by (pose proof (Z.div_mod stride 8); lia).
  pose proof (Z.div_mod byte_count stride). pose proof (Z.div_mod locality stride).
  repeat split; nia.
Qed.

(** What [emit_lines] computes once the arguments are accepted. *)
Lemma emit_lines_valid byte_count stride locality seed :
  valid_arena byte_count stride locality = true →
  ∃ order successors offsets,
    let n := byte_count / stride in
    order ≡ₚ zrange 0 n ∧ linked order (enumerate order) successors ∧
    zlen offsets = n ∧ Forall (λ o, ∃ k, o = k * 8 ∧ 0 ≤ k < stride / 8) offsets ∧
    emit_lines byte_count stride locality seed =
      Ok (header_lines stride ++ mjoin (node_block stride offsets <$> enumerate successors)
          ++ footer_lines).
Proof.
  intros Hv. pose proof (valid_arena_facts _ _ _ Hv) as (H8 & Hm & Hb & Hn & Hl).
  unfold valid_arena in Hv. b2p. unfold emit_lines.
  destruct (Z.leb_spec byte_count 0), (Z.leb_spec stride 0), (Z.leb_spec locality 0);
    try lia.
  destruct (Z.ltb_spec stride 8); [lia|].
  do 3 (match goal with H : ?x = 0 |- context [negb (?x =? 0)] =>
    rewrite (proj2 (Z.eqb_eq x 0) H) end). cbn [orb negb].
  destruct (make_order_spec (byte_count / stride) (locality / stride) (rng_init seed))
    as (rng1 & order & _ & _ & -> & Hp & _); [lia..|]. cbn [mbind result_bind].
  destruct (make_successors_spec order _ Hp) as (successors & -> & Hlink).
  cbn [mbind result_bind].
  destruct (pick_offsets_spec (stride / 8) (byte_count / stride) rng1)
    as (rng2 & offsets & -> & Ho & Hf); [Z.div_mod_to_equations; lia|lia|].
  cbn [mbind result_bind].
  rewrite (body_total _ _ order _ (byte_count / stride)) by done.
  exists order, successors, offsets. done.
Qed.

(** ** Properties *)

(** emit accepts exactly the arena parameters that are positive, with a stride
    multiple of 8, and arena size and locality multiples of the stride; with those
    no check of the generator can fire. *)
Theorem emit_accepts byte_count stride locality seed :
  is_Ok (emit byte_count stride locality seed) = valid_arena byte_count stride locality.
Proof.
  destruct (valid_arena byte_count stride locality) eqn:Hv.
  - destruct (emit_lines_valid _ _ _ seed Hv) as (? & ? & ? & ? & ? & ? & ? & He).
    unfold emit. by rewrite He.
  - unfold emit, emit_lines. unfold valid_arena in Hv.
    destruct (Z.leb_spec byte_count 0), (Z.leb_spec stride 0), (Z.leb_spec locality 0);
      try done; cbn [orb].
    rewrite !(proj2 (Z.ltb_lt 0 _)) in Hv by done. simpl in Hv.
    destruct (stride mod 8 =? 0); [|by rewrite orb_true_r].
    destruct (stride <? 8); [done|].
    destruct (byte_count mod stride =? 0); [|done].
    by destruct (locality mod stride =? 0).
Qed.

(** the permutation of one call is a permutation of the whole arena, made of one
    block per locality group, each a permutation of that group's nodes; the groups
    are visited in a permuted order. *)
Theorem order_keeps_locality nodes npg rng :
  0 ≤ nodes → 0 < npg →
  ∃ rng' order group_order blocks,
    make_order nodes npg rng = Ok (rng', order) ∧ order ≡ₚ zrange 0 nodes ∧
    group_order ≡ₚ zrange 0 ((nodes + npg - 1) / npg) ∧
    order = mjoin blocks ∧
    Forall2 (λ g block, block ≡ₚ group_nodes nodes npg g) group_order blocks.
Proof. apply make_order_spec. Qed.

Lemma order_keeps_locality_witness :
  ∃ rng' order group_order blocks,
    make_order 5 2 (rng_init 1) = Ok (rng', order) ∧ order ≡ₚ zrange 0 5 ∧
    group_order ≡ₚ zrange 0 ((5 + 2 - 1) / 2) ∧ order = mjoin blocks ∧
    Forall2 (λ g block, block ≡ₚ group_nodes 5 2 g) group_order blocks.
Proof. apply (order_keeps_locality 5 2 (rng_init 1)); lia. Defined.

(** The emitted program around the node blocks. *)
Definition program (stride : Z) (offsets successors : list Z) : list line :=
  header_lines stride ++ mjoin (node_block stride offsets <$> enumerate successors) ++ footer_lines.

Lemma program_layout stride offsets successors :
  let lines := program stride offsets successors in
  lines_size lines = zlen successors * stride ∧
  quads 0 lines = table stride (λ i, offsets !!! Z.to_nat i) successors ∧
  (successors ≠ [] → label_at "pointer_chase_start:" 0 lines = Some (offsets !!! 0%nat)).
Proof.
  cbv zeta. unfold program. destruct (blocks_layout stride offsets 0 successors) as [Hsize Hquads].
  rewrite Z.add_0_l in Hsize, Hquads. fold (enumerate successors) in Hsize, Hquads.
  destruct (header_layout stride) as (Hh1 & Hh2 & Hh3). split; [|split].
  - rewrite !lines_size_app, Hh1, Hsize. change (lines_size footer_lines) with 0. lia.
  - rewrite quads_app, Hh2, Hh1, quads_app. rewrite Z.mul_0_l in Hquads.
    change (0 + 0) with 0. rewrite Hquads. by rewrite app_nil_r.
  - intros Hne. rewrite label_at_app, Hh3, label_at_app, Hh1. change (0 + 0) with 0.
    unfold enumerate. destruct successors as [|j l]; [done|].
    rewrite zrange_cons by (rewrite zlen_cons; pose proof (zlen_nonneg l); lia).
    cbn [zip zip_with fmap list_fmap mjoin list_join]. rewrite label_at_app.
    destruct (node_block_layout stride offsets 0 0 j) as (_ & _ & ->). done.
Qed.

(** Every pointer lies in its node, aligned to eight bytes. *)
Lemma table_aligned stride off successors (i : nat) a t :
  stride mod 8 = 0 →
  (∀ i, 0 ≤ i < zlen successors → ∃ k, off i = k * 8 ∧ 0 ≤ k < stride / 8) →
  table stride off successors !! i = Some (a, t) →
  Z.of_nat i * stride ≤ a ≤ Z.of_nat i * stride + stride - 8 ∧ a mod 8 = 0.
Proof.
  intros Hm Hk Hi. unfold table in Hi. rewrite list_lookup_fmap, lookup_enumerate in Hi.
  destruct (successors !! i) as [j|] eqn:Hj; [|done].
  simpl in Hi. injection Hi as <- <-. apply lookup_lt_Some in Hj.
  destruct (Hk (Z.of_nat i)) as (k & Hok & Hb); [unfold zlen; lia|]. rewrite Hok.
  apply Z.mod_divide in Hm as [q ->]; [|lia]. rewrite Z.div_mul in Hb by lia. split; [lia|].
  replace (Z.of_nat i * (q * 8) + k * 8) with ((Z.of_nat i * q + k) * 8) by lia.
  apply Z.mod_mul. lia.
Qed.

(** For accepted parameters the section emitted is exactly the arena: it has
    [byte_count] bytes, one aligned pointer inside every stride-sized element, and a
    chase from the start label visits every pointer exactly once before it returns
    to the start. *)
Theorem emit_single_ring byte_count stride locality seed :
  valid_arena byte_count stride locality = true →
  ∃ lines start,
    let nodes := Z.to_nat (byte_count / stride) in
    let pointers := quads 0 lines in
    emit_lines byte_count stride locality seed = Ok lines ∧
    lines_size lines = byte_count ∧
    label_at "pointer_chase_start:" 0 lines = Some start ∧
    length pointers = nodes ∧
    (∀ i a t, pointers !! i = Some (a, t) →
       Z.of_nat i * stride ≤ a ≤ Z.of_nat i * stride + stride - 8 ∧ a mod 8 = 0) ∧
    (chase pointers start <$> seq 0 nodes ≡ₚ pointers.*1) ∧
    chase pointers start nodes = start.
Proof.
  intros Hv. pose proof (valid_arena_facts _ _ _ Hv) as (H8 & Hm & Hb & Hn & _).
  destruct (emit_lines_valid _ _ _ seed Hv)
    as (order & successors & offsets & Hp & Hl & Ho & Hf & He).
  set (n := byte_count / stride) in *.
  set (off := λ i, offsets !!! Z.to_nat i).
  assert (∀ i, 0 ≤ i < n → ∃ k, off i = k * 8 ∧ 0 ≤ k < stride / 8) as Hk.
  { intros i Hi. unfold off. rewrite Forall_lookup in Hf.
    apply (Hf (Z.to_nat i)). apply list_lookup_lookup_total_lt. unfold zlen in Ho. lia. }
  assert (∀ i, 0 ≤ i < n → 0 ≤ off i ≤ stride - 8) as Hoff.
  { intros i Hi. destruct (Hk i Hi) as (k & -> & ?). Z.div_mod_to_equations. lia. }
  pose proof (zlen_successors n order successors Hn Hp Hl) as Hsucc.
  destruct (program_layout stride offsets successors) as (Hsize & Hq & Hstart).
  exists (program stride offsets successors), (off 0). cbn zeta. rewrite Hq. fold off.
  split; [done|]. split; [rewrite Hsize, Hsucc; lia|].
  split; [apply Hstart; intros ->; rewrite zlen_nil in Hsucc; lia|].
  split; [unfold table; rewrite length_fmap, length_enumerate; unfold zlen in Hsucc; lia|].
  split; [intros i a t; apply table_aligned; [done|by rewrite Hsucc]|].
  pose proof (chase_ring stride n off order successors Hoff Hn Hp Hl) as [Hr Hz].
  rewrite Z.mul_0_l, Z.add_0_l in Hr, Hz. done.
Qed.

(** C16: emit accepts exactly the arena parameters that are positive, with a stride
    multiple of 8, and arena size and locality multiples of the stride; with those no
    check of the generator can fire, and the section emitted is the arena: it has
    [byte_count] bytes, one aligned pointer inside every stride-sized element, and a chase
    from the start label visits every pointer exactly once before it returns to the
    start. *)
Theorem emit_correct byte_count stride locality seed :
  match emit_lines byte_count stride locality seed with
  | Err _ =>
      valid_arena byte_count stride locality = false ∧
      is_Ok (emit byte_count stride locality seed) = false
  | Ok lines =>
      valid_arena byte_count stride locality = true ∧
      emit byte_count stride locality seed = Ok (join newline (render <$> lines)) ∧
      ∃ start,
        let nodes := Z.to_nat (byte_count / stride) in
        let pointers := quads 0 lines in
        lines_size lines = byte_count ∧
        label_at "pointer_chase_start:" 0 lines = Some start ∧
        length pointers = nodes ∧
        (∀ i a t, pointers !! i = Some (a, t) →
           Z.of_nat i * stride ≤ a ≤ Z.of_nat i * stride + stride - 8 ∧ a mod 8 = 0) ∧
        (chase pointers start <$> seq 0 nodes ≡ₚ pointers.*1) ∧
        chase pointers start nodes = start
  end.
Proof.
  pose proof (emit_accepts byte_count stride locality seed) as Hv. unfold emit in Hv |- *.
  destruct (emit_lines byte_count stride locality seed) as [lines|e] eqn:E; simpl in Hv |- *; [|done].
  split; [done|]. split; [done|]. symmetry in Hv.
  destruct (emit_single_ring _ _ _ seed Hv) as (lines' & start & E' & H).
  rewrite E in E'. injection E' as <-. by exists start.
Qed.

Example small_ring : is_Ok (emit 128 16 32 1) = true ∧ is_Ok (emit 128 12 32 1) = false.
Proof. vm_compute. split; reflexivity. Qed.

(** The published first output of SplitMix64 for seed 1. *)
Example splitmix_seed_1 : (rng_next (rng_init 1)).2 = 0x910A2DEC89025CC1.
Proof. reflexivity. Qed.
