(* ===== verification/SdImage.v ===== *)
(** * FPGA microSD boot image

    [tools/make-fpga-sd-image.py]: the image layout ([make_entries]), the header
    encoder and decoder, [verify_bytes], the JSON record ([manifest]) and the
    [build] and [verify] actions.  Files are byte strings given by the caller;
    the C preprocessor and the device-tree compiler are commands whose outcome
    is an argument of [compile_dts]. *)

From stdpp Require Import base numbers list strings sorting.
From Stdlib Require Import ZArith Lia Ascii.
From S2P Require Import Prelude PyText Bytes.

Open Scope Z_scope.

(** ** Layout constants *)

Definition SECTOR_BYTES : Z := 512.
Definition FIRST_PAYLOAD_LBA : Z := 8.
Definition MAGIC : list Z := bytes_of "ORV64SD1".
Definition VERSION : Z := 1.
Definition HEADER_BYTES : Z := SECTOR_BYTES.
Definition HEADER_CRC_OFFSET : Z := HEADER_BYTES - 4.
Definition ENTRY_OFFSET : Z := 64.
Definition ENTRY_BYTES : Z := 32.
Definition HEADER_STRUCT : list code_t := [Cs 8; CU 4; CU 4; CU 4; CU 4; CU 8].
Definition ENTRY_STRUCT : list code_t := [Cs 8; CU 4; CU 4; CU 8; CU 4; CU 4].
Definition LINUX_MAGIC_OFFSET : Z := 0x38.
Definition LINUX_MAGIC : list Z := bytes_of "RSC" ++ [5].
Definition TRAMPOLINE_WORDS : list Z :=
  [0x000015B7; 0x8FF5859B; 0x01459593; 0x00000613;
   0x000012B7; 0x8012829B; 0x01429293; 0x00028067].

Record InputImage := { i_tag : string; i_path : string; i_load_address : Z }.

Record Entry := {
  tag : string; lba : Z; sector_count : Z; load_address : Z; byte_length : Z; crc : Z }.

#[export] Instance Entry_eq_dec : EqDecision Entry.
Proof. solve_decision. Defined.

Definition sha256 (data : list Z) : string := hex_of_bytes (Sha256.digest data).

Definition sectors_for (byte_length : Z) : Z :=
  (byte_length + SECTOR_BYTES - 1) / SECTOR_BYTES.

(** [zip(xs, ys, strict=True)], consumed by a loop. *)
Fixpoint zip_strict {A B} (xs : list A) (ys : list B) : result (list (A * B)) :=
  match xs, ys with
  | [], [] => Ok []
  | x :: xs, y :: ys => rest ← zip_strict xs ys; Ok ((x, y) :: rest)
  | _, _ => Err (ValueError "zip() arguments have different lengths")
  end.

(** ** Entries and header *)

Definition add_entry (s : list Entry * Z) (p : InputImage * list Z) : list Entry * Z :=
  let '(entries, next_lba) := s in
  let '(item, data) := p in
  let count := sectors_for (zlen data) in
  (entries ++ [{| tag := i_tag item; lba := next_lba; sector_count := count;
                  load_address := i_load_address item; byte_length := zlen data;
                  crc := crc32 data |}],
   next_lba + count).

Definition make_entries (inputs : list InputImage) (payloads : list (list Z))
    : result (list Entry) :=
  pairs ← zip_strict inputs payloads;
  Ok (foldl add_entry ([], FIRST_PAYLOAD_LBA) pairs).1.

Definition entry_fields (entry : Entry) (encoded_tag : list Z) : list field :=
  [FB encoded_tag; FZ (lba entry); FZ (sector_count entry); FZ (load_address entry);
   FZ (byte_length entry); FZ (crc entry)].

Definition put_entry (header : list Z) (e : Z * Entry) : result (list Z) :=
  let '(index, entry) := e in
  match encode_ascii (tag entry) with
  | None => Err (ValueError "'ascii' codec can't encode character: ordinal not in range(128)")
  | Some encoded_tag =>
      raise (ValueError ("entry tag is longer than eight bytes: " +:+ tag entry))
        when 8 <? zlen encoded_tag;;
      pack_into ENTRY_STRUCT header (ENTRY_OFFSET + index * ENTRY_BYTES)
        (entry_fields entry encoded_tag)
  end.

Definition encode_header (entries : list Entry) (image_bytes : Z) : result (list Z) :=
  let header := zero_bytes HEADER_BYTES in
  header ← pack_into HEADER_STRUCT header 0
    [FB MAGIC; FZ VERSION; FZ HEADER_BYTES; FZ ENTRY_BYTES; FZ (zlen entries);
     FZ image_bytes];
  header ← foldM put_entry header (enumerate entries);
  pack_into [CU 4] header HEADER_CRC_OFFSET [FZ (crc32 (slice header 0 HEADER_CRC_OFFSET))].

Definition check_entry (actual_image_bytes index : Z) (raw : list field) : result Entry :=
  match raw with
  | [FB raw_tag; FZ lba; FZ sector_count; FZ load_address; FZ byte_length; FZ crc] =>
      match decode_ascii (rstrip_zeros raw_tag) with
      | None => Err (ValueError ("entry " +:+ str_int index +:+ " has a non-ASCII tag"))
      | Some tag =>
          raise (ValueError ("entry " +:+ str_int index
                             +:+ " has a zero tag, sector count, or length"))
            when bool_decide (tag = "") || (sector_count =? 0) || (byte_length =? 0);;
          raise (ValueError ("entry " +:+ tag +:+ " is longer than its sector allocation"))
            when sector_count * SECTOR_BYTES <? byte_length;;
          let start := lba * SECTOR_BYTES in
          let stop := start + sector_count * SECTOR_BYTES in
          raise (ValueError ("entry " +:+ tag +:+ " lies outside the payload area"))
            when (lba <? FIRST_PAYLOAD_LBA) || (actual_image_bytes <? stop);;
          Ok {| tag := tag; lba := lba; sector_count := sector_count;
                load_address := load_address; byte_length := byte_length; crc := crc |}
      end
  | _ => Err (StructError "unpack")
  end.

Definition read_entry (header : list Z) (actual_image_bytes : Z) (entries : list Entry)
    (index : Z) : result (list Entry) :=
  raw ← unpack_from ENTRY_STRUCT header (ENTRY_OFFSET + index * ENTRY_BYTES);
  entry ← check_entry actual_image_bytes index raw;
  Ok (entries ++ [entry]).

(** The tuples [decode_header] sorts, in Python's tuple order. *)
Definition range_of (entry : Entry) : Z * Z * string :=
  (lba entry, lba entry + sector_count entry, tag entry).
Definition range_leb (x y : Z * Z * string) : bool :=
  let '(a, b, s) := x in
  let '(a', b', s') := y in
  if a =? a' then if b =? b' then String.leb s s' else b <? b' else a <? a'.
Definition range_le (x y : Z * Z * string) : Prop := range_leb x y = true.

#[export] Instance range_le_dec x y : Decision (range_le x y).
Proof. apply bool_eq_dec. Defined.

Definition check_overlap (_ : unit) (p : (Z * Z * string) * (Z * Z * string)) : result unit :=
  let '(previous, current) := p in
  raise (ValueError ("entries " +:+ previous.2 +:+ " and " +:+ current.2 +:+ " overlap"))
    when current.1.1 <? previous.1.2;;
  Ok tt.

(** [zip(l, l[1:])] *)
Definition pairwise {A} (l : list A) : list (A * A) := zip l (tail l).

(** The [repr] of the magic bytes in the first message is left out. *)
Definition decode_header (header : list Z) (actual_image_bytes : Z) : result (list Entry) :=
  raise (ValueError "image is shorter than its 512-byte header")
    when negb (zlen header =? HEADER_BYTES);;
  fields ← unpack_from HEADER_STRUCT header 0;
  match fields with
  | [FB magic; FZ version; FZ header_bytes; FZ entry_bytes; FZ entry_count; FZ image_bytes] =>
      raise (ValueError "bad image magic") when negb (bool_decide (magic = MAGIC));;
      raise (ValueError ("unsupported format version: " +:+ str_int version))
        when negb (version =? VERSION);;
      raise (ValueError "unsupported header or entry size")
        when negb (header_bytes =? HEADER_BYTES) || negb (entry_bytes =? ENTRY_BYTES);;
      let maximum_entries := (HEADER_CRC_OFFSET - ENTRY_OFFSET) / ENTRY_BYTES in
      raise (ValueError ("invalid entry count: " +:+ str_int entry_count))
        when negb ((1 <=? entry_count) && (entry_count <=? maximum_entries));;
      raise (ValueError ("header image length is " +:+ str_int image_bytes +:+ ", file is "
                         +:+ str_int actual_image_bytes +:+ " bytes"))
        when negb (image_bytes =? actual_image_bytes);;
      crc_fields ← unpack_from [CU 4] header HEADER_CRC_OFFSET;
      match crc_fields with
      | [FZ stored_crc] =>
          let calculated_crc := crc32 (slice header 0 HEADER_CRC_OFFSET) in
          raise (ValueError ("header CRC32 mismatch: stored=" +:+ hex_pad 8 stored_crc
                             +:+ " calculated=" +:+ hex_pad 8 calculated_crc))
            when negb (stored_crc =? calculated_crc);;
          entries ← foldM (read_entry header actual_image_bytes) [] (zrange 0 entry_count);
          let ranges := merge_sort range_le (range_of <$> entries) in
          _ ← foldM check_overlap tt (pairwise ranges);
          Ok entries
      | _ => Err (StructError "unpack")
      end
  | _ => Err (StructError "unpack")
  end.

(** ** The record of an image *)

(** One element of ["entries"], field by field as the dictionary has them; the
    two source fields are present only for a build. *)
Record ManifestEntry := {
  m_tag : string; m_start_lba : Z; m_sector_count : Z; m_load_address : string;
  m_byte_length : Z; m_crc32 : string; m_sha256 : string;
  m_source : option (string * string) (* source, source_sha256 *) }.

Record Manifest := {
  m_format : string; m_image : string; m_image_bytes : Z; m_image_sectors : Z;
  m_image_sha256 : string; m_entries : list ManifestEntry }.

Abbreviation sources_t := (list (string * (string * list Z))).

Definition dict_get {A} (d : list (string * A)) (key : string) : result A :=
  match list_find (λ kv, kv.1 = key) d with
  | Some (_, (_, v)) => Ok v
  | None => Err (KeyError key)
  end.

Definition entry_data (image : list Z) (entry : Entry) : list Z :=
  let start := lba entry * SECTOR_BYTES in
  slice image start (start + byte_length entry).

Definition manifest_entry (image : list Z) (sources : option sources_t) (entry : Entry)
    : result ManifestEntry :=
  source ← match sources with
           | None => Ok None
           | Some sources =>
               '(source_name, source_data) ← dict_get sources (tag entry);
               Ok (Some (source_name, sha256 source_data))
           end;
  Ok {| m_tag := tag entry; m_start_lba := lba entry; m_sector_count := sector_count entry;
        m_load_address := "0x" +:+ hex_pad 16 (load_address entry);
        m_byte_length := byte_length entry; m_crc32 := hex_pad 8 (crc entry);
        m_sha256 := sha256 (entry_data image entry); m_source := source |}.

Definition manifest (output : string) (image : list Z) (entries : list Entry)
    (sources : option sources_t) : result Manifest :=
  records ← mapR (manifest_entry image sources) entries;
  Ok {| m_format := "openrv64-fpga-sd-image-v1"; m_image := output;
        m_image_bytes := zlen image; m_image_sectors := zlen image / SECTOR_BYTES;
        m_image_sha256 := sha256 image; m_entries := records |}.

(** ** Verification of an image *)

(** The loop body of [verify_bytes]. *)
Definition verify_entry (image : list Z) (_ : unit) (entry : Entry) : result unit :=
  let start := lba entry * SECTOR_BYTES in
  let data := slice image start (start + byte_length entry) in
  let calculated_crc := crc32 data in
  raise (ValueError (tag entry +:+ " CRC32 mismatch: stored=" +:+ hex_pad 8 (crc entry)
                     +:+ " calculated=" +:+ hex_pad 8 calculated_crc))
    when negb (calculated_crc =? crc entry);;
  let padding_end := start + sector_count entry * SECTOR_BYTES in
  raise (ValueError (tag entry +:+ " sector padding is not zero"))
    when existsb (λ b, negb (b =? 0)) (slice image (start + byte_length entry) padding_end);;
  Ok tt.

Definition verify_bytes (path : string) (image : list Z) : result (list Entry * Manifest) :=
  raise (ValueError "image length is not a multiple of 512 bytes")
    when negb (zlen image mod SECTOR_BYTES =? 0);;
  entries ← decode_header (slice image 0 HEADER_BYTES) (zlen image);
  _ ← foldM (verify_entry image) tt entries;
  record ← manifest path image entries None;
  Ok (entries, record).

(** ** The device tree *)

Record Args := {
  a_dts : option string; a_opensbi : option string; a_linux : option string;
  a_output : option string; a_image : option string;
  memory_size : Z; hart_count : Z; timebase_frequency : Z; uart_clock_frequency : Z;
  a_cpp : string; a_dtc : string }.

Definition dts_definitions (args : Args) : list string :=
  ["OPENRV64_MEMORY_SIZE=" +:+ hex_alt (memory_size args);
   "OPENRV64_HART_COUNT=" +:+ str_int (hart_count args);
   "OPENRV64_TIMEBASE_FREQUENCY=" +:+ str_int (timebase_frequency args);
   "OPENRV64_UART_CLOCK_FREQUENCY=" +:+ str_int (uart_clock_frequency args)].

Definition cpp_command (args : Args) (dts preprocessed : string) : list string :=
  [a_cpp args; "-E"; "-P"; "-x"; "assembler-with-cpp"]
  ++ ((λ definition, "-D" +:+ definition) <$> dts_definitions args)
  ++ ["-o"; preprocessed; dts].
Definition dtc_command (args : Args) (preprocessed dtb : string) : list string :=
  [a_dtc args; "-I"; "dts"; "-O"; "dtb"; "-o"; dtb; preprocessed].

(** How [subprocess.run(command, check=True)] ends. *)
Inductive run_result := Ran (returncode : Z) | NotInstalled (filename : string).

Definition checked_run (r : run_result) : result unit :=
  match r with
  | NotInstalled name => Err (ValueError ("required DTS tool is not installed: " +:+ name))
  | Ran code =>
      raise (ValueError ("DTS compilation failed with exit code " +:+ str_int code))
        when negb (code =? 0);;
      Ok tt
  end.

(** [read] is the content of a file, [None] an [OSError]; [run] runs a command
    in the temporary directory [tmp]; [read_dtb] reads the compiled tree after
    both commands ran. *)
Definition compile_dts (args : Args) (tmp dts : string) (read : string → option (list Z))
    (run : list string → run_result) (read_dtb : option (list Z))
    : result (list Z * list Z) :=
  match read dts with
  | None => Err (ValueError ("cannot read " +:+ dts))
  | Some dts_source =>
      let preprocessed := tmp +:+ "/openrv64.dts" in
      let dtb := tmp +:+ "/openrv64.dtb" in
      _ ← checked_run (run (cpp_command args dts preprocessed));
      _ ← checked_run (run (dtc_command args preprocessed dtb));
      match read_dtb with
      | None => Err (ValueError "cannot read generated DTB")
      | Some data => Ok (dts_source, data)
      end
  end.

(** ** Building an image *)

Definition trampoline : list Z := mjoin (le_bytes 4 <$> TRAMPOLINE_WORDS).

Definition boot_inputs (dts opensbi linux : string) : list InputImage :=
  [{| i_tag := "TRAMP"; i_path := "<generated>"; i_load_address := 0x80000000 |};
   {| i_tag := "OPENSBI"; i_path := opensbi; i_load_address := 0x80100000 |};
   {| i_tag := "LINUX"; i_path := linux; i_load_address := 0x80200000 |};
   {| i_tag := "FDT"; i_path := dts; i_load_address := 0x8FF00000 |}].

Definition put_payload (image : list Z) (p : Entry * list Z) : list Z :=
  let '(entry, data) := p in
  let start := lba entry * SECTOR_BYTES in
  slice_assign image start (start + zlen data) data.

(** From the payloads to the image bytes, the first part of [build]. *)
Definition make_image (inputs : list InputImage) (payloads : list (list Z))
    : result (list Z) :=
  entries ← make_entries inputs payloads;
  last ← get_item entries (-1);
  let image_bytes := (lba last + sector_count last) * SECTOR_BYTES in
  let image := zero_bytes image_bytes in
  header ← encode_header entries image_bytes;
  let image := slice_assign image 0 HEADER_BYTES header in
  pairs ← zip_strict entries payloads;
  Ok (foldl put_payload image pairs).

(** [build] returns the image it writes to [output] (if it gets that far) and
    the record it prints. *)
Definition build (dts opensbi_path linux_path output : string)
    (compiled : result (list Z * list Z)) (opensbi linux : option (list Z))
    : option (list Z) * result Manifest :=
  match compiled with
  | Err e => (None, Err e)
  | Ok (dts_source, dtb) =>
      match opensbi, linux with
      | Some opensbi, Some linux =>
          if bool_decide (opensbi = []) then
            (None, Err (ValueError ("OpenSBI input is empty: " +:+ opensbi_path)))
          else if bool_decide (linux = []) then
            (None, Err (ValueError ("Linux input is empty: " +:+ linux_path)))
          else if negb (bool_decide
            (slice linux LINUX_MAGIC_OFFSET (LINUX_MAGIC_OFFSET + zlen LINUX_MAGIC)
             = LINUX_MAGIC)) then
            (None, Err (ValueError ("Linux input lacks RISC-V Image magic at offset "
                +:+ hex_alt LINUX_MAGIC_OFFSET +:+ ": " +:+ linux_path)))
          else
            match make_image (boot_inputs dts opensbi_path linux_path)
                    [trampoline; opensbi; linux; dtb] with
            | Err e => (None, Err e)
            | Ok image =>
                (Some image,
                 '(verified_entries, _) ← verify_bytes output image;
                 manifest output image verified_entries
                   (Some [("TRAMP", ("generated:fixed-openrv64-fpga-trampoline", trampoline));
                          ("OPENSBI", (opensbi_path, opensbi));
                          ("LINUX", (linux_path, linux)); ("FDT", (dts, dts_source))]))
            end
      | _, _ => (None, Err (ValueError "cannot read boot input"))
      end
  end.

(** ** The command line *)

Inductive action := Verify (image : string) | Build (dts opensbi linux output : string).

Definition choose_action (args : Args) : result action :=
  match a_image args with
  | Some image =>
      match a_dts args, a_opensbi args, a_linux args, a_output args with
      | None, None, None, None => Ok (Verify image)
      | _, _, _, _ => Err (ExitWith "--verify cannot be combined with build inputs")
      end
  | None =>
      match a_dts args, a_opensbi args, a_linux args, a_output args with
      | Some dts, Some opensbi, Some linux, Some output =>
          raise (ExitWith "memory-size must be positive and hart-count must be 1, 2, or 4")
            when (memory_size args <=? 0)
                 || negb (existsb (Z.eqb (hart_count args)) [1; 2; 4]);;
          raise (ExitWith "clock frequencies must be positive")
            when (timebase_frequency args <=? 0) || (uart_clock_frequency args <=? 0);;
          Ok (Build dts opensbi linux output)
      | _, _, _, _ => Err (ExitWith "DTS, OpenSBI, Linux, and output paths are required")
      end
  end.

(** ** Sorting the ranges *)

Lemma range_le_total x y : range_le x y ∨ range_le y x.
Proof.
  destruct x as [[a b] s], y as [[a' b'] s']. unfold range_le, range_leb.
  rewrite (Z.eqb_sym a' a), (Z.eqb_sym b' b).
  destruct (Z.eqb_spec a a'), (Z.eqb_spec b b').
  - apply String.leb_total.
  - destruct (Z.ltb_spec b b'), (Z.ltb_spec b' b); auto; lia.
  - destruct (Z.ltb_spec a a'), (Z.ltb_spec a' a); auto; lia.
  - destruct (Z.ltb_spec a a'), (Z.ltb_spec a' a); auto; lia.
Qed.

#[export] Instance range_le_Total : Total range_le.
Proof. intros x y. apply range_le_total. Qed.

Lemma range_le_start x y : range_le x y → x.1.1 ≤ y.1.1.
Proof.
  destruct x as [[a b] s], y as [[a' b'] s']. unfold range_le, range_leb. simpl.
  destruct (Z.eqb_spec a a'); [lia|]. intros H. b2p. lia.
Qed.

Definition range_ok (x : Z * Z * string) : Prop := x.1.1 < x.1.2.
Definition range_before (x y : Z * Z * string) : Prop := x.1.2 ≤ y.1.1.
Definition range_disjoint (x y : Z * Z * string) : Prop := range_before x y ∨ range_before y x.

Lemma range_disjoint_sym x y : range_disjoint x y → range_disjoint y x.
Proof. intros [?|?]; [by right | by left]. Qed.

Lemma overlap_checks l :
  foldM check_overlap tt (pairwise l) = Ok tt ↔ Sorted range_before l.
Proof.
  rewrite foldM_unit. induction l as [|x l IH].
  { split; constructor. }
  destruct l as [|y l].
  { split; repeat constructor. }
  change (pairwise (x :: y :: l)) with ((x, y) :: pairwise (y :: l)).
  rewrite Forall_cons, IH. clear IH. unfold check_overlap, range_before at 2. split.
  - intros [Hxy Hs]. constructor; [done|]. constructor.
    destruct (Z.ltb_spec y.1.1 x.1.2); [done|]. done.
  - intros Hs. inversion Hs as [|?? Hs' Hx]; subst. inversion Hx; subst.
    split; [|done]. by rewrite (proj2 (Z.ltb_ge _ _)).
Qed.

Lemma before_all l : Forall range_ok l → Sorted range_before l → Pairwise range_before l.
Proof.
  intros Hok Hs. apply Pairwise_StronglySorted.
  induction Hs as [|x l Hs IH Hx]; [constructor|].
  inversion Hok as [|?? Hox Hol]; subst. constructor; [auto|].
  specialize (IH Hol).
  inversion Hx as [|y l' Hxy]; subst; [constructor|]. constructor; [done|].
  apply StronglySorted_inv in IH as [_ Hy]. eapply Forall_impl; [exact Hy|].
  intros z. unfold range_before, range_ok in *. simpl.
  inversion Hol; subst.
  unfold range_ok in *. lia.
Qed.

(** Sorting makes the neighbour test decide disjointness. *)
Lemma overlap_check_sound l :
  Forall range_ok l →
  foldM check_overlap tt (pairwise (merge_sort range_le l)) = Ok tt ↔
  Pairwise range_disjoint l.
Proof.
  intros Hok. rewrite overlap_checks.
  pose proof (merge_sort_Permutation range_le l) as Hp.
  assert (Forall range_ok (merge_sort range_le l)) as Hok' by by rewrite Hp.
  split.
  - intros Hs%before_all; [|done].
    apply (Pairwise_perm _ (merge_sort range_le l)); [|done|].
    { apply range_disjoint_sym. }
    eapply Pairwise_impl; [|done]. intros x y _ _ ?. by left.
  - intros Hd. symmetry in Hp.
    apply (Pairwise_perm _ _ _ range_disjoint_sym Hp) in Hd.
    pose proof (Sorted_merge_sort range_le l) as Hs.
    revert Hs Hd Hok'. generalize (merge_sort range_le l). intros k Hs Hd Hk.
    induction Hs as [|x k Hs IH Hx]; [constructor|].
    destruct Hd as [Hx' Hd]. inversion Hk as [|?? Hxk Hk']; subst.
    constructor; [auto|]. inversion Hx as [|y k' Hxy]; subst; constructor.
    inversion Hx' as [|?? [Hb|Hb] _]; subst; [done|].
    inversion Hk' as [|?? Hyk _]; subst.
    apply range_le_start in Hxy. unfold range_before, range_ok in *. lia.
Qed.

(** ** The header *)

Definition entry_in (image_bytes : Z) (e : Entry) : Prop :=
  FIRST_PAYLOAD_LBA ≤ lba e ∧ (lba e + sector_count e) * SECTOR_BYTES ≤ image_bytes ∧
  0 < byte_length e ≤ sector_count e * SECTOR_BYTES.

(** A tag the format can carry: one to eight ASCII characters, the last one not
    NUL (the padding is stripped on reading). *)
Definition tag_ok (tag : string) (bs : list Z) : Prop :=
  encode_ascii tag = Some bs ∧ 1 ≤ zlen bs ≤ 8 ∧ ∀ b, last bs = Some b → b ≠ 0.

Definition entry_ok (image_bytes : Z) (e : Entry) : Prop :=
  (∃ bs, tag_ok (tag e) bs) ∧ entry_in image_bytes e ∧
  lba e < 2 ^ 32 ∧ sector_count e < 2 ^ 32 ∧ 0 ≤ load_address e < 2 ^ 64 ∧
  byte_length e < 2 ^ 32 ∧ 0 ≤ crc e < 2 ^ 32.

Lemma unpack_from_frame fmt b1 b2 off :
  zlen b1 = zlen b2 → slice b1 off (off + calcsize fmt) = slice b2 off (off + calcsize fmt) →
  unpack_from fmt b1 off = unpack_from fmt b2 off.
Proof. intros Hz Hs. unfold unpack_from. by rewrite Hz, Hs. Qed.

Lemma encode_ascii_ok text bs : encode_ascii text = Some bs → bytes_ok bs.
Proof. unfold encode_ascii. destruct (forallb _ _); [|done]. intros [= <-]. auto with py. Qed.

Lemma entry_fields_fit n e bs :
  entry_ok n e → Forall2 field_fits ENTRY_STRUCT (entry_fields e bs).
Proof.
  intros (_ & (? & ? & ?) & ?). unfold FIRST_PAYLOAD_LBA, SECTOR_BYTES in *.
  repeat constructor; simpl; lia.
Qed.

Definition stored_fields (e : Entry) (bs : list Z) : list field :=
  entry_fields e (fit_bytes 8 bs).

Lemma check_stored n e bs index :
  entry_ok n e → tag_ok (tag e) bs → check_entry n index (stored_fields e bs) = Ok e.
Proof.
  intros (_ & (H1 & H2 & H3) & ?) (Henc & Hlen & Hlast).
  unfold stored_fields, entry_fields, check_entry, fit_bytes.
  rewrite take_ge by (unfold zlen in *; lia).
  unfold zero_bytes. rewrite rstrip_zeros_app by done.
  rewrite (decode_encode_ascii _ _ Henc).
  unfold FIRST_PAYLOAD_LBA, SECTOR_BYTES in *.
  rewrite bool_decide_false; cycle 1.
  { intros Ht. rewrite Ht in Henc. vm_compute in Henc. injection Henc as <-. rewrite zlen_nil in Hlen. lia. }
  rewrite (proj2 (Z.eqb_neq _ _)) by lia. rewrite (proj2 (Z.eqb_neq _ _)) by lia.
  cbn [orb]. rewrite (proj2 (Z.ltb_ge _ _)) by lia.
  rewrite (proj2 (Z.ltb_ge (lba e) _)) by lia. rewrite (proj2 (Z.ltb_ge n _)) by lia.
  by destruct e.
Qed.

Definition entry_offset (i : Z) : Z := ENTRY_OFFSET + i * ENTRY_BYTES.

(** The header while [don] entries have been put. *)
Definition header_inv (fields : list field) (don : list (Z * Entry)) (header : list Z) : Prop :=
  zlen header = HEADER_BYTES ∧ bytes_ok header ∧
  unpack_from HEADER_STRUCT header 0 = Ok fields ∧
  ∀ i e, (i, e) ∈ don →
    ∃ bs, tag_ok (tag e) bs ∧
      unpack_from ENTRY_STRUCT header (entry_offset i) = Ok (stored_fields e bs).

(** Writing beyond what was written before keeps the invariant. *)
Lemma header_inv_frame fields don h h' (k : Z) :
  header_inv fields don h → 0 ≤ k →
  (∀ i e, (i, e) ∈ don → 0 ≤ i < k) → entry_offset k ≤ zlen h → zlen h' = zlen h → bytes_ok h' →
  (∀ c d, 0 ≤ c ≤ d → d ≤ entry_offset k → slice h' c d = slice h c d) →
  header_inv fields don h'.
Proof.
  intros (Hz & _ & Hf & He) Hk Hi Hroom Hz' Hok Hs.
  unfold entry_offset, ENTRY_OFFSET, ENTRY_BYTES, HEADER_BYTES, SECTOR_BYTES in *.
  split_and!; [by rewrite Hz'|done| |].
  - rewrite <-Hf. apply unpack_from_frame; [done|]. apply Hs; [simpl; lia|simpl; lia].
  - intros i e Hin. destruct (He i e Hin) as (bs & Htag & Hun).
    exists bs. split; [done|]. rewrite <-Hun.
    specialize (Hi i e Hin).
    apply unpack_from_frame; [done|]. apply Hs; simpl; lia.
Qed.

Lemma put_entry_inv n fields entries don x h :
  Forall (entry_ok n) entries → zlen entries ≤ 13 →
  header_inv fields don h → (don ++ [x]) `prefix_of` enumerate entries →
  ∃ h', put_entry h x = Ok h' ∧ header_inv fields (don ++ [x]) h'.
Proof.
  intros Hok Hlen Hinv Hpre. destruct x as [i e].
  pose proof Hpre as Hpre'. apply enumerate_prefix in Hpre' as [-> He].
  assert (entry_ok n e) as Heok by (rewrite Forall_lookup in Hok; eauto).
  pose proof (lookup_lt_Some _ _ _ He) as Hlt.
  pose proof Heok as [[bs Htag] _].
  pose proof Htag as (Henc & Hbl & _). pose proof Hinv as (Hz & Hbytes & _).
  unfold put_entry. rewrite Henc, (proj2 (Z.ltb_ge _ _)) by lia.
  destruct (pack_into_spec ENTRY_STRUCT h (entry_offset (Z.of_nat (length don)))
    (entry_fields e bs)) as (h' & Hpack & Hz' & Hok' & Hun & Hframe).
  - by eapply entry_fields_fit.
  - repeat constructor. by eapply encode_ascii_ok.
  - done.
  - unfold entry_offset, ENTRY_OFFSET, ENTRY_BYTES. lia.
  - unfold entry_offset, ENTRY_OFFSET, ENTRY_BYTES, HEADER_BYTES, SECTOR_BYTES, zlen in *.
    simpl. lia.
  - exists h'. split; [done|].
    assert (header_inv fields don h') as (H1 & H2 & H3 & H4).
    { apply (header_inv_frame _ _ h _ (Z.of_nat (length don))); try done; [lia| | |].
      - intros i e' Hin. destruct Hpre as [rest Hpre].
        apply list_elem_of_lookup in Hin as [j Hj].
        pose proof (lookup_lt_Some _ _ _ Hj).
        assert (enumerate entries !! j = Some (i, e')) as Hje.
        { rewrite Hpre. rewrite <-app_assoc. by rewrite lookup_app_l by done. }
        rewrite lookup_enumerate in Hje. destruct (entries !! j); [|done].
        simpl in Hje. injection Hje as <- _. lia.
      - unfold entry_offset, ENTRY_OFFSET, ENTRY_BYTES, HEADER_BYTES, SECTOR_BYTES, zlen in *. lia.
      - intros c d Hcd Hd. apply Hframe; [done| |by left].
        unfold entry_offset, ENTRY_OFFSET, ENTRY_BYTES, HEADER_BYTES, SECTOR_BYTES, zlen in *. lia. }
    split_and!; [done..|]. intros i e' [Hin|Hin]%elem_of_app; [by apply H4|].
    apply list_elem_of_singleton in Hin as [= -> ->]. by exists bs.
Qed.

Definition header_fields (count image_bytes : Z) : list field :=
  [FB MAGIC; FZ VERSION; FZ HEADER_BYTES; FZ ENTRY_BYTES; FZ count; FZ image_bytes].

Lemma header_fields_fit count image_bytes :
  0 ≤ count < 2 ^ 32 → 0 ≤ image_bytes < 2 ^ 64 →
  Forall2 field_fits HEADER_STRUCT (header_fields count image_bytes) ∧
  zip_with field_padded HEADER_STRUCT (header_fields count image_bytes)
    = header_fields count image_bytes.
Proof.
  intros. split; [|done].
  repeat constructor; simpl; unfold VERSION, HEADER_BYTES, SECTOR_BYTES, ENTRY_BYTES; lia.
Qed.

(** Everything [decode_header] reads of an encoded header. *)
Lemma encode_header_spec n entries :
  Forall (entry_ok n) entries → zlen entries ≤ 13 → 0 ≤ n < 2 ^ 64 →
  ∃ h, encode_header entries n = Ok h ∧ zlen h = HEADER_BYTES ∧ bytes_ok h ∧
    unpack_from HEADER_STRUCT h 0 = Ok (header_fields (zlen entries) n) ∧
    unpack_from [CU 4] h HEADER_CRC_OFFSET = Ok [FZ (crc32 (slice h 0 HEADER_CRC_OFFSET))] ∧
    ∀ i e, entries !! i = Some e → ∃ bs, tag_ok (tag e) bs ∧
      unpack_from ENTRY_STRUCT h (entry_offset (Z.of_nat i)) = Ok (stored_fields e bs).
Proof.
  intros Hok Hlen Hn. pose proof (zlen_nonneg entries).
  destruct (header_fields_fit (zlen entries) n) as [Hfit Hpad]; [lia..|].
  destruct (pack_into_spec HEADER_STRUCT (zero_bytes HEADER_BYTES) 0
    (header_fields (zlen entries) n)) as (h0 & Hpack & Hz0 & Hok0 & Hun0 & _).
  { done. }
  { constructor; [apply bytes_of_ok|]. by repeat constructor. }
  { auto with py. }
  { lia. }
  { rewrite zlen_zero_bytes by done. done. }
  rewrite Hpad in Hun0. rewrite zlen_zero_bytes in Hz0 by done.
  unfold encode_header. fold (header_fields (zlen entries) n). rewrite Hpack.
  cbn [mbind result_bind].
  destruct (foldM_total (header_inv (header_fields (zlen entries) n)) put_entry h0
    (enumerate entries)) as (h1 & -> & Hz1 & Hok1 & Hun1 & He1).
  { split_and!; [done..|]. intros i e Hin. by apply not_elem_of_nil in Hin. }
  { intros don x s Hinv Hpre. by eapply put_entry_inv. }
  cbn [mbind result_bind].
  assert (bytes_ok (slice h1 0 HEADER_CRC_OFFSET)) as Hsok by by apply slice_bytes_ok.
  pose proof (crc32_bound _ Hsok) as Hcrc.
  destruct (pack_into_spec [CU 4] h1 HEADER_CRC_OFFSET
    [FZ (crc32 (slice h1 0 HEADER_CRC_OFFSET))]) as (h & -> & Hz & Hokh & Hun & Hframe).
  { repeat constructor; simpl; lia. }
  { repeat constructor. }
  { done. }
  { done. }
  { rewrite Hz1. done. }
  unfold HEADER_CRC_OFFSET, HEADER_BYTES, SECTOR_BYTES in *.
  exists h. split; [done|]. split; [by rewrite Hz|]. split; [done|]. split_and!.
  - rewrite <-Hun1. apply unpack_from_frame; [done|]. apply Hframe; simpl; lia.
  - rewrite Hun. simpl. do 3 f_equal. rewrite Hframe; [done|simpl; lia..].
  - intros i e Hi. pose proof (lookup_lt_Some _ _ _ Hi) as Hlt.
    destruct (He1 (Z.of_nat i) e) as (bs & Htag & Hbs).
    { apply (list_elem_of_lookup_2 _ i). rewrite lookup_enumerate, Hi. done. }
    exists bs. split; [done|]. rewrite <-Hbs.
    apply unpack_from_frame; [done|].
    unfold entry_offset, ENTRY_OFFSET, ENTRY_BYTES, zlen in *.
    apply Hframe; simpl; lia.
Qed.

Definition disjoint_entries (entries : list Entry) : Prop :=
  Pairwise range_disjoint (range_of <$> entries).

Lemma ranges_ok n entries :
  Forall (entry_in n) entries → Forall range_ok (range_of <$> entries).
Proof.
  intros H. apply Forall_fmap. eapply Forall_impl; [exact H|].
  intros e (_ & _ & ?). unfold range_ok. simpl. unfold SECTOR_BYTES in *. lia.
Qed.

Lemma decode_encode_lemma n entries :
  Forall (entry_ok n) entries → disjoint_entries entries →
  1 ≤ zlen entries ≤ 13 → 0 ≤ n < 2 ^ 64 →
  ∃ h, encode_header entries n = Ok h ∧ zlen h = HEADER_BYTES ∧ bytes_ok h ∧
    decode_header h n = Ok entries.
Proof.
  intros Hok Hd Hlen Hn.
  destruct (encode_header_spec n entries) as (h & Henc & Hz & Hb & Hun & Hcrc & He);
    [done|lia|done|].
  exists h. split; [done|]. split; [done|]. split; [done|].
  unfold decode_header. rewrite Hz, Z.eqb_refl. cbn [negb]. rewrite Hun.
  cbn [mbind result_bind header_fields]. rewrite bool_decide_true by done.
  rewrite !Z.eqb_refl. cbn [negb orb].
  change ((HEADER_CRC_OFFSET - ENTRY_OFFSET) / ENTRY_BYTES) with 13.
  rewrite (proj2 (Z.leb_le 1 _)) by lia. rewrite (proj2 (Z.leb_le _ 13)) by lia.
  cbn [negb andb]. rewrite Hcrc. cbn [mbind result_bind]. rewrite Z.eqb_refl. cbn [negb].
  destruct (foldM_total (λ don es, es = take (length don) entries) (read_entry h n) []
    (zrange 0 (zlen entries))) as (es & -> & Hes).
  - done.
  - intros don i es -> Hpre. pose proof Hpre as Hpre'.
    apply zrange_prefix in Hpre' as [-> Hi].
    assert (length (zrange 0 i) = Z.to_nat i) as ->
      by (pose proof (zlen_zrange 0 i); unfold zlen in *; lia).
    destruct (lookup_lt_is_Some_2 entries (Z.to_nat i)) as [e Hei];
      [unfold zlen in *; lia|].
    destruct (He _ _ Hei) as (bs & Htag & Hbs). rewrite Z2Nat.id in Hbs by lia.
    unfold read_entry. fold (entry_offset i). rewrite Hbs. cbn [mbind result_bind].
    rewrite (check_stored n e bs i); [|rewrite Forall_lookup in Hok; eauto|done].
    eexists; split; [done|]. rewrite length_app.
    assert (length (zrange 0 i) = Z.to_nat i) as ->
      by (pose proof (zlen_zrange 0 i); unfold zlen in *; lia).
    rewrite Nat.add_1_r. by erewrite take_S_r.
  - cbn [mbind result_bind].
    rewrite take_ge in Hes by (pose proof (zlen_zrange 0 (zlen entries)); unfold zlen in *; lia).
    subst es.
    assert (Forall (entry_in n) entries) as Hin
      by (eapply Forall_impl; [exact Hok|]; by intros e (_ & ? & _)).
    by rewrite (proj2 (overlap_check_sound _ (ranges_ok n _ Hin))).
Qed.

(** ** What a decoded header guarantees *)

Lemma check_entry_sound n index raw e :
  Forall field_nonneg raw → check_entry n index raw = Ok e → entry_in n e ∧ 0 < sector_count e.
Proof.
  intros Hn H. unfold check_entry in H.
  repeat (match type of H with context [match ?x with _ => _ end] =>
    lazymatch type of x with bool => fail | _ => destruct x; try discriminate H end end).
  ok_inv H. subst. b2p.
  rewrite !Forall_cons in Hn. simpl in Hn.
  unfold entry_in. simpl in *. unfold SECTOR_BYTES, FIRST_PAYLOAD_LBA in *. lia.
Qed.

Lemma decode_header_sound header n entries :
  bytes_ok header → decode_header header n = Ok entries →
  1 ≤ zlen entries ≤ 13 ∧ Forall (entry_in n) entries ∧ disjoint_entries entries.
Proof.
  intros Hb H. unfold decode_header in H.
  destruct (negb _); [discriminate|]. apply bind_Ok in H as (fields & _ & H).
  repeat (match type of H with context [match ?x with _ => _ end] =>
    lazymatch type of x with bool => fail | _ => destruct x; try discriminate H end end).
  change ((HEADER_CRC_OFFSET - ENTRY_OFFSET) / ENTRY_BYTES) with 13 in H.
  do 5 (match type of H with (if ?b then _ else _) = _ => destruct b eqn:?; [discriminate H|] end).
  apply bind_Ok in H as (crcs & _ & H).
  destruct crcs as [|[|stored] [|]]; try discriminate H.
  match type of H with (if ?b then _ else _) = _ => destruct b; [discriminate H|] end.
  apply bind_Ok in H as (es & Hes & H). apply bind_Ok in H as ([] & Hov & H).
  injection H as ->. b2p.
  apply (foldM_inv (λ don es, length es = length don ∧
    Forall (λ e, entry_in n e ∧ 0 < sector_count e) es)) in Hes as [Hlen Hin].
  - assert (Forall (entry_in n) entries) as Hin'
      by (eapply Forall_impl; [exact Hin|]; by intros ? [? _]).
    split_and!; [| |done|].
    + unfold zlen. rewrite Hlen. pose proof (zlen_zrange 0 z2) as Hz. unfold zlen in Hz. lia.
    + unfold zlen. rewrite Hlen. pose proof (zlen_zrange 0 z2) as Hz. unfold zlen in Hz. lia.
    + apply (overlap_check_sound _ (ranges_ok n _ Hin')). done.
  - done.
  - intros don x s1 s2 [Hl Hf] Hr _. unfold read_entry in Hr.
    apply bind_Ok in Hr as (raw & Hraw & Hr). apply bind_Ok in Hr as (e & He & Hr).
    injection Hr as <-. rewrite !length_app, Hl. split; [done|].
    apply Forall_app; split; [done|]. apply Forall_singleton.
    eapply check_entry_sound; [|done].
    eapply unpack_from_nonneg; [done| |exact Hraw]. by repeat constructor.
Qed.

(** ** The layout of the payloads *)

Fixpoint entries_from (next_lba : Z) (pairs : list (InputImage * list Z)) : list Entry :=
  match pairs with
  | [] => []
  | (item, data) :: pairs =>
      {| tag := i_tag item; lba := next_lba; sector_count := sectors_for (zlen data);
         load_address := i_load_address item; byte_length := zlen data; crc := crc32 data |}
      :: entries_from (next_lba + sectors_for (zlen data)) pairs
  end.
Definition end_lba (next_lba : Z) (pairs : list (InputImage * list Z)) : Z :=
  foldl (λ n p, n + sectors_for (zlen p.2)) next_lba pairs.

Lemma foldl_add_entry es next pairs :
  foldl add_entry (es, next) pairs = (es ++ entries_from next pairs, end_lba next pairs).
Proof.
  revert es next. induction pairs as [|[item data] pairs IH]; intros es next; simpl.
  - by rewrite app_nil_r.
  - by rewrite IH, <-app_assoc.
Qed.

Lemma sectors_for_bounds n :
  0 ≤ n → 0 ≤ sectors_for n ∧ n ≤ sectors_for n * SECTOR_BYTES < n + SECTOR_BYTES.
Proof.
  intros. unfold sectors_for, SECTOR_BYTES. Z.div_mod_to_equations. lia.
Qed.

Lemma end_lba_ge next pairs : next ≤ end_lba next pairs.
Proof.
  revert next. induction pairs as [|[i d] pairs IH]; intros next; simpl; [done|].
  specialize (IH (next + sectors_for (zlen d))). simpl in *.
  pose proof (sectors_for_bounds (zlen d) (zlen_nonneg d)). lia.
Qed.

Lemma entries_from_range next pairs e :
  e ∈ entries_from next pairs →
  next ≤ lba e ∧ lba e + sector_count e ≤ end_lba next pairs ∧
  sector_count e = sectors_for (byte_length e) ∧ 0 ≤ byte_length e.
Proof.
  revert next. induction pairs as [|[i d] pairs IH]; intros next; simpl.
  { by intros ?%not_elem_of_nil. }
  pose proof (sectors_for_bounds (zlen d) (zlen_nonneg d)).
  intros [->|He]%elem_of_cons; simpl.
  - pose proof (end_lba_ge (next + sectors_for (zlen d)) pairs).
    pose proof (zlen_nonneg d). split_and!; [lia|done|done|lia].
  - specialize (IH _ He). simpl in *. lia.
Qed.

Lemma entries_from_disjoint next pairs : disjoint_entries (entries_from next pairs).
Proof.
  unfold disjoint_entries. revert next.
  induction pairs as [|[i d] pairs IH]; intros next; simpl; [done|].
  split; [|apply IH]. apply Forall_fmap, Forall_forall. intros e He.
  apply entries_from_range in He. left. unfold range_before. simpl. lia.
Qed.

Lemma zip_strict_Ok {A B} (xs : list A) (ys : list B) :
  length xs = length ys → zip_strict xs ys = Ok (zip xs ys).
Proof.
  revert ys. induction xs as [|x xs IH]; intros [|y ys] H; simplify_eq/=; [done|].
  by rewrite IH.
Qed.

(** The image regions after the payloads have been copied: everything below
    the first payload is untouched, each payload is in place, and the rest of
    its sectors is what it was. *)
Lemma put_payloads next pairs image :
  0 ≤ next → end_lba next pairs * SECTOR_BYTES ≤ zlen image →
  let image' := foldl put_payload image (zip (entries_from next pairs) pairs.*2) in
  zlen image' = zlen image ∧
  (∀ c d, 0 ≤ c ≤ d → d ≤ next * SECTOR_BYTES → slice image' c d = slice image c d) ∧
  Forall2 (λ e data,
    slice image' (lba e * SECTOR_BYTES) (lba e * SECTOR_BYTES + byte_length e) = data ∧
    slice image' (lba e * SECTOR_BYTES + byte_length e)
                 (lba e * SECTOR_BYTES + sector_count e * SECTOR_BYTES) =
    slice image (lba e * SECTOR_BYTES + byte_length e)
                (lba e * SECTOR_BYTES + sector_count e * SECTOR_BYTES))
    (entries_from next pairs) pairs.*2.
Proof.
  revert next image. induction pairs as [|[i data] pairs IH]; intros next image Hn Hend.
  { simpl. split_and!; [done..|constructor]. }
  cbn [entries_from]. rewrite fmap_cons. cbn [snd].
  match goal with |- context [zip (?e :: ?es) (?d :: ?ds)] =>
    change (zip (e :: es) (d :: ds)) with ((e, d) :: zip es ds) end.
  cbn [foldl].
  pose proof (zlen_nonneg data).
  pose proof (sectors_for_bounds (zlen data) (zlen_nonneg data)).
  change (end_lba next ((i, data) :: pairs))
    with (end_lba (next + sectors_for (zlen data)) pairs) in Hend.
  pose proof (end_lba_ge (next + sectors_for (zlen data)) pairs).
  cbn [put_payload lba]. unfold SECTOR_BYTES in *.
  set (image1 := slice_assign image (next * 512) (next * 512 + zlen data) data).
  assert (zlen image1 = zlen image) as Hz1 by (apply zlen_slice_assign; lia).
  destruct (IH (next + sectors_for (zlen data)) image1) as (Hz & Hlow & Hf); [lia|lia|].
  clear IH. cbn zeta. split; [by rewrite Hz|].
  split.
  - intros c d Hc Hd. rewrite Hlow by lia. apply slice_slice_assign_ne; lia.
  - constructor; cbn [lba byte_length sector_count].
    + split.
      * rewrite Hlow by lia. apply slice_slice_assign_eq; lia.
      * rewrite Hlow by lia. apply slice_slice_assign_ne; lia.
    + apply Forall2_same_length_lookup in Hf as [Hlen Hf].
      apply Forall2_same_length_lookup. split; [done|]. intros k e d He Hd.
      destruct (Hf k e d He Hd) as [Hp1 Hp2]. apply list_elem_of_lookup_2 in He.
      apply entries_from_range in He as (Hl & Hu & Hs & Hb).
      pose proof (sectors_for_bounds (byte_length e) Hb). unfold SECTOR_BYTES in *.
      split; [done|]. rewrite Hp2. apply slice_slice_assign_ne; lia.
Qed.

Lemma entries_from_data next pairs :
  Forall2 (λ e p, tag e = i_tag p.1 ∧ load_address e = i_load_address p.1 ∧
                  byte_length e = zlen p.2 ∧ crc e = crc32 p.2)
    (entries_from next pairs) pairs.
Proof.
  revert next. induction pairs as [|[i d] pairs IH]; intros next; simpl; constructor; auto.
Qed.

Lemma entries_from_last next pairs :
  pairs ≠ [] → ∃ e, last (entries_from next pairs) = Some e ∧
    lba e + sector_count e = end_lba next pairs.
Proof.
  revert next. induction pairs as [|[i d] pairs IH]; intros next Hne; [done|].
  destruct pairs as [|p pairs]; [by eexists|].
  destruct (IH (next + sectors_for (zlen d))) as (e & Hl & He); [done|].
  exists e. split; [|done]. simpl. by destruct p.
Qed.

Lemma slice_zero_bytes n a b :
  0 ≤ a ≤ b → b ≤ n → slice (zero_bytes n) a b = zero_bytes (b - a).
Proof.
  intros. rewrite slice_inside by (rewrite ?zlen_zero_bytes; lia).
  unfold zero_bytes. rewrite drop_replicate, take_replicate. f_equal. lia.
Qed.

(** What [make_image] needs of one input. *)
Definition payload_ok (p : InputImage * list Z) : Prop :=
  (∃ bs, tag_ok (i_tag p.1) bs) ∧ 0 ≤ i_load_address p.1 < 2 ^ 64 ∧
  0 < zlen p.2 < 2 ^ 32 ∧ bytes_ok p.2.

Lemma end_lba_le next pairs :
  Forall payload_ok pairs → end_lba next pairs ≤ next + 2 ^ 23 * zlen pairs.
Proof.
  intros Hp. revert next. induction Hp as [|[i d] pairs (_ & _ & Hd & _) _ IH];
    intros next; simpl; [unfold zlen; simpl; lia|].
  specialize (IH (next + sectors_for (zlen d))). rewrite zlen_cons. simpl in *.
  assert (sectors_for (zlen d) ≤ 2 ^ 23); [|lia].
  unfold sectors_for, SECTOR_BYTES. Z.div_mod_to_equations. lia.
Qed.

Lemma entries_from_ok pairs :
  Forall payload_ok pairs → zlen pairs ≤ 13 →
  Forall (entry_ok (end_lba FIRST_PAYLOAD_LBA pairs * SECTOR_BYTES))
    (entries_from FIRST_PAYLOAD_LBA pairs).
Proof.
  intros Hp Hlen. apply Forall_lookup. intros k e He.
  pose proof (entries_from_data FIRST_PAYLOAD_LBA pairs) as Hd.
  apply Forall2_same_length_lookup in Hd as [Hl Hd].
  destruct (lookup_lt_is_Some_2 pairs k) as [p Hpk].
  { rewrite <-Hl. by eapply lookup_lt_Some. }
  destruct (Hd _ _ _ He Hpk) as (Htag & Hload & Hbyte & Hcrc).
  pose proof (end_lba_le FIRST_PAYLOAD_LBA pairs Hp).
  rewrite Forall_lookup in Hp. destruct (Hp _ _ Hpk) as (Ht & Hla & Hz & Hbs).
  apply list_elem_of_lookup_2 in He.
  apply entries_from_range in He as (H1 & H2 & H3 & H4).
  pose proof (sectors_for_bounds (byte_length e) H4).
  pose proof (crc32_bound _ Hbs).
  unfold entry_ok, entry_in, FIRST_PAYLOAD_LBA, SECTOR_BYTES in *.
  split_and!; rewrite ?Htag, ?Hload, ?Hcrc; try done; lia.
Qed.

(** The image [make_image] returns, read back. *)
Lemma make_image_spec inputs payloads :
  length inputs = length payloads → payloads ≠ [] → zlen payloads ≤ 13 →
  Forall payload_ok (zip inputs payloads) →
  let pairs := zip inputs payloads in
  let entries := entries_from FIRST_PAYLOAD_LBA pairs in
  ∃ image, make_image inputs payloads = Ok image ∧
    zlen image = end_lba FIRST_PAYLOAD_LBA pairs * SECTOR_BYTES ∧
    decode_header (slice image 0 HEADER_BYTES) (zlen image) = Ok entries ∧
    Forall2 (λ e data, entry_data image e = data ∧ byte_length e = zlen data ∧
        crc e = crc32 data ∧
        slice image (lba e * SECTOR_BYTES + byte_length e)
          (lba e * SECTOR_BYTES + sector_count e * SECTOR_BYTES)
        = zero_bytes (sector_count e * SECTOR_BYTES - byte_length e)) entries payloads.
Proof.
  intros Hlen Hne Hmax Hok pairs entries.
  assert (pairs.*2 = payloads) as Hsnd by (apply snd_zip; lia).
  assert (zlen pairs = zlen payloads) as Hzp by (rewrite <-Hsnd, zlen_fmap; done).
  assert (pairs ≠ []) as Hpne by (intros He; rewrite He in Hsnd; done).
  unfold make_image, make_entries. rewrite zip_strict_Ok by done.
  cbn [mbind result_bind]. fold pairs. rewrite foldl_add_entry. cbn [fst app].
  fold entries.
  destruct (entries_from_last FIRST_PAYLOAD_LBA pairs Hpne) as (e & Hlast & He).
  rewrite (get_item_last entries e Hlast). cbn [mbind result_bind]. rewrite He.
  set (n := end_lba FIRST_PAYLOAD_LBA pairs * SECTOR_BYTES).
  pose proof (end_lba_ge FIRST_PAYLOAD_LBA pairs) as Hge.
  pose proof (end_lba_le FIRST_PAYLOAD_LBA pairs Hok) as Hle.
  pose proof (entries_from_data FIRST_PAYLOAD_LBA pairs) as Hdata.
  assert (length entries = length pairs) as Hel by by eapply Forall2_length.
  assert (0 < zlen pairs) by (rewrite Hzp; destruct payloads; [done|];
    rewrite zlen_cons; pose proof (zlen_nonneg payloads); lia).
  assert (zlen entries = zlen pairs) as Hez by (unfold zlen; by rewrite Hel).
  unfold FIRST_PAYLOAD_LBA in Hge, Hle.
  assert (8 * 512 ≤ n < 2 ^ 64) as Hn by (unfold n, SECTOR_BYTES, FIRST_PAYLOAD_LBA; lia).
  destruct (decode_encode_lemma n entries) as (h & -> & Hzh & Hbh & Hdec).
  { apply entries_from_ok; [done|lia]. }
  { apply entries_from_disjoint. }
  { lia. }
  { lia. }
  cbn [mbind result_bind].
  rewrite zip_strict_Ok by (rewrite Hel; unfold zlen in Hzp; lia).
  cbn [mbind result_bind]. replace (zip entries payloads) with (zip entries pairs.*2) by (by rewrite Hsnd).
  set (image0 := slice_assign (zero_bytes n) 0 HEADER_BYTES h).
  assert (zlen image0 = n) as Hz0.
  { unfold image0. rewrite zlen_slice_assign; rewrite ?zlen_zero_bytes, ?Hzh; try lia.
    unfold HEADER_BYTES, SECTOR_BYTES. lia. }
  destruct (put_payloads FIRST_PAYLOAD_LBA pairs image0) as (Hz & Hlow & Hf); [done|lia|].
  fold entries in Hz, Hlow, Hf. eexists. split; [done|].
  split; [by rewrite Hz|]. split.
  - rewrite Hz, Hz0, Hlow; [|done..]. unfold image0.
    rewrite slice_slice_assign_eq; [done|lia|by rewrite Hzh|].
    rewrite zlen_zero_bytes by lia. unfold HEADER_BYTES, SECTOR_BYTES. lia.
  - rewrite Hsnd in Hf. apply Forall2_same_length_lookup in Hf as [Hfl Hf].
    apply Forall2_same_length_lookup in Hdata as [_ Hdata].
    apply Forall2_same_length_lookup. split; [done|]. intros k e' d He' Hd.
    destruct (Hf k e' d He' Hd) as [H1 H2].
    destruct (lookup_lt_is_Some_2 pairs k) as [p Hpk].
    { rewrite <-Hel. by eapply lookup_lt_Some. }
    destruct (Hdata k e' p He' Hpk) as (_ & _ & Hb & Hc).
    assert (p.2 = d) as Hpd.
    { rewrite <-Hsnd, list_lookup_fmap, Hpk in Hd. by injection Hd. }
    rewrite Hpd in Hb, Hc. rewrite Hsnd. split; [exact H1|]. split; [done|]. split; [done|].
    rewrite H2. apply list_elem_of_lookup_2 in He'.
    apply entries_from_range in He' as (Hr1 & Hr2 & Hr3 & Hr4).
    pose proof (sectors_for_bounds (byte_length e') Hr4).
    unfold n, FIRST_PAYLOAD_LBA, SECTOR_BYTES in *.
    unfold image0, HEADER_BYTES, SECTOR_BYTES.
    rewrite slice_slice_assign_ne; rewrite ?zlen_zero_bytes, ?Hzh; try lia; [|done].
    rewrite slice_zero_bytes by lia. f_equal. lia.
Qed.

(** ** Verification of a built image *)

Lemma existsb_zero n : existsb (λ b, negb (b =? 0)) (zero_bytes n) = false.
Proof. unfold zero_bytes. by induction (Z.to_nat n). Qed.

Definition entry_intact (image : list Z) (e : Entry) : Prop :=
  crc32 (entry_data image e) = crc e ∧
  Forall (eq 0) (slice image (lba e * SECTOR_BYTES + byte_length e)
                   (lba e * SECTOR_BYTES + sector_count e * SECTOR_BYTES)).

Lemma verify_entry_intact image e : verify_entry image tt e = Ok tt ↔ entry_intact image e.
Proof.
  unfold verify_entry, entry_intact, entry_data.
  destruct (Z.eqb_spec (crc32 (slice image (lba e * SECTOR_BYTES)
    (lba e * SECTOR_BYTES + byte_length e))) (crc e)) as [Hc|Hc]; simpl;
    [|split; [done|by intros [? _]]].
  destruct (existsb _ _) eqn:Hx; (split; [intros Hok | intros [_ Hz]]); try done.
  - exfalso. apply existsb_exists in Hx as (b & Hin & Hb).
    rewrite Forall_forall in Hz. apply list_elem_of_In, Hz in Hin. by subst.
  - split; [done|]. apply Forall_forall. intros b Hb.
    destruct (Z.eqb_spec b 0); [done|]. exfalso.
    apply not_true_iff_false in Hx. apply Hx. apply existsb_exists.
    exists b. split; [by apply list_elem_of_In|]. by destruct (Z.eqb_spec b 0).
Qed.

Lemma manifest_plain path image entries :
  ∃ m, manifest path image entries None = Ok m ∧
    m_image_bytes m = zlen image ∧ (m_tag <$> m_entries m) = (tag <$> entries).
Proof.
  unfold manifest.
  rewrite (mapR_total _ (λ e, {| m_tag := tag e; m_start_lba := lba e;
    m_sector_count := sector_count e;
    m_load_address := "0x" +:+ hex_pad 16 (load_address e);
    m_byte_length := byte_length e; m_crc32 := hex_pad 8 (crc e);
    m_sha256 := sha256 (entry_data image e); m_source := None |})) by done.
  eexists; split_and!; [done|done|]. simpl. by rewrite <-list_fmap_compose.
Qed.

Lemma verify_bytes_intro path image entries :
  zlen image mod SECTOR_BYTES = 0 →
  decode_header (slice image 0 HEADER_BYTES) (zlen image) = Ok entries →
  Forall (entry_intact image) entries →
  ∃ m, verify_bytes path image = Ok (entries, m).
Proof.
  intros Hm Hd Hi. unfold verify_bytes. rewrite (proj2 (Z.eqb_eq _ _) Hm), Hd.
  cbn [negb mbind result_bind].
  rewrite (proj2 (foldM_unit _ entries)); cycle 1.
  { eapply Forall_impl; [exact Hi|]. intros e. apply verify_entry_intact. }
  destruct (manifest_plain path image entries) as (m & Hm' & _).
  cbn [mbind result_bind]. rewrite Hm'. by exists m.
Qed.

(** ** The generated trampoline

    The RISC-V instructions it uses, on 64-bit registers: a state is the
    register file and the program counter. *)

Definition sign_extend_to (bits v : Z) : Z :=
  if Z.testbit v (bits - 1) then v mod 2 ^ bits - 2 ^ bits else v mod 2 ^ bits.
Definition reg_set (regs : Z → Z) (rd v : Z) : Z → Z :=
  λ r, if (r =? rd) && negb (rd =? 0) then v mod 2 ^ 64 else regs r.

Definition exec_insn (word : Z) (s : (Z → Z) * Z) : option ((Z → Z) * Z) :=
  let '(regs, pc) := s in
  let opcode := Z.land word 0x7F in
  let rd := Z.land (Z.shiftr word 7) 0x1F in
  let funct3 := Z.land (Z.shiftr word 12) 7 in
  let rs1 := Z.land (Z.shiftr word 15) 0x1F in
  let imm := sign_extend_to 12 (Z.shiftr word 20) in
  if opcode =? 0x37 then                                      (* lui *)
    Some (reg_set regs rd (sign_extend_to 32 (Z.land word 0xFFFFF000)), pc + 4)
  else if (opcode =? 0x1B) && (funct3 =? 0) then              (* addiw *)
    Some (reg_set regs rd (sign_extend_to 32 ((regs rs1 + imm) mod 2 ^ 32)), pc + 4)
  else if (opcode =? 0x13) && (funct3 =? 1) && (Z.shiftr word 26 =? 0) then  (* slli *)
    Some (reg_set regs rd (Z.shiftl (regs rs1) (Z.land (Z.shiftr word 20) 0x3F)), pc + 4)
  else if (opcode =? 0x13) && (funct3 =? 0) then              (* addi *)
    Some (reg_set regs rd (regs rs1 + imm), pc + 4)
  else if (opcode =? 0x67) && (funct3 =? 0) then              (* jalr *)
    Some (reg_set regs rd (pc + 4), (regs rs1 + imm) mod 2 ^ 64)
  else None.

(** Runs [n] instructions fetched from [memory], loaded at [base]. *)
Fixpoint exec_from (n : nat) (memory : list Z) (base : Z) (s : (Z → Z) * Z)
    : option ((Z → Z) * Z) :=
  match n with
  | O => Some s
  | S n => let off := s.2 - base in
           s' ← exec_insn (from_le (slice memory off (off + 4))) s;
           exec_from n memory base s'
  end.

Lemma trampoline_bytes_ok : bytes_ok trampoline.
Proof. unfold trampoline. simpl. repeat constructor; vm_compute; try done. Qed.

Lemma tag_ok_intro t bs :
  encode_ascii t = Some bs → 1 ≤ zlen bs ≤ 8 → last bs ≠ Some 0 → ∃ bs, tag_ok t bs.
Proof.
  intros Ht Hl Hb. exists bs. split_and!; [done|lia|lia|]. intros b Hlast ->. done.
Qed.

Lemma boot_payloads_ok dts opensbi_path linux_path opensbi linux dtb :
  bytes_ok opensbi → bytes_ok linux → bytes_ok dtb →
  0 < zlen opensbi < 2 ^ 32 → 0 < zlen linux < 2 ^ 32 → 0 < zlen dtb < 2 ^ 32 →
  Forall payload_ok (zip (boot_inputs dts opensbi_path linux_path)
                         [trampoline; opensbi; linux; dtb]).
Proof.
  intros H1 H2 H3 H4 H5 H6. pose proof trampoline_bytes_ok.
  unfold boot_inputs. cbn [zip zip_with]. rewrite !Forall_cons. unfold payload_ok. simpl.
  split_and!; try done; try lia;
    eapply tag_ok_intro; [reflexivity|vm_compute; split; discriminate|discriminate
    |reflexivity|vm_compute; split; discriminate|discriminate
    |reflexivity|vm_compute; split; discriminate|discriminate
    |reflexivity|vm_compute; split; discriminate|discriminate].
Qed.

Lemma manifest_boot output image entries a b c d :
  (tag <$> entries) = ["TRAMP"; "OPENSBI"; "LINUX"; "FDT"] →
  ∃ m, manifest output image entries
         (Some [("TRAMP", a); ("OPENSBI", b); ("LINUX", c); ("FDT", d)]) = Ok m ∧
       (m_tag <$> m_entries m) = (tag <$> entries).
Proof.
  destruct a, b, c, d. intros Ht.
  destruct entries as [|e1 [|e2 [|e3 [|e4 [|]]]]]; try done.
  simpl in Ht. injection Ht as H1 H2 H3 H4.
  unfold manifest. cbn [mapR]. unfold manifest_entry. rewrite H1, H2, H3, H4.
  eexists. split; [reflexivity|]. simpl. by rewrite H1, H2, H3, H4.
Qed.

Definition trampoline_regs (regs : Z → Z) : Z → Z :=
  let r := reg_set regs 11 0x1000 in
  let r := reg_set r 11 (sign_extend_to 32 ((r 11 + -0x701) mod 2 ^ 32)) in
  let r := reg_set r 11 (Z.shiftl (r 11) 20) in
  let r := reg_set r 12 (r 0 + 0) in
  let r := reg_set r 5 0x1000 in
  let r := reg_set r 5 (sign_extend_to 32 ((r 5 + -0x7FF) mod 2 ^ 32)) in
  let r := reg_set r 5 (Z.shiftl (r 5) 20) in
  reg_set r 0 0x80000020.

Lemma trampoline_regs_other regs r :
  r ≠ 5 → r ≠ 11 → r ≠ 12 → trampoline_regs regs r = regs r.
Proof.
  intros H5 H11 H12. unfold trampoline_regs, reg_set.
  rewrite (proj2 (Z.eqb_neq r 5) H5), (proj2 (Z.eqb_neq r 11) H11),
    (proj2 (Z.eqb_neq r 12) H12). by rewrite andb_false_r.
Qed.

(** ** Properties *)

(** Decode_header is the inverse of encode_header: every list of one to thirteen
    well-formed, non-overlapping entries is encoded without error into a 512-byte
    header that decodes to the same list. *)
Theorem header_roundtrip n entries :
  Forall (entry_ok n) entries → disjoint_entries entries →
  1 ≤ zlen entries ≤ 13 → 0 ≤ n < 2 ^ 64 →
  ∃ h, encode_header entries n = Ok h ∧ zlen h = HEADER_BYTES ∧ bytes_ok h ∧
    decode_header h n = Ok entries.
Proof. apply decode_encode_lemma. Qed.

Definition sample_entries : list Entry :=
  [{| tag := "LINUX"; lba := 9; sector_count := 2; load_address := 0x80200000;
      byte_length := 600; crc := 7 |};
   {| tag := "FDT"; lba := 8; sector_count := 1; load_address := 0x8FF00000;
      byte_length := 512; crc := 0 |}].

Lemma header_roundtrip_witness :
  Forall (entry_ok 5632) sample_entries ∧
  ∃ h, encode_header sample_entries 5632 = Ok h ∧ zlen h = HEADER_BYTES ∧ bytes_ok h ∧
    decode_header h 5632 = Ok sample_entries.
Proof.
  assert (Forall (entry_ok 5632) sample_entries) as Hok.
  { unfold sample_entries, entry_ok, entry_in, FIRST_PAYLOAD_LBA, SECTOR_BYTES.
    repeat apply Forall_cons_2; [..|constructor]; simpl; (split; [|lia]);
      eapply tag_ok_intro; try reflexivity; [vm_compute; split; discriminate|discriminate
      |vm_compute; split; discriminate|discriminate]. }
  split; [exact Hok|]. apply (header_roundtrip 5632 sample_entries Hok).
  - split; [apply Forall_singleton; right; vm_compute; discriminate|].
    split; [constructor|exact I].
  - vm_compute. split; discriminate.
  - lia.
Defined.

(** C27: an image verify_bytes accepts has a whole number of sectors and one to thirteen
    entries inside the payload area, pairwise disjoint, each payload with its
    recorded CRC-32 and zero padding up to its last sector. *)
Theorem verify_bytes_sound path image entries m :
  bytes_ok image → verify_bytes path image = Ok (entries, m) →
  zlen image mod SECTOR_BYTES = 0 ∧ 1 ≤ zlen entries ≤ 13 ∧
  Forall (entry_in (zlen image)) entries ∧ disjoint_entries entries ∧
  Forall (entry_intact image) entries ∧
  m_image_bytes m = zlen image ∧ (m_tag <$> m_entries m) = (tag <$> entries).
Proof.
  intros Hb H. unfold verify_bytes in H.
  destruct (Z.eqb_spec (zlen image mod SECTOR_BYTES) 0) as [Hm|]; [|done]. simpl in H.
  apply bind_Ok in H as (es & Hd & H). apply bind_Ok in H as ([] & Hv & H).
  apply bind_Ok in H as (m' & Hman & H). injection H as -> ->.
  apply decode_header_sound in Hd as (H1 & H2 & H3); [|by apply slice_bytes_ok].
  destruct (manifest_plain path image entries) as (m0 & Hm0 & Hm1 & Hm2).
  rewrite Hman in Hm0. apply Ok_inj in Hm0 as ->.
  split_and!; try done; try lia.
  apply foldM_unit in Hv. eapply Forall_impl; [exact Hv|].
  intros e. apply verify_entry_intact.
Qed.

(** C8: build never writes an image its own check rejects: for non-empty OpenSBI,
    Linux (with its magic) and device-tree inputs below 4 GiB it writes an image
    that verify_bytes accepts, whose entries carry the four payloads, unchanged,
    with their tags and load addresses, and returns a record of those entries. *)
Theorem build_verifies dts opensbi_path linux_path output dts_source dtb opensbi linux :
  bytes_ok opensbi → bytes_ok linux → bytes_ok dtb →
  0 < zlen opensbi < 2 ^ 32 → 0 < zlen linux < 2 ^ 32 → 0 < zlen dtb < 2 ^ 32 →
  slice linux LINUX_MAGIC_OFFSET (LINUX_MAGIC_OFFSET + zlen LINUX_MAGIC) = LINUX_MAGIC →
  ∃ image entries m m',
    build dts opensbi_path linux_path output (Ok (dts_source, dtb)) (Some opensbi) (Some linux)
      = (Some image, Ok m) ∧
    verify_bytes output image = Ok (entries, m') ∧
    (tag <$> entries) = ["TRAMP"; "OPENSBI"; "LINUX"; "FDT"] ∧
    (load_address <$> entries) = [0x80000000; 0x80100000; 0x80200000; 0x8FF00000] ∧
    (entry_data image <$> entries) = [trampoline; opensbi; linux; dtb] ∧
    (m_tag <$> m_entries m) = (tag <$> entries).
Proof.
  intros Hb1 Hb2 Hb3 H1 H2 H3 Hmagic.
  set (inputs := boot_inputs dts opensbi_path linux_path).
  set (payloads := [trampoline; opensbi; linux; dtb]).
  destruct (make_image_spec inputs payloads) as (image & Hmake & Hz & Hdec & Hf);
    [done|done|by vm_compute|by apply boot_payloads_ok|].
  set (entries := entries_from FIRST_PAYLOAD_LBA (zip inputs payloads)) in *.
  destruct (verify_bytes_intro output image entries) as (m' & Hv); [| done | |].
  { rewrite Hz. apply Z.mod_mul. done. }
  { apply Forall_lookup. intros k e He.
    apply Forall2_same_length_lookup in Hf as [Hl Hf].
    destruct (lookup_lt_is_Some_2 payloads k) as [d Hd];
      [rewrite <-Hl; by eapply lookup_lt_Some|].
    destruct (Hf k e d He Hd) as (Hd1 & _ & Hc & Hp).
    split; [by rewrite Hd1, Hc|]. rewrite Hp. by apply Forall_replicate. }
  assert (entry_data image <$> entries = payloads) as Hdata.
  { clear -Hf. induction Hf as [|e d es ds (He & _) _ IH]; [done|].
    by rewrite fmap_cons, He, IH. }
  assert (∀ l : list Z, 0 < zlen l < 2 ^ 32 → l ≠ []) as Hne by (intros l [Hl _] ->; exact (Z.lt_irrefl 0 Hl)).
  unfold build. rewrite (bool_decide_false (opensbi = [])) by auto.
  rewrite (bool_decide_false (linux = [])) by auto.
  rewrite bool_decide_true by done. cbn [negb].
  fold inputs payloads. rewrite Hmake, Hv. cbn [mbind result_bind].
  destruct (manifest_boot output image entries
    ("generated:fixed-openrv64-fpga-trampoline", trampoline)
    (opensbi_path, opensbi) (linux_path, linux) (dts, dts_source)) as (m & Hm & Ht); [done|].
  exists image, entries, m, m'. by rewrite Hm.
Qed.

(** The eight generated words are a boot trampoline: run from 0x80000000 with any
    register contents, they put the device tree's load address in a1 and zero in a2,
    touch no other register than t0, and jump to OpenSBI's load address. *)
Theorem trampoline_boots regs :
  regs 0 = 0 →
  ∃ regs', exec_from 8 trampoline 0x80000000 (regs, 0x80000000) = Some (regs', 0x80100000) ∧
    regs' 11 = 0x8FF00000 ∧ regs' 12 = 0 ∧
    (∀ r, r ≠ 5 → r ≠ 11 → r ≠ 12 → regs' r = regs r).
Proof.
  intros H0. exists (trampoline_regs regs). split; [reflexivity|].
  split; [reflexivity|]. split; [|apply trampoline_regs_other].
  unfold trampoline_regs, reg_set. simpl. by rewrite H0.
Qed.

Lemma trampoline_boots_witness :
  (λ r : Z, r) 0 = 0 ∧
  ∃ regs', exec_from 8 trampoline 0x80000000 (λ r : Z, r, 0x80000000)
             = Some (regs', 0x80100000) ∧
    regs' 11 = 0x8FF00000 ∧ regs' 12 = 0 ∧
    (∀ r, r ≠ 5 → r ≠ 11 → r ≠ 12 → regs' r = r).
Proof. split; [reflexivity|]. apply (trampoline_boots (λ r, r)). reflexivity. Defined.

Definition sample_linux : list Z := zero_bytes 0x38 ++ LINUX_MAGIC ++ [1; 2; 3].

Lemma build_verifies_witness :
  ∃ image entries m m',
    build "b.dts" "sbi" "Image" "out" (Ok ([1], [7])) (Some [9; 9]) (Some sample_linux)
      = (Some image, Ok m) ∧
    verify_bytes "out" image = Ok (entries, m') ∧
    (tag <$> entries) = ["TRAMP"; "OPENSBI"; "LINUX"; "FDT"] ∧
    (load_address <$> entries) = [0x80000000; 0x80100000; 0x80200000; 0x8FF00000] ∧
    (entry_data image <$> entries) = [trampoline; [9; 9]; sample_linux; [7]] ∧
    (m_tag <$> m_entries m) = (tag <$> entries).
Proof.
  apply (build_verifies "b.dts" "sbi" "Image" "out" [1] [7] [9; 9] sample_linux);
    try (vm_compute; split; reflexivity); try reflexivity;
    unfold sample_linux; repeat constructor; vm_compute; try discriminate; reflexivity.
Defined.

Definition sample_image : list Z :=
  match make_image [{| i_tag := "A"; i_path := ""; i_load_address := 4 |}] [[1; 2]] with
  | Ok image => image
  | Err _ => []
  end.

Lemma verify_bytes_sound_witness :
  ∃ entries m,
    bytes_ok sample_image ∧ verify_bytes "x" sample_image = Ok (entries, m) ∧
    zlen sample_image mod SECTOR_BYTES = 0 ∧ 1 ≤ zlen entries ≤ 13 ∧
    Forall (entry_in (zlen sample_image)) entries ∧ disjoint_entries entries ∧
    Forall (entry_intact sample_image) entries ∧
    m_image_bytes m = zlen sample_image ∧ (m_tag <$> m_entries m) = (tag <$> entries).
Proof.
  assert (bytes_ok sample_image) as Hb
    by (apply bytes_ok_test; vm_compute; reflexivity).
  destruct (verify_bytes "x" sample_image) as [[entries m]|e] eqn:E;
    [|vm_compute in E; discriminate E].
  exists entries, m. split; [exact Hb|]. split; [reflexivity|].
  apply (verify_bytes_sound "x" sample_image entries m Hb E).
Defined.
