(* ===== verification/MemImage.v ===== *)
(** * $readmemh images

    [tools/bin2mem.py] (a flat binary as fixed-width words) and
    [tools/elf2mem.py] (the loadable segments of an ELF64 file as sparse
    words).  Output files are lists of lines; [read_memh] is the reader of
    Verilog's $readmemh the two writers are meant for. *)

From stdpp Require Import base numbers list strings gmap sorting.
From Stdlib Require Import ZArith Lia Ascii.
From S2P Require Import Prelude PyText Bytes.

Open Scope Z_scope.

(** ** bin2mem *)
Module Bin2mem.

(** [integer], the type of the numeric options: [int(value, 0)]. *)
Definition integer (value : string) : result Z :=
  match py_int 0 value with
  | Some v => Ok v
  | None => Err (ValueError "invalid literal for int()")
  end.

Definition word_line (image : list Z) (word_bytes offset : Z) : string :=
  let word := from_le (slice image offset (offset + word_bytes)) in
  hex_pad (word_bytes * 2) word.

(** The number of bytes loaded and the lines of the output file. *)
Definition convert (data : list Z) (size word_bytes : Z) : result (Z * list string) :=
  raise (ValueError "word size must be a positive power of two")
    when (word_bytes <=? 0) || negb (Z.land word_bytes (word_bytes - 1) =? 0);;
  raise (ValueError "memory size must be a positive multiple of the word size")
    when (size <=? 0) || negb (size mod word_bytes =? 0);;
  raise (ValueError ("binary is " +:+ str_int (zlen data) +:+ " bytes, larger than the "
                     +:+ str_int size +:+ "-byte memory"))
    when size <? zlen data;;
  let image := zero_bytes size in
  let image := slice_assign image 0 (zlen data) data in
  Ok (zlen data, word_line image word_bytes <$> range_step 0 size word_bytes).

(** Options [--size] and [--word-bytes] as given on the command line; the exit
    status and the lines written. *)
Definition main (data : option (list Z)) (size word_bytes : Z) : Z * list string :=
  match data with
  | None => (2, [])
  | Some data =>
      match convert data size word_bytes with
      | Ok (_, lines) => (0, lines)
      | Err _ => (2, [])
      end
  end.
End Bin2mem.

(** ** elf2mem *)
Module Elf2mem.

Definition ELF_MAGIC : list Z := 0x7F :: bytes_of "ELF".
Definition PT_LOAD : Z := 1.

Record Segment := { address : Z; data : list Z; memory_size : Z }.

Definition EHDR : list code_t :=
  [Cs 16; CU 2; CU 2; CU 4; CU 8; CU 8; CU 8; CU 4; CU 2; CU 2; CU 2; CU 2; CU 2; CU 2].
Definition PHDR : list code_t := [CU 4; CU 4; CU 8; CU 8; CU 8; CU 8; CU 8; CU 8].

(** One turn of the loop over the program headers. *)
Definition read_segment (path : string) (blob : list Z) (phoff phentsize : Z)
    (segments : list Segment) (index : Z) : result (list Segment) :=
  let offset := phoff + index * phentsize in
  raise (ValueError (path +:+ ": truncated program header " +:+ str_int index))
    when zlen blob <? offset + 56;;
  ph ← unpack_from PHDR blob offset;
  match ph with
  | [FZ p_type; _; FZ p_offset; FZ p_vaddr; FZ p_paddr; FZ p_filesz; FZ p_memsz; _] =>
      if negb (p_type =? PT_LOAD) || (p_memsz =? 0) then Ok segments
      else
        raise (ValueError (path +:+ ": invalid PT_LOAD segment " +:+ str_int index))
          when (p_memsz <? p_filesz) || (zlen blob <? p_offset + p_filesz);;
        let address := if negb (p_paddr =? 0) then p_paddr else p_vaddr in
        let data := slice blob p_offset (p_offset + p_filesz) in
        Ok (segments ++ [{| address := address; data := data; memory_size := p_memsz |}])
  | _ => Err (StructError "unpack")
  end.

Definition load_elf (path : string) (blob : list Z) : result (Z * list Segment) :=
  raise (ValueError (path +:+ ": not an ELF file"))
    when (zlen blob <? 64) || negb (bool_decide (slice blob 0 4 = ELF_MAGIC));;
  class ← get_item blob 4;
  raise (ValueError (path +:+ ": expected ELF64")) when negb (class =? 2);;
  encoding ← get_item blob 5;
  raise (ValueError (path +:+ ": expected little-endian ELF")) when negb (encoding =? 1);;
  header ← unpack_from EHDR blob 0;
  match header with
  | [_; _; FZ machine; _; FZ entry; FZ phoff; _; _; _; FZ phentsize; FZ phnum; _; _; _] =>
      raise (ValueError (path +:+ ": expected EM_RISCV (243), got " +:+ str_int machine))
        when negb (machine =? 243);;
      raise (ValueError (path +:+ ": invalid program header size " +:+ str_int phentsize))
        when phentsize <? 56;;
      segments ← foldM (read_segment path blob phoff phentsize) [] (zrange 0 phnum);
      raise (ValueError (path +:+ ": no loadable segments"))
        when bool_decide (segments = []);;
      Ok (entry, segments)
  | _ => Err (StructError "unpack")
  end.

(** [image_words] keeps the words and, per byte address, the segment that wrote
    it last with the value. *)
Abbreviation words_t := (gmap Z (list Z)).
Abbreviation owner_t := (gmap Z (Z * Z)).

(** One byte of a segment. *)
Definition put_byte (base word_bytes segment_index segment_address : Z)
    (s : words_t * owner_t) (b : Z * Z) : result (words_t * owner_t) :=
  let '(words, owner) := s in
  let '(byte_offset, value) := b in
  let absolute := segment_address + byte_offset in
  let word_index := (absolute - base) / word_bytes in
  let lane := (absolute - base) mod word_bytes in
  _ ← match owner !! absolute with
      | Some previous =>
          raise (ValueError ("conflicting PT_LOAD bytes at 0x" +:+ hex_int absolute
                   +:+ ": segments " +:+ str_int previous.1 +:+ " and "
                   +:+ str_int segment_index))
            when negb (previous.2 =? value);;
          Ok tt
      | None => Ok tt
      end;
  let owner := <[absolute := (segment_index, value)]> owner in
  word ← set_item (default (zero_bytes word_bytes) (words !! word_index)) lane value;
  Ok (<[word_index := word]> words, owner).

Definition payload (segment : Segment) : list Z :=
  data segment ++ zero_bytes (memory_size segment - zlen (data segment)).

Definition put_segment (base limit word_bytes : Z) (s : words_t * owner_t)
    (e : Z * Segment) : result (words_t * owner_t) :=
  let '(segment_index, segment) := e in
  let stop := address segment + memory_size segment in
  raise (ValueError ("PT_LOAD segment outside RAM aperture: 0x" +:+ hex_int (address segment)
           +:+ "..0x" +:+ hex_int stop +:+ ", RAM=0x" +:+ hex_int base
           +:+ "..0x" +:+ hex_int limit))
    when (address segment <? base) || (limit <? stop) || (stop <? address segment);;
  raise (ValueError "negative count")
    when memory_size segment - zlen (data segment) <? 0;;
  foldM (put_byte base word_bytes segment_index (address segment)) s
    (enumerate (payload segment)).

Definition image_words (segments : list Segment) (base size word_bytes : Z)
    : result words_t :=
  raise (ValueError "word size must be 8 or 32 bytes")
    when negb (existsb (Z.eqb word_bytes) [8; 32]);;
  let limit := base + size in
  '(words, _) ← foldM (put_segment base limit word_bytes) (∅, ∅) (enumerate segments);
  Ok words.

(** The lines of one word: an address line where the sequence breaks. *)
Definition memh_lines (words : words_t) (s : list string * Z) (index : Z)
    : list string * Z :=
  let '(stream, previous) := s in
  (stream
   ++ (if negb (index =? previous + 1) then ["@" +:+ hex_int index] else [])
   ++ [hex_of_bytes (rev (words !!! index))],
   index).

Definition write_memh (words : words_t) : list string :=
  (foldl (memh_lines words) ([], -2) (merge_sort Z.le (elements (dom words)))).1.

(** The JSON object of [--manifest]. *)
Record Manifest := {
  m_entry : string; m_ram_base : string; m_ram_size : Z; m_word_bytes : Z;
  m_loaded_start : string; m_loaded_end : string; m_segments : Z }.

Definition minimum (x : Z) (l : list Z) : Z := foldl Z.min x l.
Definition maximum (x : Z) (l : list Z) : Z := foldl Z.max x l.

(** The output lines and the manifest; [load_elf] returns no empty list. *)
Definition main (path : string) (blob : list Z) (base size word_bytes : Z)
    : result (list string * Manifest) :=
  '(entry, segments) ← load_elf path blob;
  words ← image_words segments base size word_bytes;
  let starts := address <$> segments in
  let ends := (λ s, address s + memory_size s) <$> segments in
  match starts, ends with
  | start :: starts, stop :: ends =>
      Ok (write_memh words,
          {| m_entry := "0x" +:+ hex_pad 16 entry; m_ram_base := "0x" +:+ hex_pad 16 base;
             m_ram_size := size; m_word_bytes := word_bytes;
             m_loaded_start := "0x" +:+ hex_pad 16 (minimum start starts);
             m_loaded_end := "0x" +:+ hex_pad 16 (maximum stop ends);
             m_segments := zlen segments |})
  | _, _ => Err (ValueError "min() iterable argument is empty")
  end.
End Elf2mem.

(** ** The reader: Verilog's $readmemh

    A line ["@<hex>"] sets the word address, any other line is the next word. *)
Definition read_memh_line (s : gmap Z Z * Z) (l : string) : option (gmap Z Z * Z) :=
  let '(memory, address) := s in
  let word := w ← py_int 16 l; Some (<[address := w]> memory, address + 1) in
  match chars l with
  | c :: rest =>
      if bool_decide (c = "@"%char) then a ← py_int 16 (of_chars rest); Some (memory, a)
      else word
  | [] => word
  end.
Fixpoint read_memh_from (s : gmap Z Z * Z) (ls : list string) : option (gmap Z Z * Z) :=
  match ls with
  | [] => Some s
  | l :: ls => s' ← read_memh_line s l; read_memh_from s' ls
  end.
Definition read_memh (ls : list string) : option (gmap Z Z) := fst <$> read_memh_from (∅, 0) ls.

(** ** Flat images *)

Lemma power_of_two n : 0 < n → Z.land n (n - 1) = 0 ↔ ∃ k, 0 ≤ k ∧ n = 2 ^ k.
Proof.
  intros Hn. split.
  - intros Hl. pose proof (Z.log2_nonneg n). exists (Z.log2 n). split; [done|].
    destruct (Z.log2_spec n Hn) as [H1 H2].
    destruct (decide (n = 2 ^ Z.log2 n)) as [|Hne]; [done|exfalso].
    assert (Z.log2 (n - 1) = Z.log2 n) as Hlog by (apply Z.log2_unique; lia).
    assert (Z.testbit (Z.land n (n - 1)) (Z.log2 n) = true) as Ht; [|by rewrite Hl, Z.bits_0 in Ht].
    assert (0 < 2 ^ Z.log2 n) by (apply Z.pow_pos_nonneg; lia).
    rewrite Z.land_spec, Z.bit_log2 by done. rewrite <-Hlog. by rewrite Z.bit_log2 by lia.
  - intros (k & Hk & ->).
    replace (2 ^ k - 1) with (Z.ones k) by (rewrite Z.ones_equiv; lia).
    rewrite Z.land_ones by done. apply Z.mod_same. lia.
Qed.

Lemma mjoin_chunks (l : list Z) w (q : nat) :
  0 < w → Z.of_nat q * w ≤ zlen l →
  mjoin ((λ k, slice l (k * w) (k * w + w)) <$> zrange 0 (Z.of_nat q))
    = take (Z.to_nat (Z.of_nat q * w)) l.
Proof.
  intros Hw. induction q as [|q IH]; intros Hq.
  - rewrite zrange_empty by lia. done.
  - rewrite Nat2Z.inj_succ, <-Z.add_1_r, zrange_snoc by lia.
    rewrite fmap_app, join_app, IH by lia. simpl. rewrite app_nil_r.
    rewrite slice_inside by lia.
    replace (Z.to_nat ((Z.of_nat q + 1) * w))
      with (Z.to_nat (Z.of_nat q * w) + Z.to_nat w)%nat by lia.
    rewrite <-take_take_drop. do 3 f_equal. lia.
Qed.

Lemma range_step_exact q w : 0 < w → range_step 0 (q * w) w = (λ k, k * w) <$> zrange 0 q.
Proof.
  intros Hw. unfold range_step.
  replace ((q * w - 0 + w - 1) / w) with q; [done|].
  apply (Z.div_unique (q * w - 0 + w - 1) w q (w - 1)); lia.
Qed.

(** The lines of an image of [q] words, and the words they read back as. *)
Lemma word_lines image word_bytes q :
  0 < word_bytes → 0 ≤ q → zlen image = q * word_bytes → bytes_ok image →
  let lines := Bin2mem.word_line image word_bytes <$> range_step 0 (q * word_bytes) word_bytes in
  ∃ words, zlen lines = q ∧ Forall (λ l, zlen (chars l) = 2 * word_bytes) lines ∧
    mapM (py_int 16) lines = Some words ∧ mjoin (le_bytes word_bytes <$> words) = image.
Proof.
  intros Hw Hq Hz Hbi lines. unfold lines. rewrite range_step_exact by lia.
  set (word := λ k, slice image (k * word_bytes) (k * word_bytes + word_bytes)).
  assert (∀ k, k ∈ zrange 0 q → zlen (word k) = word_bytes) as Hs.
  { intros k Hk%elem_of_zrange. unfold word. rewrite zlen_slice_inside by nia. lia. }
  assert (∀ k, k ∈ zrange 0 q → 0 ≤ from_le (word k) < 2 ^ (8 * word_bytes)) as Hf.
  { intros k Hk. pose proof (from_le_bound _ (slice_bytes_ok image (k * word_bytes)
      (k * word_bytes + word_bytes) Hbi)) as Hfb. fold (word k) in Hfb. by rewrite Hs in Hfb. }
  exists ((from_le ∘ word) <$> zrange 0 q). split; [|split; [|split]].
  - rewrite !zlen_fmap, zlen_zrange by lia. lia.
  - rewrite <-list_fmap_compose. apply Forall_fmap, Forall_forall. intros k Hk.
    unfold compose, Bin2mem.word_line. rewrite hex_pad_length; [lia|lia|].
    replace (16 ^ (word_bytes * 2)) with (2 ^ (8 * word_bytes)); [by apply Hf|].
    change 16 with (2 ^ 4). rewrite <-Z.pow_mul_r by lia. f_equal. lia.
  - rewrite <-list_fmap_compose. apply mapM_Some.
    apply Forall2_fmap_l, Forall2_fmap_r. apply Forall_Forall2_diag, Forall_forall.
    intros k Hk. unfold compose, Bin2mem.word_line. apply hex_pad_int. by apply Hf.
  - rewrite <-list_fmap_compose. rewrite (list_fmap_ext _ word).
    + rewrite <-(Z2Nat.id q) at 1 by done. unfold word. rewrite mjoin_chunks by (rewrite ?Z2Nat.id; lia).
      rewrite Z2Nat.id by done. apply take_ge. unfold zlen in *. lia.
    + intros i k Hk%list_elem_of_lookup_2. unfold compose.
      apply le_bytes_from; [by rewrite Hs|]. by apply slice_bytes_ok.
Qed.

(** C40: bin2mem accepts exactly a power-of-two word size, a positive memory size that
    is a multiple of it, and a binary that fits; the lines it then writes have two
    hexadecimal digits per byte and, read back as little-endian words in order, give
    the binary followed by zeros up to the memory size. *)
Theorem bin2mem_roundtrip data size word_bytes :
  bytes_ok data →
  if is_Ok (Bin2mem.convert data size word_bytes)
  then ((∃ k, 0 ≤ k ∧ word_bytes = 2 ^ k) ∧ 0 < size ∧ size mod word_bytes = 0 ∧ zlen data ≤ size) ∧
    ∃ lines words,
    Bin2mem.convert data size word_bytes = Ok (zlen data, lines) ∧
    zlen lines = size / word_bytes ∧
    Forall (λ l, zlen (chars l) = 2 * word_bytes) lines ∧
    mapM (py_int 16) lines = Some words ∧
    mjoin (le_bytes word_bytes <$> words) = data ++ zero_bytes (size - zlen data)
  else ¬ ((∃ k, 0 ≤ k ∧ word_bytes = 2 ^ k) ∧ 0 < size ∧ size mod word_bytes = 0 ∧
          zlen data ≤ size).
Proof.
  intros Hb. unfold Bin2mem.convert.
  destruct (Z.leb_spec word_bytes 0) as [Hw|Hw]; simpl.
  { intros ((k & Hk & ->) & _). pose proof (Z.pow_pos_nonneg 2 k). lia. }
  destruct (Z.eqb_spec (Z.land word_bytes (word_bytes - 1)) 0) as [Hp|Hp]; simpl; cycle 1.
  { intros (Hp2 & _). by apply power_of_two in Hp2. }
  destruct (Z.leb_spec size 0); simpl; [lia|].
  destruct (Z.eqb_spec (size mod word_bytes) 0) as [Hm|Hm]; simpl; [|by intros (_ & _ & ? & _)].
  destruct (Z.ltb_spec size (zlen data)); simpl; [lia|].
  split; [split_and!; [by apply power_of_two|done..]|].
  set (image := slice_assign (zero_bytes size) 0 (zlen data) data).
  pose proof (zlen_nonneg data).
  assert (zlen image = size) as Hz
    by (unfold image; rewrite zlen_slice_assign; rewrite ?zlen_zero_bytes; lia).
  apply Z.mod_divide in Hm as [q ->]; [|lia].
  destruct (word_lines image word_bytes q) as (words & Hl & Hd & Hr & Hj); [lia|nia|done| |].
  { apply slice_assign_bytes_ok; [auto with py|done]. }
  rewrite Z.div_mul by lia. eexists _, words. split; [done|]. split; [done|]. split; [done|].
  split; [done|]. rewrite Hj. unfold image.
  rewrite slice_assign_inside by (rewrite ?zlen_zero_bytes; lia).
  unfold zero_bytes. rewrite take_0, app_nil_l, drop_replicate. do 2 f_equal. lia.
Qed.

Lemma bin2mem_roundtrip_witness :
  ((∃ k, 0 ≤ k ∧ 8 = 2 ^ k) ∧ 0 < 16 ∧ 16 mod 8 = 0 ∧ zlen [1; 2; 3; 4; 5] ≤ 16) ∧
  ∃ lines words,
    Bin2mem.convert [1; 2; 3; 4; 5] 16 8 = Ok (zlen [1; 2; 3; 4; 5], lines) ∧
    zlen lines = 16 / 8 ∧ Forall (λ l, zlen (chars l) = 2 * 8) lines ∧
    mapM (py_int 16) lines = Some words ∧
    mjoin (le_bytes 8 <$> words) = [1; 2; 3; 4; 5] ++ zero_bytes (16 - 5).
Proof.
  apply (bin2mem_roundtrip [1; 2; 3; 4; 5] 16 8). apply bytes_ok_test. reflexivity.
Defined.

(** ** Hexadecimal byte strings *)

Lemma hex_pad_2 b : is_byte b → chars (hex_pad 2 b) = digit_char <$> [b / 16; b mod 16].
Proof.
  intros Hb.
  apply (zrange_check (λ b, bool_decide (chars (hex_pad 2 b) = digit_char <$> [b / 16; b mod 16]))
    0 256 b); [by vm_compute|exact Hb|]. intros Ht. by apply bool_decide_eq_true in Ht.
Qed.

Definition nibbles (bs : list Z) : list Z := mjoin ((λ b, [b / 16; b mod 16]) <$> bs).

Lemma chars_hex_of_bytes bs :
  bytes_ok bs → chars (hex_of_bytes bs) = digit_char <$> nibbles bs.
Proof.
  intros Hb. unfold hex_of_bytes. rewrite chars_of_chars. unfold nibbles.
  induction Hb as [|b bs Hb _ IH]; [done|].
  rewrite !fmap_cons, !join_cons, fmap_app, <-IH.
  unfold compose at 1. by rewrite hex_pad_2.
Qed.

Lemma nibbles_bound bs : bytes_ok bs → Forall (λ d, 0 ≤ d < 16) (nibbles bs).
Proof.
  induction 1 as [|b bs Hb _ IH]; [constructor|]. unfold nibbles in *. simpl.
  unfold is_byte in Hb. repeat constructor; try done; Z.div_mod_to_equations; lia.
Qed.

(** A word printed most significant byte first reads back as its value. *)
Lemma int_hex_word w :
  bytes_ok w → w ≠ [] →
  py_int 16 (hex_of_bytes (rev w)) = Some (from_le w) ∧
  ∃ c rest, chars (hex_of_bytes (rev w)) = c :: rest ∧ c ≠ "@"%char.
Proof.
  intros Hb Hne.
  assert (bytes_ok (rev w)) as Hr by by apply List.Forall_rev.
  pose proof (chars_hex_of_bytes _ Hr) as Hc.
  pose proof (nibbles_bound _ Hr) as Hn.
  assert (nibbles (rev w) ≠ []) as Hnn.
  { destruct (rev w) as [|b l] eqn:E; [|done]. apply (f_equal (@rev Z)) in E.
    by rewrite rev_involutive in E. }
  split.
  - rewrite <-(of_chars_chars (hex_of_bytes _)), Hc, py_int_plain.
    + rewrite <-(app_nil_r (digit_char <$> _)), int_digits_print by (done || lia).
      simpl. f_equal. clear -Hb. induction Hb as [|b w Hb _ IH]; [done|].
      cbn [rev]. unfold nibbles in *. rewrite fmap_app, join_app, foldl_app, IH. simpl.
      unfold from_le, is_byte in *. simpl. rewrite Z.lor_comm, lor_shiftl_add by lia.
      Z.div_mod_to_equations. lia.
    + auto.
    + by destruct (nibbles (rev w)).
    + apply Forall_fmap. eapply Forall_impl; [exact Hn|]. intros d Hd. by apply plain_digit_char.
  - destruct (nibbles (rev w)) as [|d ds] eqn:E; [done|].
    rewrite Hc. eexists _, _. split; [done|].
    inversion Hn as [|?? Hd _]; subst. clear -Hd.
    apply (zrange_check (λ d, negb (bool_decide (digit_char d = "@"%char))) 0 16 d);
      [by vm_compute|done|]. intros Ht%negb_true_iff. by apply bool_decide_eq_false in Ht.
Qed.

(** ** Sparse images: the writer *)

Section writer.
Import Elf2mem.
Variable words : words_t.
Hypothesis words_ok : ∀ k w, words !! k = Some w → 0 ≤ k ∧ bytes_ok w ∧ w ≠ [].

Fixpoint lines_from (previous : Z) (ks : list Z) : list string :=
  match ks with
  | [] => []
  | k :: ks =>
      (if negb (k =? previous + 1) then ["@" +:+ hex_int k] else [])
      ++ [hex_of_bytes (rev (words !!! k))] ++ lines_from k ks
  end.

Lemma foldl_memh_lines stream previous ks :
  (foldl (memh_lines words) (stream, previous) ks).1 = stream ++ lines_from previous ks.
Proof.
  revert stream previous. induction ks as [|k ks IH]; intros stream previous; simpl.
  - by rewrite app_nil_r.
  - rewrite IH. by rewrite <-!app_assoc.
Qed.

Definition value_at (k : Z) : Z := from_le (words !!! k).

Lemma read_word m a k :
  k ∈ dom words →
  read_memh_line (m, a) (hex_of_bytes (rev (words !!! k))) = Some (<[a := value_at k]> m, a + 1).
Proof.
  intros [w Hw]%elem_of_dom. destruct (words_ok _ _ Hw) as (_ & Hb & Hne).
  unfold value_at. rewrite (lookup_total_correct words k w Hw).
  destruct (int_hex_word w Hb Hne) as (Hi & c & rest & Hc & Hat).
  unfold read_memh_line. rewrite Hc, bool_decide_false by done. by rewrite Hi.
Qed.

Lemma read_address m a k :
  0 ≤ k → read_memh_line (m, a) ("@" +:+ hex_int k) = Some (m, k).
Proof.
  intros Hk. unfold read_memh_line. rewrite chars_app. cbn [chars app].
  change (chars "@") with ["@"%char]. cbn [app]. rewrite bool_decide_true by done.
  rewrite of_chars_chars. unfold hex_int. by rewrite (py_int_format 16 0 k) by auto.
Qed.

Lemma read_lines ks m a previous :
  (∀ k, k ∈ ks → k ∈ dom words ∧ 0 ≤ k) →
  a = previous + 1 ∨ (∀ k, head ks = Some k → k ≠ previous + 1) →
  ∃ a', read_memh_from (m, a) (lines_from previous ks)
    = Some (foldl (λ m k, <[k := value_at k]> m) m ks, a').
Proof.
  revert m a previous. induction ks as [|k ks IH]; intros m a previous Hks Ha.
  { by eexists. }
  cbn [lines_from].
  destruct (Hks k) as [Hdom Hk]; [apply elem_of_cons; by left|].
  assert (∃ a', read_memh_from (m, k)
      (hex_of_bytes (rev (words !!! k)) :: lines_from k ks)
    = Some (foldl (λ m k, <[k := value_at k]> m) (<[k := value_at k]> m) ks, a')) as Hnext.
  { cbn [read_memh_from]. rewrite (read_word m k k Hdom). simpl.
    apply IH; [|by left]. intros j Hj. apply Hks, elem_of_cons. by right. }
  destruct (Z.eqb_spec k (previous + 1)) as [Hc|Hc]; cbn [negb app].
  - destruct Ha as [->|Ha]; [|by destruct (Ha k)]. rewrite <-Hc. exact Hnext.
  - cbn [read_memh_from]. rewrite read_address by done. exact Hnext.
Qed.

Lemma foldl_insert_lookup (f : Z → Z) ks m k :
  foldl (λ (m : gmap Z Z) k, <[k := f k]> m) m ks !! k =
    if decide (k ∈ ks) then Some (f k) else m !! k.
Proof.
  revert m. induction ks as [|j ks IH]; intros m; cbn [foldl].
  { by rewrite decide_False by (by intros ?%not_elem_of_nil). }
  rewrite IH. pose proof (elem_of_cons ks k j) as Hin.
  destruct (decide (k ∈ ks)); [by rewrite decide_True by tauto|].
  destruct (decide (k = j)) as [->|].
  - rewrite lookup_insert_eq. by rewrite decide_True by tauto.
  - rewrite lookup_insert_ne by done. by rewrite decide_False by tauto.
Qed.

Lemma read_write_memh :
  read_memh (write_memh words) = Some (from_le <$> words).
Proof.
  unfold write_memh. rewrite foldl_memh_lines, app_nil_l. unfold read_memh.
  set (ks := merge_sort Z.le (elements (dom words))).
  assert (∀ k, k ∈ ks ↔ k ∈ dom words) as Hks.
  { intros k. unfold ks. by rewrite merge_sort_Permutation, elem_of_elements. }
  assert (∀ k, k ∈ ks → k ∈ dom words ∧ 0 ≤ k) as Hpos.
  { intros k Hk%Hks. split; [done|]. apply elem_of_dom in Hk as [w Hw].
    by apply words_ok in Hw as (? & _). }
  destruct (read_lines ks ∅ 0 (-2)) as [a' ->]; [done| |].
  { right. intros k Hk. assert (k ∈ ks) as [_ ?]%Hpos; [|lia].
    by apply head_Some_elem_of. }
  simpl. f_equal. apply map_eq. intros k. rewrite foldl_insert_lookup, lookup_fmap.
  destruct (decide (k ∈ ks)) as [Hk|Hk]; rewrite Hks in Hk.
  - apply elem_of_dom in Hk as [w Hw]. unfold value_at.
    by rewrite (lookup_total_correct words k w Hw), Hw.
  - rewrite lookup_empty. apply not_elem_of_dom in Hk. by rewrite Hk.
Qed.
End writer.

(** ** Sparse images: the byte map *)

Section image.
Import Elf2mem.
Variables (base word_bytes : Z).
Hypothesis word_pos : 0 < word_bytes.

(** Bytes put so far, oldest first. *)
Definition consistent (w : list (Z * Z)) : Prop :=
  ∀ a v v', (a, v) ∈ w → (a, v') ∈ w → v = v'.

(** What the two dictionaries hold after the bytes [w] were put. *)
Definition image_inv (w : list (Z * Z)) (s : words_t * owner_t) : Prop :=
  let '(words, owner) := s in
  consistent w ∧
  (∀ a v, snd <$> owner !! a = Some v ↔ (a, v) ∈ w) ∧
  (∀ k word, words !! k = Some word → zlen word = word_bytes ∧
    (∃ lane, 0 ≤ lane < word_bytes ∧ is_Some (owner !! (base + k * word_bytes + lane))) ∧
    ∀ lane, 0 ≤ lane < word_bytes →
      word !! Z.to_nat lane =
        Some (default 0 (snd <$> owner !! (base + k * word_bytes + lane)))) ∧
  (∀ a, is_Some (owner !! a) → is_Some (words !! ((a - base) / word_bytes))).

Lemma consistent_snoc w a v :
  consistent (w ++ [(a, v)]) ↔ consistent w ∧ ∀ v', (a, v') ∈ w → v' = v.
Proof.
  unfold consistent. setoid_rewrite elem_of_app. setoid_rewrite list_elem_of_singleton. split.
  - intros H. split; [by eauto|]. intros v' Hv. eapply H; eauto.
  - intros [H1 H2] b x y [Hx|Hx] [Hy|Hy]; simplify_eq; eauto. symmetry. eauto.
Qed.

Lemma consistent_app_l w w' : consistent (w ++ w') → consistent w.
Proof. intros H a v v' ??. apply (H a); apply elem_of_app; by left. Qed.

Lemma address_split a :
  a = base + (a - base) / word_bytes * word_bytes + (a - base) mod word_bytes.
Proof. pose proof (Z.div_mod (a - base) word_bytes). lia. Qed.

(** A byte of word [k] is at lane [lane] exactly when its address says so. *)
Lemma address_lane k lane a :
  0 ≤ lane < word_bytes → base + k * word_bytes + lane = a →
  k = (a - base) / word_bytes ∧ lane = (a - base) mod word_bytes.
Proof.
  intros Hl <-. replace (base + k * word_bytes + lane - base) with (lane + k * word_bytes) by lia.
  rewrite Z.div_add, Z.mod_add, Z.div_small, Z.mod_small by lia. lia.
Qed.

(** The word a byte falls into, before it is put. *)
Lemma current_word w words owner k :
  image_inv w (words, owner) →
  let word := default (zero_bytes word_bytes) (words !! k) in
  zlen word = word_bytes ∧
  ∀ lane, 0 ≤ lane < word_bytes →
    word !! Z.to_nat lane = Some (default 0 (snd <$> owner !! (base + k * word_bytes + lane))).
Proof.
  intros (_ & _ & Hw & Hp). destruct (words !! k) as [word|] eqn:Hk; simpl.
  - destruct (Hw k word Hk) as (Hz & _ & Hl). done.
  - split; [apply zlen_zero_bytes; lia|]. intros lane Hl.
    destruct (owner !! (base + k * word_bytes + lane)) eqn:Ho.
    + exfalso. destruct (address_lane k lane _ Hl eq_refl) as [Hk' _].
      assert (is_Some (words !! k)) as [? Hs]; [|by rewrite Hk in Hs].
      rewrite Hk'. apply Hp. by rewrite Ho.
    + simpl. unfold zero_bytes. apply lookup_replicate. split; [done|lia].
Qed.

Lemma image_put w words owner index a v :
  image_inv w (words, owner) → (∀ v', (a, v') ∈ w → v' = v) →
  let k := (a - base) / word_bytes in
  ∃ word, set_item (default (zero_bytes word_bytes) (words !! k))
            ((a - base) mod word_bytes) v = Ok word ∧
    image_inv (w ++ [(a, v)]) (<[k := word]> words, <[a := (index, v)]> owner).
Proof.
  intros Hinv Hv k. destruct (current_word w words owner k Hinv) as [Hz Hcur].
  pose proof (Z.mod_pos_bound (a - base) word_bytes word_pos) as Hlane.
  set (cur := default _ _) in *. set (lane := (a - base) mod word_bytes) in *.
  exists (<[Z.to_nat lane := v]> cur). split; [apply set_item_Ok; lia|].
  destruct Hinv as (Hc & Ho & Hw & Hp).
  assert (base + k * word_bytes + lane = a) as Ha by (symmetry; apply address_split).
  split_and!.
  - by apply consistent_snoc.
  - intros b x. rewrite elem_of_app, list_elem_of_singleton.
    destruct (decide (a = b)) as [<-|Hne].
    + rewrite lookup_insert_eq. simpl. split; [intros [= ->]; by right|].
      intros [Hin|[= ->]]; [|done]. by rewrite (Hv x Hin).
    + rewrite lookup_insert_ne by done. rewrite Ho. split; [by left|].
      intros [?|[= -> _]]; done.
  - intros j word Hj. destruct (decide (k = j)) as [<-|Hne].
    + rewrite lookup_insert_eq in Hj. injection Hj as <-.
      split; [unfold zlen in *; by rewrite length_insert|]. split.
      { exists lane. split; [done|]. rewrite Ha, lookup_insert_eq. by eexists. }
      intros l Hl. destruct (decide (l = lane)) as [->|Hll].
      * rewrite Ha, lookup_insert_eq, list_lookup_insert_eq; [done|].
        unfold zlen in *. lia.
      * rewrite list_lookup_insert_ne, lookup_insert_ne by lia. by apply Hcur.
    + rewrite lookup_insert_ne in Hj by done. destruct (Hw j word Hj) as (Hzw & Hex & Hl).
      assert (∀ l, 0 ≤ l < word_bytes → base + j * word_bytes + l ≠ a) as Hna.
      { intros l Hlr Heq. destruct (address_lane j l a Hlr Heq) as [-> _]. done. }
      split; [done|]. split.
      { destruct Hex as (l & Hlr & Hs). exists l. split; [done|].
        rewrite lookup_insert_ne; [done|]. intros ->. by eapply Hna. }
      intros l Hlr. rewrite lookup_insert_ne; [by apply Hl|]. intros ->. by eapply Hna.
  - intros b Hb. destruct (decide (a = b)) as [<-|Hne].
    + fold k. rewrite lookup_insert_eq. by eexists.
    + rewrite lookup_insert_ne in Hb by done. apply lookup_insert_is_Some'. right. by apply Hp.
Qed.

Lemma put_byte_spec w s index addr off v :
  image_inv w s →
  match put_byte base word_bytes index addr s (off, v) with
  | Ok s' => image_inv (w ++ [(addr + off, v)]) s'
  | Err _ => ¬ consistent (w ++ [(addr + off, v)])
  end.
Proof.
  destruct s as [words owner]. intros Hinv. pose proof Hinv as (Hc & Ho & _).
  unfold put_byte. set (a := addr + off).
  assert ((∀ v', (a, v') ∈ w → v' = v) →
    match (word ← set_item (default (zero_bytes word_bytes) (words !! ((a - base) / word_bytes)))
                    ((a - base) mod word_bytes) v;
           Ok (<[(a - base) / word_bytes := word]> words, <[a := (index, v)]> owner)) with
    | Ok s' => image_inv (w ++ [(a, v)]) s'
    | Err _ => ¬ consistent (w ++ [(a, v)])
    end) as Hput.
  { intros Hv. destruct (image_put w words owner index a v Hinv Hv) as (word & -> & Hi). done. }
  destruct (owner !! a) as [[i v0]|] eqn:Ha.
  - assert ((a, v0) ∈ w) as Hin by (apply Ho; by rewrite Ha). simpl.
    destruct (Z.eqb_spec v0 v) as [->|Hne]; simpl; cycle 1.
    { intros [_ H]%consistent_snoc. by apply Hne, H. }
    apply Hput. intros v' Hv'. by eapply Hc.
  - apply Hput. intros v' Hv'%Ho. by rewrite Ha in Hv'.
Qed.

Lemma put_payload w s index addr bs :
  image_inv w s →
  let w' := w ++ ((λ b, (addr + b.1, b.2)) <$> bs) in
  match foldM (put_byte base word_bytes index addr) s bs with
  | Ok s' => image_inv w' s'
  | Err _ => ¬ consistent w'
  end.
Proof.
  revert w s. induction bs as [|[off v] bs IH]; intros w s Hinv; simpl.
  { by rewrite app_nil_r. }
  pose proof (put_byte_spec w s index addr off v Hinv) as Hb.
  destruct (put_byte _ _ _ _ _ _) as [s'|e]; simpl.
  - specialize (IH _ _ Hb). rewrite <-app_assoc in IH. exact IH.
  - rewrite cons_middle, app_assoc. by intros ?%consistent_app_l.
Qed.

(** All bytes of a list of segments. *)
Definition segment_bytes (segment : Segment) : list (Z * Z) :=
  (λ b, (address segment + b.1, b.2)) <$> enumerate (payload segment).

Definition in_aperture (limit : Z) (s : Segment) : Prop :=
  base ≤ address s ∧ address s + memory_size s ≤ limit ∧ 0 ≤ memory_size s ∧
  zlen (data s) ≤ memory_size s.

Lemma put_segments limit segments n w s :
  image_inv w s →
  let w' := w ++ mjoin (segment_bytes <$> segments) in
  match foldM (put_segment base limit word_bytes) s
          (zip (zrange n (n + zlen segments)) segments) with
  | Ok (words, owner) => Forall (in_aperture limit) segments ∧ image_inv w' (words, owner)
  | Err _ => ¬ (Forall (in_aperture limit) segments ∧ consistent w')
  end.
Proof.
  revert n w s. induction segments as [|seg segments IH]; intros n w s Hinv.
  { rewrite zrange_empty by (unfold zlen; simpl; lia). cbn. rewrite app_nil_r.
    destruct s. split; [constructor|done]. }
  rewrite zlen_cons, zrange_cons by (pose proof (zlen_nonneg segments); lia).
  match goal with |- context [zip (?a :: ?l) (?b :: ?k)] =>
    change (zip (a :: l) (b :: k)) with ((a, b) :: zip l k) end.
  rewrite fmap_cons, join_cons. cbn [foldM]. unfold put_segment at 2.
  destruct ((address seg <? base) || (limit <? address seg + memory_size seg)
    || (address seg + memory_size seg <? address seg)) eqn:Hout; cbn [mbind result_bind].
  { intros [Ha _]. apply Forall_cons in Ha as [(H1 & H2 & H3 & _) _].
    repeat (rewrite orb_true_iff in Hout). rewrite !Z.ltb_lt in Hout. lia. }
  b2p. destruct (Z.ltb_spec (memory_size seg - zlen (data seg)) 0); cbn [mbind result_bind].
  { intros [Ha _]. apply Forall_cons in Ha as [(_ & _ & _ & ?) _]. lia. }
  pose proof (put_payload w s n (address seg) (enumerate (payload seg)) Hinv) as Hb.
  fold (segment_bytes seg) in Hb. cbn zeta in Hb.
  destruct (foldM (put_byte _ _ _ _) _ _) as [s'|e]; cbn [mbind result_bind].
  - specialize (IH (n + 1) _ _ Hb). rewrite <-app_assoc in IH.
    replace (n + 1 + zlen segments) with (n + (1 + zlen segments)) in IH by lia.
    cbn zeta in IH |- *.
    destruct (foldM _ _ _) as [[words owner]|].
    + destruct IH as [IH1 IH2]. split; [|done]. constructor; [|done].
      unfold in_aperture. lia.
    + intros [Ha Hc]. apply Forall_cons in Ha as [_ Ha]. by apply IH.
  - intros [_ Hc]. rewrite app_assoc in Hc. by apply consistent_app_l in Hc.
Qed.
End image.

(** The byte a segment loads at address [a]. *)
Definition segment_byte (s : Elf2mem.Segment) (a : Z) : option Z :=
  if Elf2mem.address s <=? a
  then Elf2mem.payload s !! Z.to_nat (a - Elf2mem.address s) else None.

Definition agree (segments : list Elf2mem.Segment) : Prop :=
  ∀ s s' a v v', s ∈ segments → s' ∈ segments →
    segment_byte s a = Some v → segment_byte s' a = Some v' → v = v'.

(** The byte at address [a] of an image. *)
Definition image_byte (base word_bytes : Z) (words : gmap Z (list Z)) (a : Z) : option Z :=
  word ← words !! ((a - base) / word_bytes); word !! Z.to_nat ((a - base) mod word_bytes).

Lemma elem_of_segment_bytes s a v : (a, v) ∈ segment_bytes s ↔ segment_byte s a = Some v.
Proof.
  unfold segment_bytes, segment_byte. rewrite list_elem_of_fmap. split.
  - intros ([off x] & [= -> ->] & Hin). apply list_elem_of_lookup in Hin as [i Hi].
    rewrite lookup_enumerate in Hi. simpl.
    destruct (Elf2mem.payload s !! i) eqn:Hx; [|done]. simpl in Hi. injection Hi as <- ->.
    rewrite (proj2 (Z.leb_le _ _)) by lia. rewrite <-Hx. f_equal. lia.
  - destruct (Z.leb_spec (Elf2mem.address s) a); [|done]. intros Hv.
    exists (a - Elf2mem.address s, v). split; [f_equal; simpl; lia|].
    apply (list_elem_of_lookup_2 _ (Z.to_nat (a - Elf2mem.address s))).
    rewrite lookup_enumerate, Hv. simpl. do 2 f_equal. lia.
Qed.

Lemma elem_of_all_bytes segments a v :
  (a, v) ∈ mjoin (segment_bytes <$> segments) ↔
  ∃ s, s ∈ segments ∧ segment_byte s a = Some v.
Proof.
  rewrite list_elem_of_join. split.
  - intros (l & Hin & Hl). apply list_elem_of_fmap in Hl as (s & -> & Hs).
    exists s. split; [done|]. by apply elem_of_segment_bytes.
  - intros (s & Hs & Hv). exists (segment_bytes s). split; [by apply elem_of_segment_bytes|].
    apply list_elem_of_fmap. by exists s.
Qed.

Lemma consistent_agree segments :
  consistent (mjoin (segment_bytes <$> segments)) ↔ agree segments.
Proof.
  unfold consistent, agree. setoid_rewrite elem_of_all_bytes. split.
  - intros H s s' a v v' ????. apply (H a v v'); eauto.
  - intros H a v v' (s & ? & ?) (s' & ? & ?). by apply (H s s' a).
Qed.

Lemma image_inv_byte base word_bytes w words owner a :
  0 < word_bytes → image_inv base word_bytes w (words, owner) →
  (∀ v, (a, v) ∈ w → image_byte base word_bytes words a = Some v) ∧
  ((∀ v, (a, v) ∉ w) → default 0 (image_byte base word_bytes words a) = 0).
Proof.
  intros Hpos (Hc & Ho & Hw & Hp). unfold image_byte.
  pose proof (Z.mod_pos_bound (a - base) word_bytes Hpos) as Hl.
  pose proof (address_split base word_bytes Hpos a) as Ha. split.
  - intros v Hv%Ho. destruct (Hp a) as [word Hword].
    { destruct (owner !! a); [by eexists|done]. }
    rewrite Hword. simpl. destruct (Hw _ _ Hword) as (_ & _ & Hlane).
    rewrite Hlane by done. by rewrite <-Ha, Hv.
  - intros Hn. destruct (words !! ((a - base) / word_bytes)) as [word|] eqn:Hword; [|done].
    simpl. destruct (Hw _ _ Hword) as (_ & _ & Hlane). rewrite Hlane by done.
    rewrite <-Ha. simpl. destruct (snd <$> owner !! a) as [v|] eqn:Hv; [|done].
    apply Ho in Hv. by apply Hn in Hv.
Qed.

Lemma image_inv_nil base word_bytes : image_inv base word_bytes [] (∅, ∅).
Proof.
  split_and!.
  - intros a v v' []%not_elem_of_nil.
  - intros a v. rewrite lookup_empty. simpl. split; [done|by intros ?%not_elem_of_nil].
  - intros k word. by rewrite lookup_empty.
  - intros a [x Hx]. by rewrite lookup_empty in Hx.
Qed.

(** [image_words] on every input. *)
Lemma image_words_spec segments base size word_bytes :
  match Elf2mem.image_words segments base size word_bytes with
  | Ok words =>
      (word_bytes = 8 ∨ word_bytes = 32) ∧
      Forall (in_aperture base (base + size)) segments ∧ agree segments ∧
      ∃ owner, image_inv base word_bytes (mjoin (segment_bytes <$> segments)) (words, owner)
  | Err _ => ¬ ((word_bytes = 8 ∨ word_bytes = 32) ∧
                Forall (in_aperture base (base + size)) segments ∧ agree segments)
  end.
Proof.
  unfold Elf2mem.image_words. destruct (existsb _ _) eqn:Hwb; simpl in Hwb; b2p; simpl; [|lia].
  assert (word_bytes = 8 ∨ word_bytes = 32) as H832.
  { rewrite !Z.eqb_eq in Hwb. destruct Hwb as [?|Hwb]; [auto|]. b2p.
    destruct Hwb as [Hwb|]; [|done]. b2p. auto. }
  assert (0 < word_bytes) as Hpos by lia.
  pose proof (put_segments base word_bytes Hpos (base + size) segments 0 [] (∅, ∅)
    (image_inv_nil base word_bytes)) as H.
  rewrite app_nil_l, Z.add_0_l in H. fold (enumerate segments) in H. cbn zeta in H.
  destruct (foldM _ _ _) as [[words owner]|]; simpl.
  - destruct H as [Hin Hinv].
    split_and!; [done..| |by exists owner]. apply consistent_agree. by destruct Hinv.
  - intros (_ & ? & ?). apply H. split; [done|]. by apply consistent_agree.
Qed.

Lemma from_le_byte w (lane : nat) v :
  bytes_ok w → w !! lane = Some v → from_le w / 2 ^ (8 * Z.of_nat lane) mod 256 = v.
Proof.
  intros Hb. revert lane. induction Hb as [|b w Hb Hw IH]; intros lane Hl; [done|].
  pose proof (from_le_bound w Hw) as [Hpos _].
  assert (from_le (b :: w) = from_le w * 256 + b) as ->.
  { unfold from_le in *. simpl. rewrite Z.lor_comm, lor_shiftl_add; [done|lia|exact Hb]. }
  destruct lane as [|lane]; simpl in Hl.
  - injection Hl as ->. rewrite Z.mul_0_r, Z.pow_0_r, Z.div_1_r.
    rewrite Z.add_comm, Z.mod_add by lia. by apply Z.mod_small.
  - rewrite <-(IH lane Hl). replace (8 * Z.of_nat (S lane)) with (8 + 8 * Z.of_nat lane) by lia.
    rewrite Z.pow_add_r by lia. change (2 ^ 8) with 256.
    rewrite <-Z.div_div by lia. do 2 f_equal.
    rewrite Z.add_comm, Z.div_add by lia. rewrite Z.div_small by exact Hb. lia.
Qed.

(** The words of an image over byte-valued segments. *)
Lemma image_words_ok segments base size word_bytes words :
  Forall (λ s, bytes_ok (Elf2mem.data s)) segments →
  Elf2mem.image_words segments base size word_bytes = Ok words →
  ∀ k w, words !! k = Some w → 0 ≤ k ∧ bytes_ok w ∧ w ≠ [] ∧ zlen w = word_bytes.
Proof.
  intros Hb Himg k w Hk. pose proof (image_words_spec segments base size word_bytes) as H.
  rewrite Himg in H. destruct H as (H832 & Hin & _ & owner & _ & Ho & Hw & _).
  assert (∀ a v, snd <$> owner !! a = Some v → base ≤ a ∧ is_byte v) as Hbyte.
  { intros a v (s & Hs & Hv)%Ho%elem_of_all_bytes. unfold segment_byte in Hv.
    rewrite Forall_forall in Hin, Hb. destruct (Hin s Hs) as (? & _).
    destruct (Z.leb_spec (Elf2mem.address s) a); [|done]. split; [lia|].
    unfold Elf2mem.payload in Hv.
    apply list_elem_of_lookup_2, elem_of_app in Hv as [Hv|Hv].
    - specialize (Hb s Hs). rewrite Forall_forall in Hb. by apply Hb.
    - pose proof (zero_bytes_ok (Elf2mem.memory_size s - zlen (Elf2mem.data s))) as Hz.
      rewrite Forall_forall in Hz. by apply Hz. }
  destruct (Hw k w Hk) as (Hz & (lane & Hlane & [[i v] Hov]) & Hl).
  split_and!.
  - assert (base ≤ base + k * word_bytes + lane); [|nia].
    apply (Hbyte _ v). by rewrite Hov.
  - apply Forall_lookup. intros j b Hj. pose proof (lookup_lt_Some _ _ _ Hj) as Hlt.
    specialize (Hl (Z.of_nat j)). rewrite Nat2Z.id, Hj in Hl.
    specialize (Hl ltac:(unfold zlen in *; lia)). injection Hl as ->.
    destruct (snd <$> owner !! _) as [x|] eqn:Hx; simpl; [|done].
    by apply Hbyte in Hx as [_ ?].
  - intros ->. change (zlen (@nil Z)) with 0 in Hz. lia.
  - done.
Qed.

(** The byte of a word memory at address [a]. *)
Definition memory_byte (base word_bytes : Z) (memory : gmap Z Z) (a : Z) : Z :=
  default 0 (memory !! ((a - base) / word_bytes)) / 2 ^ (8 * ((a - base) mod word_bytes)) mod 256.

Lemma image_words_faithful segments base size word_bytes :
  Forall (λ s, bytes_ok (Elf2mem.data s)) segments →
  match Elf2mem.image_words segments base size word_bytes with
  | Ok words =>
      ((word_bytes = 8 ∨ word_bytes = 32) ∧
       Forall (in_aperture base (base + size)) segments ∧ agree segments) ∧
      ∃ memory, read_memh (Elf2mem.write_memh words) = Some memory ∧
        (∀ s a v, s ∈ segments → segment_byte s a = Some v →
           memory_byte base word_bytes memory a = v) ∧
        (∀ a, (∀ s, s ∈ segments → segment_byte s a = None) →
           memory_byte base word_bytes memory a = 0)
  | Err _ => ¬ ((word_bytes = 8 ∨ word_bytes = 32) ∧
                Forall (in_aperture base (base + size)) segments ∧ agree segments)
  end.
Proof.
  intros Hb. pose proof (image_words_spec segments base size word_bytes) as H.
  destruct (Elf2mem.image_words segments base size word_bytes) as [words|] eqn:Himg; [|done].
  pose proof (image_words_ok _ _ _ _ _ Hb Himg) as Hok.
  destruct H as (H832 & Hin & Hagree & owner & Hinv). assert (0 < word_bytes) as Hpos by lia.
  split; [done|].
  exists (from_le <$> words). split; [apply read_write_memh; intros k w Hk; by destruct (Hok k w Hk) as (? & ? & ? & _)|].
  assert (∀ a, memory_byte base word_bytes (from_le <$> words) a
    = default 0 (image_byte base word_bytes words a)) as Hbyte.
  { intros a. unfold memory_byte, image_byte.
    rewrite lookup_fmap. pose proof (Z.mod_pos_bound (a - base) word_bytes Hpos).
    destruct (words !! ((a - base) / word_bytes)) as [w|] eqn:Hk; simpl; cycle 1.
    { by rewrite Z.div_0_l by (apply Z.pow_nonzero; lia). }
    destruct (Hok _ _ Hk) as (_ & Hbw & _ & Hz).
    destruct (lookup_lt_is_Some_2 w (Z.to_nat ((a - base) mod word_bytes))) as [v Hv];
      [unfold zlen in Hz; lia|].
    rewrite Hv. simpl. rewrite <-(from_le_byte w _ v Hbw Hv). by rewrite Z2Nat.id by lia. }
  split.
  - intros s a v Hs Hv. rewrite Hbyte.
    destruct (image_inv_byte base word_bytes _ words owner a Hpos Hinv) as [H _].
    rewrite (H v); [done|]. apply elem_of_all_bytes. by exists s.
  - intros a Hn. rewrite Hbyte.
    apply (image_inv_byte base word_bytes _ words owner a Hpos Hinv).
    intros v (s & Hs & Hv)%elem_of_all_bytes. by rewrite Hn in Hv.
Qed.

(** C7: image_words accepts exactly 8- or 32-byte words and segments that lie inside
    the RAM aperture and agree wherever they overlap: what it accepts is so, and what it
    refuses is not. Reading the written file back
    as $readmemh does then gives a memory that holds every byte of every segment
    (file data, then zeros up to the memory size) at its address, and zero at every
    other address. *)
Theorem elf_image_faithful segments base size word_bytes :
  Forall (λ s, bytes_ok (Elf2mem.data s)) segments →
  match Elf2mem.image_words segments base size word_bytes with
  | Ok words =>
      ((word_bytes = 8 ∨ word_bytes = 32) ∧
       Forall (in_aperture base (base + size)) segments ∧ agree segments) ∧
      ∃ memory, read_memh (Elf2mem.write_memh words) = Some memory ∧
        (∀ s a v, s ∈ segments → segment_byte s a = Some v →
           memory_byte base word_bytes memory a = v) ∧
        (∀ a, (∀ s, s ∈ segments → segment_byte s a = None) →
           memory_byte base word_bytes memory a = 0)
  | Err _ => ¬ ((word_bytes = 8 ∨ word_bytes = 32) ∧
                Forall (in_aperture base (base + size)) segments ∧ agree segments)
  end.
Proof. apply image_words_faithful. Qed.

Definition sample_segments : list Elf2mem.Segment :=
  [{| Elf2mem.address := 0x1003; Elf2mem.data := [1; 2; 3]; Elf2mem.memory_size := 8 |};
   {| Elf2mem.address := 0x1005; Elf2mem.data := [3; 0]; Elf2mem.memory_size := 2 |}].

Lemma elf_image_faithful_witness :
  ∃ words memory,
    Elf2mem.image_words sample_segments 0x1000 64 8 = Ok words ∧
    Forall (in_aperture 0x1000 (0x1000 + 64)) sample_segments ∧ agree sample_segments ∧
    read_memh (Elf2mem.write_memh words) = Some memory ∧
    (∀ s a v, s ∈ sample_segments → segment_byte s a = Some v →
       memory_byte 0x1000 8 memory a = v) ∧
    (∀ a, (∀ s, s ∈ sample_segments → segment_byte s a = None) →
       memory_byte 0x1000 8 memory a = 0).
Proof.
  pose proof (elf_image_faithful sample_segments 0x1000 64 8) as H.
  destruct (Elf2mem.image_words sample_segments 0x1000 64 8) as [words|] eqn:E;
    [|vm_compute in E; discriminate E].
  destruct H as [(_ & Hin & Hagree) [memory H]]; [by repeat constructor|].
  exists words, memory. split; [reflexivity|]. split; [exact Hin|]. split; [exact Hagree|exact H].
Defined.

Definition segment_from (blob : list Z) (s : Elf2mem.Segment) : Prop :=
  ∃ off, 0 ≤ off ∧ off + zlen (Elf2mem.data s) ≤ zlen blob ∧
    Elf2mem.data s = slice blob off (off + zlen (Elf2mem.data s)) ∧
    zlen (Elf2mem.data s) ≤ Elf2mem.memory_size s ∧ 0 < Elf2mem.memory_size s.

Lemma read_segment_sound path blob phoff phentsize segments index segments' :
  bytes_ok blob → Forall (segment_from blob) segments →
  Elf2mem.read_segment path blob phoff phentsize segments index = Ok segments' →
  Forall (segment_from blob) segments'.
Proof.
  intros Hb Hs H. unfold Elf2mem.read_segment in H. ok_step H.
  apply bind_Ok in H as (ph & Hph & H).
  assert (Forall field_nonneg ph) as Hn
    by (eapply unpack_from_nonneg; [done| |exact Hph]; by repeat constructor).
  repeat (match type of H with context [match ?x with _ => _ end] =>
    lazymatch type of x with bool => fail | _ => destruct x; try discriminate H end end).
  destruct (_ || _) eqn:Ht; [by injection H as <-|]. ok_step H. injection H as <-.
  b2p. rewrite !Forall_cons in Hn. simpl in Hn.
  apply Forall_app. split; [done|]. apply Forall_singleton.
  unfold segment_from. simpl.
  match goal with |- context [slice blob ?o (?o + ?z)] =>
    exists o; rewrite (zlen_slice_inside blob o (o + z)) by lia;
    replace (o + z - o) with z by lia end.
  split_and!; try done; lia.
Qed.

(** load_elf only returns from a 64-bit little-endian RISC-V file, with at least
    one segment; every segment's data is a contiguous part of the file no longer
    than its memory size, so image_words never has to pad by a negative count. *)
Theorem load_elf_sound path blob entry segments :
  bytes_ok blob → Elf2mem.load_elf path blob = Ok (entry, segments) →
  segments ≠ [] ∧ Forall (segment_from blob) segments ∧
  slice blob 0 4 = Elf2mem.ELF_MAGIC ∧ blob !! 4%nat = Some 2 ∧ blob !! 5%nat = Some 1 ∧
  0 ≤ entry.
Proof.
  intros Hb H. unfold Elf2mem.load_elf in H.
  destruct (Z.ltb_spec (zlen blob) 64); [done|]. simpl in H.
  destruct (bool_decide _) eqn:Hmagic; [|done]. b2p. simpl in H.
  destruct (lookup_lt_is_Some_2 blob 4) as [cls Hc]; [unfold zlen in *; lia|].
  destruct (lookup_lt_is_Some_2 blob 5) as [enc Hd]; [unfold zlen in *; lia|].
  rewrite (get_item_Ok blob 4 cls), (get_item_Ok blob 5 enc) in H by (done || lia).
  cbn [mbind result_bind] in H.
  ok_step H. cbn [mbind result_bind] in H. ok_step H. b2p. subst cls enc.
  apply bind_Ok in H as (header & Hh & H).
  assert (Forall field_nonneg header) as Hn
    by (eapply unpack_from_nonneg; [done| |exact Hh]; by repeat constructor).
  repeat (match type of H with context [match ?x with _ => _ end] =>
    lazymatch type of x with bool => fail | _ => destruct x; try discriminate H end end).
  do 2 ok_step H. apply bind_Ok in H as (segs & Hs & H). ok_step H.
  injection H as -> ->. b2p. rewrite !Forall_cons in Hn. simpl in Hn.
  split_and!; try done; [|tauto].
  eapply (foldM_inv (λ _ segs, Forall (segment_from blob) segs)); [constructor| |exact Hs].
  intros don x s1 s2 Hf Hr _. by eapply read_segment_sound.
Qed.

Definition sample_elf : list Z :=
  Elf2mem.ELF_MAGIC ++ [2; 1] ++ zero_bytes 10 ++ le_bytes 2 2 ++ le_bytes 2 243
  ++ le_bytes 4 1 ++ le_bytes 8 0x80000000 ++ le_bytes 8 64 ++ le_bytes 8 0
  ++ le_bytes 4 0 ++ le_bytes 2 64 ++ le_bytes 2 56 ++ le_bytes 2 1 ++ zero_bytes 6
  ++ le_bytes 4 1 ++ le_bytes 4 5 ++ le_bytes 8 120 ++ le_bytes 8 0 ++ le_bytes 8 0x80000000
  ++ le_bytes 8 2 ++ le_bytes 8 4 ++ le_bytes 8 8 ++ [7; 9].

Lemma load_elf_sound_witness :
  ∃ segments,
    bytes_ok sample_elf ∧ Elf2mem.load_elf "a.elf" sample_elf = Ok (0x80000000, segments) ∧
    segments ≠ [] ∧ Forall (segment_from sample_elf) segments ∧
    slice sample_elf 0 4 = Elf2mem.ELF_MAGIC ∧ sample_elf !! 4%nat = Some 2 ∧
    sample_elf !! 5%nat = Some 1 ∧ 0 ≤ 0x80000000.
Proof.
  assert (bytes_ok sample_elf) as Hb by (apply bytes_ok_test; vm_compute; reflexivity).
  assert (Elf2mem.load_elf "a.elf" sample_elf =
    Ok (0x80000000, [{| Elf2mem.address := 0x80000000; Elf2mem.data := [7; 9];
                        Elf2mem.memory_size := 4 |}])) as E by (vm_compute; reflexivity).
  eexists. split; [exact Hb|]. split; [exact E|].
  apply (load_elf_sound "a.elf" sample_elf _ _ Hb E).
Defined.
