(* ===== verification/Csv.v ===== *)
(** * CSV tables

    [csv.DictReader] over the records of a CSV file (each record a list of
    strings, as [csv.reader] yields them), and access to the columns of a row. *)

From stdpp Require Import base numbers list strings gmap.
From Stdlib Require Import ZArith Lia.
From S2P Require Import Prelude PyText.

Open Scope Z_scope.

(** A row is a dictionary from column names to text; a short record leaves the
    missing columns at [None], the surplus of a long one is kept under the key
    [None]. *)
Record Row := { columns : gmap string (option string); surplus : list string }.

Record Table := { fieldnames : option (list string); rows : list Row }.

(** [dict(zip(fieldnames, record))], later columns of the same name winning,
    with the missing values filled in. *)
Fixpoint fill (d : gmap string (option string)) (names record : list string) : Row :=
  match names, record with
  | [], extra => {| columns := d; surplus := extra |}
  | name :: names, [] => fill (<[name := None]> d) names []
  | name :: names, v :: record => fill (<[name := Some v]> d) names record
  end.

Definition dict_reader (records : list (list string)) : Table :=
  match records with
  | [] => {| fieldnames := None; rows := [] |}
  | names :: records =>
      {| fieldnames := Some names;
         rows := fill ∅ names <$> filter (λ r, r ≠ []) records |}
  end.

(** [row[name]] *)
Definition column (row : Row) (name : string) : result (option string) :=
  match columns row !! name with
  | Some v => Ok v
  | None => Err (KeyError name)
  end.

(** [int(row[name], base)]; [int(None, base)] is a [TypeError]. *)
Definition int_text (base : Z) (text : string) : result Z :=
  match py_int base text with
  | Some v => Ok v
  | None => Err (ValueError ("invalid literal for int(): " +:+ text))
  end.
Definition text_of (v : option string) : result string :=
  match v with
  | Some s => Ok s
  | None => Err (TypeError "int() can't convert non-string with explicit base")
  end.
Definition int_column (row : Row) (name : string) (base : Z) : result Z :=
  v ← column row name; s ← text_of v; int_text base s.

(** [sorted(required.difference(rows.fieldnames or ()))] *)
Definition missing_columns (required : list string) (t : Table) : list string :=
  sort_strings (filter (λ name, name ∉ default [] (fieldnames t)) required).

Lemma int_column_Ok row name base v :
  int_column row name base = Ok v ↔
  ∃ s, columns row !! name = Some (Some s) ∧ py_int base s = Some v.
Proof.
  unfold int_column, column, int_text. split.
  - destruct (columns row !! name) as [[s|]|]; simpl; try done.
    intros H. exists s. split; [done|]. destruct (py_int base s); [by injection H as ->|done].
  - intros (s & -> & Hs). simpl. by rewrite Hs.
Qed.
