(* ===== verification/CsvText.v ===== *)
(** * CSV text

    [csv.reader] and [csv.writer] in their default dialect: commas, double quotes
    that are doubled inside a quoted field, and carriage return and line feed after
    a record.  The reader is the state machine of the library, over the lines of a
    file opened with [newline=""]; [csv_roundtrip] says that it returns the records
    that were written. *)

From stdpp Require Import base numbers list strings.
From Stdlib Require Import ZArith Lia Ascii.
From S2P Require Import Prelude PyText Csv.

Open Scope Z_scope.

Definition CR : ascii := char_of 13.
Definition LF : ascii := char_of 10.
Definition COMMA : ascii := ","%char.
Definition QUOTE : ascii := double_quote_char.

Definition is_newline (c : ascii) : bool := Ascii.eqb c CR || Ascii.eqb c LF.

(** ** Reading *)

Inductive mode :=
  | StartRecord | StartField | InField | InQuotedField | QuoteInQuotedField | EatCrnl.

(** The machine: its mode, the field and the record being read, the records. *)
Record reader := {
  mode_of : mode; field : list ascii; fields : list string; records : list (list string) }.

Definition reader_init : reader :=
  {| mode_of := StartRecord; field := []; fields := []; records := [] |}.

Definition to_mode (m : mode) (r : reader) : reader :=
  {| mode_of := m; field := field r; fields := fields r; records := records r |}.
Definition add_char (c : ascii) (m : mode) (r : reader) : reader :=
  {| mode_of := m; field := field r ++ [c]; fields := fields r; records := records r |}.
Definition save_field (m : mode) (r : reader) : reader :=
  {| mode_of := m; field := []; fields := fields r ++ [of_chars (field r)]; records := records r |}.

Definition CSV_ERROR : exn :=
  RuntimeError "new-line character seen in unquoted field - do you need to open the file with newline=''?".

Definition start_field (r : reader) (c : ascii) : reader :=
  if is_newline c then save_field EatCrnl r
  else if Ascii.eqb c QUOTE then to_mode InQuotedField r
  else if Ascii.eqb c COMMA then save_field StartField r
  else add_char c InField r.

(** One character. *)
Definition feed (r : reader) (c : ascii) : result reader :=
  match mode_of r with
  | StartRecord => Ok (if is_newline c then to_mode EatCrnl r else start_field r c)
  | StartField => Ok (start_field r c)
  | InField =>
      Ok (if is_newline c then save_field EatCrnl r
          else if Ascii.eqb c COMMA then save_field StartField r
          else add_char c InField r)
  | InQuotedField =>
      Ok (if Ascii.eqb c QUOTE then to_mode QuoteInQuotedField r else add_char c InQuotedField r)
  | QuoteInQuotedField =>
      Ok (if Ascii.eqb c QUOTE then add_char c InQuotedField r
          else if Ascii.eqb c COMMA then save_field StartField r
          else if is_newline c then save_field EatCrnl r
          else add_char c InField r)
  | EatCrnl => if is_newline c then Ok r else Err CSV_ERROR
  end.

Definition emit (r : reader) : reader :=
  {| mode_of := StartRecord; field := []; fields := []; records := records r ++ [fields r] |}.

(** The end of a line: it ends the record unless a quoted field is open. *)
Definition feed_eol (r : reader) : reader :=
  match mode_of r with
  | StartRecord | EatCrnl => emit r
  | StartField | InField | QuoteInQuotedField => emit (save_field StartRecord r)
  | InQuotedField => r
  end.

(** A line ends after a line feed, after a carriage return that no line feed
    follows, and with the text. *)
Definition line_ends (c : ascii) (rest : list ascii) : bool :=
  match rest with
  | [] => true
  | d :: _ => Ascii.eqb c LF || (Ascii.eqb c CR && negb (Ascii.eqb d LF))
  end.

Fixpoint run (r : reader) (s : list ascii) : result reader :=
  match s with
  | [] => Ok r
  | c :: s =>
      r ← feed r c;
      run (if line_ends c s then feed_eol r else r) s
  end.

(** The end of the text inside a quoted field ends the field and the record. *)
Definition finish (r : reader) : list (list string) :=
  match mode_of r with
  | InQuotedField => records (emit (save_field StartRecord r))
  | _ => records r
  end.

Definition csv_reader (text : string) : result (list (list string)) :=
  r ← run reader_init (chars text); Ok (finish r).

(** [csv.DictReader] over a text. *)
Definition csv_table (text : string) : result Table := dict_reader <$> csv_reader text.

(** ** Writing *)

Definition needs_quotes (s : list ascii) : bool :=
  existsb (λ c, Ascii.eqb c COMMA || Ascii.eqb c QUOTE || is_newline c) s.
Definition double_quotes (s : list ascii) : list ascii :=
  c ← s; if Ascii.eqb c QUOTE then [QUOTE; QUOTE] else [c].
Definition quoted (s : list ascii) : list ascii := QUOTE :: double_quotes s ++ [QUOTE].
Definition write_field (alone : bool) (text : string) : list ascii :=
  let s := chars text in
  if needs_quotes s || (alone && bool_decide (s = [])) then quoted s else s.

Fixpoint write_fields (l : list string) : list ascii :=
  match l with
  | [] => []
  | [f] => write_field false f
  | f :: l => write_field false f ++ COMMA :: write_fields l
  end.
(** [writer.writerow(fields)]; a record of one empty field is quoted. *)
Definition write_row (l : list string) : list ascii :=
  match l with [f] => write_field true f | _ => write_fields l end ++ [CR; LF].
Definition csv_writer (rows : list (list string)) : string :=
  of_chars (mjoin (write_row <$> rows)).

(** ** What is written is read *)

(** A character that does not end its line, and one that leaves a quoted field open. *)
Lemma run_inner r c d s r' :
  feed r c = Ok r' → is_newline c = false → run r (c :: d :: s) = run r' (d :: s).
Proof.
  intros Hf Hn. unfold is_newline in Hn. apply orb_false_iff in Hn as [Hc Hl].
  cbn [run]. rewrite Hf. cbn [mbind result_bind]. unfold line_ends. by rewrite Hc, Hl.
Qed.

Lemma run_open r c s r' :
  feed r c = Ok r' → mode_of r' = InQuotedField → run r (c :: s) = run r' s.
Proof.
  intros Hf Hm. cbn [run]. rewrite Hf. cbn [mbind result_bind]. unfold feed_eol. rewrite Hm.
  by destruct (line_ends c s).
Qed.

(** The machine in a field, after [s] of it. *)
Definition within (m : mode) (r : reader) (s : list ascii) : reader :=
  {| mode_of := m; field := s; fields := fields r; records := records r |}.

Lemma run_quoted r s t rest :
  run (within InQuotedField r t) (double_quotes s ++ QUOTE :: rest)
  = run (within InQuotedField r (t ++ s)) (QUOTE :: rest).
Proof.
  revert t. induction s as [|c s IH]; intros t; [by rewrite app_nil_r|].
  unfold double_quotes. cbn [mbind list_bind]. fold (double_quotes s).
  destruct (Ascii.eqb_spec c QUOTE) as [->|Hc].
  - cbn [app]. rewrite (run_inner _ _ _ _ (within QuoteInQuotedField r t)) by done.
    rewrite (run_open _ _ _ (within InQuotedField r (t ++ [QUOTE]))) by done.
    rewrite IH. by rewrite <- app_assoc.
  - cbn [app]. apply Ascii.eqb_neq in Hc.
    rewrite (run_open _ _ _ (within InQuotedField r (t ++ [c]))); [|unfold feed; simpl; by rewrite Hc|done].
    rewrite IH. by rewrite <- app_assoc.
Qed.

(** A plain field, after its first character. *)
Lemma run_plain r s t d rest :
  needs_quotes s = false →
  run (within InField r t) (s ++ d :: rest) = run (within InField r (t ++ s)) (d :: rest).
Proof.
  revert t. induction s as [|c s IH]; intros t Hs; [by rewrite app_nil_r|].
  unfold needs_quotes in Hs. cbn [existsb] in Hs. apply orb_false_iff in Hs as [Hc Hs].
  apply orb_false_iff in Hc as [Hc Hn]. apply orb_false_iff in Hc as [Hc _].
  assert (feed (within InField r t) c = Ok (within InField r (t ++ [c]))) as Hf.
  { unfold feed. simpl. by rewrite Hn, Hc. }
  destruct s as [|c' s]; cbn [app]; rewrite (run_inner _ _ _ _ _ Hf Hn); [done|].
  specialize (IH (t ++ [c]) Hs). cbn [app] in IH. rewrite IH. by rewrite <- app_assoc.
Qed.

(** After the text of a field the machine is at its end: the next separator saves it. *)
Definition ended (r : reader) (s : list ascii) (r' : reader) : Prop :=
  ∃ m, r' = within m r s ∧ (m = StartRecord ∧ s = [] ∨ m = StartField ∧ s = [] ∨ m = InField ∨
                            m = QuoteInQuotedField).

Definition fresh (r : reader) : Prop :=
  field r = [] ∧ (mode_of r = StartRecord ∨ mode_of r = StartField).

Lemma run_field alone r f d rest :
  fresh r → ∃ r', ended r (chars f) r' ∧
    (mode_of r' = StartRecord → mode_of r = StartRecord ∧ write_field alone f = []) ∧
    run r (write_field alone f ++ d :: rest) = run r' (d :: rest).
Proof.
  intros [Hempty Hstart]. unfold write_field.
  destruct (needs_quotes (chars f) || _) eqn:E.
  - exists (within QuoteInQuotedField r (chars f)). split; [exists QuoteInQuotedField; tauto|].
    split; [done|]. unfold quoted. rewrite <- app_comm_cons, <- app_assoc.
    rewrite (run_open _ _ _ (within InQuotedField r [])); [| |done].
    2:{ unfold feed. rewrite <- Hempty. destruct Hstart as [-> | ->]; done. }
    cbn [app]. rewrite run_quoted. cbn [app]. by rewrite (run_inner _ _ _ _ (within QuoteInQuotedField r (chars f))).
  - apply orb_false_iff in E as [E _]. destruct (chars f) as [|c s] eqn:Hf.
    + exists r. split; [|by split; [tauto|]]. exists (mode_of r). split; [|tauto].
      destruct r. simpl in *. by subst.
    + exists (within InField r (c :: s)). split; [exists InField; tauto|]. split; [done|].
      pose proof E as E'. unfold needs_quotes in E. cbn [existsb] in E.
      apply orb_false_iff in E as [Hc Hs]. apply orb_false_iff in Hc as [Hc Hn].
      apply orb_false_iff in Hc as [Hc Hq].
      assert (feed r c = Ok (within InField r [c])) as Hfeed.
      { unfold feed, start_field. rewrite Hn, Hq, Hc. destruct r. simpl in *. subst. by destruct Hstart as [-> | ->]. }
      destruct s as [|c' s]; cbn [app]; rewrite (run_inner _ _ _ _ _ Hfeed Hn); [done|].
      exact (run_plain r (c' :: s) [c] d rest Hs).
Qed.

Definition saved (r : reader) (s : list ascii) (m : mode) : reader :=
  {| mode_of := m; field := []; fields := fields r ++ [of_chars s]; records := records r |}.

Lemma run_separator r r' s c rest :
  ended r s r' → run r' (COMMA :: c :: rest) = run (saved r s StartField) (c :: rest).
Proof. intros (m & -> & H). apply run_inner; [|done]. by destruct H as [[-> ->]|[[-> ->]|[-> | ->]]]. Qed.

Lemma run_terminator r r' s rest :
  ended r s r' → (mode_of r' = StartRecord → fields r = [] ∧ False) →
  run r' (CR :: LF :: rest) = run (emit (saved r s EatCrnl)) rest.
Proof.
  intros (m & -> & H) Hm.
  assert (feed (within m r s) CR = Ok (saved r s EatCrnl)) as Hf.
  { destruct H as [[-> ->]|[[-> ->]|[-> | ->]]]; try done. by destruct (Hm eq_refl). }
  cbn [run]. rewrite Hf. cbn [mbind result_bind]. unfold line_ends at 1. cbn.
  by destruct rest.
Qed.

Lemma run_fields r l rest :
  fresh r → (2 ≤ length l)%nat ∨ (mode_of r = StartField ∧ l ≠ []) →
  run r (write_fields l ++ CR :: LF :: rest) =
    run {| mode_of := StartRecord; field := []; fields := [];
           records := records r ++ [fields r ++ l] |} rest.
Proof.
  revert r. induction l as [|f l IH]; intros r Hr Hl; [simpl in Hl; destruct Hl as [?|[_ ?]]; [lia|done]|].
  destruct l as [|g l].
  - destruct Hl as [Hl|[Hl _]]; [simpl in Hl; lia|]. cbn [write_fields].
    destruct (run_field false r f CR (LF :: rest) Hr) as (r' & He & Hm & ->).
    rewrite (run_terminator r r' (chars f)); [|done|by rewrite Hl in Hm; intros [? _]%Hm].
    unfold emit, saved. simpl. by rewrite of_chars_chars.
  - change (write_fields (f :: g :: l)) with (write_field false f ++ COMMA :: write_fields (g :: l)).
    rewrite <- app_assoc. rewrite <- app_comm_cons.
    destruct (run_field false r f COMMA (write_fields (g :: l) ++ CR :: LF :: rest) Hr)
      as (r' & He & _ & ->).
    assert (∃ c t, write_fields (g :: l) ++ CR :: LF :: rest = c :: t) as (c & t & Ht).
    { destruct (write_fields (g :: l)) as [|c t]; simpl; eauto. }
    rewrite Ht. rewrite (run_separator r r' (chars f)) by done. rewrite <- Ht.
    rewrite IH; [|by split; [|right]|right; done].
    unfold saved. simpl. by rewrite of_chars_chars, <- app_assoc.
Qed.

Lemma run_row rows l rest :
  run {| mode_of := StartRecord; field := []; fields := []; records := rows |} (write_row l ++ rest) =
  run {| mode_of := StartRecord; field := []; fields := []; records := rows ++ [l] |} rest.
Proof.
  set (r := {| mode_of := StartRecord; field := []; fields := []; records := rows |}).
  assert (fresh r) as Hr by (split; [|left]; done).
  unfold write_row. rewrite <- app_assoc. destruct l as [|f [|g l]].
  - cbn. by destruct rest.
  - change ([CR; LF] ++ rest) with (CR :: LF :: rest).
    destruct (run_field true r f CR (LF :: rest) Hr) as (r' & He & Hm & ->).
    rewrite (run_terminator r r' (chars f)); [|done|].
    + unfold emit, saved. simpl. by rewrite of_chars_chars.
    + intros [_ Hw]%Hm. unfold write_field in Hw. destruct (needs_quotes _ || _) eqn:E; [done|].
      rewrite Hw in E. by rewrite bool_decide_true in E.
  - change ([CR; LF] ++ rest) with (CR :: LF :: rest). rewrite run_fields; [done|done|left; simpl; lia].
Qed.

Lemma csv_roundtrip_spec rows : csv_reader (csv_writer rows) = Ok rows.
Proof.
  unfold csv_reader, csv_writer, reader_init. rewrite chars_of_chars.
  assert (∀ done, run {| mode_of := StartRecord; field := []; fields := []; records := done |}
            (mjoin (write_row <$> rows)) =
            Ok {| mode_of := StartRecord; field := []; fields := []; records := done ++ rows |}) as ->.
  { induction rows as [|l rows IH]; intros don; simpl; [by rewrite app_nil_r|].
    rewrite run_row, IH. by rewrite <- app_assoc. }
  done.
Qed.

(** Quoted separators, quotes and line ends, an empty line, a missing last line
    end and an unterminated quoted field. *)
Example reader_examples :
  let text l := of_chars (mjoin (chars <$> l)) in
  csv_reader (text ["a,b"; newline; quote; "x,"; quote; quote; newline; quote; ",c"]) =
    Ok [["a"; "b"]; ["x," +:+ quote +:+ newline; "c"]] ∧
  csv_reader (text ["a"; newline; newline; "b,"]) = Ok [["a"]; []; ["b"; ""]] ∧
  csv_reader (text ["a,"; quote; "b"]) = Ok [["a"; "b"]] ∧
  csv_reader (text ["a"; of_chars [CR; LF]; "b"; quote; "c"; of_chars [CR]; "d"])
    = Ok [["a"]; ["b" +:+ quote +:+ "c"]; ["d"]] ∧
  csv_reader "" = Ok [].
Proof. vm_compute. repeat split. Qed.
