(* ===== verification/PyFloat.v ===== *)
(** * Floating-point results in reports

    Python's true division of integers ([a / b], correctly rounded to a double),
    its product with a small integer, and the fixed-point formats [.Nf] and
    [.N%] of a double.  Doubles are the [spec_float] values of the Standard
    Library, with the operations of its executable specification of binary64. *)

From stdpp Require Import base numbers list strings.
From Stdlib Require Import ZArith Lia SpecFloat.
From S2P Require Import Prelude PyText.

Open Scope Z_scope.

Abbreviation double := spec_float.

#[export] Instance double_eq_dec : EqDecision double.
Proof. solve_decision. Defined.

Definition PREC : Z := 53.
Definition EMAX : Z := 1024.

(** An integer as a float operand, not rounded. *)
Definition exact (z : Z) : double :=
  match z with
  | Z0 => S754_zero false
  | Zpos p => S754_finite false p 0
  | Zneg p => S754_finite true p 0
  end.

(** [a / b] *)
Definition true_div (a b : Z) : result double :=
  raise (ZeroDivisionError "division by zero") when b =? 0;;
  Ok (SFdiv PREC EMAX (exact a) (exact b)).

(** [a / b if b else default] for a known non-zero divisor, 0.0 otherwise. *)
Definition div_or_zero (a b : Z) : double :=
  if b =? 0 then S754_zero false else SFdiv PREC EMAX (exact a) (exact b).

(** [float(z)] *)
Definition to_float (z : Z) : double := SFdiv PREC EMAX (exact z) (exact 1).

Definition fmul (x y : double) : double := SFmul PREC EMAX x y.
Definition fdiv (x y : double) : double := SFdiv PREC EMAX x y.
Definition fadd (x y : double) : double := SFadd PREC EMAX x y.
Definition fsub (x y : double) : double := SFsub PREC EMAX x y.
Definition flt (x y : double) : bool := SFltb x y.

(** [sum] of floats compensates for rounding (Python 3.12): beside the running sum it
    keeps the sum of what the additions lost. *)
Definition compensated (s : double * double) (x : double) : double * double :=
  let '(hi, lo) := s in
  let t := fadd hi x in
  (t, fadd lo (if SFleb (SFabs x) (SFabs hi) then fadd (fsub hi t) x else fadd (fsub x t) hi)).
Definition is_finite (x : double) : bool :=
  match x with S754_zero _ | S754_finite _ _ _ => true | _ => false end.
Definition is_nonzero (x : double) : bool := match x with S754_zero _ => false | _ => true end.
Definition float_sum (l : list double) : double :=
  match l with
  | [] => S754_zero false
  | x :: l =>
      let '(hi, lo) := foldl compensated (fadd (S754_zero false) x, S754_zero false) l in
      if is_nonzero lo && is_finite lo then fadd hi lo else hi
  end.

(** The nearest integer to [num / den], ties to even ([den] positive). *)
Definition round_half_even (num den : Z) : Z :=
  let q := num / den in
  let r := num mod den in
  match Z.compare (2 * r) den with
  | Lt => q
  | Gt => q + 1
  | Eq => if Z.even q then q else q + 1
  end.

(** The magnitude [m * 2^e] scaled by [10^digits] and rounded. *)
Definition scaled (m : positive) (e digits : Z) : Z :=
  if 0 <=? e then Zpos m * 2 ^ e * 10 ^ digits
  else round_half_even (Zpos m * 10 ^ digits) (2 ^ (- e)).

Definition fixed_magnitude (digits n : Z) : string :=
  let whole := str_int (n / 10 ^ digits) in
  if digits =? 0 then whole
  else whole +:+ "." +:+ format_int 10 digits (n mod 10 ^ digits).

(** [f"{x:.{digits}f}"] *)
Definition fixed (digits : Z) (x : double) : string :=
  match x with
  | S754_zero s => (if s then "-" else "") +:+ fixed_magnitude digits 0
  | S754_finite s m e => (if s then "-" else "") +:+ fixed_magnitude digits (scaled m e digits)
  | S754_infinity s => if s then "-inf" else "inf"
  | S754_nan => "nan"
  end.

(** [f"{x:.{digits}%}"] *)
Definition percent (digits : Z) (x : double) : string :=
  fixed digits (fmul x (to_float 100)) +:+ "%".

Example fixed_examples :
  fixed 4 (div_or_zero 1 3) = "0.3333" ∧ fixed 4 (div_or_zero 1 20000) = "0.0001" ∧
  fixed 4 (div_or_zero 1 32) = "0.0312" ∧ fixed 4 (div_or_zero 3 32) = "0.0938" ∧
  percent 2 (div_or_zero 1 7) = "14.29%" ∧ percent 2 (div_or_zero 5 5) = "100.00%" ∧
  fixed 3 (div_or_zero (-5) 2) = "-2.500" ∧ fixed 0 (div_or_zero 5 2) = "2" ∧
  fixed 2 (div_or_zero 2675 1000) = "2.67".
Proof. repeat split; vm_compute; reflexivity. Qed.

(** Ten times 0.1: the additions alone give 0.9999999999999999. *)
Example float_sum_examples :
  float_sum (replicate 10 (div_or_zero 1 10)) = to_float 1 ∧
  foldl fadd (S754_zero false) (replicate 10 (div_or_zero 1 10)) ≠ to_float 1 ∧
  float_sum [to_float 1; S754_infinity false; to_float 3] = S754_infinity false.
Proof. split_and!; [vm_compute; reflexivity|vm_compute; discriminate|vm_compute; reflexivity]. Qed.

(** Rounding is to the nearest integer. *)
Lemma round_half_even_near num den :
  0 < den → 2 * Z.abs (num - den * round_half_even num den) ≤ den.
Proof.
  intros Hd. unfold round_half_even.
  pose proof (Z.div_mod num den). pose proof (Z.mod_pos_bound num den Hd).
  destruct (Z.compare_spec (2 * (num mod den)) den); [destruct (Z.even _)| |]; nia.
Qed.
