(* ===== verification/Binary64.v ===== *)
(** * Correct rounding

    The division of [SpecFloat] on integer operands is rounded to the nearest binary64
    value, ties to even: [division_rounds] characterises it by the exponent of the
    quotient and [round_half_even].  It follows that the result is a function of the
    rational number ([division_ratio]), that it is a valid binary64 value
    ([division_valid]), and that a value is what every quotient near it is rounded to
    ([division_near]). *)

From stdpp Require Import base numbers list.
From Stdlib Require Import ZArith Lia SpecFloat.
From S2P Require Import Prelude PyText PyFloat.

Open Scope Z_scope.

Definition EMIN : Z := -1074.

(** ** Rounding a quotient *)

Lemma round_half_even_scale k N D : 0 < k → 0 < D → round_half_even (k * N) (k * D) = round_half_even N D.
Proof.
  intros Hk HD. unfold round_half_even. rewrite Z.div_mul_cancel_l, Z.mul_mod_distr_l by lia.
  replace (2 * (k * (N mod D))) with (k * (2 * (N mod D))) by lia.
  destruct (Z.compare_spec (k * (2 * (N mod D))) (k * D)), (Z.compare_spec (2 * (N mod D)) D); (done || nia).
Qed.
Lemma round_half_even_ratio N D N' D' :
  0 < D → 0 < D' → N * D' = N' * D → round_half_even N D = round_half_even N' D'.
Proof.
  intros HD HD' E. rewrite <- (round_half_even_scale D' N D), <- (round_half_even_scale D N' D') by lia.
  f_equal; lia.
Qed.
Lemma round_half_even_le N D c : 0 < D → N ≤ c * D → round_half_even N D ≤ c.
Proof.
  intros HD Hc. pose proof (round_half_even_near N D HD). nia.
Qed.
Lemma round_half_even_ge N D c : 0 < D → c * D ≤ N → c ≤ round_half_even N D.
Proof. intros HD Hc. pose proof (round_half_even_near N D HD). nia. Qed.
(** Within half a unit of an integer. *)
Lemma round_half_even_close N D c : 0 < D → 2 * Z.abs (N - c * D) < D → round_half_even N D = c.
Proof. intros HD Hc. pose proof (round_half_even_near N D HD). nia. Qed.

(** ** The shift with its round and sticky bits *)

(** The record of the quotient [N / D]. *)
Definition represents (r : shr_record) (N D : Z) : Prop :=
  shr_m r = N / D ∧ shr_r r = (D <=? 2 * (N mod D)) ∧
  shr_s r = negb (2 * (N mod D) =? if D <=? 2 * (N mod D) then D else 0).

Lemma represents_location N D :
  0 ≤ N → 0 < D → represents (shr_record_of_loc (N / D) (new_location D (N mod D))) N D.
Proof.
  intros HN HD. pose proof (Z.mod_pos_bound N D HD) as Hr. unfold represents, new_location.
  set (r := N mod D) in *. clearbody r.
  destruct (Z.even D) eqn:Heven.
  - unfold new_location_even. destruct (Z.eqb_spec r 0) as [->|Hr0].
    + destruct (Z.leb_spec D (2 * 0)); [lia|done].
    + destruct (Z.compare_spec (2 * r) D), (Z.leb_spec D (2 * r)); try lia; simpl;
        split_and!; try done; symmetry; apply negb_true_iff || apply negb_false_iff; lia.
  - unfold new_location_odd. destruct (Z.eqb_spec r 0) as [->|Hr0].
    + destruct (Z.leb_spec D (2 * 0)); [lia|done].
    + assert (2 * r ≠ D) by (intros E; rewrite <- E, Z.even_mul in Heven; discriminate Heven).
      destruct (Z.compare_spec (2 * r + 1) D), (Z.leb_spec D (2 * r)); try lia; simpl;
        split_and!; try done; symmetry; apply negb_true_iff || apply negb_false_iff; lia.
Qed.

Lemma shr_1_spec m r s :
  0 ≤ m → shr_1 (Build_shr_record m r s) = Build_shr_record (m / 2) (Z.odd m) (r || s).
Proof.
  intros Hm. rewrite <- Z.div2_div. destruct m as [|[p|p|]|p]; done.
Qed.

Lemma represents_shr_1 r N D : 0 ≤ N → 0 < D → represents r N D → represents (shr_1 r) N (D * 2).
Proof.
  intros HN HD. destruct r as [m r s]. unfold represents. cbn [shr_m shr_r shr_s]. intros (-> & -> & ->).
  assert (0 ≤ N / D) as Hq by (apply Z.div_pos; lia).
  rewrite shr_1_spec by done. cbn [shr_m shr_r shr_s].
  pose proof (Z.mod_pos_bound N D HD) as Hr. rewrite <- Z.div_div by lia.
  rewrite Z.rem_mul_r by lia.
  assert ((N / D) mod 2 = Z.b2z (Z.odd (N / D))) as -> by (by rewrite Zmod_odd; destruct (Z.odd _)).
  set (t := N mod D) in *. clearbody t. split; [done|]. destruct (Z.odd (N / D)); cbn [Z.b2z].
  - rewrite (proj2 (Z.leb_le (D * 2) _)) by lia. split; [done|].
    destruct (Z.leb_spec D (2 * t)), (Z.eqb_spec (2 * t) D), (Z.eqb_spec (2 * t) 0),
      (Z.eqb_spec (2 * (t + D * 1)) (D * 2)); try lia; done.
  - rewrite (proj2 (Z.leb_gt (D * 2) _)) by lia. split; [done|].
    destruct (Z.leb_spec D (2 * t)), (Z.eqb_spec (2 * t) D), (Z.eqb_spec (2 * t) 0),
      (Z.eqb_spec (2 * (t + D * 0)) 0); try lia; done.
Qed.

Lemma represents_iter p r N D :
  0 ≤ N → 0 < D → represents r N D → represents (SpecFloat.iter_pos shr_1 p r) N (D * 2 ^ Zpos p).
Proof.
  intros HN. revert r D. induction p as [p IH|p IH|]; intros r D HD Hr; cbn [SpecFloat.iter_pos].
  - replace (D * 2 ^ Z.pos p~1) with (D * 2 * 2 ^ Z.pos p * 2 ^ Z.pos p).
    + apply IH; [nia|]. apply IH; [lia|]. by apply represents_shr_1.
    + rewrite (Pos2Z.inj_xI p), Z.pow_add_r, Z.pow_twice_r by lia. lia.
  - replace (D * 2 ^ Z.pos p~0) with (D * 2 ^ Z.pos p * 2 ^ Z.pos p).
    + apply IH; [nia|]. by apply IH.
    + rewrite (Pos2Z.inj_xO p), Z.pow_twice_r. lia.
  - change (2 ^ 1) with 2. by apply represents_shr_1.
Qed.

Lemma represents_round r N D :
  represents r N D → round_nearest_even (shr_m r) (loc_of_shr_record r) = round_half_even N D.
Proof.
  destruct r as [m r s]. unfold represents, round_half_even. cbn [shr_m shr_r shr_s]. intros (-> & -> & ->).
  set (q := N / D). set (t := 2 * (N mod D)). clearbody q t.
  destruct (Z.compare_spec t D), (Z.leb_spec D t); try lia; cbn [loc_of_shr_record].
  - subst. by rewrite Z.eqb_refl.
  - by destruct (t =? 0).
  - by rewrite (proj2 (Z.eqb_neq t D)) by lia.
Qed.

(** ** Digits *)

Lemma digits2_log2 p : Z.pos (digits2_pos p) = Z.log2 (Z.pos p) + 1.
Proof.
  induction p as [p IH|p IH|]; [| |done]; cbn [digits2_pos]; rewrite Pos2Z.inj_succ, IH.
  - rewrite (Pos2Z.inj_xI p), Z.log2_succ_double by lia. lia.
  - rewrite (Pos2Z.inj_xO p), Z.log2_double by lia. lia.
Qed.
Lemma digits_log2 m : 0 < m → Zdigits2 m = Z.log2 m + 1.
Proof. destruct m as [|p|p]; try lia. intros _. apply digits2_log2. Qed.
Lemma digits_le m n : 0 ≤ m < 2 ^ n → 0 ≤ n → Zdigits2 m ≤ n.
Proof.
  intros Hm Hn. destruct (decide (m = 0)) as [->|Hne]; [done|]. rewrite digits_log2 by lia.
  pose proof (Z.log2_lt_pow2 m n). lia.
Qed.

(** ** The end of the rounding *)

(** The value with a rounded mantissa of at most 53 bits, or the next power of two. *)
Definition packed (s : bool) (m e : Z) : double :=
  if m =? 0 then S754_zero s
  else
    let '(m, e) := if m =? 2 ^ 53 then (2 ^ 52, e + 1) else (m, e) in
    if e <=? EMAX - PREC then S754_finite s (Z.to_pos m) e else S754_infinity s.

Definition rounded (s : bool) (m e : Z) : double :=
  let '(mrs, e) := shr_fexp PREC EMAX m e loc_Exact in
  match shr_m mrs with
  | Z0 => S754_zero s
  | Zpos m => if e <=? EMAX - PREC then S754_finite s m e else S754_infinity s
  | _ => S754_nan
  end.

Lemma rounded_packed s m e : 0 ≤ m ≤ 2 ^ 53 → EMIN ≤ e → rounded s m e = packed s m e.
Proof.
  intros Hm He. unfold rounded, packed, shr_fexp, fexp, emin, PREC, EMAX. unfold EMIN in He.
  destruct (Z.eqb_spec m (2 ^ 53)) as [->|Hne].
  - replace (Z.max (Zdigits2 (2 ^ 53) + e - 53) (3 - 1024 - 53) - e) with 1; [done|].
    change (Zdigits2 (2 ^ 53)) with 54. lia.
  - pose proof (digits_le m 53). set (n := Z.max _ _ - e). assert (n ≤ 0) as Hn by lia.
    destruct n as [|p|p]; [|lia|]; cbn [shr shr_record_of_loc shr_m].
    all: destruct m as [|m|m]; [done| |lia]; by rewrite Z.eqb_sym.
Qed.

(** ** The exponent of a quotient *)

(** [a / b < 2 ^ k] *)
Definition below (a b k : Z) : Prop := a * 2 ^ Z.max 0 (- k) < b * 2 ^ Z.max 0 k.

Lemma below_at K a b k : 0 ≤ K → 0 ≤ K + k → below a b k ↔ a * 2 ^ K < b * 2 ^ (K + k).
Proof.
  intros HK Hk. unfold below. set (t := K - Z.max 0 (- k)).
  replace K with (Z.max 0 (- k) + t) at 1 by lia.
  replace (K + k) with (Z.max 0 k + t) by lia. rewrite !Z.pow_add_r by lia.
  pose proof (Z.pow_pos_nonneg 2 t). rewrite !Z.mul_assoc. rewrite <- Z.mul_lt_mono_pos_r by lia. done.
Qed.
Lemma below_mono a b k k' : 0 < b → k ≤ k' → below a b k → below a b k'.
Proof.
  intros Hb Hk. set (K := Z.abs k + Z.abs k'). rewrite !(below_at K) by lia. intros Ha.
  eapply Z.lt_le_trans; [exact Ha|]. apply Z.mul_le_mono_nonneg_l; [lia|]. apply Z.pow_le_mono_r; lia.
Qed.
Lemma below_ratio a b c d k : 0 < b → 0 < d → a * d = c * b → below a b k → below c d k.
Proof.
  intros Hb Hd E. unfold below. set (p := 2 ^ Z.max 0 (- k)). set (q := 2 ^ Z.max 0 k). intros H.
  apply (Z.mul_lt_mono_pos_r b); [done|]. replace (c * p * b) with (a * p * d) by nia.
  replace (d * q * b) with (b * q * d) by lia. by apply Z.mul_lt_mono_pos_r.
Qed.

(** The exponent of the last bit of the result. *)
Definition exponent (a b e : Z) : Prop :=
  EMIN ≤ e ∧ below a b (e + 53) ∧ (e = EMIN ∨ ¬ below a b (e + 52)).

Lemma exponent_unique a b e e' : 0 < b → exponent a b e → exponent a b e' → e = e'.
Proof.
  intros Hb (He & Hlt & Hle) (He' & Hlt' & Hle').
  destruct (Z.lt_trichotomy e e') as [H|[H|H]]; [|done|].
  - destruct Hle' as [->|Hle']; [lia|]. destruct Hle'. by eapply (below_mono _ _ (e + 53)); [|lia|].
  - destruct Hle as [->|Hle]; [lia|]. destruct Hle. by eapply (below_mono _ _ (e' + 53)); [|lia|].
Qed.

(** The quotient in units of the last bit. *)
Definition units (a b e : Z) : Z := round_half_even (a * 2 ^ Z.max 0 (- e)) (b * 2 ^ Z.max 0 e).

Lemma pow2_pos k : 0 ≤ k → 0 < 2 ^ k.
Proof. intros. by apply Z.pow_pos_nonneg. Qed.

Lemma units_ratio a b c d e : 0 < b → 0 < d → a * d = c * b → units a b e = units c d e.
Proof.
  intros Hb Hd E. pose proof (pow2_pos (Z.max 0 e)). apply round_half_even_ratio; [nia..|].
  transitivity (a * d * (2 ^ Z.max 0 (- e) * 2 ^ Z.max 0 e)); [ring|]. rewrite E. ring.
Qed.

(** At most 53 bits, or the next power of two. *)
Lemma units_bound a b e : 0 ≤ a → 0 < b → below a b (e + 53) → 0 ≤ units a b e ≤ 2 ^ 53.
Proof.
  intros Ha Hb Hlt. unfold units. pose proof (pow2_pos (Z.max 0 e)). pose proof (pow2_pos (Z.max 0 (- e))). split.
  - apply round_half_even_ge; nia.
  - apply round_half_even_le; [nia|]. rewrite (below_at (Z.max 0 (- e))) in Hlt by lia.
    replace (Z.max 0 (- e) + (e + 53)) with (Z.max 0 e + 53) in Hlt by lia. rewrite Z.pow_add_r in Hlt by lia. lia.
Qed.

(** ** Division *)

(** The quotient of the integers and its exponent before the rounding. *)
Lemma quotient_bounds a b :
  0 < a → 0 < b →
  let k := Z.log2 a - Z.log2 b in ¬ below a b k ∧ below a b (k + 1) ∨ ¬ below a b (k - 1) ∧ below a b k.
Proof.
  intros Ha Hb k. pose proof (Z.log2_spec a Ha) as [Ha1 Ha2]. pose proof (Z.log2_spec b Hb) as [Hb1 Hb2].
  pose proof (Z.log2_nonneg a). pose proof (Z.log2_nonneg b).
  rewrite Z.pow_succ_r in Ha2, Hb2 by done.
  set (K := Z.log2 b + 1). rewrite !(below_at K) by lia.
  replace (K + k) with (Z.log2 a + 1) by lia. replace (K + (k + 1)) with (Z.log2 a + 2) by lia.
  replace (K + (k - 1)) with (Z.log2 a) by lia. unfold K. rewrite !Z.pow_add_r by lia.
  change (2 ^ 1) with 2. change (2 ^ 2) with 4.
  set (A := 2 ^ Z.log2 a) in *. set (B := 2 ^ Z.log2 b) in *. clearbody A B K. clear k.
  destruct (Z.lt_ge_cases (a * (B * 2)) (b * (A * 2))); [right|left].
  - split; [|lia]. assert (b * A ≤ 2 * B * A) by nia. assert (A * B ≤ a * B) by nia. lia.
  - split; [lia|]. assert (a * B < 2 * A * B) by nia. assert (A * B ≤ A * b) by nia. lia.
Qed.

(** The exponent before the rounding, and after the first shift. *)
Definition start_exponent (a b : Z) : Z := Z.min (Z.max (Z.log2 a - Z.log2 b - 53) EMIN) 0.
Definition start_quotient (a b : Z) : Z := a * 2 ^ (- start_exponent a b) / b.
Definition end_exponent (a b : Z) : Z :=
  Z.max (start_exponent a b) (Z.max (Zdigits2 (start_quotient a b) + start_exponent a b - 53) EMIN).

Lemma end_exponent_spec a b : 0 < a → 0 < b → exponent a b (end_exponent a b).
Proof.
  intros Ha Hb. unfold end_exponent. set (e0 := start_exponent a b). set (q := start_quotient a b).
  assert (e0 ≤ 0) as He0 by (unfold e0, start_exponent; lia).
  assert (0 ≤ q ∧ b * q ≤ a * 2 ^ (- e0) < b * (q + 1)) as (Hq0 & Hq1 & Hq2).
  { pose proof (pow2_pos (- e0)). split; [apply Z.div_pos; nia|]. unfold q, start_quotient. fold e0.
    pose proof (Z.mul_div_le (a * 2 ^ (- e0)) b). pose proof (Z.mul_succ_div_gt (a * 2 ^ (- e0)) b). lia. }
  set (k := Z.log2 a - Z.log2 b). assert (¬ below a b (k - 1)) as Hk.
  { destruct (quotient_bounds a b Ha Hb) as [[H _]|[H _]]; [|done]. intros H'. destruct H.
    eapply below_mono; [done| |exact H']. unfold k. lia. }
  assert (e0 = Z.min (Z.max (k - 53) EMIN) 0) as Ee0 by done.
  destruct (decide (q = 0)) as [Hq|Hq].
  - assert (below a b e0) as Hlt by (apply (below_at (- e0)); [lia|lia|]; replace (- e0 + e0) with 0 by lia; lia).
    assert (k ≤ e0) by (destruct (Z.le_gt_cases k e0); [done|]; destruct Hk; eapply below_mono; [..|exact Hlt]; lia).
    rewrite Hq. cbn [Zdigits2]. unfold EMIN in *. replace (Z.max _ _) with (-1074) by lia. unfold exponent, EMIN.
    split_and!; [done| |by left]. eapply below_mono; [..|exact Hlt]; lia.
  - assert (0 < q) as Hpos by lia. rewrite (digits_log2 q) by done. set (d := Z.log2 q + 1).
    pose proof (Z.log2_nonneg q). pose proof (Z.log2_spec q Hpos) as [Hd1 Hd2].
    assert (below a b (d + e0)) as Hlt.
    { apply (below_at (- e0)); [lia..|]. replace (- e0 + (d + e0)) with (Z.succ (Z.log2 q)) by lia. nia. }
    assert (¬ below a b (d - 1 + e0)) as Hge.
    { rewrite (below_at (- e0)) by lia. replace (- e0 + (d - 1 + e0)) with (Z.log2 q) by lia. nia. }
    assert (k ≤ d + e0) by (destruct (Z.le_gt_cases k (d + e0)); [done|]; destruct Hk;
      eapply below_mono; [..|exact Hlt]; lia).
    unfold EMIN in *. replace (Z.max e0 _) with (Z.max (d + e0 - 53) (-1074)) by lia. unfold exponent, EMIN.
    split; [lia|]. split; [eapply below_mono; [..|exact Hlt]; lia|].
    destruct (Z.le_gt_cases (d + e0 - 53) (-1074)); [left; lia|right].
    by replace (Z.max (d + e0 - 53) (-1074) + 52) with (d - 1 + e0) by lia.
Qed.

Lemma division_start a b :
  0 < a → 0 < b →
  SFdiv PREC EMAX (exact a) (exact b) =
    binary_round_aux PREC EMAX false (start_quotient a b) (start_exponent a b)
      (new_location b (a * 2 ^ (- start_exponent a b) mod b)).
Proof.
  intros Ha Hb. destruct a as [|a|a], b as [|b|b]; try lia.
  unfold exact, SFdiv, SFdiv_core_binary. cbn [xorb]. rewrite (digits_log2 (Zpos a)), (digits_log2 (Zpos b)) by lia.
  replace (Z.min _ _) with (start_exponent (Zpos a) (Zpos b))
    by (unfold start_exponent, fexp, emin, PREC, EMAX, EMIN; lia).
  unfold start_quotient. set (e0 := start_exponent (Zpos a) (Zpos b)).
  assert (e0 ≤ 0) as He0 by (unfold e0, start_exponent; lia).
  replace (match 0 - 0 - e0 with Z0 => Zpos a | Zpos _ => Z.shiftl (Zpos a) (0 - 0 - e0) | Zneg _ => 0 end)
    with (Zpos a * 2 ^ (- e0)).
  - unfold Z.div, Z.modulo. by destruct (Z.div_eucl _ _) as [q r].
  - destruct (0 - 0 - e0) as [|p|p] eqn:E; [| |lia].
    + replace (- e0) with 0 by lia. lia.
    + rewrite Z.shiftl_mul_pow2 by lia. f_equal. f_equal. lia.
Qed.

Lemma division_shift a b :
  0 < a → 0 < b →
  let e0 := start_exponent a b in
  ∃ r, shr_fexp PREC EMAX (start_quotient a b) e0 (new_location b (a * 2 ^ (- e0) mod b)) = (r, end_exponent a b) ∧
    represents r (a * 2 ^ (- e0)) (b * 2 ^ (end_exponent a b - e0)).
Proof.
  intros Ha Hb e0. assert (e0 ≤ 0) as He0 by (unfold e0, start_exponent; lia). pose proof (pow2_pos (- e0)).
  assert (represents (shr_record_of_loc (start_quotient a b) (new_location b (a * 2 ^ (- e0) mod b)))
    (a * 2 ^ (- e0)) b) as Hr by (apply represents_location; nia).
  unfold shr_fexp, end_exponent. fold e0. unfold fexp, emin, PREC, EMAX.
  set (m := Z.max _ (3 - 1024 - 53)). replace (Z.max (_ - 53) EMIN) with m by done.
  destruct (m - e0) as [|p|p] eqn:E; cbn [shr].
  - replace (Z.max e0 m) with e0 by lia. eexists. split; [done|]. by rewrite Z.sub_diag, Z.mul_1_r.
  - replace (Z.max e0 m) with (e0 + Zpos p) by lia. eexists. split; [done|].
    replace (e0 + Zpos p - e0) with (Zpos p) by lia. apply represents_iter; [nia|done|exact Hr].
  - replace (Z.max e0 m) with e0 by lia. eexists. split; [done|]. by rewrite Z.sub_diag, Z.mul_1_r.
Qed.

(** The quotient of positive integers is the nearest multiple of the last bit. *)
Lemma division_rounds a b e :
  0 < a → 0 < b → exponent a b e → SFdiv PREC EMAX (exact a) (exact b) = packed false (units a b e) e.
Proof.
  intros Ha Hb He. pose proof (end_exponent_spec a b Ha Hb) as He1.
  rewrite (exponent_unique a b _ _ Hb He He1). clear e He.
  rewrite division_start by done. unfold binary_round_aux.
  destruct (division_shift a b Ha Hb) as (r & -> & Hr). rewrite (represents_round _ _ _ Hr).
  rewrite <- rounded_packed; [|apply units_bound; [lia|done|apply He1]|apply He1].
  unfold rounded. replace (units a b (end_exponent a b)) with
    (round_half_even (a * 2 ^ (- start_exponent a b)) (b * 2 ^ (end_exponent a b - start_exponent a b))); [done|].
  set (e0 := start_exponent a b) in *. set (e1 := end_exponent a b) in *.
  assert (e0 ≤ e1) by (unfold e1, end_exponent; lia). assert (e0 ≤ 0) by (unfold e0, start_exponent; lia).
  pose proof (pow2_pos (e1 - e0)). pose proof (pow2_pos (Z.max 0 e1)).
  apply round_half_even_ratio; [nia..|].
  transitivity (a * b * (2 ^ (- e0) * 2 ^ Z.max 0 e1)); [ring|].
  transitivity (a * b * (2 ^ Z.max 0 (- e1) * 2 ^ (e1 - e0))); [|ring].
  rewrite <- !Z.pow_add_r by lia. do 2 f_equal. lia.
Qed.

(** ** What it depends on, and what it gives *)

Lemma exponent_ratio a b c d e : 0 < b → 0 < d → a * d = c * b → exponent a b e → exponent c d e.
Proof.
  intros Hb Hd E (He & Hlt & Hle). split_and!; [done|by eapply (below_ratio a b)|].
  destruct Hle as [->|Hle]; [by left|]. right. intros H. apply Hle. by eapply (below_ratio c d).
Qed.

Lemma division_ratio a b c d :
  0 < a → 0 < b → 0 < c → 0 < d → a * d = c * b →
  SFdiv PREC EMAX (exact a) (exact b) = SFdiv PREC EMAX (exact c) (exact d).
Proof.
  intros Ha Hb Hc Hd E. pose proof (end_exponent_spec a b Ha Hb) as He.
  rewrite (division_rounds a b _ Ha Hb He), (division_rounds c d _ Hc Hd (exponent_ratio a b c d _ Hb Hd E He)).
  by rewrite (units_ratio a b c d).
Qed.

Lemma units_large a b e : 0 < b → ¬ below a b (e + 52) → 2 ^ 52 ≤ units a b e.
Proof.
  intros Hb Hge. unfold units. pose proof (pow2_pos (Z.max 0 e)). apply round_half_even_ge; [nia|].
  rewrite (below_at (Z.max 0 (- e))) in Hge by lia.
  replace (Z.max 0 (- e) + (e + 52)) with (Z.max 0 e + 52) in Hge by lia. rewrite Z.pow_add_r in Hge by lia. lia.
Qed.

Definition valid_double (x : double) : Prop := valid_binary PREC EMAX x = true.

Lemma packed_valid s m e :
  0 ≤ m ≤ 2 ^ 53 → EMIN ≤ e → (e = EMIN ∨ 2 ^ 52 ≤ m) → valid_double (packed s m e).
Proof.
  intros Hm He Hle. unfold valid_double, packed. destruct (Z.eqb_spec m 0) as [|Hm0]; [done|].
  destruct (Z.eqb_spec m (2 ^ 53)) as [->|Hne].
  - destruct (Z.leb_spec (e + 1) (EMAX - PREC)); [|done]. cbn [valid_binary]. unfold bounded, canonical_mantissa.
    change (Zpos (digits2_pos (Z.to_pos (2 ^ 52)))) with 53. unfold fexp, emin, PREC, EMAX, EMIN in *.
    apply andb_true_iff. split; [apply Z.eqb_eq; lia|by apply Z.leb_le].
  - destruct (Z.leb_spec e (EMAX - PREC)); [|done]. cbn [valid_binary]. unfold bounded, canonical_mantissa.
    rewrite digits2_log2, Z2Pos.id by lia. unfold fexp, emin, PREC, EMAX, EMIN in *.
    apply andb_true_iff. split; [|by apply Z.leb_le]. apply Z.eqb_eq.
    assert (Z.log2 m < 53) by (apply Z.log2_lt_pow2; lia).
    destruct Hle as [->|Hle]; [lia|]. assert (52 ≤ Z.log2 m) by (apply Z.log2_le_pow2; lia). lia.
Qed.

Lemma division_valid a b :
  0 < a → 0 < b → valid_double (SFdiv PREC EMAX (exact a) (exact b)).
Proof.
  intros Ha Hb. pose proof (end_exponent_spec a b Ha Hb) as He. rewrite (division_rounds a b _ Ha Hb He).
  destruct He as (He & Hlt & Hle). apply packed_valid; [apply units_bound; [lia|done..]|done|].
  destruct Hle as [|Hle]; [by left|right]. by apply units_large.
Qed.

(** A valid value: the mantissa has 53 bits unless the exponent is the least. *)
Lemma bounded_spec m e :
  bounded PREC EMAX m e = true →
  Zpos m < 2 ^ 53 ∧ EMIN ≤ e ≤ EMAX - PREC ∧ (e = EMIN ∨ 2 ^ 52 ≤ Zpos m).
Proof.
  unfold bounded, canonical_mantissa. intros [Hc%Z.eqb_eq Hb%Z.leb_le]%andb_true_iff.
  rewrite digits2_log2 in Hc. unfold fexp, emin, PREC, EMAX, EMIN in *.
  split_and!; [|lia|lia|].
  - apply Z.log2_lt_pow2; lia.
  - destruct (decide (e = -1074)); [by left|right]. apply Z.log2_le_pow2; lia.
Qed.

(** The quotient [a / b] in units of [2 ^ e], times [b * 2 ^ max 0 e]. *)
Lemma below_units a b e n c :
  0 ≤ n → 2 ^ n = c → below a b (e + n) ↔ a * 2 ^ Z.max 0 (- e) < c * (b * 2 ^ Z.max 0 e).
Proof.
  intros Hn <-. rewrite (below_at (Z.max 0 (- e))) by lia.
  replace (Z.max 0 (- e) + (e + n)) with (Z.max 0 e + n) by lia. rewrite Z.pow_add_r by lia.
  by replace (2 ^ n * (b * 2 ^ Z.max 0 e)) with (b * (2 ^ Z.max 0 e * 2 ^ n)) by ring.
Qed.

(** A quotient that is near a valid value, in proportion, is rounded to it. *)
Lemma division_near a b m e :
  0 < a → 0 < b → bounded PREC EMAX m e = true →
  2 * 10 ^ 16 * Z.abs (a * 2 ^ Z.max 0 (- e) - Zpos m * (b * 2 ^ Z.max 0 e)) ≤ Zpos m * (b * 2 ^ Z.max 0 e) →
  SFdiv PREC EMAX (exact a) (exact b) = S754_finite false m e.
Proof.
  intros Ha Hb (Hm & He & Hlow)%bounded_spec Hnear.
  pose proof (pow2_pos (Z.max 0 e)). pose proof (pow2_pos (Z.max 0 (- e))).
  set (D := b * 2 ^ Z.max 0 e) in *. set (N := a * 2 ^ Z.max 0 (- e)) in *.
  assert (0 < D) as HD by (unfold D; nia).
  assert (below a b (e + 53) ↔ N < 2 ^ 53 * D) as H53 by (by apply below_units).
  assert (below a b (e + 52) ↔ N < 2 ^ 52 * D) as H52 by (by apply below_units).
  assert (Zpos m * D ≤ (2 ^ 53 - 1) * D) as Hmax by (apply Z.mul_le_mono_nonneg_r; lia).
  assert (exponent a b e → SFdiv PREC EMAX (exact a) (exact b) = S754_finite false m e) as Hdone.
  { intros Hexp. rewrite (division_rounds a b e) by done. unfold units.
    rewrite (round_half_even_close _ _ (Zpos m)); [|done|fold N D; lia].
    unfold packed. rewrite (proj2 (Z.eqb_neq (Zpos m) 0)), (proj2 (Z.eqb_neq (Zpos m) (2 ^ 53))) by lia.
    by rewrite (proj2 (Z.leb_le e (EMAX - PREC))) by lia. }
  destruct (decide (e = EMIN)) as [Hmin|Hmin].
  { apply Hdone. split; [lia|]. split; [|by left]. apply H53. lia. }
  destruct (Z.lt_ge_cases N (2 ^ 52 * D)) as [Hsmall|Hlarge].
  - destruct Hlow as [|Hlow]; [done|].
    assert (Zpos m = 2 ^ 52) as Em.
    { destruct (Z.le_gt_cases (2 ^ 52 + 1) (Zpos m)); [|lia].
      assert ((2 ^ 52 + 1) * D ≤ Zpos m * D) by (apply Z.mul_le_mono_nonneg_r; lia). lia. }
    assert (exponent a b (e - 1)) as Hexp.
    { split; [unfold EMIN in *; lia|]. split; [replace (e - 1 + 53) with (e + 52) by lia; by apply H52|right].
      replace (e - 1 + 52) with (e + 51) by lia. rewrite (below_units a b e 51 (2 ^ 51)) by done.
      fold N D. lia. }
    assert (units a b (e - 1) = round_half_even (2 * N) D) as Hunits.
    { pose proof (pow2_pos (Z.max 0 (e - 1))). apply round_half_even_ratio; [nia|done|]. unfold N, D.
      transitivity (a * b * (2 ^ Z.max 0 (- (e - 1)) * 2 ^ Z.max 0 e)); [ring|].
      transitivity (a * b * (2 ^ 1 * 2 ^ Z.max 0 (- e) * 2 ^ Z.max 0 (e - 1))); [|ring].
      rewrite <- !Z.pow_add_r by lia. do 2 f_equal. lia. }
    rewrite (division_rounds a b (e - 1)), Hunits by done.
    rewrite (round_half_even_close _ _ (2 ^ 53)) by (done || lia). unfold packed.
    rewrite (proj2 (Z.eqb_neq (2 ^ 53) 0)), Z.eqb_refl by lia.
    rewrite (proj2 (Z.leb_le (e - 1 + 1) (EMAX - PREC))) by lia. rewrite <- Em. f_equal. lia.
  - apply Hdone. split; [lia|]. split; [apply H53; lia|right]. rewrite H52. lia.
Qed.

(** ** Sums *)

(** An exact value in units of [2 ^ e], rounded to the last bit of the format. *)
Lemma round_exact s m e :
  0 < m → e ≤ fexp PREC EMAX (Zdigits2 m + e) →
  let n := fexp PREC EMAX (Zdigits2 m + e) - e in
  let q := round_half_even m (2 ^ n) in
  binary_round_aux PREC EMAX s m e loc_Exact = packed s q (e + n) ∧
  0 ≤ q ≤ 2 ^ 53 ∧ EMIN ≤ e + n ∧ (e + n = EMIN ∨ 2 ^ 52 ≤ q).
Proof.
  intros Hm He n q. assert (0 ≤ n) as Hn by (unfold n; lia).
  assert (represents (shr_record_of_loc m loc_Exact) m 1) as Hr.
  { pose proof (represents_location m 1) as H. rewrite Z.div_1_r, Z.mod_1_r in H. apply H; lia. }
  assert (∃ r, shr (shr_record_of_loc m loc_Exact) e n = (r, e + n) ∧ represents r m (2 ^ n)) as (r & Hs & Hr').
  { clear q. destruct n as [|p|p] eqn:E; [| |lia]; cbn [shr].
    - eexists. split; [f_equal; lia|done].
    - eexists. split; [done|]. apply (represents_iter p _ m 1) in Hr; [|lia..]. by rewrite Z.mul_1_l in Hr. }
  assert (n = fexp PREC EMAX (Zdigits2 m + e) - e) as En by done.
  unfold binary_round_aux, shr_fexp. fold n. rewrite Hs, (represents_round _ _ _ Hr'). clearbody n. fold q.
  rewrite digits_log2 in * by done. unfold fexp, emin, PREC, EMAX in En, He. pose proof (pow2_pos n Hn).
  pose proof (Z.log2_spec m Hm) as [Hm1 Hm2]. pose proof (Z.log2_nonneg m).
  assert (0 ≤ q ≤ 2 ^ 53) as Hbound.
  { split; [apply round_half_even_ge; lia|]. apply round_half_even_le; [done|]. rewrite <- Z.pow_add_r by lia.
    etrans; [apply Z.lt_le_incl, Hm2|]. apply Z.pow_le_mono_r; lia. }
  split; [|split; [done|]].
  - change (rounded s q (e + n) = packed s q (e + n)). apply rounded_packed; [done|unfold EMIN; lia].
  - split; [unfold EMIN; lia|]. destruct (decide (e + n = EMIN)) as [|Hne]; [by left|right]. unfold EMIN in Hne.
    apply round_half_even_ge; [done|]. rewrite <- Z.pow_add_r by lia.
    etrans; [|exact Hm1]. apply Z.pow_le_mono_r; lia.
Qed.

Lemma round_exact_valid s m e :
  0 < m → e ≤ fexp PREC EMAX (Zdigits2 m + e) → valid_double (binary_round_aux PREC EMAX s m e loc_Exact).
Proof. intros Hm He. destruct (round_exact s m e Hm He) as (-> & Hq & Hmin & Hle). by apply packed_valid. Qed.

Lemma iter_xO m d : Zpos (Pos.iter xO m d) = Zpos m * 2 ^ Zpos d.
Proof.
  revert m. induction d as [|d IH] using Pos.peano_ind; intros m; [simpl; lia|].
  rewrite Pos.iter_succ, Pos2Z.inj_xO, IH, Pos2Z.inj_succ, Z.pow_succ_r by lia. lia.
Qed.

Lemma binary_round_valid s m e : valid_double (binary_round PREC EMAX s m e).
Proof.
  unfold binary_round, shl_align. set (e' := fexp PREC EMAX (Z.pos (digits2_pos m) + e)).
  destruct (e' - e) as [|d|d] eqn:E; try (apply round_exact_valid; [lia|]; cbn [Zdigits2]; fold e'; lia).
  apply round_exact_valid; [lia|]. cbn [Zdigits2].
  rewrite digits2_log2, iter_xO, Z.log2_mul_pow2 by lia.
  replace (Z.pos d + Z.log2 (Z.pos m) + 1 + e') with (Z.pos (digits2_pos m) + e) by (rewrite digits2_log2; lia).
  done.
Qed.

Lemma fadd_valid x y : valid_double x → valid_double y → valid_double (fadd x y).
Proof.
  assert (∀ z e, valid_double (binary_normalize PREC EMAX z e false)) as Hn
    by (intros [|p|p] e; [done|apply binary_round_valid..]).
  intros Hx Hy. destruct x as [[]|[]| |sx mx ex], y as [[]|[]| |sy my ey]; try done. apply Hn.
Qed.
