(* ===== verification/PyDict.v ===== *)
(** * Insertion-ordered dictionaries

    A Python [dict] whose iteration order matters: assigning a present key
    keeps its place, a new key goes to the end.  [Counter] lookups default to
    zero. *)

From stdpp Require Import base numbers list sorting.
From Stdlib Require Import ZArith Lia.
From S2P Require Import Prelude.

Open Scope Z_scope.

Section dict.
Context {K V : Type} `{EqDecision K}.
Implicit Types (d : list (K * V)) (k : K) (v : V).

Fixpoint d_get k d : option V :=
  match d with
  | [] => None
  | (k', v) :: d => if decide (k = k') then Some v else d_get k d
  end.

(** [d[k] = v] *)
Fixpoint d_set k v d : list (K * V) :=
  match d with
  | [] => [(k, v)]
  | (k', v') :: d => if decide (k = k') then (k', v) :: d else (k', v') :: d_set k v d
  end.

(** [d.setdefault(k, v)] as a statement. *)
Definition d_setdefault k v d : list (K * V) :=
  match d_get k d with Some _ => d | None => d_set k v d end.

Lemma d_get_set_eq k v d : d_get k (d_set k v d) = Some v.
Proof.
  induction d as [|[k' v'] d IH]; simpl; [by rewrite decide_True|].
  case_decide; simpl; [by rewrite decide_True|by rewrite decide_False].
Qed.

Lemma d_get_set_ne k k' v d : k ≠ k' → d_get k (d_set k' v d) = d_get k d.
Proof.
  intros Hne. induction d as [|[k2 v2] d IH]; simpl; [by rewrite decide_False|].
  destruct (decide (k' = k2)) as [->|]; simpl; [by rewrite !decide_False|].
  by rewrite IH.
Qed.

Lemma d_get_set k k' v d :
  d_get k (d_set k' v d) = if decide (k = k') then Some v else d_get k d.
Proof. case_decide; [subst; apply d_get_set_eq|by apply d_get_set_ne]. Qed.

Lemma d_get_elem k v d : d_get k d = Some v → (k, v) ∈ d.
Proof.
  induction d as [|[k' v'] d IH]; simpl; [done|].
  case_decide as Hk; [intros [= ->]; subst; set_solver|set_solver].
Qed.

Lemma d_get_None k d : d_get k d = None ↔ k ∉ d.*1.
Proof.
  induction d as [|[k' v'] d IH]; simpl; [by set_solver|].
  rewrite elem_of_cons. case_decide as Hk; [naive_solver|]. rewrite IH. naive_solver.
Qed.

Lemma d_elem_get k v d : NoDup d.*1 → (k, v) ∈ d → d_get k d = Some v.
Proof.
  induction d as [|[k' v'] d IH]; simpl; [by set_solver|].
  rewrite NoDup_cons, elem_of_cons. intros [Hk Hd] [Heq|Hin].
  - simplify_eq. by rewrite decide_True.
  - rewrite decide_False; [by apply IH|]. intros ->.
    apply Hk. by apply (list_elem_of_fmap_2 fst _ (k', v)).
Qed.

(** Assigning a present key replaces its value where it stands; a new key is
    appended. *)
Lemma d_set_new k v d : d_get k d = None → d_set k v d = d ++ [(k, v)].
Proof.
  induction d as [|[k' v'] d IH]; simpl; [done|]. case_decide; [done|].
  intros Hk. by rewrite IH.
Qed.

Lemma d_set_old k v v0 d :
  d_get k d = Some v0 → ∃ d1 d2, d = d1 ++ (k, v0) :: d2 ∧ d_set k v d = d1 ++ (k, v) :: d2.
Proof.
  induction d as [|[k' v'] d IH]; simpl; [done|]. case_decide as Hk.
  - intros [= ->]. subst. by exists [], d.
  - intros (d1 & d2 & -> & ->)%IH. by exists ((k', v') :: d1), d2.
Qed.

Lemma d_set_keys k v d :
  (d_set k v d).*1 = if decide (k ∈ d.*1) then d.*1 else d.*1 ++ [k].
Proof.
  destruct (d_get k d) as [v0|] eqn:Hk.
  - destruct (d_set_old k v v0 d Hk) as (d1 & d2 & -> & ->).
    rewrite !fmap_app. simpl. rewrite decide_True by set_solver. done.
  - rewrite d_set_new by done. apply d_get_None in Hk.
    rewrite decide_False by done. by rewrite fmap_app.
Qed.

Lemma d_set_NoDup k v d : NoDup d.*1 → NoDup (d_set k v d).*1.
Proof.
  intros. rewrite d_set_keys. case_decide as Hk; [done|].
  apply NoDup_app. split; [done|]. split; [set_solver|apply NoDup_singleton].
Qed.

Lemma d_set_set k v v' d : d_set k v (d_set k v' d) = d_set k v d.
Proof.
  induction d as [|[k' w] d IH]; simpl; [by rewrite decide_True|].
  destruct (decide (k = k')) as [->|]; simpl; [by rewrite decide_True|].
  rewrite decide_False by done. by rewrite IH.
Qed.

(** A total over the values. *)
Definition d_sum (f : V → Z) d : Z := foldr (λ kv s, f (kv.2) + s) 0 d.

Lemma d_sum_app f d1 d2 : d_sum f (d1 ++ d2) = d_sum f d1 + d_sum f d2.
Proof. unfold d_sum. induction d1 as [|x d1 IH]; simpl; [done|]. rewrite IH. lia. Qed.

Lemma d_sum_set f k v d :
  d_sum f (d_set k v d) =
  d_sum f d + f v - match d_get k d with Some v0 => f v0 | None => 0 end.
Proof.
  destruct (d_get k d) as [v0|] eqn:Hk.
  - destruct (d_set_old k v v0 d Hk) as (d1 & d2 & -> & ->).
    rewrite !d_sum_app. simpl. lia.
  - rewrite d_set_new, d_sum_app by done. simpl. lia.
Qed.
End dict.

#[export] Hint Resolve d_set_NoDup : py.

(** [sum(f(x) for x in xs)] *)
Definition zsum {A} (f : A → Z) (l : list A) : Z := foldr (λ x s, f x + s) 0 l.

(** [sum(b(x) for x in xs)] of booleans. *)
Definition zcount {A} (b : A → bool) (l : list A) : Z := zsum (λ x, Z.b2z (b x)) l.

Section sums.
Context {A : Type}.
Implicit Types (f g : A → Z) (l : list A).

Lemma zsum_app f l1 l2 : zsum f (l1 ++ l2) = zsum f l1 + zsum f l2.
Proof. unfold zsum. induction l1 as [|x l IH]; simpl; [done|]. rewrite IH. lia. Qed.
Lemma zsum_cons f x l : zsum f (x :: l) = f x + zsum f l.
Proof. done. Qed.
Lemma zsum_ext f g l : (∀ x, x ∈ l → f x = g x) → zsum f l = zsum g l.
Proof.
  induction l as [|x l IH]; [done|]. intros H. rewrite !zsum_cons, IH by set_solver.
  rewrite H by set_solver. done.
Qed.
Lemma zsum_add f g l : zsum (λ x, f x + g x) l = zsum f l + zsum g l.
Proof. induction l as [|x l IH]; [done|]. rewrite !zsum_cons, IH. lia. Qed.
Lemma zsum_nonneg f l : (∀ x, x ∈ l → 0 ≤ f x) → 0 ≤ zsum f l.
Proof.
  induction l as [|x l IH]; [done|]. intros H. rewrite zsum_cons.
  assert (0 ≤ f x) by (apply H; set_solver). assert (0 ≤ zsum f l) by (apply IH; set_solver). lia.
Qed.
Lemma zsum_perm f l1 l2 : l1 ≡ₚ l2 → zsum f l1 = zsum f l2.
Proof. induction 1; rewrite ?zsum_cons; lia. Qed.
Lemma zcount_bounds b l : 0 ≤ zcount b l ≤ zlen l.
Proof.
  unfold zcount, zlen. induction l as [|x l IH]; [done|].
  rewrite zsum_cons. simpl length. destruct (b x); simpl Z.b2z; lia.
Qed.
Lemma zcount_zero b l : zcount b l = 0 ↔ Forall (λ x, b x = false) l.
Proof.
  unfold zcount. induction l as [|x l IH]; [by split|]. rewrite zsum_cons, Forall_cons, <-IH.
  assert (0 ≤ zsum (λ x, Z.b2z (b x)) l) by (apply zsum_nonneg; intros y _; by destruct (b y)).
  destruct (b x); simpl; split; [lia|intros [? _]; done|intros; split; [done|lia]|intros [_ ?]; lia].
Qed.
Lemma zcount_filter (b : A → bool) l : zcount b l = zlen (filter (λ x, b x = true) l).
Proof.
  unfold zcount, zlen. induction l as [|x l IH]; [done|].
  rewrite zsum_cons, filter_cons, IH. destruct (b x); simpl Z.b2z; case_decide; simpl length; done || lia.
Qed.
End sums.

Lemma zsum_fmap {A B} (h : A → B) (f : B → Z) l : zsum f (h <$> l) = zsum (λ x, f (h x)) l.
Proof. induction l as [|x l IH]; [done|]. rewrite fmap_cons, !zsum_cons, IH. done. Qed.

(** ** [sorted(l, key=key)]: stable *)
Section sort_by.
Context {A : Type} (key : A → Z).

Fixpoint insert_by (x : A) (l : list A) : list A :=
  match l with
  | [] => [x]
  | y :: l' => if key x <=? key y then x :: l else y :: insert_by x l'
  end.
Definition sort_by (l : list A) : list A := foldr insert_by [] l.

Lemma insert_by_perm x l : insert_by x l ≡ₚ x :: l.
Proof.
  induction l as [|y l IH]; simpl; [done|]. case_goal; [done|].
  rewrite IH. by rewrite Permutation_swap.
Qed.
Lemma sort_by_perm l : sort_by l ≡ₚ l.
Proof. induction l as [|x l IH]; [done|]. simpl. by rewrite insert_by_perm, IH. Qed.

Lemma insert_by_sorted x l :
  Pairwise (λ a b, key a ≤ key b) l → Pairwise (λ a b, key a ≤ key b) (insert_by x l).
Proof.
  induction l as [|y l IH]; simpl; [by repeat constructor|]. intros [Hy Hl].
  destruct (Z.leb_spec (key x) (key y)).
  - split; [|done]. constructor; [done|]. eapply Forall_impl; [exact Hy|]. simpl. lia.
  - split; [|by apply IH]. rewrite insert_by_perm. constructor; [lia|done].
Qed.
Lemma sort_by_id l : Pairwise (λ a b, key a ≤ key b) l → sort_by l = l.
Proof.
  induction l as [|x l IH]; [done|]. intros [Hx Hl]. simpl. rewrite IH by done.
  destruct l as [|y l]; [done|]. simpl. apply Forall_cons in Hx as [Hxy _].
  by destruct (Z.leb_spec (key x) (key y)); [|lia].
Qed.
Lemma sort_by_sorted l : Pairwise (λ a b, key a ≤ key b) (sort_by l).
Proof. induction l as [|x l IH]; [done|]. by apply insert_by_sorted. Qed.
End sort_by.

(** [max(l)] and [min(l)] of a non-empty list. *)
Definition list_max (x : Z) (l : list Z) : Z := foldl Z.max x l.
Definition list_min (x : Z) (l : list Z) : Z := foldl Z.min x l.

(** [sorted(set(l))] of integers. *)
Definition sorted_set (l : list Z) : list Z := merge_sort Z.le (remove_dups l).

Lemma elem_of_sorted_set l x : x ∈ sorted_set l ↔ x ∈ l.
Proof. unfold sorted_set. by rewrite merge_sort_Permutation, elem_of_remove_dups. Qed.

Lemma sorted_set_lt l : StronglySorted Z.lt (sorted_set l).
Proof.
  unfold sorted_set.
  pose proof (StronglySorted_merge_sort Z.le (remove_dups l)) as Hs.
  assert (NoDup (merge_sort Z.le (remove_dups l))) as Hn
    by (rewrite merge_sort_Permutation; apply NoDup_remove_dups).
  induction Hs as [|x l' Hs IH Hx]; [constructor|].
  apply NoDup_cons in Hn as [Hnx Hn]. constructor; [by apply IH|].
  apply Forall_forall. intros y Hy. rewrite Forall_forall in Hx. specialize (Hx y Hy).
  destruct (decide (x = y)) as [->|]; [done|lia].
Qed.

(** [list(dict.fromkeys(l))] *)
Definition from_keys {A} `{EqDecision A} (l : list A) : list A :=
  foldl (λ keys x, if bool_decide (x ∈ keys) then keys else keys ++ [x]) [] l.

(** [l.index(x)] of a member. *)
Fixpoint index_of {A} `{EqDecision A} (x : A) (l : list A) : Z :=
  match l with
  | [] => 0
  | y :: l => if bool_decide (x = y) then 0 else 1 + index_of x l
  end.

(** A stable sort by a total order [le]. *)
Section sort_le.
Context {A : Type} (le : A → A → bool).

Fixpoint insert_le (x : A) (l : list A) : list A :=
  match l with
  | [] => [x]
  | y :: l' => if le x y then x :: l else y :: insert_le x l'
  end.
Definition sort_le (l : list A) : list A := foldr insert_le [] l.

Lemma insert_le_perm x l : insert_le x l ≡ₚ x :: l.
Proof.
  induction l as [|y l IH]; simpl; [done|]. case_goal; [done|].
  rewrite IH. by rewrite Permutation_swap.
Qed.
Lemma sort_le_perm l : sort_le l ≡ₚ l.
Proof. induction l as [|x l IH]; [done|]. simpl. by rewrite insert_le_perm, IH. Qed.

Lemma sort_le_sorted (R : A → A → Prop) l :
  (∀ x y, le x y = true → R x y) → (∀ x y, le x y = false → R y x) →
  (∀ x y z, R x y → R y z → R x z) → Pairwise R (sort_le l).
Proof.
  intros Ht Hf Htr. induction l as [|x l IH]; [done|]. simpl.
  induction (sort_le l) as [|y k IHk]; simpl; [by repeat constructor|]. destruct IH as [Hy Hk].
  destruct (le x y) eqn:E; simpl.
  - split; [|done]. constructor; [by apply Ht|]. eapply Forall_impl; [exact Hy|].
    intros z Hz. apply (Htr _ y); [by apply Ht|done].
  - split; [|by apply IHk]. rewrite insert_le_perm. constructor; [by apply Hf|done].
Qed.
End sort_le.

(** [collections.Counter(l)] and its [most_common()]: by decreasing count, equal
    counts in the order of their first occurrence. *)
Section counter.
Context {A : Type} `{EqDecision A}.
Definition count_one (d : list (A * Z)) (x : A) : list (A * Z) := d_set x (default 0 (d_get x d) + 1) d.
Definition counter (l : list A) : list (A * Z) := foldl count_one [] l.
Definition most_common (d : list (A * Z)) : list (A * Z) := sort_by (λ kv, - kv.2) d.

(** Every element is counted as often as it occurs. *)
Lemma counter_get l x : default 0 (d_get x (counter l)) = zcount (λ y, bool_decide (y = x)) l.
Proof.
  unfold counter. induction l as [|y l IH] using rev_ind; [done|].
  rewrite foldl_app. simpl. unfold count_one at 1. rewrite d_get_set. unfold zcount in *.
  rewrite zsum_app. simpl. destruct (decide (y = x)) as [->|Hne].
  - rewrite decide_True, bool_decide_eq_true_2 by done. simpl. rewrite IH. lia.
  - rewrite decide_False, bool_decide_eq_false_2 by done. simpl. rewrite IH. lia.
Qed.

Lemma counter_NoDup l : NoDup (counter l).*1.
Proof.
  unfold counter. induction l as [|y l IH] using rev_ind; [constructor|].
  rewrite foldl_app. cbn [foldl]. by apply d_set_NoDup.
Qed.

Lemma counter_total l : d_sum id (counter l) = zlen l.
Proof.
  unfold counter. induction l as [|y l IH] using rev_ind; [done|].
  rewrite foldl_app, zlen_snoc. simpl. unfold count_one at 1. rewrite d_sum_set.
  destruct (d_get y (foldl count_one [] l)); simpl; unfold id in *; lia.
Qed.
End counter.
