(* ===== verification/FloatError.v ===== *)
(** * Rounding errors

    Finite doubles are the integer multiples of [2 ^ -1074] the format can hold, so
    what an addition loses is an integer: [fadd_error] bounds it by one part in
    [2 ^ 53] of the sum.  From it follow the error of repeated addition
    ([repeated_error]), of the compensated [sum] ([float_sum_error]) and of taking a
    sum away again from what repeated addition made of it ([remainder_error]). *)

From stdpp Require Import base numbers list.
From Stdlib Require Import ZArith Lia SpecFloat.
From S2P Require Import Prelude PyText PyFloat PyDict Binary64.

Open Scope Z_scope.

(** The value of a finite double in units of [2 ^ -1074]. *)
Definition ticks (x : double) : Z :=
  match x with
  | S754_finite s m e => cond_Zopp s (Zpos m) * 2 ^ (e - EMIN)
  | _ => 0
  end.
Definition real (x : double) : Prop := valid_double x ∧ is_finite x = true.

(** [r] is [z] up to one part in [2 ^ 53]. *)
Definition rounds (z : Z) (r : double) : Prop := real r ∧ 2 ^ 53 * Z.abs (ticks r - z) ≤ Z.abs z.

(** What is below [2 ^ 1023] cannot overflow. *)
Definition LARGE : Z := 2 ^ 2097.

Lemma real_zero s : real (S754_zero s).
Proof. done. Qed.
Lemma rounds_exact x : real x → rounds (ticks x) x.
Proof. intros Hx. split; [done|]. rewrite Z.sub_diag. lia. Qed.

(** ** Rounding *)

Lemma packed_ticks s m e :
  0 ≤ m ≤ 2 ^ 53 → EMIN ≤ e → e < EMAX - PREC →
  is_finite (packed s m e) = true ∧ ticks (packed s m e) = cond_Zopp s m * 2 ^ (e - EMIN).
Proof.
  intros Hm He Hmax. unfold packed. destruct (Z.eqb_spec m 0) as [->|Hm0]; [by destruct s|].
  destruct (Z.eqb_spec m (2 ^ 53)) as [->|Hne].
  - rewrite (proj2 (Z.leb_le (e + 1) (EMAX - PREC))) by lia. split; [done|]. unfold ticks.
    rewrite Z2Pos.id by lia. replace (e + 1 - EMIN) with (1 + (e - EMIN)) by lia.
    rewrite Z.pow_add_r by lia. destruct s; cbn [cond_Zopp]; lia.
  - rewrite (proj2 (Z.leb_le e (EMAX - PREC))) by lia. split; [done|]. unfold ticks. by rewrite Z2Pos.id by lia.
Qed.

(** The error of dropping [n] bits. *)
Lemma shifted_error m n c :
  0 < m → 0 ≤ n → 0 ≤ c → n = 0 ∨ 2 ^ 52 * 2 ^ n ≤ m →
  2 ^ 53 * Z.abs (round_half_even m (2 ^ n) * 2 ^ n * c - m * c) ≤ m * c.
Proof.
  intros Hm Hn Hc Hcase. rewrite <- Z.mul_sub_distr_r, Z.abs_mul, (Z.abs_eq c), Z.mul_assoc by done.
  apply Z.mul_le_mono_nonneg_r; [done|]. pose proof (round_half_even_near m (2 ^ n) (pow2_pos n Hn)) as Hr.
  destruct Hcase as [->|Hlow]; [change (2 ^ 0) with 1 in *; lia|].
  replace (round_half_even m (2 ^ n) * 2 ^ n) with (2 ^ n * round_half_even m (2 ^ n)) by lia. lia.
Qed.

Lemma cond_opp_abs s z : Z.abs (cond_Zopp s z) = Z.abs z.
Proof. destruct s; simpl; lia. Qed.
Lemma cond_opp_mul s z c : cond_Zopp s z * c = cond_Zopp s (z * c).
Proof. destruct s; simpl; lia. Qed.
Lemma cond_opp_sub s y z : cond_Zopp s y - cond_Zopp s z = cond_Zopp s (y - z).
Proof. destruct s; simpl; lia. Qed.

(** Rounding an exact value that is not too large. *)
Lemma round_aux_error s m e :
  0 < m → EMIN ≤ e → e ≤ fexp PREC EMAX (Zdigits2 m + e) → m * 2 ^ (e - EMIN) < LARGE →
  rounds (cond_Zopp s m * 2 ^ (e - EMIN)) (binary_round_aux PREC EMAX s m e loc_Exact).
Proof.
  intros Hm Hemin He Hlarge. pose proof (round_exact_valid s m e Hm He) as Hvalid.
  destruct (round_exact s m e Hm He) as (Heq & Hq & Hmin & _). rewrite Heq in *. clear Heq.
  set (n := fexp PREC EMAX (Zdigits2 m + e) - e) in *. set (q := round_half_even m (2 ^ n)) in *.
  assert (n = fexp PREC EMAX (Zdigits2 m + e) - e) as En by done. rewrite digits_log2 in En by done.
  pose proof (Z.log2_spec m Hm) as [Hm1 _]. pose proof (Z.log2_nonneg m) as Hlog.
  assert (Z.log2 m + (e - EMIN) < 2097) as Hexp.
  { apply (Z.pow_lt_mono_r_iff 2); [lia..|]. rewrite Z.pow_add_r by lia. fold LARGE.
    eapply Z.le_lt_trans; [|exact Hlarge]. apply Z.mul_le_mono_nonneg_r; [|done]. apply Z.pow_nonneg; lia. }
  unfold fexp, emin, PREC, EMAX, EMIN in En, Hexp, Hemin.
  destruct (packed_ticks s q (e + n)) as [Hfin Ht]; [done..|unfold EMAX, PREC; lia|].
  split; [by split|]. rewrite Ht, !cond_opp_mul, cond_opp_sub, !cond_opp_abs.
  replace (e + n - EMIN) with (n + (e - EMIN)) by lia. rewrite Z.pow_add_r by (unfold EMIN; lia).
  rewrite Z.mul_assoc, (Z.abs_eq (m * _)) by (apply Z.mul_nonneg_nonneg; [lia|apply Z.pow_nonneg; lia]).
  apply shifted_error; [done|lia|apply Z.pow_nonneg; lia|].
  destruct (decide (n = 0)); [by left|right]. rewrite <- Z.pow_add_r by lia.
  etrans; [|exact Hm1]. apply Z.pow_le_mono_r; lia.
Qed.

Lemma normalize_error z e :
  EMIN ≤ e → Z.abs (z * 2 ^ (e - EMIN)) < LARGE →
  rounds (z * 2 ^ (e - EMIN)) (binary_normalize PREC EMAX z e false).
Proof.
  intros He Hlarge.
  assert (∀ s m, Zpos m * 2 ^ (e - EMIN) < LARGE →
    rounds (cond_Zopp s (Zpos m) * 2 ^ (e - EMIN)) (binary_round PREC EMAX s m e)) as Hround.
  { clear z Hlarge. intros s m Hlarge. unfold binary_round, shl_align.
    set (e' := fexp PREC EMAX (Zpos (digits2_pos m) + e)).
    assert (EMIN ≤ e') as He' by (unfold e', fexp, emin, PREC, EMAX, EMIN; lia).
    destruct (e' - e) as [|d|d] eqn:E; try (apply round_aux_error; [lia|done| |done]; cbn [Zdigits2]; fold e'; lia).
    assert (Zpos (Pos.iter xO m d) * 2 ^ (e' - EMIN) = Zpos m * 2 ^ (e - EMIN)) as Hsame.
    { rewrite iter_xO, <- Z.mul_assoc, <- Z.pow_add_r by lia. do 2 f_equal. lia. }
    rewrite cond_opp_mul, <- Hsame, <- cond_opp_mul. apply round_aux_error; [lia|done| |by rewrite Hsame].
    cbn [Zdigits2]. rewrite digits2_log2, iter_xO, Z.log2_mul_pow2 by lia.
    replace (Zpos d + Z.log2 (Zpos m) + 1 + e') with (Zpos (digits2_pos m) + e) by (rewrite digits2_log2; lia).
    done. }
  destruct z as [|m|m]; cbn [binary_normalize].
  - split; [done|]. simpl. lia.
  - apply (Hround false). lia.
  - apply (Hround true). rewrite Z.abs_mul, (Z.abs_eq (2 ^ _)) in Hlarge by (apply Z.pow_nonneg; lia). exact Hlarge.
Qed.

(** ** Addition and subtraction *)

Lemma real_finite s m e : real (S754_finite s m e) → EMIN ≤ e.
Proof. intros [Hv _]. by apply bounded_spec in Hv as (_ & [? _] & _). Qed.

Lemma aligned_ticks s m e e0 :
  EMIN ≤ e0 ≤ e →
  cond_Zopp s (Zpos (fst (shl_align m e e0))) * 2 ^ (e0 - EMIN) = ticks (S754_finite s m e).
Proof.
  intros He. unfold ticks. rewrite !cond_opp_mul. f_equal. unfold shl_align.
  destruct (e0 - e) as [|d|d] eqn:E; [by replace e0 with e by lia|lia|]. cbn [fst].
  rewrite iter_xO, <- Z.mul_assoc, <- Z.pow_add_r by lia. do 2 f_equal. lia.
Qed.

Lemma fadd_error x y :
  real x → real y → Z.abs (ticks x + ticks y) < LARGE → rounds (ticks x + ticks y) (fadd x y).
Proof.
  intros Hx Hy Hl.
  destruct x as [sx|sx| |sx mx ex], y as [sy|sy| |sy my ey]; try (by destruct Hx as [_ [=]]); try (by destruct Hy as [_ [=]]).
  - by destruct sx, sy.
  - by apply (rounds_exact (S754_finite sy my ey)).
  - replace (ticks _ + ticks _) with (ticks (S754_finite sx mx ex)) by (simpl; lia). by apply rounds_exact.
  - pose proof (real_finite _ _ _ Hx). pose proof (real_finite _ _ _ Hy).
    unfold fadd, SFadd. rewrite <- (aligned_ticks sx mx ex (Z.min ex ey)), <- (aligned_ticks sy my ey (Z.min ex ey)) in * by lia.
    rewrite <- Z.mul_add_distr_r in *. apply normalize_error; [lia|done].
Qed.

Lemma fsub_fadd x y : fsub x y = fadd x (SFopp y).
Proof.
  destruct x as [[]|[]| |sx mx ex], y as [[]|[]| |sy my ey]; try done; unfold fsub, fadd, SFsub, SFadd;
    cbn [SFopp]; f_equal; by destruct sy.
Qed.
Lemma real_opp y : real y → real (SFopp y).
Proof. by destruct y. Qed.
Lemma ticks_opp y : ticks (SFopp y) = - ticks y.
Proof. destruct y as [| | |[] m e]; simpl; lia. Qed.

Lemma fsub_error x y :
  real x → real y → Z.abs (ticks x - ticks y) < LARGE → rounds (ticks x - ticks y) (fsub x y).
Proof.
  intros Hx Hy Hl. rewrite fsub_fadd. replace (ticks x - ticks y) with (ticks x + ticks (SFopp y)) in *
    by (rewrite ticks_opp; lia). apply fadd_error; [done|by apply real_opp|done].
Qed.

(** ** Repeated addition *)

Definition nonneg (x : double) : Prop := real x ∧ 0 ≤ ticks x.
(** A non-negative number below [2 ^ 1000]. *)
Definition measured (x : double) : Prop := nonneg x ∧ ticks x < 2 ^ 2074.
(** As many terms as the bounds below allow. *)
Definition MAX_TERMS : Z := 2 ^ 20.

Lemma total_snoc l x : zsum ticks (l ++ [x]) = zsum ticks l + ticks x.
Proof. rewrite zsum_app. cbn. lia. Qed.
Lemma total_nonneg l : Forall nonneg l → 0 ≤ zsum ticks l.
Proof. intros Hl. apply zsum_nonneg. intros x Hx. rewrite Forall_forall in Hl. by apply Hl. Qed.

(** [a] approximates the total [t] of [n] terms to [c] parts in [2 ^ 53] for each term. *)
Definition within (c n t a : Z) : Prop := 2 ^ 53 * Z.abs (a - t) ≤ c * (n * t).

Lemma within_bound c n t h : 0 ≤ c ≤ 13 → 0 ≤ n ≤ MAX_TERMS → 0 ≤ t → within c n t h → 0 ≤ h ≤ 2 * t.
Proof.
  unfold within, MAX_TERMS. intros Hc Hn Ht Hh.
  assert (0 ≤ n * t ≤ 2 ^ 20 * t) as Hp by (split; [nia|apply Z.mul_le_mono_nonneg_r; lia]).
  set (p := n * t) in *. clearbody p. assert (c * p ≤ 13 * p) by nia. lia.
Qed.
(** One more term, by a rounded addition. *)
Lemma within_step n t x h h' :
  0 ≤ n ≤ MAX_TERMS → 0 ≤ t → 0 ≤ x → within 2 n t h → 2 ^ 53 * Z.abs (h' - (h + x)) ≤ Z.abs (h + x) →
  within 2 (n + 1) (t + x) h' ∧ 0 ≤ h'.
Proof.
  unfold within, MAX_TERMS. intros Hn Ht Hx Hh Hr.
  assert (0 ≤ n * t ≤ 2 ^ 20 * t) as Hp by (split; [nia|apply Z.mul_le_mono_nonneg_r; lia]).
  assert (n * t + (t + x) ≤ (n + 1) * (t + x)) as Hq by nia.
  set (p := n * t) in *. set (q := (n + 1) * (t + x)) in *. clearbody p q. lia.
Qed.

Lemma repeated_error o l :
  nonneg o → Forall nonneg l → zlen l ≤ MAX_TERMS → ticks o + zsum ticks l < 2 ^ 2095 →
  nonneg (foldl fadd o l) ∧ within 2 (zlen l) (ticks o + zsum ticks l) (ticks (foldl fadd o l)).
Proof.
  intros Ho. induction l as [|x l IH] using rev_ind; intros Hl Hn Hs.
  { split; [done|]. unfold within. change (zlen []) with 0. rewrite Z.mul_0_l. change (zsum ticks []) with 0.
    change (foldl fadd o []) with o. rewrite Z.add_0_r, Z.sub_diag. lia. }
  apply Forall_app in Hl as [Hl [[Hx Hx0] _]%Forall_cons]. rewrite foldl_app. cbn [foldl].
  rewrite total_snoc in *. rewrite zlen_app in *. change (zlen [x]) with 1 in *.
  pose proof (total_nonneg l Hl). pose proof (zlen_nonneg l). destruct Ho as [Ho Ho0].
  destruct IH as [[Hr Hr0] Hw]; [done|lia|lia|]. set (h := foldl fadd o l) in *.
  pose proof (within_bound 2 (zlen l) (ticks o + zsum ticks l) (ticks h) ltac:(lia) ltac:(lia) ltac:(lia) Hw) as Hb.
  destruct (fadd_error h x Hr Hx) as [Hr' He]; [unfold LARGE; lia|].
  destruct (within_step (zlen l) (ticks o + zsum ticks l) (ticks x) (ticks h) (ticks (fadd h x)) ltac:(lia) ltac:(lia) Hx0 Hw He) as (Hw' & Hr1).
  split; [by split|]. by rewrite Z.add_assoc.
Qed.

(** ** The compensated sum *)

(** What is lost by an addition, computed in either order, is small. *)
Lemma correction_error h x :
  nonneg h → nonneg x → ticks h + ticks x < 2 ^ 2096 →
  let t := fadd h x in
  let lost := if SFleb (SFabs x) (SFabs h) then fadd (fsub h t) x else fadd (fsub x t) h in
  real lost ∧ 2 ^ 53 * Z.abs (ticks lost) ≤ 3 * (ticks h + ticks x).
Proof.
  assert (∀ a b, nonneg a → nonneg b → ticks a + ticks b < 2 ^ 2096 →
    let t := fadd a b in let lost := fadd (fsub a t) b in
    ∀ t', rounds (ticks a + ticks b) t' →
    real (fadd (fsub a t') b) ∧ 2 ^ 53 * Z.abs (ticks (fadd (fsub a t') b)) ≤ 3 * (ticks a + ticks b)) as Hlost.
  { intros a b [Ha Ha0] [Hb Hb0] Hs _ _ t [Ht Het].
    destruct (fsub_error a t Ha Ht) as [Hd Hed]; [unfold LARGE; lia|].
    destruct (fadd_error (fsub a t) b Hd Hb) as [Hl Hel]; [unfold LARGE; lia|]. split; [done|]. lia. }
  intros Hh Hx Hs t lost. assert (rounds (ticks h + ticks x) t) as Ht
    by (destruct Hh, Hx; apply fadd_error; [done..|unfold LARGE; lia]).
  unfold lost. destruct (SFleb _ _); [by apply Hlost|]. rewrite (Z.add_comm (ticks h)).
  apply Hlost; [done|done|lia|]. by rewrite Z.add_comm.
Qed.

(** The running sum and what it has lost, after [n] terms that total [t]. *)
Definition tracks (n t : Z) (s : double * double) : Prop :=
  nonneg s.1 ∧ within 2 n t (ticks s.1) ∧ real s.2 ∧ 2 ^ 53 * Z.abs (ticks s.2) ≤ 8 * (n * t).

Lemma compensated_tracks n t s x :
  0 ≤ n ≤ MAX_TERMS → 0 ≤ t → nonneg x → t + ticks x < 2 ^ 2095 →
  tracks n t s → tracks (n + 1) (t + ticks x) (compensated s x).
Proof.
  destruct s as [hi lo]. intros Hn Ht [Hx Hx0] Hs ([Hh Hh0] & Hw & Hl & Hlo). unfold tracks, compensated. cbn [fst snd] in *.
  pose proof (within_bound 2 n t (ticks hi) ltac:(lia) Hn Ht Hw) as Hb.
  destruct (fadd_error hi x Hh Hx) as [Ht' He]; [unfold LARGE; lia|].
  destruct (within_step n t (ticks x) (ticks hi) (ticks (fadd hi x)) Hn Ht Hx0 Hw He) as (Hw' & Hr1).
  destruct (correction_error hi x) as [Hc Hec]; [by split|by split|lia|].
  set (lost := if SFleb _ _ then _ else _) in *. clearbody lost. split; [by split|]. split; [done|].
  assert (0 ≤ n * t ≤ 2 ^ 20 * t) as Hp by (unfold MAX_TERMS in Hn; split; [nia|apply Z.mul_le_mono_nonneg_r; lia]).
  assert (n * t + (t + ticks x) ≤ (n + 1) * (t + ticks x)) as Hq by nia.
  set (p := n * t) in *. set (q := (n + 1) * (t + ticks x)) in *. clearbody p q.
  destruct (fadd_error lo lost Hl Hc) as [Hr Her]; [unfold LARGE; lia|]. split; [done|]. lia.
Qed.

Lemma float_sum_error l :
  Forall nonneg l → zlen l ≤ MAX_TERMS → zsum ticks l < 2 ^ 2095 →
  real (float_sum l) ∧ within 13 (zlen l) (zsum ticks l) (ticks (float_sum l)).
Proof.
  intros Hl Hn Hs. destruct l as [|x l]; [by split|]. apply Forall_cons in Hl as [Hx Hl].
  rewrite zlen_cons, zsum_cons in *. pose proof (zlen_nonneg l).
  assert (tracks (zlen l + 1) (zsum ticks l + ticks x)
    (foldl compensated (fadd (S754_zero false) x, S754_zero false) l)) as Ht.
  { induction l as [|y l IH] using rev_ind.
    - destruct Hx as [Hx Hx0]. destruct (fadd_error (S754_zero false) x) as [Hr He]; [done|done| |].
      { cbn [ticks] in *. unfold LARGE. cbn in Hs. lia. }
      unfold tracks, within. cbn in *. split; [split; [done|lia]|]. split; [lia|]. split; [done|lia].
    - apply Forall_app in Hl as [Hl [Hy _]%Forall_cons]. rewrite foldl_app. cbn [foldl].
      rewrite zlen_app, total_snoc in *. change (zlen [y]) with 1 in *.
      pose proof (total_nonneg l Hl). pose proof (zlen_nonneg l). destruct Hx as [Hx Hx0].
      assert (0 ≤ ticks y) by apply Hy.
      replace (zsum ticks l + ticks y + ticks x) with (zsum ticks l + ticks x + ticks y) by lia.
      apply compensated_tracks; [lia|lia|done|lia|]. apply IH; [done|lia|lia|lia]. }
  unfold float_sum. destruct (foldl compensated _ l) as [hi lo]. destruct Ht as ([Hh Hh0] & Hw & Hlr & Hlo).
  cbn [fst snd] in *. pose proof (total_nonneg l Hl). destruct Hx as [Hx Hx0].
  rewrite (Z.add_comm (ticks x)), (Z.add_comm 1). set (t := zsum ticks l + ticks x) in *. set (n := zlen l + 1) in *.
  assert (0 ≤ t < 2 ^ 2095) as Ht by lia. assert (1 ≤ n ≤ MAX_TERMS) as Hn' by lia. clearbody t n.
  unfold within, MAX_TERMS in *. assert (t ≤ n * t ≤ 2 ^ 20 * t) as Hp by (split; [nia|apply Z.mul_le_mono_nonneg_r; lia]).
  set (p := n * t) in *. clearbody p.
  destruct (is_nonzero lo && is_finite lo); [|split; [done|lia]].
  destruct (fadd_error hi lo Hh Hlr) as [Hr Her]; [unfold LARGE; lia|]. split; [done|]. lia.
Qed.

(** ** Taking the sum away again *)

Lemma remainder_bound n t o a s r :
  0 ≤ n ≤ 2 ^ 20 → 0 ≤ t → 0 ≤ o → within 2 n (o + t) a → within 13 n t s →
  2 ^ 53 * Z.abs (r - (a - s)) ≤ Z.abs (a - s) → 2 ^ 49 * Z.abs (r - o) ≤ (n + 1) * a.
Proof.
  unfold within. intros Hn Ht Ho Ha Hs Hr. set (d := a - (o + t)) in *. set (e := s - t) in *.
  assert (0 ≤ n * t ≤ n * (o + t) ∧ n * (o + t) ≤ 2 ^ 20 * (o + t)) as [Hp Hq]
    by (split; [split; nia|apply Z.mul_le_mono_nonneg_r; lia]).
  assert (2 ^ 20 * - Z.abs d ≤ n * d) as Hd by nia.
  replace ((n + 1) * a) with (n * (o + t) + n * d + (o + t) + d) by (unfold d; ring).
  set (q := n * (o + t)) in *. set (p := n * t) in *. set (u := n * d) in *. clearbody p q u.
  assert (2 ^ 53 * Z.abs (r - o) ≤ 15 * q + 2 * (o + t)) as Hrest by lia.
  lia.
Qed.

(** Terms added one by one to [o] and subtracted as their sum: [o] is left, up to one
    part in [2 ^ 49] of the total for every term and one more. *)
Lemma remainder_error o l :
  measured o → Forall measured l → zlen l ≤ MAX_TERMS →
  let total := foldl fadd o l in
  let left := fsub total (float_sum l) in
  real left ∧ 2 ^ 49 * Z.abs (ticks left - ticks o) ≤ (zlen l + 1) * ticks total.
Proof.
  intros [Ho Hob] Hl Hn total left.
  assert (Forall nonneg l) as Hl' by (eapply Forall_impl; [exact Hl|]; by intros x [? _]).
  assert (0 ≤ zsum ticks l ≤ zlen l * 2 ^ 2074) as Hz.
  { split; [by apply total_nonneg|]. clear -Hl. induction Hl as [|x l [_ Hx] _ IH]; [done|].
    rewrite zlen_cons, zsum_cons. lia. }
  unfold MAX_TERMS in Hn. pose proof (zlen_nonneg l). destruct Ho as [Ho Ho0].
  assert (zlen l * 2 ^ 2074 ≤ 2 ^ 20 * 2 ^ 2074) as Hmax by (apply Z.mul_le_mono_nonneg_r; [by apply Z.pow_nonneg|lia]).
  rewrite <- Z.pow_add_r in Hmax by lia. change (20 + 2074) with 2094 in Hmax.
  destruct (repeated_error o l) as [[Hr Hr0] Hw]; [by split|done..|lia|]. fold total in Hr, Hr0, Hw.
  destruct (float_sum_error l) as [Hs Hsw]; [done..|lia|].
  assert (0 ≤ ticks o + zsum ticks l < 2 ^ 2095) as Hb by lia.
  pose proof (within_bound 2 (zlen l) (ticks o + zsum ticks l) (ticks total) ltac:(lia) ltac:(by split) ltac:(lia) Hw).
  pose proof (within_bound 13 (zlen l) (zsum ticks l) _ ltac:(lia) ltac:(by split) ltac:(lia) Hsw).
  destruct (fsub_error total (float_sum l) Hr Hs) as [Hf Hfe]; [unfold LARGE; lia|]. split; [done|].
  apply (remainder_bound (zlen l) (zsum ticks l) (ticks o) (ticks total) (ticks (float_sum l))); done || lia.
Qed.
