(* ===== verification/PySearch.v ===== *)
(** * Binary search

    [bisect.bisect_right], as its implementation in the standard library
    searches, with its specification on sorted lists. *)

From stdpp Require Import base numbers list sorting.
From Stdlib Require Import ZArith Lia.
From S2P Require Import Prelude.

Open Scope Z_scope.

(** The loop [while lo < hi]; the fuel bounds [hi - lo]. *)
Fixpoint bisect_loop (fuel : nat) (a : list Z) (x : Z) (lo hi : nat) : nat :=
  match fuel with
  | O => lo
  | S fuel =>
      if Nat.ltb lo hi then
        let mid := ((lo + hi) / 2)%nat in
        if x <? default 0 (a !! mid) then bisect_loop fuel a x lo mid
        else bisect_loop fuel a x (S mid) hi
      else lo
  end.
Definition bisect_right (a : list Z) (x : Z) : nat := bisect_loop (length a) a x 0 (length a).

Section bisect.
Variables (a : list Z) (x : Z).
Hypothesis Hsorted : StronglySorted Z.le a.

Lemma sorted_lookup (i j : nat) u v :
  (i ≤ j)%nat → a !! i = Some u → a !! j = Some v → u ≤ v.
Proof.
  intros Hij Hu Hv. destruct (decide (i = j)) as [->|Hne]; [rewrite Hu in Hv; by injection Hv as ->|].
  revert i j Hij Hne Hu Hv. induction Hsorted as [|y l Hl IH Hy]; intros i j Hij Hne Hu Hv; [done|].
  destruct i as [|i], j as [|j]; try lia.
  - injection Hu as ->. rewrite Forall_lookup in Hy. by apply (Hy j).
  - by apply (IH Hl i j); try lia.
Qed.

Lemma bisect_loop_spec fuel lo hi :
  (hi - lo ≤ fuel)%nat → (lo ≤ hi ≤ length a)%nat →
  (∀ i u, (i < lo)%nat → a !! i = Some u → u ≤ x) →
  (∀ i u, (hi ≤ i)%nat → a !! i = Some u → x < u) →
  let p := bisect_loop fuel a x lo hi in
  (p ≤ length a)%nat ∧ (∀ i u, (i < p)%nat → a !! i = Some u → u ≤ x) ∧
  (∀ i u, (p ≤ i)%nat → a !! i = Some u → x < u).
Proof.
  revert lo hi. induction fuel as [|fuel IH]; intros lo hi Hf Hb Hlo Hhi; cbn [bisect_loop].
  - assert (lo = hi) as -> by lia. split; [lia|done].
  - destruct (Nat.ltb_spec lo hi) as [Hlt|]; [|assert (lo = hi) as -> by lia; split; [lia|done]].
    pose proof (Nat.div_mod_eq (lo + hi) 2) as Hm.
    pose proof (Nat.mod_upper_bound (lo + hi) 2 ltac:(lia)) as Hm2.
    set (mid := ((lo + hi) / 2)%nat) in *.
    destruct (lookup_lt_is_Some_2 a mid) as [v Hv]; [lia|]. rewrite Hv. simpl.
    destruct (Z.ltb_spec x v).
    + apply IH; [lia|lia|done|]. intros i u Hi Hu. pose proof (sorted_lookup mid i v u Hi Hv Hu). lia.
    + apply IH; [lia|lia| |done]. intros i u Hi Hu.
      pose proof (sorted_lookup i mid u v ltac:(lia) Hu Hv). lia.
Qed.

(** Everything before the position is at most [x], everything from it on is
    greater. *)
Lemma bisect_right_spec :
  let p := bisect_right a x in
  (p ≤ length a)%nat ∧ (∀ i u, (i < p)%nat → a !! i = Some u → u ≤ x) ∧
  (∀ i u, (p ≤ i)%nat → a !! i = Some u → x < u).
Proof.
  apply bisect_loop_spec; [lia|lia|lia|]. intros i u Hi Hu%lookup_lt_Some. lia.
Qed.
End bisect.

Example bisect_example : bisect_right [1; 3; 3; 7] 3 = 3%nat ∧ bisect_right [] 5 = 0%nat.
Proof. split; reflexivity. Qed.
