(* ===== verification/PyRegex.v ===== *)
(** * Regular expressions

    The part of Python's [re] module the log tools use: character classes,
    greedy and lazy repetition of a class, alternation, optional and capturing
    groups, searched from left to right with backtracking, the alternatives of
    a choice in order.  [matches] is the declarative meaning of an expression;
    the matcher finds a match exactly when there is one. *)

From stdpp Require Import base numbers list strings.
From Stdlib Require Import ZArith Lia Ascii.
From S2P Require Import Prelude PyText.

Open Scope Z_scope.

Inductive regex :=
  | Empty
  | Chr (p : ascii → bool)                              (* one character *)
  | Rep (greedy : bool) (least : nat) (p : ascii → bool) (* p*, p+, p*? *)
  | Ahead (p : option ascii → bool)                     (* a test of the next character *)
  | Seq (r1 r2 : regex)
  | Alt (r1 r2 : regex)
  | Opt (r : regex)                                     (* (?:...)? *)
  | Group (name : string) (r : regex).

(** The groups matched so far, the latest first. *)
Abbreviation captures := (list (string * string)).

(** Repetition of a class on [s], then the continuation [k]. *)
Fixpoint repeat_class {A} (greedy : bool) (least : nat) (p : ascii → bool) (s : list ascii)
    (k : list ascii → option A) : option A :=
  let stop := match least with O => k s | S _ => None end in
  let more := match s with
              | c :: s => if p c then repeat_class greedy (pred least) p s k else None
              | [] => None
              end in
  if greedy then match more with Some a => Some a | None => stop end
  else match stop with Some a => Some a | None => more end.

Fixpoint run {A} (r : regex) (s : list ascii) (caps : captures)
    (k : list ascii → captures → option A) : option A :=
  match r with
  | Empty => k s caps
  | Chr p => match s with c :: s => if p c then k s caps else None | [] => None end
  | Rep greedy least p => repeat_class greedy least p s (λ s, k s caps)
  | Ahead p => if p (head s) then k s caps else None
  | Seq r1 r2 => run r1 s caps (λ s caps, run r2 s caps k)
  | Alt r1 r2 => match run r1 s caps k with Some a => Some a | None => run r2 s caps k end
  | Opt r => match run r s caps k with Some a => Some a | None => k s caps end
  | Group name r =>
      run r s caps (λ s' caps, k s' ((name, of_chars (take (length s - length s')%nat s)) :: caps))
  end.

(** [pattern.match(s)]: the rest of the text and the groups. *)
Definition match_at (r : regex) (s : list ascii) : option (list ascii * captures) :=
  run r s [] (λ s caps, Some (s, caps)).

(** [pattern.search(s)] *)
Fixpoint search (r : regex) (s : list ascii) : option (list ascii * captures) :=
  match match_at r s with
  | Some m => Some m
  | None => match s with [] => None | _ :: s => search r s end
  end.

(** [pattern.finditer(s)] for patterns that match no empty text; the fuel bounds
    the number of matches. *)
Fixpoint find_all (fuel : nat) (r : regex) (s : list ascii) : list captures :=
  match fuel with
  | O => []
  | S fuel =>
      match search r s with
      | None => []
      | Some (rest, caps) => caps :: find_all fuel r rest
      end
  end.
Definition finditer (r : regex) (s : list ascii) : list captures := find_all (length s) r s.

(** [match.group(name)] *)
Fixpoint group (name : string) (caps : captures) : option string :=
  match caps with
  | [] => None
  | (n, text) :: caps => if String.eqb n name then Some text else group name caps
  end.

(** ** Patterns *)

Definition is_char (c d : ascii) : bool := bool_decide (c = d).
Definition lit (text : string) : regex := foldr (λ c r, Seq (Chr (is_char c)) r) Empty (chars text).
Definition is_digit (c : ascii) : bool := (48 <=? code c) && (code c <=? 57).
Definition is_hex (c : ascii) : bool :=
  is_digit c || ((97 <=? code c) && (code c <=? 102)) || ((65 <=? code c) && (code c <=? 70)).
Definition is_lower (c : ascii) : bool := (97 <=? code c) && (code c <=? 122).
Definition not_newline (c : ascii) : bool := negb (code c =? 10).
Definition many (p : ascii → bool) : regex := Rep true 1 p.     (* p+ *)
Definition lazy_any : regex := Rep false 0 not_newline.          (* .*? *)
Definition greedy_any : regex := Rep true 0 not_newline.         (* .* *)
Notation "r1 +>+ r2" := (Seq r1 r2) (at level 60, right associativity) : py_scope.

(** ** Meaning *)

Inductive matches : regex → list ascii → captures → list ascii → captures → Prop :=
  | m_empty s caps : matches Empty s caps s caps
  | m_chr p c s caps : p c = true → matches (Chr p) (c :: s) caps s caps
  | m_rep greedy least p w s caps :
      Forall (λ c, p c = true) w → (least ≤ length w)%nat →
      matches (Rep greedy least p) (w ++ s) caps s caps
  | m_ahead p s caps : p (head s) = true → matches (Ahead p) s caps s caps
  | m_seq r1 r2 s caps s1 caps1 s2 caps2 :
      matches r1 s caps s1 caps1 → matches r2 s1 caps1 s2 caps2 →
      matches (Seq r1 r2) s caps s2 caps2
  | m_left r1 r2 s caps s' caps' : matches r1 s caps s' caps' → matches (Alt r1 r2) s caps s' caps'
  | m_right r1 r2 s caps s' caps' : matches r2 s caps s' caps' → matches (Alt r1 r2) s caps s' caps'
  | m_some r s caps s' caps' : matches r s caps s' caps' → matches (Opt r) s caps s' caps'
  | m_none r s caps : matches (Opt r) s caps s caps
  | m_group name r w s' caps caps' :
      matches r (w ++ s') caps s' caps' →
      matches (Group name r) (w ++ s') caps s' ((name, of_chars w) :: caps').
#[export] Hint Constructors matches : py.

Lemma repeat_class_Some {A} greedy least p s (k : list ascii → option A) a :
  repeat_class greedy least p s k = Some a →
  ∃ w s', s = w ++ s' ∧ Forall (λ c, p c = true) w ∧ (least ≤ length w)%nat ∧ k s' = Some a.
Proof.
  revert least. induction s as [|c s IH]; intros least H; simpl in H.
  - assert (least = 0%nat ∧ k [] = Some a) as [-> Hk]
      by (destruct greedy, least; try discriminate; try done; by destruct (k []); simplify_eq).
    exists [], []. split_and!; [done|constructor|done|done].
  - assert ((least = 0%nat ∧ k (c :: s) = Some a) ∨
            (p c = true ∧ repeat_class greedy (pred least) p s k = Some a)) as Hor
      by (destruct (p c), greedy, least; simpl in *; try discriminate; repeat (case_match; simplify_eq); tauto).
    destruct Hor as [[-> Hk]|[Hp Hr]].
    + exists [], (c :: s). split_and!; [done|constructor|done|done].
    + apply IH in Hr as (w & s' & -> & Hw & Hl & Hk). exists (c :: w), s'.
      split_and!; [done|by constructor|simpl; lia|done].
Qed.

Lemma repeat_class_None {A} greedy least p w s' (k : list ascii → option A) :
  Forall (λ c, p c = true) w → (least ≤ length w)%nat →
  repeat_class greedy least p (w ++ s') k = None → k s' = None.
Proof.
  revert least. induction w as [|c w IH]; intros least Hw Hl H.
  - simpl in Hl. assert (least = 0%nat) as -> by lia.
    destruct s'; simpl in H; destruct greedy; repeat (case_match; simplify_eq); auto.
  - apply Forall_cons in Hw as [Hc Hw]. apply (IH (pred least) Hw); [simpl in Hl; lia|].
    simpl in H. rewrite Hc in H. destruct greedy, least; repeat (case_match; simplify_eq); auto.
Qed.

(** Whatever matches leaves a suffix of its text. *)
Lemma matches_suffix r s caps s' caps' : matches r s caps s' caps' → ∃ w, s = w ++ s'.
Proof.
  induction 1 as [| |greedy least p w s caps Hw Hl| |r1 r2 s caps s1 caps1 s2 caps2 _ [w1 ->] _ [w2 ->]
                 | | | | |name r w s' caps caps' _ _];
    try done; try (by exists []); try (by eexists); [by eexists [_]|].
  exists (w1 ++ w2). by rewrite <-app_assoc.
Qed.

Lemma run_Some {A} r s caps (k : list ascii → captures → option A) a :
  run r s caps k = Some a → ∃ s' caps', matches r s caps s' caps' ∧ k s' caps' = Some a.
Proof.
  revert s caps k. induction r as [|p|greedy least p|p|r1 IH1 r2 IH2|r1 IH1 r2 IH2|r IH|name r IH];
    intros s caps k H; cbn [run] in H.
  - eauto with py.
  - destruct s as [|c s]; [done|]. destruct (p c) eqn:Hp; [|done]. eauto with py.
  - apply repeat_class_Some in H as (w & s' & -> & Hw & Hl & Hk). eauto with py.
  - destruct (p (head s)) eqn:Hp; [|done]. eauto with py.
  - apply IH1 in H as (s1 & caps1 & Hm1 & H). apply IH2 in H as (s2 & caps2 & Hm2 & H). eauto with py.
  - destruct (run r1 s caps k) eqn:H1.
    + injection H as <-. apply IH1 in H1 as (s' & caps' & ? & ?). eauto with py.
    + apply IH2 in H as (s' & caps' & ? & ?). eauto with py.
  - destruct (run r s caps k) eqn:H1.
    + injection H as <-. apply IH in H1 as (s' & caps' & ? & ?). eauto with py.
    + eauto with py.
  - apply IH in H as (s' & caps' & Hm & Hk). destruct (matches_suffix _ _ _ _ _ Hm) as [w ->].
    rewrite length_app in Hk. replace (length w + length s' - length s')%nat with (length w) in Hk by lia.
    rewrite take_app_length in Hk. eauto with py.
Qed.

Lemma run_None {A} r s caps s' caps' :
  matches r s caps s' caps' →
  ∀ (k : list ascii → captures → option A), run r s caps k = None → k s' caps' = None.
Proof.
  induction 1 as [|p c s caps Hp|greedy least p w s caps Hw Hl|p s caps Hp
                 |r1 r2 s caps s1 caps1 s2 caps2 _ IH1 _ IH2|r1 r2 s caps s' caps' _ IH
                 |r1 r2 s caps s' caps' _ IH|r s caps s' caps' _ IH|r s caps|name r w s' caps caps' _ IH];
    intros k H; cbn [run] in H.
  - done.
  - by rewrite Hp in H.
  - by apply repeat_class_None in H.
  - by rewrite Hp in H.
  - apply IH1 in H. by apply IH2 in H.
  - apply IH. by destruct (run r1 s caps k).
  - apply IH. by destruct (run r1 s caps k).
  - apply IH. by destruct (run r s caps k).
  - by destruct (run r s caps k).
  - apply IH in H. rewrite length_app in H.
    replace (length w + length s' - length s')%nat with (length w) in H by lia.
    by rewrite take_app_length in H.
Qed.

Lemma match_at_Some r s s' caps : match_at r s = Some (s', caps) → matches r s [] s' caps.
Proof. intros (? & ? & ? & [= -> ->])%run_Some. done. Qed.

Lemma match_at_None r s : match_at r s = None ↔ ∀ s' caps, ¬ matches r s [] s' caps.
Proof.
  split.
  - intros H s' caps Hm. by apply (run_None _ _ _ _ _ Hm) in H.
  - intros H. destruct (match_at r s) as [[s' caps]|] eqn:E; [|done].
    apply match_at_Some in E. by apply H in E.
Qed.

(** [search] finds the leftmost match, if there is one. *)
Lemma search_Some r s s' caps :
  search r s = Some (s', caps) →
  ∃ before here, s = before ++ here ∧ matches r here [] s' caps ∧
    ∀ b h, s = b ++ h → (length b < length before)%nat → ∀ t c, ¬ matches r h [] t c.
Proof.
  induction s as [|c s IH]; simpl; intros H.
  - destruct (match_at r []) as [m|] eqn:E; [|done]. injection H as ->.
    apply match_at_Some in E. exists [], []. split_and!; [done|done|simpl; lia].
  - destruct (match_at r (c :: s)) as [m|] eqn:E.
    { injection H as ->. apply match_at_Some in E. exists [], (c :: s). split_and!; [done|done|simpl; lia]. }
    apply IH in H as (before & here & -> & Hm & Hfirst). exists (c :: before), here.
    split_and!; [done|done|]. intros b h Heq Hl. destruct b as [|c' b].
    + simpl in Heq. subst h. by apply match_at_None.
    + injection Heq as <- Heq. apply (Hfirst b h Heq). simpl in Hl. lia.
Qed.

Lemma search_None r s :
  search r s = None ↔ ∀ before here, s = before ++ here → ∀ s' caps, ¬ matches r here [] s' caps.
Proof.
  split.
  - induction s as [|c s IH]; simpl; intros H before here Heq.
    + symmetry in Heq. apply app_eq_nil in Heq as [-> ->]. apply match_at_None. by destruct (match_at r []).
    + destruct (match_at r (c :: s)) eqn:E; [done|]. destruct before as [|c' before].
      * simpl in Heq. subst here. by apply match_at_None.
      * injection Heq as <- Heq. by apply (IH H before here).
  - induction s as [|c s IH]; intros H; simpl.
    + assert (match_at r [] = None) as -> by (by apply match_at_None, (H [] [])). done.
    + assert (match_at r (c :: s) = None) as -> by (by apply match_at_None, (H [] (c :: s))).
      apply IH. intros before here ->. by apply (H (c :: before) here).
Qed.

(** An expression that never matches the empty text makes progress, so the fuel
    of [finditer] suffices: beyond the length of the text it changes nothing. *)
Definition consumes (r : regex) : Prop :=
  ∀ s caps s' caps', matches r s caps s' caps' → (length s' < length s)%nat.

Lemma search_length r s s' caps :
  consumes r → search r s = Some (s', caps) → (length s' < length s)%nat.
Proof.
  intros Hc (before & here & -> & Hm & _)%search_Some. apply Hc in Hm. rewrite length_app. lia.
Qed.

Lemma find_all_fuel r s fuel :
  consumes r → (length s ≤ fuel)%nat → find_all fuel r s = finditer r s.
Proof.
  intros Hc. unfold finditer.
  cut (∀ n s f1 f2, (length s ≤ n)%nat → (length s ≤ f1)%nat → (length s ≤ f2)%nat →
         find_all f1 r s = find_all f2 r s); [intros H Hl; by apply (H (length s))|].
  clear s fuel. induction n as [|n IH]; intros s f1 f2 Hn H1 H2.
  - assert (s = []) as -> by (apply nil_length_inv; lia).
    assert (search r [] = None) as Hs.
    { destruct (search r []) as [[s' caps]|] eqn:E; [|done]. apply search_length in E; [simpl in E; lia|done]. }
    destruct f1, f2; cbn [find_all]; by rewrite ?Hs.
  - destruct (search r s) as [[s' caps]|] eqn:E.
    + pose proof (search_length _ _ _ _ Hc E).
      destruct f1 as [|f1], f2 as [|f2]; try lia. cbn [find_all]. rewrite E. f_equal. apply IH; lia.
    + destruct f1, f2; cbn [find_all]; by rewrite ?E.
Qed.

Lemma matches_seq r1 r2 s caps s' caps' :
  matches (Seq r1 r2) s caps s' caps' ↔
  ∃ s1 caps1, matches r1 s caps s1 caps1 ∧ matches r2 s1 caps1 s' caps'.
Proof. split; [inversion 1; subst; eauto|intros (? & ? & ? & ?); eauto with py]. Qed.

(** A character, and whatever starts with one, is consumed. *)
Lemma consumes_chr p : consumes (Chr p).
Proof. intros s caps s' caps' H. inversion H; subst. simpl. lia. Qed.

Lemma consumes_seq r1 r2 : consumes r1 → consumes (Seq r1 r2).
Proof.
  intros Hc s caps s' caps' (s1 & caps1 & H1 & H2)%matches_seq.
  apply Hc in H1. apply matches_suffix in H2 as [w ->]. rewrite length_app in H1. lia.
Qed.
#[export] Hint Resolve consumes_chr consumes_seq : py.

(** ** Shapes of a match *)

Lemma matches_lit text s caps s' caps' :
  matches (lit text) s caps s' caps' → s = chars text ++ s' ∧ caps' = caps.
Proof.
  unfold lit. revert s caps. induction (chars text) as [|c l IH]; intros s caps H; simpl in H.
  - inversion H; subst. done.
  - apply matches_seq in H as (s1 & caps1 & H1 & H). inversion H1 as [|? d ? ? Hd| | | | | | | |]; subst.
    unfold is_char in Hd. apply bool_decide_eq_true in Hd as ->. apply IH in H as [-> ->]. done.
Qed.

Lemma matches_rep greedy least p s caps s' caps' :
  matches (Rep greedy least p) s caps s' caps' →
  caps' = caps ∧ ∃ w, s = w ++ s' ∧ Forall (λ c, p c = true) w ∧ (least ≤ length w)%nat.
Proof. inversion 1; subst. split; [done|]. by eexists. Qed.

Lemma matches_group name p s caps s' caps' :
  matches (Group name (many p)) s caps s' caps' →
  ∃ w, s = w ++ s' ∧ Forall (λ c, p c = true) w ∧ w ≠ [] ∧ caps' = (name, of_chars w) :: caps.
Proof.
  intros H. inversion H as [| | | | | | | | |? ? w ? ? caps2 Hr]; subst.
  apply matches_rep in Hr as (-> & w2 & Heq & Hw & Hl). apply app_inv_tail in Heq as <-.
  exists w. split_and!; try done. by intros ->; simpl in Hl; lia.
Qed.

Lemma find_all_match fuel r s m :
  m ∈ find_all fuel r s → ∃ here rest, matches r here [] rest m.
Proof.
  revert s. induction fuel as [|fuel IH]; intros s; cbn [find_all]; [by intros ?%elem_of_nil|].
  destruct (search r s) as [[rest caps]|] eqn:E; [|by intros ?%elem_of_nil].
  intros [->|H]%elem_of_cons; [|by apply (IH rest)].
  apply search_Some in E as (_ & here & _ & Hm & _). by exists here, rest.
Qed.

(** ** Numbers in a match *)

Lemma all_chars (P : ascii → bool) c :
  forallb (λ z, P (char_of z)) (zrange 0 256) = true → P c = true.
Proof.
  intros H. unfold char_of in H. rewrite <-(ascii_N_embedding c).
  rewrite forallb_forall in H. specialize (H (Z.of_N (N_of_ascii c))). rewrite N2Z.id in H. apply H.
  apply list_elem_of_In, elem_of_zrange. pose proof (N_ascii_bounded c). lia.
Qed.

(** A hexadecimal digit is a digit for [int(..., 16)], a decimal digit one for
    both bases. *)
Definition digit_check (c : ascii) : bool :=
  let below n := match digit_value c with
                 | Some d => (0 <=? d) && (d <? n) && plain_digit c
                 | None => false
                 end in
  implb (is_digit c) (below 10) && implb (is_hex c) (below 16).

Lemma digit_class base c :
  (base = 10 ∧ is_digit c = true) ∨ (base = 16 ∧ is_hex c = true) →
  plain_digit c = true ∧ ∃ d, digit_value c = Some d ∧ 0 ≤ d < base.
Proof.
  pose proof (all_chars digit_check c ltac:(vm_compute; reflexivity)) as Hc. unfold digit_check in Hc.
  intros [[-> H]|[-> H]]; rewrite H in Hc; destruct (digit_value c) as [d|]; simpl in Hc; b2p;
    try discriminate; (split; [done|]); exists d; (split; [done|]); lia.
Qed.

Lemma int_digits_class base w prev acc :
  0 ≤ base → 0 ≤ acc → (prev = true ∨ w ≠ []) →
  Forall (λ c, ∃ d, digit_value c = Some d ∧ 0 ≤ d < base) w →
  ∃ v, int_digits base w prev acc = Some (v, []) ∧ 0 ≤ v.
Proof.
  intros Hb. revert prev acc. induction w as [|c w IH]; intros prev acc Ha Hp Hw; simpl.
  - destruct Hp as [->|]; [|done]. by exists acc.
  - apply Forall_cons in Hw as [(d & Hd & Hr) Hw]. rewrite Hd. destruct (Z.ltb_spec d base); [|lia].
    apply IH; [nia|by left|done].
Qed.

(** [int] accepts what the digit classes match. *)
Lemma int_of_class base p w :
  (base = 10 ∧ p = is_digit) ∨ (base = 16 ∧ p = is_hex) →
  w ≠ [] → Forall (λ c, p c = true) w → ∃ v, py_int base (of_chars w) = Some v ∧ 0 ≤ v.
Proof.
  intros Hp Hne Hw. assert (Forall (λ c, plain_digit c = true ∧ ∃ d, digit_value c = Some d ∧ 0 ≤ d < base) w) as Hf.
  { eapply Forall_impl; [exact Hw|]. intros c Hc. apply digit_class.
    destruct Hp as [[-> ->]|[-> ->]]; [by left|by right]. }
  destruct (int_digits_class base w false 0) as (v & Hv & Hv0); [lia|done|by right| |].
  { eapply Forall_impl; [exact Hf|]. by intros c [_ ?]. }
  exists v. split; [|done]. rewrite py_int_plain; [by rewrite Hv|lia|done|].
  eapply Forall_impl; [exact Hf|]. by intros c [? _].
Qed.

Example regex_examples :
  finditer (lit "a=" +>+ Group "n" (many is_digit) +>+ Opt (lazy_any +>+ lit " b=" +>+ Group "m" (many is_hex)))
    (chars "a=12 x b=1f a=3") = [[("m", "1f"); ("n", "12")]; [("n", "3")]] ∧
  search (lit "x " +>+ greedy_any +>+ lit " y") (chars "zx 1 y 2 y3") = Some (chars "3", []) ∧
  group "n" [("m", "1f"); ("n", "12")] = Some "12".
Proof. repeat split; vm_compute; reflexivity. Qed.
