(* ===== verification/PyNumber.v ===== *)
(** * Numbers as text

    [float(text)], exact decimal to binary64, and [repr] of a float, the shortest
    text that reads back as it. *)

From stdpp Require Import base numbers list strings.
From Stdlib Require Import ZArith Lia Ascii SpecFloat.
From S2P Require Import Prelude PyText PyFloat PyRegex.

Open Scope Z_scope.

(** ** Reading *)

(** A run of digits with underscores between them, maybe empty: its value, its
    number of digits, and the rest. *)
Definition digit_run (s : list ascii) : option (Z * Z * list ascii) :=
  match s with
  | c :: _ =>
      if is_digit c then
        '(v, rest) ← int_digits 10 s false 0;
        Some (v, zlen (filter is_digit (take (length s - length rest) s)), rest)
      else Some (0, 0, s)
  | [] => Some (0, 0, s)
  end.

(** An optional sign. *)
Definition sign_of (s : list ascii) : bool * list ascii :=
  match s with
  | c :: s' => if is_char "-" c then (true, s') else if is_char "+" c then (false, s') else (false, s)
  | [] => (false, s)
  end.

Definition exponent_of (s : list ascii) : option Z :=
  match s with
  | [] => Some 0
  | c :: s =>
      if is_char "e" c || is_char "E" c then
        let '(negative, s) := sign_of s in
        '(v, n, rest) ← digit_run s;
        if (n =? 0) || negb (bool_decide (rest = [])) then None
        else Some (if negative then - v else v)
      else None
  end.

(** The float nearest to [m * 10 ^ e]. *)
Definition decimal (m e : Z) : double :=
  if 0 <=? e then fdiv (PyFloat.exact (m * 10 ^ e)) (PyFloat.exact 1)
  else fdiv (PyFloat.exact m) (PyFloat.exact (10 ^ - e)).

Definition negated (negative : bool) (x : double) : double := if negative then SFopp x else x.

(** [float(text)]; [None] is [ValueError]. *)
Definition py_float (text : string) : option double :=
  let '(negative, s) := sign_of (strip (chars text)) in
  let word := lower (of_chars s) in
  if String.eqb word "inf" || String.eqb word "infinity" then Some (S754_infinity negative)
  else if String.eqb word "nan" then Some S754_nan
  else
    '(whole, n1, s) ← digit_run s;
    '(fraction, n2, s) ← match s with
                         | c :: s' => if is_char "." c then digit_run s' else Some (0, 0, s)
                         | [] => Some (0, 0, s)
                         end;
    if n1 + n2 =? 0 then None
    else e ← exponent_of s; Some (negated negative (decimal (whole * 10 ^ n2 + fraction) (e - n2))).

(** [int(x)] of a float. *)
Definition float_int (x : double) : result Z :=
  match x with
  | S754_zero _ => Ok 0
  | S754_nan => Err (ValueError "cannot convert float NaN to integer")
  | S754_infinity _ => Err (OverflowError "cannot convert float infinity to integer")
  | S754_finite negative m e =>
      let magnitude := Z.shiftl (Z.pos m) e in
      Ok (if negative then - magnitude else magnitude)
  end.

(** [x / y] of floats. *)
Definition float_div (x y : double) : result double :=
  match y with
  | S754_zero _ => Err (ZeroDivisionError "float division by zero")
  | _ => Ok (fdiv x y)
  end.

Example py_float_examples :
  (fixed 3 <$> (py_float <$> ["12"; "-1.5"; ".25"; "1e3"; "1_0.5e-1"; "2.675"]) ≫= option_list)
    = ["12.000"; "-1.500"; "0.250"; "1000.000"; "1.050"; "2.675"] ∧
  py_float "nan" = Some S754_nan ∧ py_float "-Inf" = Some (S754_infinity true) ∧
  (py_float <$> [""; "."; "1e"; "1__0"; "0x10"; "e5"; "1.5.2"; "--1"]) = replicate 8 None ∧
  py_float "0.1" = Some (fdiv (to_float 1) (to_float 10)) ∧
  py_float "1e400" = Some (S754_infinity false) ∧ py_float "-1e-400" = Some (S754_zero true) ∧
  float_int (fdiv (to_float (-7)) (to_float 2)) = Ok (-3).
Proof. repeat split; vm_compute; reflexivity. Qed.

(** ** Writing

    [repr(x)] has the fewest significant digits that determine [x], seventeen at
    most; of two candidates the nearer one. *)

(** The magnitude [m * 2 ^ e] as a fraction. *)
Definition fraction (m : positive) (e : Z) : Z * Z :=
  if 0 <=? e then (Z.pos m * 2 ^ e, 1) else (Z.pos m, 2 ^ - e).

(** The exponent [k] with [10 ^ (k - 1) <= num / den < 10 ^ k], from an estimate. *)
Fixpoint decimal_exponent (fuel : nat) (num den k : Z) : Z :=
  match fuel with
  | O => k
  | S fuel =>
      if num * 10 ^ Z.max 0 (- k) <? den * 10 ^ Z.max 0 k then
        if num * 10 ^ Z.max 0 (- (k - 1)) <? den * 10 ^ Z.max 0 (k - 1)
        then decimal_exponent fuel num den (k - 1) else k
      else decimal_exponent fuel num den (k + 1)
  end.

(** The digits of [n] significant digits that read back as [x], if any: the decimal
    [d * 10 ^ (k - n)] below [x] or the one above, the nearer one first. *)
Definition candidate (x : double) (num den k n : Z) : option Z :=
  let up := 10 ^ Z.max 0 (n - k) in
  let down := 10 ^ Z.max 0 (k - n) in
  let d := num * up / (den * down) in
  let below_first := 2 * (num * up - d * den * down) <=? den * down in
  let test d := bool_decide (decimal d (k - n) = x) in
  if below_first then (if test d then Some d else if test (d + 1) then Some (d + 1) else None)
  else (if test (d + 1) then Some (d + 1) else if test d then Some d else None).

Fixpoint shortest (fuel : nat) (x : double) (num den k n : Z) : option (Z * Z) :=
  match fuel with
  | O => None
  | S fuel =>
      match candidate x num den k n with
      | Some d => Some (d, k - n)
      | None => shortest fuel x num den k (n + 1)
      end
  end.

(** The digits without trailing zeros, and the place of the point after them. *)
Definition layout (ds : list ascii) (point : Z) : list ascii :=
  let n := zlen ds in
  if (point <? -3) || (16 <? point) then
    let mantissa := match ds with
                    | [d] => [d]
                    | d :: ds => d :: "."%char :: ds
                    | [] => []
                    end in
    mantissa ++ chars (if point <? 1 then "e-" +:+ format_int 10 2 (1 - point)
                       else "e+" +:+ format_int 10 2 (point - 1))
  else if point <=? 0 then chars "0." ++ zeros (Z.to_nat (- point)) ++ ds
  else if n <=? point then ds ++ zeros (Z.to_nat (point - n)) ++ chars ".0"
  else take (Z.to_nat point) ds ++ "."%char :: drop (Z.to_nat point) ds.

(** [repr] of the positive [m * 2 ^ e]. *)
Definition magnitude_repr (m : positive) (e : Z) : list ascii :=
  let '(num, den) := fraction m e in
  let estimate := (Z.log2 num - Z.log2 den) * 30103 / 100000 in
  let k := decimal_exponent 1000 num den estimate in
  match shortest 17 (S754_finite false m e) num den k 1 with
  | Some (d, scale) =>
      let ds := digits 10 d in
      layout (rstrip_char "0" (digit_char <$> ds)) (scale + zlen ds)
  | None => []
  end.

Definition float_repr (x : double) : string :=
  match x with
  | S754_zero s => if s then "-0.0" else "0.0"
  | S754_infinity s => if s then "-inf" else "inf"
  | S754_nan => "nan"
  | S754_finite s m e => (if s then "-" else "") +:+ of_chars (magnitude_repr m e)
  end.

Definition reprs (l : list string) : list string :=
  (float_repr <$> (py_float <$> l) ≫= option_list).

Example float_repr_examples :
  reprs ["0.1"; "1"; "100"; "1e16"; "1e15"; "123456789012345678"; "1e-4"; "1e-5"; "2.5e-7"; "0.30000000000000004";
         "5e-324"; "1.7976931348623157e308"; "9007199254740993"; "-2.675"; "1e22"; "1e23"; "33.333333333333336"]
  = ["0.1"; "1.0"; "100.0"; "1e+16"; "1000000000000000.0"; "1.2345678901234568e+17"; "0.0001"; "1e-05"; "2.5e-07";
     "0.30000000000000004"; "5e-324"; "1.7976931348623157e+308"; "9007199254740992.0"; "-2.675"; "1e+22"; "1e+23";
     "33.333333333333336"].
Proof. vm_compute. reflexivity. Qed.
