(* ===== verification/PyJson.v ===== *)
(** * JSON

    [json.dumps(value, indent=2)] and [json.loads].  An object has its keys in
    order, once each.  [loads_dumps] says that what was printed is read back, for values
    whose floats are [printable] ([repr] gives a text that reads back as the float,
    which [FloatRepr] proves of every binary64 value), and [loads_good] that what was
    read can be printed again. *)

From stdpp Require Import base numbers list strings.
From Stdlib Require Import ZArith Lia Ascii SpecFloat.
From S2P Require Import Prelude PyText PyFloat PyDict PyRegex PyNumber.

Open Scope Z_scope.

Unset Elimination Schemes.
Inductive json :=
  | JNull
  | JBool (b : bool)
  | JInt (z : Z)
  | JFloat (x : double)
  | JStr (s : string)
  | JArr (items : list json)
  | JObj (fields : list (string * json)).
Set Elimination Schemes.

Section json_ind.
Variable P : json → Prop.
Hypotheses (Hnull : P JNull) (Hbool : ∀ b, P (JBool b)) (Hint : ∀ z, P (JInt z))
  (Hfloat : ∀ x, P (JFloat x)) (Hstr : ∀ s, P (JStr s))
  (Harr : ∀ items, Forall P items → P (JArr items))
  (Hobj : ∀ fields, Forall (λ kv, P kv.2) fields → P (JObj fields)).

Fixpoint json_ind (v : json) : P v :=
  match v with
  | JNull => Hnull
  | JBool b => Hbool b
  | JInt z => Hint z
  | JFloat x => Hfloat x
  | JStr s => Hstr s
  | JArr items =>
      Harr items ((fix go l : Forall P l :=
        match l with [] => Forall_nil_2 P | x :: l => Forall_cons_2 P x l (json_ind x) (go l) end) items)
  | JObj fields =>
      Hobj fields ((fix go l : Forall (λ kv, P kv.2) l :=
        match l with
        | [] => Forall_nil_2 _
        | kv :: l => Forall_cons_2 (λ kv, P kv.2) kv l (json_ind kv.2) (go l)
        end) fields)
  end.
End json_ind.

(** ** Printing *)

Definition json_float (x : double) : string :=
  match x with
  | S754_nan => "NaN"
  | S754_infinity s => if s then "-Infinity" else "Infinity"
  | _ => float_repr x
  end.

Definition BACKSLASH : ascii := char_of 92.

(** The escapes with a letter of their own. *)
Definition short_escapes : list (ascii * ascii) :=
  [(double_quote_char, double_quote_char); (BACKSLASH, BACKSLASH); (char_of 10, "n"%char);
   (char_of 13, "r"%char); (char_of 9, "t"%char); (char_of 12, "f"%char); (char_of 8, "b"%char)].

Definition json_escape (c : ascii) : list ascii :=
  match head (filter (λ e, e.1 = c) short_escapes) with
  | Some (_, letter) => [BACKSLASH; letter]
  | None =>
      if (32 <=? code c) && (code c <=? 126) then [c]
      else BACKSLASH :: "u"%char :: chars (hex_pad 4 (code c))
  end.
Definition json_string (s : string) : list ascii :=
  double_quote_char :: mjoin (json_escape <$> chars s) ++ [double_quote_char].

(** A line break and the indentation of a depth. *)
Definition line_indent (depth : nat) : list ascii := char_of 10 :: replicate (2 * depth) " "%char.

Fixpoint join_chars (sep : list ascii) (parts : list (list ascii)) : list ascii :=
  match parts with
  | [] => []
  | [part] => part
  | part :: parts => part ++ sep ++ join_chars sep parts
  end.

Definition bracketed (opening closing : ascii) (depth : nat) (parts : list (list ascii)) : list ascii :=
  match parts with
  | [] => [opening; closing]
  | _ => opening :: line_indent (S depth) ++ join_chars (","%char :: line_indent (S depth)) parts
         ++ line_indent depth ++ [closing]
  end.

Fixpoint dump (depth : nat) (v : json) : list ascii :=
  match v with
  | JNull => chars "null"
  | JBool b => chars (if b then "true" else "false")
  | JInt z => chars (str_int z)
  | JFloat x => chars (json_float x)
  | JStr s => json_string s
  | JArr items => bracketed "[" "]" depth (map (dump (S depth)) items)
  | JObj fields =>
      bracketed "{" "}" depth
        (map (λ kv, json_string kv.1 ++ [":"%char; " "%char] ++ dump (S depth) kv.2) fields)
  end.

(** [json.dumps(value, indent=2)] *)
Definition dumps (v : json) : string := of_chars (dump 0 v).

(** [sort_keys=True] *)
Definition key_le {A} (a b : string * A) : Prop := str_le a.1 b.1.
#[export] Instance key_le_dec {A} (a b : string * A) : Decision (key_le a b).
Proof. unfold key_le. apply _. Defined.
Fixpoint sort_keys (v : json) : json :=
  match v with
  | JArr items => JArr (map sort_keys items)
  | JObj fields => JObj (merge_sort key_le (map (λ kv, (kv.1, sort_keys kv.2)) fields))
  | _ => v
  end.

(** ** Reading *)

Definition json_blank (c : ascii) : bool :=
  existsb (Ascii.eqb c) [" "%char; char_of 9; char_of 10; char_of 13].
Fixpoint skip_blanks (s : list ascii) : list ascii :=
  match s with
  | c :: s' => if json_blank c then skip_blanks s' else s
  | [] => []
  end.

(** The text of a string after its opening quote; characters beyond one byte are
    not in the model. *)
Fixpoint scan_string (s : list ascii) : option (list ascii * list ascii) :=
  match s with
  | [] => None
  | c :: s =>
      if Ascii.eqb c double_quote_char then Some ([], s)
      else if Ascii.eqb c BACKSLASH then
        match s with
        | [] => None
        | e :: s =>
            if Ascii.eqb e "u" then
              match s with
              | a :: b :: c :: d :: s =>
                  z ← digit_value a; y ← digit_value b; x ← digit_value c; w ← digit_value d;
                  let v := ((z * 16 + y) * 16 + x) * 16 + w in
                  if forallb (λ h, h <? 16) [z; y; x; w] && (v <? 256)
                  then '(t, rest) ← scan_string s; Some (char_of v :: t, rest) else None
              | _ => None
              end
            else if Ascii.eqb e "/" then '(t, rest) ← scan_string s; Some (e :: t, rest)
            else
              match head (filter (λ p, p.2 = e) short_escapes) with
              | Some (c, _) => '(t, rest) ← scan_string s; Some (c :: t, rest)
              | None => None
              end
        end
      else if code c <? 32 then None
      else '(t, rest) ← scan_string s; Some (c :: t, rest)
  end.

(** Digits, and the rest. *)
Fixpoint span_digits (s : list ascii) : list ascii * list ascii :=
  match s with
  | c :: s' => if is_digit c then let '(ds, rest) := span_digits s' in (c :: ds, rest) else ([], s)
  | [] => ([], [])
  end.
(** A separator with digits after it: the text consumed, and the rest. *)
Definition scan_fraction (s : list ascii) : list ascii * list ascii :=
  match s with
  | c :: s' =>
      if Ascii.eqb c "." then
        match span_digits s' with ([], _) => ([], s) | (ds, rest) => (c :: ds, rest) end
      else ([], s)
  | [] => ([], [])
  end.
Definition scan_exponent (s : list ascii) : list ascii * list ascii :=
  match s with
  | c :: s' =>
      if Ascii.eqb c "e" || Ascii.eqb c "E" then
        let '(sign, digits) := match s' with
                               | d :: s'' => if Ascii.eqb d "-" || Ascii.eqb d "+" then ([d], s'') else ([], s')
                               | [] => ([], [])
                               end in
        match span_digits digits with ([], _) => ([], s) | (ds, rest) => (c :: sign ++ ds, rest) end
      else ([], s)
  | [] => ([], [])
  end.
(** A number: an optional minus sign, a whole part without leading zeros, and the
    optional fraction and exponent that make it a float. *)
Definition scan_tail (sign whole s : list ascii) : option (json * list ascii) :=
  let '(fraction, rest) := scan_fraction s in
  let '(exponent, rest) := scan_exponent rest in
  match fraction, exponent with
  | [], [] => v ← py_int 10 (of_chars whole);
              Some (JInt (match sign with [] => v | _ => - v end), rest)
  | _, _ => x ← py_float (of_chars (sign ++ whole ++ fraction ++ exponent)); Some (JFloat x, rest)
  end.
Definition scan_unsigned (sign s : list ascii) : option (json * list ascii) :=
  match s with
  | c :: rest =>
      if Ascii.eqb c "0" then scan_tail sign [c] rest
      else match span_digits s with ([], _) => None | (whole, rest) => scan_tail sign whole rest end
  | [] => None
  end.
Definition scan_number (s : list ascii) : option (json * list ascii) :=
  match s with
  | c :: s' => if Ascii.eqb c "-" then scan_unsigned [c] s' else scan_unsigned [] s
  | [] => None
  end.

Definition constants : list (string * json) :=
  [("null", JNull); ("true", JBool true); ("false", JBool false); ("NaN", JFloat S754_nan);
   ("Infinity", JFloat (S754_infinity false)); ("-Infinity", JFloat (S754_infinity true))].
Definition scan_constant (s : list ascii) : option (json * list ascii) :=
  head (omap (λ '(name, v), (λ rest, (v, rest)) <$> after_prefix (chars name) s) constants).

(** A value, the rest of an array after its bracket or comma, and the rest of an
    object; every call consumes a character. *)
Fixpoint parse_value (fuel : nat) (s : list ascii) : option (json * list ascii) :=
  match fuel with
  | O => None
  | S fuel =>
      match s with
      | [] => None
      | c :: s' =>
          if Ascii.eqb c double_quote_char then '(t, rest) ← scan_string s'; Some (JStr (of_chars t), rest)
          else if Ascii.eqb c "{" then
            match skip_blanks s' with
            | d :: rest => if Ascii.eqb d "}" then Some (JObj [], rest)
                           else parse_members fuel [] (d :: rest)
            | [] => None
            end
          else if Ascii.eqb c "[" then
            match skip_blanks s' with
            | d :: rest => if Ascii.eqb d "]" then Some (JArr [], rest)
                           else parse_items fuel [] (d :: rest)
            | [] => None
            end
          else match scan_constant s with Some r => Some r | None => scan_number s end
      end
  end
with parse_items (fuel : nat) (items : list json) (s : list ascii) : option (json * list ascii) :=
  match fuel with
  | O => None
  | S fuel =>
      '(v, rest) ← parse_value fuel s;
      match skip_blanks rest with
      | c :: rest =>
          if Ascii.eqb c "]" then Some (JArr (items ++ [v]), rest)
          else if Ascii.eqb c "," then parse_items fuel (items ++ [v]) (skip_blanks rest)
          else None
      | [] => None
      end
  end
with parse_members (fuel : nat) (fields : list (string * json)) (s : list ascii)
    : option (json * list ascii) :=
  match fuel with
  | O => None
  | S fuel =>
      match s with
      | q :: s =>
          if negb (Ascii.eqb q double_quote_char) then None
          else
            '(key, rest) ← scan_string s;
            match skip_blanks rest with
            | colon :: rest =>
                if negb (Ascii.eqb colon ":") then None
                else
                  '(v, rest) ← parse_value fuel (skip_blanks rest);
                  let fields := d_set (of_chars key) v fields in
                  match skip_blanks rest with
                  | c :: rest =>
                      if Ascii.eqb c "}" then Some (JObj fields, rest)
                      else if Ascii.eqb c "," then parse_members fuel fields (skip_blanks rest)
                      else None
                  | [] => None
                  end
            | [] => None
            end
      | [] => None
      end
  end.

(** [json.loads(text)]; [JSONDecodeError] is a [ValueError]. *)
Definition loads (text : string) : result json :=
  let s := skip_blanks (chars text) in
  match parse_value (S (length s)) s with
  | Some (v, rest) =>
      if bool_decide (skip_blanks rest = []) then Ok v else Err (ValueError "Extra data")
  | None => Err (ValueError "Expecting value")
  end.

(** ** What is printed is read *)

Lemma scan_string_escape c tail :
  scan_string (json_escape c ++ tail) = ('(t, rest) ← scan_string tail; Some (c :: t, rest)).
Proof. destruct c as [[] [] [] [] [] [] [] []]; reflexivity. Qed.

Lemma scan_string_printed s tail :
  scan_string (mjoin (json_escape <$> s) ++ double_quote_char :: tail) = Some (s, tail).
Proof.
  induction s as [|c s IH]; [done|].
  rewrite fmap_cons, join_cons, <- app_assoc, scan_string_escape. by rewrite IH.
Qed.

(** What may follow a value: nothing, a comma or a line break. *)
Definition follows (rest : list ascii) : Prop :=
  match rest with [] => True | c :: _ => c = ","%char ∨ c = char_of 10 end.

Lemma span_digits_app s ds r rest :
  span_digits s = (ds, r) → follows rest → span_digits (s ++ rest) = (ds, r ++ rest).
Proof.
  revert ds r. induction s as [|c s IH]; intros ds r H Hr.
  - injection H as <- <-. destruct rest as [|c rest]; [done|]. by destruct Hr as [-> | ->].
  - simpl in *. destruct (is_digit c); [|by injection H as <- <-].
    destruct (span_digits s) as [ds' r'] eqn:E. injection H as <- <-. by rewrite (IH _ _ eq_refl Hr).
Qed.

Lemma scan_fraction_app s f r rest :
  scan_fraction s = (f, r) → follows rest → scan_fraction (s ++ rest) = (f, r ++ rest).
Proof.
  intros H Hr. destruct s as [|c s]; simpl in *.
  - injection H as <- <-. destruct rest as [|c rest]; [done|]. by destruct Hr as [-> | ->].
  - destruct (Ascii.eqb c "."); [|by injection H as <- <-].
    destruct (span_digits s) as [ds r'] eqn:E. rewrite (span_digits_app _ _ _ _ E Hr).
    by destruct ds; injection H as <- <-.
Qed.

Lemma scan_exponent_app s f r rest :
  scan_exponent s = (f, r) → follows rest → scan_exponent (s ++ rest) = (f, r ++ rest).
Proof.
  intros H Hr. destruct s as [|c s]; simpl in *.
  - injection H as <- <-. destruct rest as [|c rest]; [done|]. by destruct Hr as [-> | ->].
  - destruct (Ascii.eqb c "e" || Ascii.eqb c "E"); [|by injection H as <- <-].
    destruct s as [|d s]; simpl in *.
    + injection H as <- <-. destruct rest as [|d rest]; [done|]. by destruct Hr as [-> | ->].
    + destruct (Ascii.eqb d "-" || Ascii.eqb d "+").
      * destruct (span_digits s) as [ds r'] eqn:E. rewrite (span_digits_app _ _ _ _ E Hr).
        by destruct ds; injection H as <- <-.
      * destruct (span_digits (d :: s)) as [ds r'] eqn:E.
        pose proof (span_digits_app _ _ _ _ E Hr) as E'. cbn [app] in E'. rewrite E'.
        by destruct ds; injection H as <- <-.
Qed.

Lemma scan_tail_app sign whole s v r rest :
  scan_tail sign whole s = Some (v, r) → follows rest →
  scan_tail sign whole (s ++ rest) = Some (v, r ++ rest).
Proof.
  unfold scan_tail. intros H Hr. destruct (scan_fraction s) as [f r1] eqn:Ef.
  rewrite (scan_fraction_app _ _ _ _ Ef Hr). destruct (scan_exponent r1) as [e r2] eqn:Ee.
  rewrite (scan_exponent_app _ _ _ _ Ee Hr). destruct f, e;
    first [destruct (py_int _ _); [|done]|destruct (py_float _); [|done]]; simpl in *; by injection H as <- <-.
Qed.

Lemma scan_unsigned_app sign s v r rest :
  scan_unsigned sign s = Some (v, r) → follows rest → scan_unsigned sign (s ++ rest) = Some (v, r ++ rest).
Proof.
  unfold scan_unsigned. intros H Hr. destruct s as [|c s]; [done|]. cbn [app].
  destruct (Ascii.eqb c "0"); [by apply scan_tail_app|].
  destruct (span_digits (c :: s)) as [ds r'] eqn:E.
  pose proof (span_digits_app _ _ _ _ E Hr) as E'. cbn [app] in E'. rewrite E'.
  destruct ds as [|d ds]; [done|]. by apply scan_tail_app.
Qed.

Lemma scan_number_app s v r rest :
  scan_number s = Some (v, r) → follows rest → scan_number (s ++ rest) = Some (v, r ++ rest).
Proof.
  unfold scan_number. intros H Hr. destruct s as [|c s]; [done|]. cbn [app].
  destruct (Ascii.eqb c "-"); [by apply scan_unsigned_app|by apply (scan_unsigned_app [] (c :: s))].
Qed.

(** ** Integers *)

Lemma digits_head n : 0 < n → ∃ d ds, digits 10 n = d :: ds ∧ d ≠ 0.
Proof.
  intros Hn. unfold digits.
  assert (0 < n < 10 ^ Z.of_nat (S (Z.to_nat (Z.log2 n)))) as Hb.
  { split; [done|]. rewrite Nat2Z.inj_succ, Z2Nat.id by apply Z.log2_nonneg.
    eapply Z.lt_le_trans; [apply Z.log2_spec; lia|].
    apply Z.pow_le_mono_l. pose proof (Z.log2_nonneg n). lia. }
  revert Hb. generalize (S (Z.to_nat (Z.log2 n))) (@nil Z). intros fuel. clear Hn.
  revert n. induction fuel as [|fuel IH]; intros n acc Hb; [simpl in Hb; lia|]. cbn [digits_go].
  destruct (Z.ltb_spec n 10); [exists n, acc; split; [done|lia]|]. apply IH.
  split; [apply Z.div_str_pos; lia|]. apply Z.div_lt_upper_bound; [lia|].
  rewrite Nat2Z.inj_succ, Z.pow_succ_r in Hb by lia. lia.
Qed.

Lemma digit_char_digit d : 0 ≤ d < 10 → is_digit (digit_char d) = true.
Proof.
  intros Hd. assert (Hall : Forall (λ d, is_digit (digit_char d) = true) (seqZ 0 10)) by (by repeat constructor).
  rewrite Forall_forall in Hall. apply Hall. apply elem_of_seqZ. lia.
Qed.

Lemma digit_char_zero d : 0 ≤ d < 10 → Ascii.eqb (digit_char d) "0" = true → d = 0.
Proof.
  intros Hd. assert (Hall : Forall (λ d, Ascii.eqb (digit_char d) "0" = true → d = 0) (seqZ 0 10)) by
    (by repeat constructor).
  rewrite Forall_forall in Hall. apply Hall. apply elem_of_seqZ. lia.
Qed.

Lemma span_all_digits l : Forall (λ c, is_digit c = true) l → span_digits l = (l, []).
Proof. induction 1 as [|c l Hc _ IH]; [done|]. simpl. by rewrite Hc, IH. Qed.

Lemma zeros_none z : z ≤ 0 → zeros (Z.to_nat z) = [].
Proof. intros H. by replace (Z.to_nat z) with 0%nat by lia. Qed.

Lemma chars_str_int n :
  chars (str_int n) = (if n <? 0 then ["-"%char] else []) ++ (digit_char <$> digits 10 (Z.abs n)).
Proof.
  unfold str_int, format_int. rewrite chars_of_chars. f_equal.
  rewrite zeros_none; [done|]. unfold zlen. lia.
Qed.

Lemma scan_unsigned_int sign n :
  0 ≤ n → scan_unsigned sign (digit_char <$> digits 10 n) = Some (JInt (match sign with [] => n | _ => - n end), []).
Proof.
  intros Hn. pose proof (str_int_int n Hn) as Hint. unfold str_int, format_int in Hint.
  destruct (digits_spec 10 n) as (Hne & Hds & _); [lia|done|].
  rewrite Z.abs_eq in Hint by done. destruct (Z.ltb_spec n 0); [lia|].
  rewrite zeros_none in Hint.
  2: unfold zlen; lia.
  cbn [app] in Hint.
  destruct (decide (n = 0)) as [->|Hn0]; [by destruct sign|].
  destruct (digits_head n) as (d & ds & E & Hd); [lia|]. rewrite E in *.
  apply Forall_cons_1 in Hds as [Hd10 Hds]. rewrite fmap_cons in *. unfold scan_unsigned.
  destruct (Ascii.eqb (digit_char d) "0") eqn:E0; [by apply digit_char_zero in E0|].
  rewrite span_all_digits.
  - unfold scan_tail. simpl in *. rewrite Hint. by destruct sign.
  - constructor; [by apply digit_char_digit|]. apply Forall_fmap. eapply Forall_impl; [exact Hds|].
    intros d' Hd'. by apply digit_char_digit.
Qed.

Lemma scan_number_int n : scan_number (chars (str_int n)) = Some (JInt n, []).
Proof.
  rewrite chars_str_int. destruct (Z.ltb_spec n 0).
  - cbn [app]. unfold scan_number. rewrite Ascii.eqb_refl, scan_unsigned_int by lia. do 3 f_equal. lia.
  - rewrite Z.abs_eq by done. cbn [app]. pose proof (scan_unsigned_int [] n ltac:(done)) as Hs.
    unfold scan_number. destruct (digit_char <$> digits 10 n) as [|c l] eqn:E; [done|].
    destruct (Ascii.eqb_spec c "-") as [->|_]; [|done]. exfalso.
    destruct (digits_spec 10 n) as (_ & Hds & _); [lia|done|].
    destruct (digits 10 n) as [|d ds]; [done|]. injection E as Hc _.
    apply Forall_cons_1 in Hds as [Hd _]. apply digit_char_digit in Hd. by rewrite Hc in Hd.
Qed.

(** ** Values *)

Definition scan_plain (s : list ascii) : option (json * list ascii) :=
  match scan_constant s with Some r => Some r | None => scan_number s end.

(** What [float.__repr__] gives reads back as the float. *)
Definition printable (x : double) : Prop := scan_plain (chars (json_float x)) = Some (JFloat x, []).

(** Floats that can be printed, and objects with distinct keys. *)
Fixpoint valid (v : json) : Prop :=
  match v with
  | JFloat x => printable x
  | JArr items => foldr (λ x P, valid x ∧ P) True items
  | JObj fields => NoDup fields.*1 ∧ foldr (λ kv P, valid kv.2 ∧ P) True fields
  | _ => True
  end.

Lemma scan_number_head s r :
  scan_number s = Some r →
  ∃ c s', s = c :: s' ∧ (is_digit c = true ∨ c = "-"%char ∧ ∃ d s'', s' = d :: s'' ∧ is_digit d = true).
Proof.
  assert (∀ sign s r, scan_unsigned sign s = Some r → ∃ c s', s = c :: s' ∧ is_digit c = true) as Hu.
  { intros sign s0 r0 H. destruct s0 as [|c s']; [done|]. exists c, s'. split; [done|].
    unfold scan_unsigned in H. destruct (Ascii.eqb_spec c "0") as [->|_]; [done|].
    cbn [span_digits] in H. by destruct (is_digit c). }
  intros H. destruct s as [|c s']; [done|]. exists c, s'. split; [done|].
  unfold scan_number in H. destruct (Ascii.eqb_spec c "-") as [->|_].
  - right. split; [done|]. by apply Hu in H.
  - left. by apply Hu in H as (? & ? & [= <- <-] & ?).
Qed.

Lemma scan_constant_number s r rest : scan_number s = Some r → scan_constant (s ++ rest) = None.
Proof.
  intros (c & s' & -> & [Hc|(-> & d & s'' & -> & Hd)])%scan_number_head.
  - by destruct c as [[] [] [] [] [] [] [] []].
  - by destruct d as [[] [] [] [] [] [] [] []].
Qed.

Lemma scan_constant_app s v rest :
  scan_constant s = Some (v, []) → scan_constant (s ++ rest) = Some (v, rest).
Proof.
  assert (∀ p s r, after_prefix p s = Some r → s = p ++ r) as Hp.
  { induction p as [|c p IH]; intros s0 r H; simpl in H; [by injection H as ->|].
    destruct s0 as [|d s0]; [done|]. case_bool_decide; [|done]. subst. simpl. f_equal. by apply IH. }
  intros H. unfold scan_constant in H. apply head_Some_elem_of, list_elem_of_omap in H as ([n w] & Hin & H).
  destruct (after_prefix (chars n) s) as [r|] eqn:E; [|done]. injection H as -> ->.
  apply Hp in E as ->. rewrite app_nil_r.
  repeat (apply elem_of_cons in Hin as [[= -> ->]|Hin]; [by destruct rest|]). by apply not_elem_of_nil in Hin.
Qed.

Lemma scan_plain_int z : scan_plain (chars (str_int z)) = Some (JInt z, []).
Proof.
  unfold scan_plain. pose proof (scan_number_int z) as Hz.
  pose proof (scan_constant_number _ _ [] Hz) as Hn. rewrite app_nil_r in Hn. by rewrite Hn.
Qed.

Lemma scan_plain_app s v rest :
  scan_plain s = Some (v, []) → follows rest → scan_plain (s ++ rest) = Some (v, rest).
Proof.
  unfold scan_plain. intros H Hr. destruct (scan_constant s) as [[w r]|] eqn:E.
  - injection H as -> ->. by rewrite (scan_constant_app _ _ _ E).
  - rewrite (scan_constant_number _ _ _ H). by rewrite (scan_number_app _ _ _ _ H Hr).
Qed.

Lemma scan_plain_head s v r :
  scan_plain s = Some (v, r) →
  ∃ c s', s = c :: s' ∧ json_blank c = false ∧ Ascii.eqb c double_quote_char = false ∧
    Ascii.eqb c "{" = false ∧ Ascii.eqb c "[" = false.
Proof.
  unfold scan_plain. destruct (scan_constant s) as [[w r']|] eqn:E.
  - intros _. unfold scan_constant in E. apply head_Some_elem_of, list_elem_of_omap in E as ([n u] & Hin & H).
    destruct s as [|c s']; [by repeat (apply elem_of_cons in Hin as [[= -> ->]|Hin]; [done|]);
                            apply not_elem_of_nil in Hin|].
    exists c, s'. split; [done|].
    repeat (apply elem_of_cons in Hin as [[= -> ->]|Hin];
      [cbn in H; case_bool_decide; [subst; by repeat split|done]|]).
    by apply not_elem_of_nil in Hin.
  - intros (c & s' & -> & [Hc|(-> & _)])%scan_number_head; exists c, s' || eexists _, _; (split; [done|]).
    + by destruct c as [[] [] [] [] [] [] [] []].
    + by repeat split.
Qed.

Lemma parse_plain fuel s v rest :
  scan_plain s = Some (v, []) → follows rest → parse_value (S fuel) (s ++ rest) = Some (v, rest).
Proof.
  intros H Hr. destruct (scan_plain_head _ _ _ H) as (c & s' & -> & _ & Hq & Ho & Ha).
  cbn [app parse_value]. rewrite Hq, Ho, Ha. by apply (scan_plain_app (c :: s')).
Qed.

(** ** The shape of printed values *)

Lemma skip_blanks_indent depth s :
  skip_blanks (line_indent depth ++ s) = skip_blanks s.
Proof.
  unfold line_indent. cbn [app]. change (skip_blanks (char_of 10 :: ?s)) with (skip_blanks s).
  assert (∀ n, skip_blanks (replicate n " "%char ++ s) = skip_blanks s) as H by (by induction n).
  apply H.
Qed.

Lemma dump_head depth v :
  valid v → ∃ c s, dump depth v = c :: s ∧ json_blank c = false.
Proof.
  destruct v as [|[]|z|t|s|items|fields]; intros Hv; simpl; try (eexists _, _; split; [reflexivity|done]).
  - destruct (scan_plain_head (chars (str_int z)) (JInt z) []) as (c & s & -> & Hc & _);
      [apply scan_plain_int|eauto].
  - destruct (scan_plain_head _ _ _ Hv) as (c & s & -> & Hc & _). eauto.
  - unfold bracketed. destruct (map _ items); eexists _, _; by split.
  - unfold bracketed. destruct (map _ fields); eexists _, _; by split.
Qed.

Lemma skip_blanks_dump depth v rest :
  valid v → skip_blanks (dump depth v ++ rest) = dump depth v ++ rest.
Proof. intros (c & s & -> & Hc)%(dump_head depth). simpl. by rewrite Hc. Qed.

(** Fuel enough for a value. *)
Fixpoint weight (v : json) : nat :=
  match v with
  | JArr items => S (foldr (λ x n, S (weight x) + n)%nat 0%nat items)
  | JObj fields => S (foldr (λ kv n, S (weight kv.2) + n)%nat 0%nat fields)
  | _ => 1
  end.

Definition parses (v : json) : Prop := ∀ depth fuel rest,
  valid v → (weight v ≤ fuel)%nat → follows rest →
  parse_value fuel (dump depth v ++ rest) = Some (v, rest).

Lemma parse_items_more fuel acc s v t :
  parse_value fuel s = Some (v, ","%char :: t) →
  parse_items (S fuel) acc s = parse_items fuel (acc ++ [v]) (skip_blanks t).
Proof. intros H. cbn [parse_items]. by rewrite H. Qed.

Lemma parse_items_last fuel acc s v r t :
  parse_value fuel s = Some (v, r) → skip_blanks r = "]"%char :: t →
  parse_items (S fuel) acc s = Some (JArr (acc ++ [v]), t).
Proof. intros H Hr. cbn [parse_items]. rewrite H. cbn [mbind option_bind]. by rewrite Hr. Qed.

(** The parts of an array or object after the first line break. *)
Definition separator (depth : nat) : list ascii := ","%char :: line_indent (S depth).
Definition printed (depth : nat) (closing : ascii) (parts : list (list ascii)) (rest : list ascii) : list ascii :=
  join_chars (separator depth) parts ++ line_indent depth ++ closing :: rest.

Lemma printed_one depth closing x rest :
  printed depth closing [x] rest = x ++ line_indent depth ++ closing :: rest.
Proof. done. Qed.

Lemma printed_cons depth closing x y parts rest :
  printed depth closing (x :: y :: parts) rest =
    x ++ ","%char :: line_indent (S depth) ++ printed depth closing (y :: parts) rest.
Proof.
  unfold printed. cbn [join_chars]. rewrite <- app_assoc. f_equal.
  unfold separator at 1. cbn [app]. by rewrite <- app_assoc.
Qed.

Lemma skip_blanks_printed depth closing c part parts rest :
  json_blank c = false → skip_blanks (printed depth closing ((c :: part) :: parts) rest) =
                         printed depth closing ((c :: part) :: parts) rest.
Proof.
  intros Hc. unfold printed. destruct parts; cbn [join_chars app skip_blanks]; by rewrite Hc.
Qed.

Lemma parse_items_printed items : ∀ x acc depth fuel rest,
  parses x → Forall parses items → valid x → foldr (λ x P, valid x ∧ P) True items →
  (S (weight x) + foldr (λ x n, S (weight x) + n) 0 items ≤ fuel)%nat →
  parse_items fuel acc (printed depth "]" (map (dump (S depth)) (x :: items)) rest) =
    Some (JArr (acc ++ x :: items), rest).
Proof.
  induction items as [|y items IH]; intros x acc depth fuel rest Hx Hitems Vx Vitems Hf;
    (destruct fuel as [|fuel]; [lia|]); cbn [map]; cbn [foldr snd] in Hf.
  - rewrite printed_one. eapply parse_items_last; [apply Hx; [done|lia|by right]|].
    by rewrite skip_blanks_indent.
  - apply Forall_cons_1 in Hitems as [Hy Hitems]. destruct Vitems as [Vy Vitems].
    rewrite printed_cons. erewrite parse_items_more by (apply Hx; [done|lia|by left]).
    rewrite skip_blanks_indent. destruct (dump_head (S depth) y Vy) as (c & part & Hd & Hc).
    rewrite Hd, skip_blanks_printed, <- Hd by done.
    pose proof (IH y (acc ++ [x]) depth fuel rest Hy Hitems Vy Vitems) as E.
    cbn [map] in E. rewrite E; [by rewrite <- app_assoc|lia].
Qed.

(** Members. *)
Definition member (depth : nat) (kv : string * json) : list ascii :=
  json_string kv.1 ++ [":"%char; " "%char] ++ dump (S depth) kv.2.

Lemma member_app depth k v s :
  member depth (k, v) ++ s =
    double_quote_char :: mjoin (json_escape <$> chars k) ++ double_quote_char ::
      ":"%char :: " "%char :: dump (S depth) v ++ s.
Proof. unfold member, json_string. cbn [app fst snd]. rewrite <- !app_assoc. done. Qed.

Lemma parse_members_step fuel fields k t :
  skip_blanks (" "%char :: t) = t →
  parse_members (S fuel) fields
    (double_quote_char :: mjoin (json_escape <$> chars k) ++ double_quote_char :: ":"%char :: " "%char :: t) =
  ('(v, rest) ← parse_value fuel t;
   match skip_blanks rest with
   | c :: rest =>
       if Ascii.eqb c "}" then Some (JObj (d_set k v fields), rest)
       else if Ascii.eqb c "," then parse_members fuel (d_set k v fields) (skip_blanks rest)
       else None
   | [] => None
   end).
Proof.
  intros Ht. cbn [parse_members]. rewrite Ascii.eqb_refl. cbn [negb].
  rewrite scan_string_printed. cbn [mbind option_bind].
  change (skip_blanks (":"%char :: " "%char :: t)) with (":"%char :: " "%char :: t).
  cbv beta iota. rewrite Ascii.eqb_refl. cbn [negb]. rewrite Ht. by rewrite of_chars_chars.
Qed.

Lemma skip_space_dump depth v rest :
  valid v → skip_blanks (" "%char :: dump depth v ++ rest) = dump depth v ++ rest.
Proof. intros (c & s & -> & Hc)%(dump_head depth). cbn [app skip_blanks]. by rewrite Hc. Qed.

Lemma member_head depth kv : ∃ part, member depth kv = double_quote_char :: part.
Proof. unfold member, json_string. eexists. reflexivity. Qed.

Lemma parse_members_printed fields : ∀ k v acc depth fuel rest,
  parses v → Forall (λ kv, parses kv.2) fields →
  valid v → foldr (λ kv P, valid kv.2 ∧ P) True fields → NoDup (acc.*1 ++ k :: fields.*1) →
  (S (weight v) + foldr (λ kv n, S (weight kv.2) + n) 0 fields ≤ fuel)%nat →
  parse_members fuel acc (printed depth "}" (map (member depth) ((k, v) :: fields)) rest) =
    Some (JObj (acc ++ (k, v) :: fields), rest).
Proof.
  induction fields as [|[k' v'] fields IH]; intros k v acc depth fuel rest Hv Hfields Vv Vfields Hnd Hf;
    (destruct fuel as [|fuel]; [lia|]); cbn [map]; cbn [foldr snd] in Hf.
  all: assert (d_set k v acc = acc ++ [(k, v)]) as Hset by
    (apply d_set_new, d_get_None; apply NoDup_app in Hnd as (_ & Hnd & _); intros Hk;
     apply (Hnd _ Hk); left).
  - rewrite printed_one, member_app, parse_members_step by by apply skip_space_dump.
    rewrite Hv; [|done|lia|by right]. cbn [mbind option_bind].
    rewrite skip_blanks_indent, Hset. done.
  - apply Forall_cons_1 in Hfields as [Hy Hfields]. destruct Vfields as [Vy Vfields].
    rewrite printed_cons, member_app, parse_members_step by by apply skip_space_dump.
    rewrite Hv; [|done|lia|by left]. cbn [mbind option_bind].
    change (skip_blanks (","%char :: ?s)) with (","%char :: s). cbv beta iota.
    change (Ascii.eqb "," "}") with false. change (Ascii.eqb "," ",") with true. cbv beta iota.
    rewrite skip_blanks_indent. destruct (member_head depth (k', v')) as [part Hm].
    rewrite Hm, skip_blanks_printed, <- Hm, Hset by done.
    pose proof (IH k' v' (acc ++ [(k, v)]) depth fuel rest Hy Hfields Vy Vfields) as E. cbn [map] in E.
    rewrite E; [by rewrite <- app_assoc| |lia].
    rewrite fmap_app, <- app_assoc. done.
Qed.

Lemma bracketed_cons opening closing depth part parts rest :
  bracketed opening closing depth (part :: parts) ++ rest =
    opening :: line_indent (S depth) ++ printed depth closing (part :: parts) rest.
Proof.
  unfold bracketed, printed. cbn [app]. f_equal. rewrite <- !app_assoc. done.
Qed.

Lemma parse_dump v : parses v.
Proof.
  induction v as [|b|z|t|s|items IH|fields IH] using json_ind;
    intros depth fuel rest Hv Hf Hr; (destruct fuel as [|fuel]; [simpl in Hf; lia|]).
  - by apply (parse_plain fuel (chars "null")).
  - destruct b; [by apply (parse_plain fuel (chars "true"))|by apply (parse_plain fuel (chars "false"))].
  - apply (parse_plain fuel (chars (str_int z))); [apply scan_plain_int|done].
  - by apply parse_plain.
  - cbn [dump]. unfold json_string. cbn [app parse_value]. rewrite Ascii.eqb_refl, <- app_assoc.
    cbn [app]. rewrite scan_string_printed. cbn [mbind option_bind]. by rewrite of_chars_chars.
  - destruct items as [|x items]; [done|]. apply Forall_cons_1 in IH as [Hx IH]. destruct Hv as [Vx Vitems].
    cbn [dump map]. rewrite bracketed_cons. cbn [parse_value].
    change (Ascii.eqb "[" double_quote_char) with false. change (Ascii.eqb "[" "{") with false.
    change (Ascii.eqb "[" "[") with true. cbv beta iota. rewrite skip_blanks_indent.
    pose proof (parse_items_printed items x [] depth fuel rest Hx IH Vx Vitems) as E. cbn [map app] in E.
    destruct (dump_head (S depth) x Vx) as (c & part & Hd & Hc). rewrite Hd in *.
    rewrite skip_blanks_printed by done.
    assert (printed depth "]" ((c :: part) :: map (dump (S depth)) items) rest =
            c :: tail (printed depth "]" ((c :: part) :: map (dump (S depth)) items) rest)) as Hc'.
    { unfold printed. by destruct (map (dump (S depth)) items). }
    rewrite Hc' in E |- *. destruct (Ascii.eqb_spec c "]") as [->|_]; [|apply E; cbn [weight foldr] in Hf; lia].
    exfalso. clear -Hd Vx. revert Hd Vx. generalize (S depth). intros d Hd Vx.
    destruct x as [|[]|z|t|s|l|l]; try done.
    + simpl in Hd. pose proof (scan_number_int z) as Hz. rewrite Hd in Hz. done.
    + simpl in Hd. unfold valid, printable in Vx. rewrite Hd in Vx. done.
    + simpl in Hd. unfold bracketed in Hd. by destruct (map _ l).
    + simpl in Hd. unfold bracketed in Hd. by destruct (map _ l).
  - destruct fields as [|[k x] fields]; [done|]. apply Forall_cons_1 in IH as [Hx IH].
    destruct Hv as [Hnd [Vx Vfields]]. cbn [dump]. fold (member depth).
    change (λ kv, json_string kv.1 ++ [":"%char; " "%char] ++ dump (S depth) kv.2) with (member depth).
    cbn [map]. rewrite bracketed_cons. cbn [parse_value].
    change (Ascii.eqb "{" double_quote_char) with false. change (Ascii.eqb "{" "{") with true.
    cbv beta iota. rewrite skip_blanks_indent.
    pose proof (parse_members_printed fields k x [] depth fuel rest Hx IH Vx Vfields Hnd) as E.
    cbn [map app] in E. destruct (member_head depth (k, x)) as [part Hm]. rewrite Hm in *.
    rewrite skip_blanks_printed by done.
    assert (printed depth "}" ((double_quote_char :: part) :: map (member depth) fields) rest =
            double_quote_char :: tail (printed depth "}" ((double_quote_char :: part) :: map (member depth) fields) rest))
      as Hc'.
    { unfold printed. by destruct (map (member depth) fields). }
    rewrite Hc' in E |- *. apply E. cbn [weight foldr snd] in Hf. lia.
Qed.

(** ** A document *)

Lemma join_length_item sep part parts :
  (foldr (λ part n, S (length part) + n) 0 parts ≤ length (join_chars (","%char :: sep) parts) + 1)%nat →
  (foldr (λ part n, S (length part) + n) 0 (part :: parts) ≤
     length (join_chars (","%char :: sep) (part :: parts)) + 1)%nat.
Proof.
  intros H. destruct parts as [|part' parts]; [simpl; lia|].
  change (join_chars (","%char :: sep) (part :: part' :: parts))
    with (part ++ (","%char :: sep) ++ join_chars (","%char :: sep) (part' :: parts)).
  rewrite !length_app. cbn [foldr length] in *. lia.
Qed.

Lemma join_length sep parts :
  (foldr (λ part n, S (length part) + n) 0 parts ≤ length (join_chars (","%char :: sep) parts) + 1)%nat.
Proof. induction parts as [|part parts IH]; [simpl; lia|by apply join_length_item]. Qed.

Lemma bracketed_length opening closing depth parts :
  (S (foldr (λ part n, S (length part) + n) 0 parts) ≤ length (bracketed opening closing depth parts))%nat.
Proof.
  unfold bracketed. destruct parts as [|part parts]; [simpl; lia|].
  pose proof (join_length (line_indent (S depth)) (part :: parts)) as H.
  cbn [length]. rewrite !length_app. cbn [length]. unfold line_indent at 1. cbn [length]. lia.
Qed.

(** The fuel a value needs is within the length of its text. *)
Lemma weight_length v : ∀ depth, valid v → (weight v ≤ length (dump depth v))%nat.
Proof.
  induction v as [|b|z|t|s|items IH|fields IH] using json_ind; intros depth Hv.
  1-5: destruct (dump_head depth _ Hv) as (c & s' & -> & _); simpl; lia.
  - cbn [dump weight]. etrans; [|apply bracketed_length]. apply le_n_S. cbn in Hv.
    induction IH as [|x items Hx _ IH]; [simpl; lia|]. destruct Hv as [Vx Vitems].
    specialize (Hx (S depth) Vx). specialize (IH Vitems). cbn [map foldr]. lia.
  - cbn [dump weight]. etrans; [|apply bracketed_length]. apply le_n_S. destruct Hv as [_ Hv].
    induction IH as [|x fields Hx _ IH]; [simpl; lia|]. destruct Hv as [Vx Vfields].
    specialize (Hx (S depth) Vx). specialize (IH Vfields). cbn [map foldr]. rewrite !length_app.
    cbn [length]. lia.
Qed.

(** What [dumps] prints, [loads] reads. *)
Lemma loads_dumps v : valid v → loads (dumps v) = Ok v.
Proof.
  intros Hv. unfold loads, dumps. rewrite chars_of_chars.
  pose proof (skip_blanks_dump 0 v [] Hv) as Hs. rewrite app_nil_r in Hs. rewrite Hs.
  pose proof (parse_dump v 0%nat (S (length (dump 0 v))) [] Hv) as E. rewrite app_nil_r in E.
  rewrite E; [done| |done]. pose proof (weight_length v 0%nat Hv). lia.
Qed.

(** ** What was read can be printed *)

(** Objects have every key once, and the floats are in [F]. *)
Section good.
Context (F : double → Prop).
Fixpoint good (v : json) : Prop :=
  match v with
  | JFloat x => F x
  | JArr items => foldr (λ x P, good x ∧ P) True items
  | JObj fields => NoDup fields.*1 ∧ foldr (λ kv P, good kv.2 ∧ P) True fields
  | _ => True
  end.

Lemma good_valid v : (∀ x, F x → printable x) → good v → valid v.
Proof.
  intros HF. induction v as [|b|z|x|s|items IH|fields IH] using json_ind; cbn [good valid]; [by auto..| |].
  - induction IH as [|v items Hv _ IH]; [done|]. cbn [foldr]. intros [? ?]. auto.
  - intros [Hn Hd]. split; [exact Hn|]. clear Hn. revert Hd.
    induction IH as [|v fields Hv _ IH]; [done|]. cbn [foldr]. intros [? ?]. auto.
Qed.

Definition good_items (items : list json) : Prop := foldr (λ x P, good x ∧ P) True items.
Definition good_fields (fields : list (string * json)) : Prop :=
  NoDup fields.*1 ∧ foldr (λ kv P, good kv.2 ∧ P) True fields.

Lemma good_items_snoc items v : good_items items → good v → good_items (items ++ [v]).
Proof. unfold good_items. induction items as [|x items IH]; simpl; [done|]. intros [Hx Hi] Hv. auto. Qed.
Lemma good_fields_set k v fields :
  good_fields fields → good v → good_fields (d_set k v fields).
Proof.
  intros [Hn Hd] Hv. split; [by apply d_set_NoDup|]. clear Hn. revert Hd.
  induction fields as [|[k' w] fields IH]; simpl; [done|]. intros [Hw Hd].
  case_decide; simpl; auto.
Qed.

(** Reading a text gives floats of [F]. *)
Context (Hread : ∀ s x, py_float s = Some x → F x).
Context (Hnan : F S754_nan) (Hinf : ∀ negative, F (S754_infinity negative)).

Lemma scan_plain_good s v rest : scan_plain s = Some (v, rest) → good v.
Proof.
  assert (∀ sign whole s, scan_tail sign whole s = Some (v, rest) → good v) as Ht.
  { intros sign whole t. unfold scan_tail. destruct (scan_fraction t) as [f r1], (scan_exponent r1) as [e r2].
    destruct f, e; first [destruct (py_int _ _); [|done]|destruct (py_float _) eqn:E; [|done]];
      simpl; intros [= <- _]; simpl; by eauto. }
  assert (∀ sign s, scan_unsigned sign s = Some (v, rest) → good v) as Hu.
  { intros sign [|c t]; [done|]. unfold scan_unsigned. destruct (Ascii.eqb c "0"); [apply Ht|].
    destruct (span_digits _) as [[|d ds] r]; [done|apply Ht]. }
  unfold scan_plain. destruct (scan_constant s) as [[w r]|] eqn:E.
  - intros [= -> ->]. unfold scan_constant in E.
    apply head_Some_elem_of, list_elem_of_omap in E as ([n u] & Hin & H).
    destruct (after_prefix (chars n) s); [|done]. injection H as -> ->.
    repeat (apply elem_of_cons in Hin as [[= -> ->]|Hin]; [simpl; by auto|]). by apply not_elem_of_nil in Hin.
  - destruct s as [|c t]; [done|]. unfold scan_number. destruct (Ascii.eqb c "-"); apply Hu.
Qed.

Lemma parse_good fuel :
  (∀ s v rest, parse_value fuel s = Some (v, rest) → good v) ∧
  (∀ items s v rest, good_items items → parse_items fuel items s = Some (v, rest) → good v) ∧
  (∀ fields s v rest, good_fields fields → parse_members fuel fields s = Some (v, rest) → good v).
Proof.
  induction fuel as [|fuel (IHv & IHi & IHm)]; [done|]. split; [|split].
  - intros s v rest. destruct s as [|c s]; [done|]. cbn [parse_value].
    destruct (Ascii.eqb c double_quote_char).
    { destruct (scan_string s) as [[t r]|]; [|done]. simpl. by intros [= <- _]. }
    destruct (Ascii.eqb c "{").
    { destruct (skip_blanks s) as [|d r]; [done|]. destruct (Ascii.eqb d "}").
      - intros [= <- _]. split; [constructor|done].
      - apply IHm. split; [constructor|done]. }
    destruct (Ascii.eqb c "["); [|by apply scan_plain_good].
    destruct (skip_blanks s) as [|d r]; [done|]. destruct (Ascii.eqb d "]"); [by intros [= <- _]|by apply IHi].
  - intros items s v rest Hi. cbn [parse_items].
    destruct (parse_value fuel s) as [[w r]|] eqn:E; [|done]. apply IHv in E. cbn [mbind option_bind].
    pose proof (good_items_snoc items w Hi E) as Hi'.
    destruct (skip_blanks r) as [|c r']; [done|]. destruct (Ascii.eqb c "]"); [by intros [= <- _]|].
    destruct (Ascii.eqb c ","); [by apply IHi|done].
  - intros fields s v rest Hf. cbn [parse_members]. destruct s as [|q s]; [done|].
    destruct (negb _); [done|]. destruct (scan_string s) as [[key r]|]; [|done]. cbn [mbind option_bind].
    destruct (skip_blanks r) as [|colon r']; [done|]. destruct (negb _); [done|].
    destruct (parse_value fuel _) as [[w r'']|] eqn:E; [|done]. apply IHv in E. cbn [mbind option_bind].
    pose proof (good_fields_set (of_chars key) w fields Hf E) as Hf'.
    destruct (skip_blanks r'') as [|c r3]; [done|]. destruct (Ascii.eqb c "}"); [by intros [= <- _]|].
    destruct (Ascii.eqb c ","); [by apply IHm|done].
Qed.

(** What [loads] reads has every key once, and floats of [F]. *)
Lemma loads_good text v : loads text = Ok v → good v.
Proof.
  unfold loads. destruct (parse_value _ _) as [[w rest]|] eqn:E; [|done]. case_bool_decide; [|done].
  intros [= <-]. by apply parse_good in E.
Qed.
End good.

(** A value and the line break that the programs write after it. *)
Lemma loads_dumps_line v : valid v → loads (dumps v +:+ of_chars [char_of 10]) = Ok v.
Proof.
  intros Hv. unfold loads, dumps. rewrite chars_app, !chars_of_chars.
  rewrite skip_blanks_dump by done. rewrite (parse_dump v 0%nat _ [char_of 10]); [done|done| |by right].
  pose proof (weight_length v 0%nat Hv). rewrite length_app. lia.
Qed.

(** The text has no carriage return. *)
Definition no_return (s : list ascii) : Prop := Forall (λ c, c ≠ char_of 13) s.
Lemma json_string_no_return s : no_return (json_string s).
Proof.
  unfold json_string. apply Forall_cons. split; [done|]. apply Forall_app. split; [|by repeat constructor].
  induction (chars s) as [|c l IH]; [constructor|]. rewrite fmap_cons, join_cons. apply Forall_app. split; [|done].
  destruct c as [[] [] [] [] [] [] [] []]; by repeat constructor.
Qed.

Definition number_char (c : ascii) : bool :=
  is_digit c || existsb (Ascii.eqb c) ["."; "e"; "E"; "-"; "+"]%char.
Lemma number_char_no_return s : Forall (λ c, number_char c = true) s → no_return s.
Proof. intros H. eapply Forall_impl; [exact H|]. by intros c Hc ->. Qed.
Lemma digit_number_char c : is_digit c = true → number_char c = true.
Proof. unfold number_char. by intros ->. Qed.

(** [s] is number characters before [rest]. *)
Definition consumed (s rest : list ascii) : Prop :=
  ∃ t, s = t ++ rest ∧ Forall (λ c, number_char c = true) t.
Lemma consumed_refl s : consumed s s.
Proof. by exists []. Qed.
Lemma consumed_cons c s rest : number_char c = true → consumed s rest → consumed (c :: s) rest.
Proof. intros Hc (t & -> & Ht). exists (c :: t). split; [done|by constructor]. Qed.
Lemma consumed_trans s1 s2 s3 : consumed s1 s2 → consumed s2 s3 → consumed s1 s3.
Proof.
  intros (t & -> & Ht) (u & -> & Hu). exists (t ++ u). split; [by rewrite app_assoc|by apply Forall_app].
Qed.
#[local] Hint Resolve consumed_refl consumed_cons consumed_trans : core.

Lemma span_digits_consumed s ds rest : span_digits s = (ds, rest) → consumed s rest.
Proof.
  revert ds rest. induction s as [|c s IH]; intros ds rest; simpl; [by intros [= _ <-]|].
  destruct (is_digit c) eqn:Hc; [|by intros [= _ <-]]. destruct (span_digits s) as [ds' r] eqn:E.
  intros [= _ <-]. eauto using digit_number_char.
Qed.
Lemma scan_fraction_consumed s f rest : scan_fraction s = (f, rest) → consumed s rest.
Proof.
  destruct s as [|c s]; simpl; [by intros [= _ <-]|]. destruct (Ascii.eqb_spec c ".") as [->|]; [|by intros [= _ <-]].
  destruct (span_digits s) as [ds r] eqn:E. apply span_digits_consumed in E.
  destruct ds; intros [= _ <-]; auto.
Qed.
Lemma scan_exponent_consumed s f rest : scan_exponent s = (f, rest) → consumed s rest.
Proof.
  destruct s as [|c s]; simpl; [by intros [= _ <-]|].
  destruct (Ascii.eqb c "e" || Ascii.eqb c "E") eqn:Hc; [|by intros [= _ <-]].
  assert (number_char c = true) by (by apply orb_true_iff in Hc as [->%Ascii.eqb_eq| ->%Ascii.eqb_eq]).
  destruct s as [|d s].
  - simpl. intros [= _ <-]. auto.
  - destruct (Ascii.eqb d "-" || Ascii.eqb d "+") eqn:Hd.
    + assert (number_char d = true) by (by apply orb_true_iff in Hd as [->%Ascii.eqb_eq| ->%Ascii.eqb_eq]).
      destruct (span_digits s) as [ds r] eqn:E. apply span_digits_consumed in E. destruct ds; intros [= _ <-]; auto.
    + destruct (span_digits (d :: s)) as [ds r] eqn:E. apply span_digits_consumed in E.
      destruct ds; intros [= _ <-]; auto.
Qed.
Lemma scan_unsigned_consumed sign s v rest : scan_unsigned sign s = Some (v, rest) → consumed s rest.
Proof.
  assert (∀ whole s, scan_tail sign whole s = Some (v, rest) → consumed s rest) as Ht.
  { intros whole t. unfold scan_tail. destruct (scan_fraction t) as [f r1] eqn:E1, (scan_exponent r1) as [e r2] eqn:E2.
    apply scan_fraction_consumed in E1. apply scan_exponent_consumed in E2.
    destruct f, e; first [destruct (py_int _ _); [|done]|destruct (py_float _); [|done]];
      simpl; intros [= _ <-]; eauto. }
  unfold scan_unsigned. destruct s as [|c s]; [done|]. destruct (Ascii.eqb_spec c "0") as [->|_]; [eauto|].
  destruct (span_digits (c :: s)) as [ds r] eqn:E. apply span_digits_consumed in E. destruct ds; [done|eauto].
Qed.

Lemma printable_no_return x : printable x → no_return (chars (json_float x)).
Proof.
  unfold printable, scan_plain. generalize (chars (json_float x)). intros s.
  destruct (scan_constant s) as [[w r]|] eqn:E.
  - intros [= -> ->]. unfold scan_constant in E.
    apply head_Some_elem_of, list_elem_of_omap in E as ([n u] & Hin & H).
    assert (∀ p t, after_prefix p t = Some [] → t = p) as Hp.
    { induction p as [|c p IH]; intros t Ht; simpl in Ht; [by injection Ht as ->|].
      destruct t as [|d t]; [done|]. case_bool_decide; [|done]. subst. f_equal. by apply IH. }
    destruct (after_prefix (chars n) s) as [r|] eqn:Er; [|done]. injection H as _ ->. apply Hp in Er as ->.
    repeat (apply elem_of_cons in Hin as [[= -> ->]|Hin]; [by repeat constructor|]). by apply not_elem_of_nil in Hin.
  - intros H. assert (consumed s []) as (t & -> & Ht).
    { unfold scan_number in H. destruct s as [|c s]; [done|].
      destruct (Ascii.eqb_spec c "-") as [->|_]; apply scan_unsigned_consumed in H; eauto. }
    rewrite app_nil_r. by apply number_char_no_return.
Qed.

Lemma bracketed_no_return opening closing depth parts :
  opening ≠ char_of 13 → closing ≠ char_of 13 → Forall no_return parts →
  no_return (bracketed opening closing depth parts).
Proof.
  assert (∀ depth, no_return (line_indent depth)) as Hi.
  { intros d. apply Forall_cons. split; [done|]. by apply Forall_replicate. }
  intros Ho Hc Hp. unfold bracketed. destruct parts as [|part parts]; [by repeat constructor|].
  apply Forall_cons. split; [done|]. repeat apply Forall_app_2; [apply Hi| |apply Hi|by constructor].
  induction Hp as [|p [|q l] Hp _ IH]; [constructor|done|].
  change (no_return (p ++ (","%char :: line_indent (S depth))
            ++ join_chars (","%char :: line_indent (S depth)) (q :: l))).
  apply Forall_app_2; [done|]. apply Forall_app_2; [|done]. apply Forall_cons. split; [discriminate|apply Hi].
Qed.

Lemma dump_no_return v : ∀ depth, valid v → no_return (dump depth v).
Proof.
  induction v as [|b|z|x|s|items IH|fields IH] using json_ind; intros depth Hv; cbn [dump].
  - by repeat constructor.
  - destruct b; by repeat constructor.
  - pose proof (scan_number_int z) as H. destruct (chars (str_int z)) as [|c s]; [done|]. unfold scan_number in H.
    assert (consumed (c :: s) []) as (t & -> & Ht).
    { destruct (Ascii.eqb_spec c "-") as [->|_]; apply scan_unsigned_consumed in H; eauto. }
    rewrite app_nil_r. by apply number_char_no_return.
  - by apply printable_no_return.
  - apply json_string_no_return.
  - apply bracketed_no_return; [done..|]. cbn in Hv.
    induction IH as [|x items Hx _ IH]; [constructor|]. destruct Hv. constructor; auto.
  - apply bracketed_no_return; [done..|]. destruct Hv as [_ Hv].
    induction IH as [|x fields Hx _ IH]; [constructor|]. destruct Hv. constructor; [|auto].
    apply Forall_app_2; [apply json_string_no_return|]. apply Forall_app_2; [by repeat constructor|by apply Hx].
Qed.
