(* ===== verification/FloatRepr.v ===== *)
(** * [repr] of a float

    Seventeen significant digits determine a binary64 value ([magnitude_digits]), and
    the text of [repr] is read back as the float, by [float] and by [json.loads]:
    every valid float is [printable]. *)

From stdpp Require Import base numbers list strings.
From Stdlib Require Import ZArith Lia Ascii SpecFloat.
From S2P Require Import Prelude PyText PyFloat PyRegex Binary64 PyNumber PyJson.

Open Scope Z_scope.

(** ** Decimal values *)

Lemma pow10_pos k : 0 ≤ k → 0 < 10 ^ k.
Proof. intros. by apply Z.pow_pos_nonneg. Qed.

Lemma decimal_quotient m e :
  decimal m e = SFdiv PREC EMAX (exact (m * 10 ^ Z.max 0 e)) (exact (10 ^ Z.max 0 (- e))).
Proof.
  unfold decimal, fdiv. destruct (Z.leb_spec 0 e).
  - by replace (Z.max 0 e) with e by lia; replace (Z.max 0 (- e)) with 0 by lia.
  - replace (Z.max 0 e) with 0 by lia. replace (Z.max 0 (- e)) with (- e) by lia. by rewrite Z.mul_1_r.
Qed.

(** Zeros at the end of the digits are in the exponent. *)
Lemma decimal_shift m e j : 0 ≤ m → 0 ≤ j → decimal (m * 10 ^ j) e = decimal m (e + j).
Proof.
  intros Hm Hj. rewrite !decimal_quotient. pose proof (pow10_pos j Hj).
  destruct (decide (m = 0)) as [->|Hne].
  { rewrite !Z.mul_0_l. cbn [exact]. unfold SFdiv.
    assert (∀ k, 0 ≤ k → ∃ p, exact (10 ^ k) = S754_finite false p 0) as Hp.
    { intros k Hk. pose proof (pow10_pos k Hk). destruct (10 ^ k) as [|p|p]; try lia. by exists p. }
    destruct (Hp (Z.max 0 (- e))) as [p ->]; [lia|]. by destruct (Hp (Z.max 0 (- (e + j)))) as [p' ->]; [lia|]. }
  pose proof (pow10_pos (Z.max 0 e)). pose proof (pow10_pos (Z.max 0 (- e))).
  pose proof (pow10_pos (Z.max 0 (e + j))). pose proof (pow10_pos (Z.max 0 (- (e + j)))).
  apply division_ratio; try nia.
  transitivity (m * (10 ^ j * 10 ^ Z.max 0 e * 10 ^ Z.max 0 (- (e + j)))); [ring|].
  transitivity (m * (10 ^ Z.max 0 (e + j) * 10 ^ Z.max 0 (- e))); [|ring].
  rewrite <- !Z.pow_add_r by lia. do 2 f_equal. lia.
Qed.

Lemma decimal_valid m e : 0 ≤ m → valid_double (decimal m e).
Proof.
  intros Hm. rewrite decimal_quotient.
  pose proof (pow10_pos (Z.max 0 e)). pose proof (pow10_pos (Z.max 0 (- e))).
  destruct (decide (m = 0)) as [->|Hne].
  - rewrite Z.mul_0_l. destruct (10 ^ Z.max 0 (- e)); try lia. done.
  - apply division_valid; nia.
Qed.

(** ** The place of the first digit *)

(** [10 ^ k <= num / den] *)
Definition at_least (num den k : Z) : Prop := den * 10 ^ Z.max 0 k ≤ num * 10 ^ Z.max 0 (- k).

Lemma at_least_at K num den k :
  0 ≤ K → 0 ≤ K + k → at_least num den k ↔ den * 10 ^ (K + k) ≤ num * 10 ^ K.
Proof.
  intros HK Hk. unfold at_least. set (t := K - Z.max 0 (- k)).
  replace K with (Z.max 0 (- k) + t) at 2 by lia.
  replace (K + k) with (Z.max 0 k + t) by lia. rewrite !Z.pow_add_r by lia.
  pose proof (pow10_pos t). rewrite !Z.mul_assoc. rewrite <- Z.mul_le_mono_pos_r by lia. done.
Qed.
Lemma at_least_mono num den k k' : 0 < den → k' ≤ k → at_least num den k → at_least num den k'.
Proof.
  intros Hd Hk. set (K := Z.abs k + Z.abs k'). rewrite !(at_least_at K) by lia.
  intros H. etrans; [|exact H]. apply Z.mul_le_mono_nonneg_l; [lia|]. apply Z.pow_le_mono_r; lia.
Qed.

Lemma decimal_exponent_spec fuel num den k0 k :
  0 < den → at_least num den (k - 1) → ¬ at_least num den k →
  Z.abs (k0 - k) < Z.of_nat fuel → decimal_exponent fuel num den k0 = k.
Proof.
  intros Hd Hlow Hhigh. revert k0. induction fuel as [|fuel IH]; intros k0 Hf; [lia|]. cbn [decimal_exponent].
  destruct (Z.ltb_spec (num * 10 ^ Z.max 0 (- k0)) (den * 10 ^ Z.max 0 k0)) as [Hlt|Hge].
  - assert (k ≤ k0).
    { destruct (Z.le_gt_cases k k0); [done|]. assert (at_least num den k0) as Hx
        by (eapply at_least_mono; [..|exact Hlow]; lia). unfold at_least in Hx. lia. }
    destruct (Z.ltb_spec (num * 10 ^ Z.max 0 (- (k0 - 1))) (den * 10 ^ Z.max 0 (k0 - 1))) as [Hlt'|Hge'].
    + apply IH. assert (k0 ≠ k); [|lia]. intros ->. unfold at_least in Hlow. lia.
    + destruct (Z.lt_ge_cases k k0); [|lia]. destruct Hhigh.
      eapply (at_least_mono _ _ (k0 - 1)); [done|lia|exact Hge'].
  - apply IH. destruct (Z.lt_ge_cases k0 k); [lia|]. destruct Hhigh.
    eapply (at_least_mono _ _ k0); [done|lia|exact Hge].
Qed.

(** The decimal exponents of binary64 are between -400 and 400. *)
Lemma exponent_exists num den :
  0 < den → at_least num den (-400) → ¬ at_least num den 400 →
  ∃ k, -400 ≤ k ≤ 400 ∧ at_least num den (k - 1) ∧ ¬ at_least num den k.
Proof.
  intros Hd Hlow Hhigh.
  assert (∀ n : nat, Z.of_nat n ≤ 800 → ¬ at_least num den (-400 + Z.of_nat n) →
    ∃ k, -400 ≤ k ≤ 400 ∧ at_least num den (k - 1) ∧ ¬ at_least num den k) as Hn.
  { induction n as [|n IH]; intros Hle Hna; [exfalso; apply Hna, Hlow|].
    destruct (decide (den * 10 ^ Z.max 0 (-400 + Z.of_nat n) ≤ num * 10 ^ Z.max 0 (- (-400 + Z.of_nat n)))) as [Hy|Hy].
    - exists (-400 + Z.of_nat (S n)). split; [lia|]. split; [|done].
      by replace (-400 + Z.of_nat (S n) - 1) with (-400 + Z.of_nat n) by lia.
    - apply IH; [lia|done]. }
  apply (Hn 800%nat); [lia|]. by replace (-400 + Z.of_nat 800) with 400 by lia.
Qed.

Lemma fraction_spec m e : fraction m e = (Zpos m * 2 ^ Z.max 0 e, 2 ^ Z.max 0 (- e)).
Proof.
  unfold fraction. destruct (Z.leb_spec 0 e).
  - replace (Z.max 0 e) with e by lia. by replace (Z.max 0 (- e)) with 0 by lia.
  - replace (Z.max 0 e) with 0 by lia. replace (Z.max 0 (- e)) with (- e) by lia. by rewrite Z.mul_1_r.
Qed.

Lemma fraction_range m e num den :
  bounded PREC EMAX m e = true → fraction m e = (num, den) →
  0 < num ∧ 0 < den ∧ at_least num den (-400) ∧ ¬ at_least num den 400 ∧
  -1100 ≤ Z.log2 num - Z.log2 den ≤ 1100.
Proof.
  intros (Hm & He & _)%bounded_spec. rewrite fraction_spec. intros [= <- <-]. unfold EMIN, EMAX, PREC in *.
  pose proof (pow2_pos (Z.max 0 e)). pose proof (pow2_pos (Z.max 0 (- e))).
  assert (2 ^ Z.max 0 (- e) ≤ 2 ^ 1074) as Hden by (apply Z.pow_le_mono_r; lia).
  assert (2 ^ Z.max 0 e ≤ 2 ^ 971) as Hnum by (apply Z.pow_le_mono_r; lia).
  assert (Zpos m * 2 ^ Z.max 0 e < 2 ^ 53 * 2 ^ 971) as Hnum' by nia.
  split_and!; [nia|lia|..].
  - unfold at_least. change (Z.max 0 (-400)) with 0. change (Z.max 0 (- -400)) with 400.
    assert (2 ^ 1074 ≤ 10 ^ 400) by (apply Z.leb_le; vm_compute; reflexivity). nia.
  - unfold at_least. change (Z.max 0 400) with 400. change (Z.max 0 (- (400))) with 0.
    assert (2 ^ 53 * 2 ^ 971 ≤ 10 ^ 400) by (apply Z.leb_le; vm_compute; reflexivity). nia.
  - rewrite Z.log2_mul_pow2, Z.log2_pow2 by lia. pose proof (Z.log2_nonneg (Zpos m)).
    assert (Z.log2 (Zpos m) < 53) by (apply Z.log2_lt_pow2; lia). lia.
  - rewrite Z.log2_mul_pow2, Z.log2_pow2 by lia. pose proof (Z.log2_nonneg (Zpos m)).
    assert (Z.log2 (Zpos m) < 53) by (apply Z.log2_lt_pow2; lia). lia.
Qed.

(** ** Seventeen digits *)

(** Of seventeen digits the nearer candidate reads back. *)
Lemma candidate_17 m e num den k :
  bounded PREC EMAX m e = true → fraction m e = (num, den) →
  at_least num den (k - 1) → ¬ at_least num den k →
  is_Some (candidate (S754_finite false m e) num den k 17).
Proof.
  intros Hb Hf Hlow Hhigh. unfold candidate.
  set (up := 10 ^ Z.max 0 (17 - k)). set (down := 10 ^ Z.max 0 (k - 17)).
  destruct (fraction_range _ _ _ _ Hb Hf) as (Hnum & Hden & _).
  assert (0 < up) as Hup by (apply pow10_pos; lia). assert (0 < down) as Hdown by (apply pow10_pos; lia).
  assert (10 ^ 16 * (den * down) ≤ num * up) as Hbig.
  { apply (at_least_at (Z.max 0 (17 - k))) in Hlow; [|lia..].
    replace (Z.max 0 (17 - k) + (k - 1)) with (16 + Z.max 0 (k - 17)) in Hlow by lia.
    rewrite Z.pow_add_r in Hlow by lia. unfold up, down. lia. }
  assert (∀ c, 0 < c → 2 * Z.abs (num * up - c * den * down) ≤ den * down →
    decimal c (k - 17) = S754_finite false m e) as Hread.
  { intros c Hc Hnear. rewrite decimal_quotient. replace (- (k - 17)) with (17 - k) by lia. fold up down.
    apply division_near; [nia|done..|]. rewrite fraction_spec in Hf. injection Hf as <- <-.
    replace (c * down * 2 ^ Z.max 0 (- e) - Zpos m * (up * 2 ^ Z.max 0 e))
      with (- (Zpos m * 2 ^ Z.max 0 e * up - c * 2 ^ Z.max 0 (- e) * down)) by ring.
    rewrite Z.abs_opp. lia. }
  set (d := num * up / (den * down)). assert (0 < den * down) as HT by nia.
  pose proof (Z.mul_div_le (num * up) (den * down) HT) as Hd1.
  pose proof (Z.mul_succ_div_gt (num * up) (den * down) HT) as Hd2. fold d in Hd1, Hd2.
  assert (0 < d) as Hdpos by (apply Z.div_str_pos; nia).
  destruct (Z.leb_spec (2 * (num * up - d * den * down)) (den * down)) as [Hfirst|Hfirst].
  - rewrite (bool_decide_true (decimal d _ = _)); [by eexists|]. apply Hread; nia.
  - rewrite (bool_decide_true (decimal (d + 1) _ = _)); [by eexists|]. apply Hread; [lia|].
    replace (num * up - (d + 1) * den * down) with (- (den * down * Z.succ d - num * up)) by (unfold Z.succ; ring).
    rewrite Z.abs_opp, Z.abs_eq by lia. lia.
Qed.

(** What a candidate is. *)
Lemma candidate_reads x num den k n d :
  candidate x num den k n = Some d →
  decimal d (k - n) = x ∧
  num * 10 ^ Z.max 0 (n - k) / (den * 10 ^ Z.max 0 (k - n)) ≤ d.
Proof.
  unfold candidate. set (d0 := num * _ / _).
  destruct (_ <=? _); repeat case_bool_decide; intros [=]; subst; split; try done; lia.
Qed.

Lemma shortest_reads fuel x num den k n :
  (∀ n', n ≤ n' → n' < n + Z.of_nat fuel → candidate x num den k n' = None) ∨
  ∃ d n', n ≤ n' < n + Z.of_nat fuel ∧ candidate x num den k n' = Some d ∧
    shortest fuel x num den k n = Some (d, k - n').
Proof.
  revert n. induction fuel as [|fuel IH]; intros n; [left; lia|]. cbn [shortest].
  destruct (candidate x num den k n) as [d|] eqn:E.
  - right. exists d, n. split_and!; [lia|lia|done..].
  - destruct (IH (n + 1)) as [Hno|(d & n' & Hn & Hc & Hs)].
    + left. intros n' Hn1 Hn2. destruct (decide (n' = n)) as [->|]; [done|]. apply Hno; lia.
    + right. exists d, n'. split_and!; [lia|lia|done..].
Qed.

(** The digits of [repr]: positive, and read back as the float. *)
Lemma magnitude_digits m e :
  bounded PREC EMAX m e = true →
  ∃ d scale, 0 < d ∧ decimal d scale = S754_finite false m e ∧
    magnitude_repr m e =
      (let ds := digits 10 d in layout (rstrip_char "0" (digit_char <$> ds)) (scale + zlen ds)).
Proof.
  intros Hb. unfold magnitude_repr. destruct (fraction m e) as [num den] eqn:Hf.
  destruct (fraction_range _ _ _ _ Hb Hf) as (Hnum & Hden & Hlow & Hhigh & Hlog).
  destruct (exponent_exists num den Hden Hlow Hhigh) as (k & Hk & Hk1 & Hk2).
  rewrite (decimal_exponent_spec 1000 num den _ k); [|done..|].
  2:{ pose proof (Z.div_mod ((Z.log2 num - Z.log2 den) * 30103) 100000).
      pose proof (Z.mod_pos_bound ((Z.log2 num - Z.log2 den) * 30103) 100000). lia. }
  destruct (shortest_reads 17 (S754_finite false m e) num den k 1) as [Hno|(d & n & Hn & Hc & ->)].
  { destruct (candidate_17 m e num den k) as [d Hd]; [done..|]. by rewrite Hno in Hd by lia. }
  apply candidate_reads in Hc as [Hd Hle]. exists d, (k - n). split; [|done].
  eapply Z.lt_le_trans; [|exact Hle]. pose proof (pow10_pos (Z.max 0 (k - n))).
  pose proof (pow10_pos (Z.max 0 (n - k))). apply Z.div_str_pos. split; [nia|].
  apply (at_least_at (Z.max 0 (n - k))) in Hk1; [|lia..].
  replace (Z.max 0 (n - k) + (k - 1)) with ((n - 1) + Z.max 0 (k - n)) in Hk1 by lia.
  rewrite Z.pow_add_r in Hk1 by lia. pose proof (pow10_pos (n - 1)). nia.
Qed.

(** ** Reading a number back *)

Definition digit (d : Z) : Prop := 0 ≤ d < 10.
#[local] Notation text := (fmap (M := list) digit_char).

Lemma digits_value_app a b :
  digits_value 10 (a ++ b) = digits_value 10 a * 10 ^ zlen b + digits_value 10 b.
Proof.
  unfold digits_value. rewrite foldl_app. generalize (foldl (λ a d, a * 10 + d) 0 a). intros v.
  assert (∀ v w, foldl (λ a d, a * 10 + d) (v + w) b = v * 10 ^ zlen b + foldl (λ a d, a * 10 + d) w b) as H.
  { induction b as [|d b IH]; intros v' w; cbn [foldl].
    - rewrite zlen_nil. lia.
    - replace ((v' + w) * 10 + d) with (v' * 10 + (w * 10 + d)) by ring. rewrite IH, zlen_cons.
      rewrite Z.pow_add_r by (pose proof (zlen_nonneg b); lia). lia. }
  specialize (H v 0). by rewrite Z.add_0_r in H.
Qed.
Lemma digits_value_zeros n : digits_value 10 (replicate n 0) = 0.
Proof. induction n as [|n IH]; [done|]. change (digits_value 10 ([0] ++ replicate n 0) = 0). by rewrite digits_value_app, IH. Qed.
Lemma digits_value_nonneg ds : Forall digit ds → 0 ≤ digits_value 10 ds.
Proof.
  intros Hd. unfold digits_value. assert (∀ a, 0 ≤ a → 0 ≤ foldl (λ a d, a * 10 + d) a ds) as H; [|by apply H].
  induction Hd as [|d ds Hd _ IH]; intros a Ha; [done|]. apply IH. unfold digit in Hd. lia.
Qed.

(** What ends the digits of these texts. *)
Definition stops (rest : list ascii) : Prop :=
  match rest with [] => True | c :: _ => c = "."%char ∨ c = "e"%char end.

Lemma digits_are ds : Forall digit ds → Forall (λ c, is_digit c = true) (text ds).
Proof. intros Hd. apply Forall_fmap. eapply Forall_impl; [exact Hd|]. intros d Hd'. by apply digit_char_digit. Qed.

Lemma filter_everything s : Forall (λ c, is_digit c = true) s → filter is_digit s = s.
Proof.
  induction 1 as [|c s Hc _ IH]; [done|]. rewrite filter_cons_True; [by rewrite IH|]. by rewrite Hc.
Qed.
Lemma digit_run_text ds rest :
  Forall digit ds → ds ≠ [] → stops rest →
  digit_run (text ds ++ rest) = Some (digits_value 10 ds, zlen ds, rest).
Proof.
  intros Hd Hne Hs. unfold digit_run. destruct ds as [|d ds]; [done|].
  pose proof (digits_are _ Hd) as Hdig. rewrite fmap_cons in Hdig |- *. apply Forall_cons in Hdig as [Hc Hdig].
  rewrite <- app_comm_cons, Hc, app_comm_cons, <- fmap_cons.
  rewrite int_digits_print by (done || lia).
  assert (∀ acc, int_digits 10 rest true acc = Some (acc, rest)) as ->.
  { intros acc. destruct rest as [|c rest]; [done|]. by destruct Hs as [-> | ->]. }
  cbn [mbind option_bind]. do 3 f_equal.
  rewrite length_app. replace (length (text (d :: ds)) + length rest - length rest)%nat
    with (length (text (d :: ds))) by lia.
  rewrite take_app_length, filter_everything by (by constructor).
  unfold zlen. by rewrite length_fmap.
Qed.

(** The text of a number: its whole digits, the digits after the point, and the
    exponent with its sign. *)
Record number := { whole : list Z; decimals : list Z; scale : option (bool * list Z) }.
Definition fraction_text (ds : list Z) : list ascii := match ds with [] => [] | _ => "."%char :: text ds end.
Definition exponent_text (e : option (bool * list Z)) : list ascii :=
  match e with
  | Some (negative, ds) => "e"%char :: (if negative then "-" else "+")%char :: text ds
  | None => []
  end.
Definition number_text (n : number) : list ascii :=
  text (whole n) ++ fraction_text (decimals n) ++ exponent_text (scale n).
Definition scale_value (e : option (bool * list Z)) : Z :=
  match e with
  | Some (negative, ds) => if negative then - digits_value 10 ds else digits_value 10 ds
  | None => 0
  end.
Definition number_value (n : number) : double :=
  decimal (digits_value 10 (whole n ++ decimals n)) (scale_value (scale n) - zlen (decimals n)).
Definition number_ok (n : number) : Prop :=
  Forall digit (whole n) ∧ whole n ≠ [] ∧ Forall digit (decimals n) ∧
  match scale n with Some (_, ds) => Forall digit ds ∧ ds ≠ [] | None => True end.

Lemma exponent_of_text e :
  match e with Some (_, ds) => Forall digit ds ∧ ds ≠ [] | None => True end →
  exponent_of (exponent_text e) = Some (scale_value e).
Proof.
  destruct e as [[negative ds]|]; [|done]. intros [Hd Hne]. cbn [exponent_text].
  pose proof (digit_run_text ds [] Hd Hne I) as Hr. rewrite app_nil_r in Hr.
  assert (zlen ds ≠ 0) as Hz by (destruct ds; [done|]; rewrite zlen_cons; pose proof (zlen_nonneg ds); lia).
  unfold exponent_of. change (is_char "e" "e") with true. cbn [orb].
  destruct negative; [change (sign_of ("-"%char :: text ds)) with (true, text ds)
    | change (sign_of ("+"%char :: text ds)) with (false, text ds)]; cbn beta iota;
    rewrite Hr; cbn [mbind option_bind]; by rewrite (proj2 (Z.eqb_neq _ _) Hz).
Qed.

Lemma stops_exponent e : stops (exponent_text e).
Proof. destruct e as [[[] ds]|]; [by right..|done]. Qed.
Lemma stops_fraction ds e : stops (fraction_text ds ++ exponent_text e).
Proof. destruct ds as [|d ds]; [apply stops_exponent|by left]. Qed.

(** The characters of a number are no blanks, and it starts with a digit. *)
Lemma number_text_solid n : number_ok n → Forall (λ c, blank c = false) (number_text n).
Proof.
  intros (Hw & _ & Hf & He).
  assert (∀ ds, Forall digit ds → Forall (λ c, blank c = false) (text ds)) as Hd.
  { intros ds Hds%digits_are. eapply Forall_impl; [exact Hds|].
    intros c. by destruct c as [[] [] [] [] [] [] [] []]. }
  unfold number_text. apply Forall_app. split; [by apply Hd|]. apply Forall_app. split.
  - unfold fraction_text. destruct (decimals n); [constructor|]. constructor; [done|by apply Hd].
  - destruct (scale n) as [[negative ds]|]; [|constructor]. cbn [exponent_text].
    constructor; [done|]. constructor; [by destruct negative|]. apply Hd, He.
Qed.
Lemma strip_solid s : Forall (λ c, blank c = false) s → strip s = s.
Proof.
  assert (∀ s, Forall (λ c, blank c = false) s → strip_blanks s = s) as H.
  { intros l [|c l' Hc _]; [done|]. simpl. by rewrite Hc. }
  intros Hs. unfold strip. rewrite (H s Hs), (H (rev s)) by (by apply Forall_rev). apply rev_involutive.
Qed.

Lemma number_first n : number_ok n → ∃ c s, number_text n = c :: s ∧ is_digit c = true.
Proof.
  intros (Hw & Hne & _). destruct (whole n) as [|d ds] eqn:E; [done|]. unfold number_text. rewrite E.
  exists (digit_char d), (text ds ++ fraction_text (decimals n) ++ exponent_text (scale n)). split; [done|].
  apply Forall_cons in Hw as [Hd _]. by apply digit_char_digit.
Qed.

Definition minus (negative : bool) : list ascii := if negative then ["-"%char] else [].

Lemma py_float_number negative n :
  number_ok n → py_float (of_chars (minus negative ++ number_text n)) = Some (negated negative (number_value n)).
Proof.
  intros Hok. destruct (number_first n Hok) as (c & s & Ec & Hc).
  unfold py_float. rewrite chars_of_chars, strip_solid.
  2:{ apply Forall_app. split; [by destruct negative; repeat constructor|by apply number_text_solid]. }
  assert (sign_of (minus negative ++ number_text n) = (negative, number_text n)) as ->.
  { rewrite Ec. destruct negative; [done|]. by destruct c as [[] [] [] [] [] [] [] []]. }
  assert (∀ w : string, match w with String d _ => is_digit d = false | EmptyString => False end →
    String.eqb (lower (of_chars (number_text n))) w = false) as Hword.
  { intros w Hw. apply String.eqb_neq. intros E. rewrite Ec in E. unfold lower in E. rewrite chars_of_chars in E.
    rewrite fmap_cons in E. destruct w as [|d w]; [done|]. injection E as Hd _. rewrite <- Hd in Hw.
    by destruct c as [[] [] [] [] [] [] [] []]. }
  rewrite !Hword by done. cbn [orb].
  destruct Hok as (Hw & Hne & Hf & He). unfold number_text.
  rewrite digit_run_text by (done || apply stops_fraction). cbn [mbind option_bind].
  unfold number_value.
  destruct (decimals n) as [|d ds] eqn:Ed; cbn [fraction_text app].
  - assert ((match exponent_text (scale n) with
             | c :: s' => if is_char "." c then digit_run s' else Some (0, 0, exponent_text (scale n))
             | [] => Some (0, 0, exponent_text (scale n)) end) = Some (0, 0, exponent_text (scale n))) as ->
      by (by destruct (scale n) as [[[] ?]|]).
    cbn [mbind option_bind]. assert (zlen (whole n) ≠ 0) as Hz.
    { destruct (whole n); [done|]. rewrite zlen_cons. pose proof (zlen_nonneg l). lia. }
    rewrite (proj2 (Z.eqb_neq (zlen (whole n) + 0) 0)) by lia. rewrite exponent_of_text by done.
    cbn [mbind option_bind]. by rewrite app_nil_r, Z.pow_0_r, Z.mul_1_r, Z.add_0_r.
  - change (is_char "." ".") with true. cbn beta iota.
    rewrite digit_run_text by (done || apply stops_exponent). cbn [mbind option_bind].
    pose proof (zlen_nonneg (whole n)). pose proof (zlen_nonneg ds).
    rewrite (proj2 (Z.eqb_neq _ 0)) by (rewrite zlen_cons; lia). rewrite exponent_of_text by done.
    cbn [mbind option_bind]. by rewrite digits_value_app.
Qed.

(** ** Reading a number in JSON *)

(** A number of JSON that is a float: no leading zero, and a fraction or an exponent. *)
Definition json_number (n : number) : Prop :=
  number_ok n ∧ (whole n = [0] ∨ head (whole n) ≠ Some 0) ∧ (decimals n ≠ [] ∨ scale n ≠ None).

Lemma span_text ds rest : Forall digit ds → stops rest → span_digits (text ds ++ rest) = (text ds, rest).
Proof.
  intros Hd%digits_are Hr. revert Hd. generalize (text ds). intros l Hl.
  induction Hl as [|c l Hc _ IH]; simpl.
  - destruct rest as [|c rest]; [done|]. by destruct Hr as [-> | ->].
  - by rewrite Hc, IH.
Qed.

Lemma scan_fraction_text ds e :
  Forall digit ds → scan_fraction (fraction_text ds ++ exponent_text e) = (fraction_text ds, exponent_text e).
Proof.
  intros Hd. destruct ds as [|d ds]; cbn [fraction_text app].
  - by destruct e as [[[] ds]|].
  - cbn [scan_fraction]. rewrite Ascii.eqb_refl, span_text by (done || apply stops_exponent). done.
Qed.
Lemma scan_exponent_text e :
  match e with Some (_, ds) => Forall digit ds ∧ ds ≠ [] | None => True end →
  scan_exponent (exponent_text e) = (exponent_text e, []).
Proof.
  destruct e as [[negative ds]|]; [|done]. intros [Hd Hne].
  pose proof (span_text ds [] Hd I) as Hs. rewrite app_nil_r in Hs.
  cbn [exponent_text scan_exponent]. rewrite Ascii.eqb_refl. cbn [orb].
  assert (text ds ≠ []) as Ht by (by destruct ds).
  destruct negative; cbn; rewrite Hs; by destruct (text ds).
Qed.

Lemma scan_tail_number negative n :
  json_number n →
  scan_tail (minus negative) (text (whole n)) (fraction_text (decimals n) ++ exponent_text (scale n))
    = Some (JFloat (negated negative (number_value n)), []).
Proof.
  intros (Hok & _ & Hfloat). pose proof (py_float_number negative n Hok) as Hp.
  destruct Hok as (Hw & Hne & Hf & He). unfold scan_tail.
  rewrite scan_fraction_text by done. rewrite scan_exponent_text by done.
  assert (match fraction_text (decimals n), exponent_text (scale n) with [], [] => False | _, _ => True end) as Hx.
  { destruct Hfloat as [Hd|Hs]; [by destruct (decimals n)|]. destruct (fraction_text _); [|done].
    by destruct (scale n) as [[]|]. }
  unfold number_text in Hp. destruct (fraction_text (decimals n)); [destruct (exponent_text (scale n)); [done|]|];
    by rewrite Hp.
Qed.

Lemma scan_unsigned_number negative n :
  json_number n →
  scan_unsigned (minus negative) (number_text n) = Some (JFloat (negated negative (number_value n)), []).
Proof.
  intros Hj. pose proof (scan_tail_number negative n Hj) as Ht. destruct Hj as ((Hw & Hne & Hf & He) & Hzero & _).
  unfold number_text. destruct Hzero as [Ez|Hhead].
  - rewrite Ez in *. exact Ht.
  - destruct (whole n) as [|d ds] eqn:E; [done|].
    assert (digit_char d ≠ "0"%char) as Hd0.
    { intros Hc. apply Hhead. apply Forall_cons in Hw as [Hd _]. simpl. f_equal.
      apply digit_char_zero; [done|by rewrite Hc]. }
    unfold scan_unsigned. rewrite fmap_cons, <- app_comm_cons. rewrite (proj2 (Ascii.eqb_neq _ _) Hd0).
    rewrite app_comm_cons, <- fmap_cons, span_text by (done || apply stops_fraction).
    rewrite fmap_cons in Ht |- *. exact Ht.
Qed.

Lemma scan_plain_number negative n :
  json_number n →
  scan_plain (minus negative ++ number_text n) = Some (JFloat (negated negative (number_value n)), []).
Proof.
  intros Hj. pose proof (scan_unsigned_number negative n Hj) as Hs.
  destruct (number_first n (proj1 Hj)) as (c & s & Ec & Hc). rewrite Ec in *.
  unfold scan_plain. assert (scan_constant (minus negative ++ c :: s) = None) as ->.
  { unfold scan_constant. destruct negative; by destruct c as [[] [] [] [] [] [] [] []]. }
  destruct negative; [done|]. cbn [minus app] in *. unfold scan_number.
  destruct (Ascii.eqb_spec c "-") as [->|_]; [done|exact Hs].
Qed.

(** ** The layout of [repr] *)

Lemma zeros_text n : zeros n = text (replicate n 0).
Proof. unfold zeros. by rewrite fmap_replicate. Qed.
Lemma rstrip_text ds :
  Forall digit ds →
  ∃ ds' n, rstrip_char "0" (text ds) = text ds' ∧ ds = ds' ++ replicate n 0.
Proof.
  induction 1 as [|d ds Hd _ (ds' & n & IH & E)]; [by exists [], 0%nat|].
  rewrite fmap_cons. cbn [rstrip_char]. rewrite IH. destruct ds' as [|d' ds']; cbn [fmap list_fmap].
  - case_bool_decide as Hc.
    + exists [], (S n). split; [done|]. simpl in *. rewrite E. f_equal.
      apply digit_char_zero; [done|by rewrite Hc].
    + exists [d], n. split; [done|]. by rewrite E.
  - exists (d :: d' :: ds'), n. split; [done|]. by rewrite E.
Qed.

(** The digits of an exponent: at least two. *)
Definition two_digits (n : Z) : list Z := (if n <? 10 then [0] else []) ++ digits 10 n.

(** The number [repr] lays out: the digits, and the place of the point after them. *)
Definition laid_out (ds : list Z) (point : Z) : number :=
  if (point <? -3) || (16 <? point) then
    {| whole := take 1 ds; decimals := drop 1 ds;
       scale := Some (point <? 1, two_digits (if point <? 1 then 1 - point else point - 1)) |}
  else if point <=? 0 then
    {| whole := [0]; decimals := replicate (Z.to_nat (- point)) 0 ++ ds; scale := None |}
  else if zlen ds <=? point then
    {| whole := ds ++ replicate (Z.to_nat (point - zlen ds)) 0; decimals := [0]; scale := None |}
  else {| whole := take (Z.to_nat point) ds; decimals := drop (Z.to_nat point) ds; scale := None |}.

Lemma format_two n : 0 ≤ n → chars (format_int 10 2 n) = text (two_digits n).
Proof.
  intros Hn. unfold format_int, two_digits. rewrite chars_of_chars. destruct (Z.ltb_spec n 0); [lia|].
  rewrite Z.abs_eq by done. cbn [app]. rewrite zlen_nil, Z.sub_0_r, fmap_app. f_equal.
  destruct (digits_spec 10 n) as (Hne & Hd & Hv); [lia|done|].
  destruct (Z.ltb_spec n 10) as [Hlt|Hge].
  - replace (digits 10 n) with [n]; [done|]. unfold digits. cbn [digits_go].
    by rewrite (proj2 (Z.ltb_lt n 10)) by lia.
  - destruct (digits 10 n) as [|d [|d' ds]]; [done| |].
    + specialize (Hv 0). cbn in Hv. apply Forall_cons in Hd as [Hd _]. lia.
    + rewrite !fmap_cons, !zlen_cons. pose proof (zlen_nonneg (text ds)).
      by replace (Z.to_nat _) with 0%nat by lia.
Qed.
Lemma two_digits_spec n :
  0 ≤ n → Forall digit (two_digits n) ∧ two_digits n ≠ [] ∧ digits_value 10 (two_digits n) = n.
Proof.
  intros Hn. destruct (digits_spec 10 n) as (Hne & Hd & Hv); [lia|done|]. unfold two_digits.
  specialize (Hv 0). split_and!.
  - destruct (n <? 10); [constructor; [done|exact Hd]|exact Hd].
  - by destruct (n <? 10).
  - rewrite digits_value_app. replace (digits_value 10 (digits 10 n)) with n by (unfold digits_value; rewrite Hv; lia).
    destruct (n <? 10); [change (digits_value 10 [0]) with 0|change (digits_value 10 []) with 0]; lia.
Qed.

Lemma layout_text ds point : ds ≠ [] → layout (text ds) point = number_text (laid_out ds point).
Proof.
  intros Hne. unfold layout, laid_out. rewrite (zlen_fmap digit_char ds).
  destruct ((point <? -3) || (16 <? point)).
  - unfold number_text. cbn [whole decimals scale]. destruct ds as [|d ds]; [done|]. cbn [take drop].
    rewrite fmap_cons. assert (∀ t, (match text ds with [] => [digit_char d] | _ :: _ => digit_char d :: "."%char :: text ds end) ++ t
      = text [d] ++ fraction_text ds ++ t) as Hm by (intros t; by destruct ds).
    replace (match digit_char d :: text ds with [] => [] | [d0] => [d0] | d0 :: ds0 => d0 :: "."%char :: ds0 end)
      with (match text ds with [] => [digit_char d] | _ :: _ => digit_char d :: "."%char :: text ds end) by (by destruct ds).
    cbn [fmap list_fmap] in Hm |- *. rewrite Hm. do 2 f_equal.
    destruct (Z.ltb_spec point 1); rewrite chars_app, format_two by lia; done.
  - destruct (Z.leb_spec point 0); [|destruct (Z.leb_spec (zlen ds) point)]; unfold number_text; cbn [whole decimals scale exponent_text].
    + rewrite app_nil_r, zeros_text, <- fmap_app. unfold fraction_text.
      destruct (replicate (Z.to_nat (- point)) 0 ++ ds) as [|d l] eqn:E; [by destruct (replicate _ _)|done].
    + rewrite app_nil_r, zeros_text, fmap_app, <- app_assoc. done.
    + rewrite app_nil_r, <- fmap_take, <- fmap_drop.
      destruct (drop (Z.to_nat point) ds) as [|d l] eqn:E; [|done].
      pose proof (length_drop ds (Z.to_nat point)) as Hl. rewrite E in Hl. unfold zlen in *. simpl in Hl. lia.
Qed.

Lemma laid_out_ok ds point :
  Forall digit ds → ds ≠ [] → head ds ≠ Some 0 → json_number (laid_out ds point).
Proof.
  intros Hd Hne Hhead. unfold laid_out. assert (∀ n, Forall digit (replicate n 0)) as Hz
    by (intros n; apply Forall_replicate; done).
  destruct ((point <? -3) || (16 <? point)); [|destruct (Z.leb_spec point 0); [|destruct (Z.leb_spec (zlen ds) point)]];
    unfold json_number, number_ok; cbn [whole decimals scale].
  - destruct (two_digits_spec (if point <? 1 then 1 - point else point - 1)) as (Ht1 & Ht2 & _);
      [destruct (Z.ltb_spec point 1); lia|].
    split_and!; try done; [by apply Forall_take|by destruct ds|by apply Forall_drop|right; by destruct ds|by right].
  - split_and!; try done; [by repeat constructor|by apply Forall_app|by left|left]. by destruct (replicate _ _).
  - split_and!; try done; [by apply Forall_app|by destruct ds|by repeat constructor|right; by destruct ds|by left].
  - split_and!; try done; [by apply Forall_take| |by apply Forall_drop|right|left].
    + destruct ds as [|d ds]; [done|]. by destruct (Z.to_nat point) eqn:E; [lia|].
    + destruct ds as [|d ds]; [done|]. by destruct (Z.to_nat point) eqn:E; [lia|].
    + intros E. pose proof (length_drop ds (Z.to_nat point)) as Hl. rewrite E in Hl. unfold zlen in *.
      simpl in Hl. lia.
Qed.

Lemma laid_out_value ds point :
  Forall digit ds → ds ≠ [] → number_value (laid_out ds point) = decimal (digits_value 10 ds) (point - zlen ds).
Proof.
  intros Hd Hne. pose proof (digits_value_nonneg ds Hd) as Hv. unfold number_value, laid_out.
  destruct ((point <? -3) || (16 <? point)) eqn:Hexp;
    [|destruct (Z.leb_spec point 0); [|destruct (Z.leb_spec (zlen ds) point)]];
    cbn [whole decimals scale scale_value].
  - rewrite take_drop. assert (zlen (drop 1 ds) = zlen ds - 1) as ->.
    { destruct ds as [|d ds]; [done|]. change (drop 1 (d :: ds)) with ds. rewrite zlen_cons. lia. }
    destruct (two_digits_spec (if point <? 1 then 1 - point else point - 1)) as (_ & _ & Hn);
      [destruct (Z.ltb_spec point 1); lia|].
    rewrite Hn. f_equal. destruct (point <? 1); lia.
  - rewrite app_assoc, digits_value_app. change ([0] ++ ?l) with (0 :: l).
    change (0 :: replicate ?n 0) with (replicate (S n) 0). rewrite digits_value_zeros. f_equal.
    rewrite zlen_app. unfold zlen. rewrite length_replicate. lia.
  - rewrite <- app_assoc. change ([0]) with (replicate 1 0). rewrite <- replicate_add, digits_value_app, digits_value_zeros.
    rewrite Z.add_0_r, decimal_shift by (done || apply zlen_nonneg). f_equal.
    unfold zlen in *. rewrite !length_replicate. lia.
  - rewrite take_drop. f_equal. unfold zlen in *. rewrite length_drop. lia.
Qed.

(** ** Every float is printed and read back *)

Lemma digits_positive n : 0 < n → digits 10 n ≠ [] ∧ Forall digit (digits 10 n) ∧ head (digits 10 n) ≠ Some 0.
Proof.
  intros Hn. destruct (digits_spec 10 n) as (Hne & Hd & _); [lia|lia|]. split_and!; try done.
  destruct (digits_head n Hn) as (d & ds & -> & Hd0). simpl. intros [= ->]. lia.
Qed.

Lemma magnitude_number m e :
  bounded PREC EMAX m e = true →
  ∃ n, json_number n ∧ magnitude_repr m e = number_text n ∧ number_value n = S754_finite false m e.
Proof.
  intros Hb. destruct (magnitude_digits m e Hb) as (d & s & Hd & Hx & ->).
  destruct (digits_spec 10 d) as (_ & _ & Hv); [lia|lia|]. destruct (digits_positive d Hd) as (Hne & Hds & Hhead).
  cbn zeta. destruct (rstrip_text _ Hds) as (ds & n & -> & E).
  assert (Forall digit ds) as Hds' by (rewrite E in Hds; by apply Forall_app in Hds as [? _]).
  assert (d = digits_value 10 ds * 10 ^ Z.of_nat n) as Ed.
  { assert (digits_value 10 (digits 10 d) = d) as Hval by (unfold digits_value; rewrite Hv; lia).
    rewrite E, digits_value_app, digits_value_zeros in Hval. unfold zlen in Hval. rewrite length_replicate in Hval. lia. }
  assert (ds ≠ []) as Hne' by (intros ->; change (digits_value 10 []) with 0 in Ed; lia).
  exists (laid_out ds (s + zlen (digits 10 d))). split_and!.
  - apply laid_out_ok; [done..|]. rewrite E in Hhead. by destruct ds.
  - by apply layout_text.
  - rewrite laid_out_value by done. rewrite <- Hx. rewrite Ed at 2. rewrite decimal_shift.
    + f_equal. rewrite E, zlen_app. unfold zlen. rewrite length_replicate. lia.
    + by apply digits_value_nonneg.
    + lia.
Qed.

(** [repr] of every valid float reads back as the float, in JSON and by [float]. *)
Lemma valid_printable x : valid_double x → printable x.
Proof.
  intros Hx. destruct x as [[]|[]| |s m e]; [vm_compute; reflexivity..|].
  destruct (magnitude_number m e Hx) as (n & Hj & Ht & Hv). unfold printable, json_float, float_repr.
  pose proof (scan_plain_number s n Hj) as Hs. rewrite Hv, <- Ht in Hs.
  rewrite chars_app, chars_of_chars. by destruct s.
Qed.
Lemma py_float_repr x : valid_double x → py_float (float_repr x) = Some x.
Proof.
  intros Hx. destruct x as [[]|[]| |s m e]; [vm_compute; reflexivity..|].
  destruct (magnitude_number m e Hx) as (n & Hj & Ht & Hv). unfold float_repr.
  pose proof (py_float_number s n (proj1 Hj)) as Hp. rewrite Hv, <- Ht in Hp.
  rewrite <- (of_chars_chars (_ +:+ _)), chars_app, chars_of_chars. by destruct s.
Qed.

(** ** The floats that are read *)

Lemma int_digits_nonneg base s prev acc v rest :
  0 ≤ base → 0 ≤ acc → int_digits base s prev acc = Some (v, rest) → 0 ≤ v.
Proof.
  intros Hb. revert prev acc. induction s as [|c s IH]; intros prev acc Ha H; cbn [int_digits] in H.
  - destruct prev; [by injection H as <-|done].
  - assert (∀ d, digit_value c = Some d → 0 ≤ d) as Hd.
    { intros d. unfold digit_value. repeat case_match; intros [=]; subst; b2p; lia. }
    destruct (digit_value c) as [d|].
    + destruct (d <? base); [|destruct prev; [by injection H as <-|done]].
      eapply IH; [|exact H]. specialize (Hd d eq_refl). nia.
    + case_bool_decide; destruct prev; try done; [by apply (IH false acc)|by injection H as <-].
Qed.
Lemma digit_run_nonneg s v n rest : digit_run s = Some (v, n, rest) → 0 ≤ v ∧ 0 ≤ n.
Proof.
  unfold digit_run. destruct s as [|c s]; [by intros [= <- <- _]|]. destruct (is_digit c); [|by intros [= <- <- _]].
  destruct (int_digits _ _ _ _) as [[v' rest']|] eqn:E; [|done]. intros [= <- <- _].
  split; [|apply zlen_nonneg]. apply (int_digits_nonneg 10) in E; [done|lia..].
Qed.
Lemma negated_valid negative x : valid_double x → valid_double (negated negative x).
Proof. destruct negative; [|done]. by destruct x. Qed.

Lemma py_float_valid s x : py_float s = Some x → valid_double x.
Proof.
  unfold py_float. destruct (sign_of (strip (chars s))) as [negative l].
  destruct (_ || _); [by intros [= <-]|]. destruct (String.eqb _ "nan"); [by intros [= <-]|].
  destruct (digit_run l) as [[[whole n1] l1]|] eqn:E1; [|done]. cbn [mbind option_bind].
  set (r := match l1 with [] => _ | _ => _ end). intros H.
  destruct r as [[[part n2] l2]|] eqn:E2; [|done]. cbn [mbind option_bind] in H.
  assert (0 ≤ part ∧ 0 ≤ n2) as [Hp Hn].
  { unfold r in E2. destruct l1 as [|c l1]; [by injection E2 as <- <- _|].
    destruct (is_char "." c); [by apply digit_run_nonneg in E2|by injection E2 as <- <- _]. }
  destruct (n1 + n2 =? 0); [done|]. destruct (exponent_of l2) as [e|]; [|done]. injection H as <-.
  apply negated_valid, decimal_valid. apply digit_run_nonneg in E1 as [Hw _]. pose proof (pow10_pos n2 Hn). nia.
Qed.

(** Text of [fixed] is read. *)
Definition padded (width n : Z) : list Z :=
  replicate (Z.to_nat (width - zlen (digits 10 n))) 0 ++ digits 10 n.
Lemma format_text width n : 0 ≤ n → chars (format_int 10 width n) = text (padded width n).
Proof.
  intros Hn. unfold format_int, padded. rewrite chars_of_chars. destruct (Z.ltb_spec n 0); [lia|].
  rewrite Z.abs_eq by done. cbn [app]. by rewrite zlen_nil, Z.sub_0_r, fmap_app, zeros_text, zlen_fmap.
Qed.
Lemma padded_digits width n : 0 ≤ n → Forall digit (padded width n) ∧ padded width n ≠ [].
Proof.
  intros Hn. destruct (digits_spec 10 n) as (Hne & Hd & _); [lia|done|]. unfold padded. split.
  - apply Forall_app. split; [by apply Forall_replicate|exact Hd].
  - by destruct (replicate _ _).
Qed.

Lemma scaled_nonneg m e digits : 0 ≤ digits → 0 ≤ scaled m e digits.
Proof.
  intros Hd. unfold scaled. pose proof (pow10_pos digits Hd). destruct (Z.leb_spec 0 e).
  - pose proof (pow2_pos e). nia.
  - pose proof (pow2_pos (- e)). apply round_half_even_ge; nia.
Qed.

Lemma fixed_read digits x : 0 < digits → is_Some (py_float (fixed digits x)).
Proof.
  intros Hd.
  assert (∀ s n, 0 ≤ n → is_Some (py_float ((if s : bool then "-" else "") +:+ fixed_magnitude digits n))) as Hm.
  { intros s n Hn. pose proof (pow10_pos digits). unfold fixed_magnitude.
    rewrite (proj2 (Z.eqb_neq digits 0)) by lia.
    set (q := n / 10 ^ digits). set (r := n mod 10 ^ digits).
    assert (0 ≤ q) as Hq by (apply Z.div_pos; lia). assert (0 ≤ r) as Hr by (apply Z.mod_pos_bound; lia).
    pose proof (py_float_number s {| whole := padded 0 q; decimals := padded digits r; scale := None |}) as Hp.
    rewrite <- (of_chars_chars (_ +:+ _)), !chars_app.
    unfold str_int. rewrite !format_text by done.
    unfold number_text in Hp. cbn [whole decimals scale exponent_text] in Hp. rewrite app_nil_r in Hp.
    destruct (padded_digits 0 q Hq) as [Hq1 Hq2]. destruct (padded_digits digits r Hr) as [Hr1 Hr2].
    destruct (padded digits r) as [|d ds] eqn:E; [done|]. cbn [fraction_text] in Hp.
    replace (chars (if s then "-" else "")) with (minus s) by (by destruct s).
    change (chars "." ++ ?l) with ("."%char :: l). rewrite Hp; [by eexists|]. done. }
  destruct x as [s|[]| |s m e]; try (by eexists); apply Hm; [done|]. apply scaled_nonneg. lia.
Qed.

(** ** JSON values with binary64 floats *)

(** Every value [loads] reads is one that [dumps] can print. *)
Definition sound_json : json → Prop := good valid_double.
Lemma loads_sound text v : loads text = Ok v → sound_json v.
Proof. apply loads_good; [apply py_float_valid|done|done]. Qed.
Lemma sound_valid v : sound_json v → valid v.
Proof. apply good_valid, valid_printable. Qed.
Lemma to_float_valid z : valid_double (to_float z).
Proof.
  unfold to_float. destruct z as [|p|p]; [done|by apply (division_valid (Z.pos p) 1)|].
  pose proof (division_valid (Z.pos p) 1 eq_refl eq_refl) as H. revert H. unfold valid_double.
  cbn [exact SFdiv]. destruct (SFdiv_core_binary _ _ _ _ _ _) as [[m e] l].
  unfold binary_round_aux. destruct (shr_fexp _ _ _ _ _) as [mrs e']. destruct (shr_fexp _ _ _ _ _) as [mrs' e''].
  destruct (shr_m mrs'); done || (case_match; done).
Qed.
