(* ===== verification/Argparse.v ===== *)
(** * Command lines

    [argparse] as the programs use it: a parser is a list of actions, the command
    line is a list of strings, and parsing either stops the program (an error, or
    the help text) or gives a namespace.  Options may be abbreviated, carry their
    value after an equals sign, repeat, or exclude each other; [--] ends them.  The
    rules are those of Python 3.13.

    The values of a namespace are tagged; [ty] says what an action stores and
    [cast] takes the tag off.  [parse_typed] is the contract of the parser: what
    it returns for a well-formed list of actions has the declared types, within
    the declared choices. *)

From stdpp Require Import base numbers list strings gmap.
From Stdlib Require Import ZArith Lia Ascii.
From S2P Require Import Prelude PyText PyFloat.

Open Scope Z_scope.

(** ** Values and their types *)

Inductive value :=
  | VNone
  | VBool (b : bool)
  | VInt (z : Z)
  | VFloat (x : double)
  | VText (s : string)
  | VPath (s : string)
  | VPair (a b : string)
  | VList (l : list value).

Inductive ty := TBool | TInt | TFloat | TText | TPath | TPair | TOption (t : ty) | TList (t : ty).

Fixpoint interp (t : ty) : Type :=
  match t with
  | TBool => bool
  | TInt => Z
  | TFloat => double
  | TText | TPath => string
  | TPair => string * string
  | TOption t => option (interp t)
  | TList t => list (interp t)
  end.

Fixpoint cast (t : ty) (v : value) : option (interp t) :=
  match t, v with
  | TBool, VBool b => Some b
  | TInt, VInt z => Some z
  | TFloat, VFloat x => Some x
  | TText, VText s => Some s
  | TPath, VPath s => Some s
  | TPair, VPair a b => Some (a, b)
  | TOption _, VNone => Some None
  | TOption t, v => Some <$> cast t v
  | TList t, VList l => mapM (cast t) l
  | _, _ => None
  end.

Definition has_type (t : ty) (v : value) : bool := bool_decide (is_Some (cast t v)).

(** The errors a conversion may raise and the parser reports. *)
Definition conversion_error (e : exn) : bool :=
  match e with ValueError _ | TypeError _ | ArgumentTypeError _ => true | _ => false end.

(** A [type] argument of [add_argument]: a conversion that may raise, with the
    type of its results. *)
Record converter := {
  type_name : string;
  elem : ty;
  convert : string → result value;
  convert_typed s v : convert s = Ok v → has_type elem v = true;
  convert_errors s e : convert s = Err e → conversion_error e = true }.

Definition text_value (s : string) : result value := Ok (VText s).
Definition text : converter.
Proof.
  refine {| type_name := "str"; elem := TText; convert := text_value |}; [|done].
  by intros s v [= <-].
Defined.

(** [int(text)] and [int(text, base)] *)
Definition int_value (base : Z) (s : string) : result value :=
  match py_int base s with
  | Some z => Ok (VInt z)
  | None => Err (ValueError "invalid literal for int()")
  end.
Definition integer_of (name : string) (base : Z) : converter.
Proof.
  refine {| type_name := name; elem := TInt; convert := int_value base |}.
  all: intros s v; unfold int_value; by destruct (py_int base s); intros [= <-].
Defined.
Definition int : converter := integer_of "int" 10.

(** [str(Path(text))]: empty and [.] components go, a double leading slash stays. *)
Definition path_root (s : list ascii) : list ascii :=
  match s with
  | a :: b :: c :: _ =>
      if Ascii.eqb "/" a && Ascii.eqb "/" b && negb (Ascii.eqb "/" c) then [a; b]
      else if Ascii.eqb "/" a then [a] else []
  | [a; b] => if Ascii.eqb "/" a && Ascii.eqb "/" b then [a; b] else if Ascii.eqb "/" a then [a] else []
  | [a] => if Ascii.eqb "/" a then [a] else []
  | [] => []
  end.
Definition path_parts (s : string) : list (list ascii) :=
  filter (λ part, part ≠ [] ∧ part ≠ ["."%char]) (split_all "/" (chars s)).
Definition path_of (root : list ascii) (parts : list (list ascii)) : string :=
  if bool_decide (root = [] ∧ parts = []) then "."
  else of_chars root +:+ join "/" (of_chars <$> parts).
Definition path_text (s : string) : string := path_of (path_root (chars s)) (path_parts s).
Definition path_value (s : string) : result value := Ok (VPath (path_text s)).
Definition path : converter.
Proof.
  refine {| type_name := "Path"; elem := TPath; convert := path_value |}; [|done].
  by intros s v [= <-].
Defined.

Example path_examples :
  path_text "a//b/./c/" = "a/b/c" ∧ path_text "./x" = "x" ∧ path_text "" = "." ∧
  path_text "/" = "/" ∧ path_text "//a" = "//a" ∧ path_text "///a" = "/a" ∧ path_text "../a" = "../a".
Proof. repeat split; vm_compute; reflexivity. Qed.

(** ** Actions and parsers *)

(** [nargs]: absent, ["?"], ["+"], none at all for a switch, and what a
    command with its own arguments takes. *)
Inductive arity := Zero | One | AtMostOne | OneOrMore | Remaining.

Inductive effect := Store | StoreTrue | Append | BooleanOptional | Help | SubCommand.

Record action := {
  option_strings : list string;     (* empty for a positional *)
  dest : string;
  does : effect;
  nargs : arity;
  conv : converter;
  choices : option (list value);
  initial : value;                  (* the default *)
  required : bool }.

Record parser := {
  actions : list action;
  exclusive : list (list string) }.   (* mutually exclusive groups, as destinations *)

Definition positional_action (a : action) : bool := bool_decide (option_strings a = []).

(** The destination an option gets from its flags: the first long one, without
    its dashes, the others as underscores. *)
Definition dashes_to_underscores (s : list ascii) : list ascii :=
  (λ c, if Ascii.eqb "-" c then "_"%char else c) <$> s.
Fixpoint lstrip_dashes (s : list ascii) : list ascii :=
  match s with
  | c :: s' => if Ascii.eqb "-" c then lstrip_dashes s' else s
  | [] => []
  end.
Definition is_long (flag : string) : bool :=
  match chars flag with a :: b :: _ => Ascii.eqb "-" a && Ascii.eqb "-" b | _ => false end.
Definition dest_of (flags : list string) : string :=
  let flag := match filter is_long flags, flags with f :: _, _ => f | [], f :: _ => f | [], [] => "" end in
  of_chars (dashes_to_underscores (lstrip_dashes (chars flag))).

(** The calls of [add_argument] the programs make. *)
Definition positional (name : string) (c : converter) : action :=
  {| option_strings := []; dest := name; does := Store; nargs := One; conv := c; choices := None;
     initial := VNone; required := true |}.
Definition positional_maybe (name : string) (c : converter) : action :=
  {| option_strings := []; dest := name; does := Store; nargs := AtMostOne; conv := c;
     choices := None; initial := VNone; required := false |}.
Definition positional_many (name : string) (c : converter) : action :=
  {| option_strings := []; dest := name; does := Store; nargs := OneOrMore; conv := c;
     choices := None; initial := VNone; required := true |}.
Definition option_of (flags : list string) (c : converter) : action :=
  {| option_strings := flags; dest := dest_of flags; does := Store; nargs := One; conv := c;
     choices := None; initial := VNone; required := false |}.
Definition with_default (v : value) (a : action) : action :=
  {| option_strings := option_strings a; dest := dest a; does := does a; nargs := nargs a;
     conv := conv a; choices := choices a; initial := v; required := required a |}.
Definition with_choices (l : list value) (a : action) : action :=
  {| option_strings := option_strings a; dest := dest a; does := does a; nargs := nargs a;
     conv := conv a; choices := Some l; initial := initial a; required := required a |}.
Definition with_dest (name : string) (a : action) : action :=
  {| option_strings := option_strings a; dest := name; does := does a; nargs := nargs a;
     conv := conv a; choices := choices a; initial := initial a; required := required a |}.
Definition is_required (a : action) : action :=
  {| option_strings := option_strings a; dest := dest a; does := does a; nargs := nargs a;
     conv := conv a; choices := choices a; initial := initial a; required := true |}.
Definition store_true (flags : list string) : action :=
  {| option_strings := flags; dest := dest_of flags; does := StoreTrue; nargs := Zero;
     conv := text; choices := None; initial := VBool false; required := false |}.
Definition append_of (flags : list string) (c : converter) : action :=
  {| option_strings := flags; dest := dest_of flags; does := Append; nargs := One; conv := c;
     choices := None; initial := VNone; required := false |}.
(** [BooleanOptionalAction]: [--name] and [--no-name]. *)
Definition boolean_optional (flag : string) (b : bool) : action :=
  {| option_strings := [flag; "--no-" +:+ of_chars (drop 2 (chars flag))]; dest := dest_of [flag];
     does := BooleanOptional; nargs := Zero; conv := text; choices := None; initial := VBool b;
     required := false |}.
Definition help : action :=
  {| option_strings := ["-h"; "--help"]; dest := "help"; does := Help; nargs := Zero; conv := text;
     choices := None; initial := VNone; required := false |}.
(** [add_subparsers(dest=..., required=True)] *)
Definition sub_commands (name : string) (names : list string) : action :=
  {| option_strings := []; dest := name; does := SubCommand; nargs := Remaining; conv := text;
     choices := Some (VText <$> names); initial := VNone; required := true |}.

(** [argparse.ArgumentParser()] with the actions added to it. *)
Definition argument_parser (l : list action) : parser :=
  {| actions := help :: l; exclusive := [] |}.

(** The name of an action in a message. *)
Definition action_name (a : action) : string :=
  if positional_action a then dest a else join "/" (option_strings a).
Definition argument_error {A} (a : action) (msg : string) : result A :=
  Err (ExitWith ("argument " +:+ action_name a +:+ ": " +:+ msg)).

(** ** What a string of the command line is *)

(** An interpretation of a string as an option: the action, [None] when there is
    no such option; the option string; the separator and the value it carries. *)
Record reading := { r_action : option action; r_option : string; r_explicit : option (string * string) }.

Inductive token :=
  | TokO (text : string) (readings : list reading)
  | TokA (text : string)
  | TokDash.

Definition token_text (t : token) : string :=
  match t with TokO s _ => s | TokA s => s | TokDash => "--" end.

Definition option_table (p : parser) : list (string * action) :=
  a ← actions p; (λ s, (s, a)) <$> option_strings a.
Definition find_option (p : parser) (s : string) : option action :=
  snd <$> head (filter (λ '(name, _), name = s) (option_table p)).

(** [-\d+] or [-\d*\.\d+], the whole string. *)
Definition all_digits (s : list ascii) : bool :=
  forallb (λ c, (48 <=? code c) && (code c <=? 57)) s.
Definition negative_number (s : string) : bool :=
  match chars s with
  | c :: s =>
      Ascii.eqb "-" c
      && match split_at "." s with
         | Some (whole, fraction) =>
             all_digits whole && all_digits fraction && negb (bool_decide (fraction = []))
         | None => all_digits s && negb (bool_decide (s = []))
         end
  | [] => false
  end.

Definition starts_with (prefix s : string) : bool :=
  match after_prefix (chars prefix) (chars s) with Some _ => true | None => false end.

(** [s.partition("=")] *)
Definition partition_equals (s : string) : string * option (string * string) :=
  match split_at "=" (chars s) with
  | Some (before, after) => (of_chars before, Some ("=", of_chars after))
  | None => (s, None)
  end.

(** [_get_option_tuples]: the options a string abbreviates; a short option may
    carry its value directly. *)
Definition option_tuples (p : parser) (s : string) : list reading :=
  let '(prefix, explicit) := partition_equals s in
  let read e '(name, a) := {| r_action := Some a; r_option := name; r_explicit := e |} in
  if is_long s then read explicit <$> filter (λ '(name, _), starts_with prefix name) (option_table p)
  else
    let short := of_chars (take 2 (chars s)) in
    let value := of_chars (drop 2 (chars s)) in
    '(name, a) ← option_table p;
    if String.eqb name short then [read (Some ("", value)) (name, a)]
    else if starts_with prefix name then [read explicit (name, a)] else [].

(** [_parse_optional]: the readings of a string as an option, [None] when it is
    an argument. No program declares an option that looks like a number. *)
Definition parse_optional (p : parser) (s : string) : option (list reading) :=
  let exactly name e := {| r_action := find_option p name; r_option := name; r_explicit := e |} in
  match chars s with
  | [] => None
  | c :: rest =>
      if negb (Ascii.eqb "-" c) then None
      else if bool_decide (is_Some (find_option p s)) then Some [exactly s None]
      else if bool_decide (rest = []) then None
      else
        let '(name, explicit) := partition_equals s in
        if bool_decide (is_Some explicit) && bool_decide (is_Some (find_option p name))
        then Some [exactly name explicit]
        else
          match option_tuples p s with
          | [] => if negative_number s || contains " " s then None
                  else Some [{| r_action := None; r_option := s; r_explicit := None |}]
          | tuples => Some tuples
          end
  end.

(** After the first [--] everything is an argument. *)
Fixpoint classify (p : parser) (argv : list string) : list token :=
  match argv with
  | [] => []
  | s :: argv =>
      if String.eqb s "--" then TokDash :: (TokA <$> argv)
      else match parse_optional p s with
           | Some readings => TokO s readings
           | None => TokA s
           end :: classify p argv
  end.

(** ** How many strings an action takes *)

Fixpoint run_length {A} (f : A → bool) (l : list A) : nat :=
  match l with
  | x :: l => if f x then S (run_length f l) else O
  | [] => O
  end.
Definition is_dash (t : token) : bool := match t with TokDash => true | _ => false end.
Definition is_arg (t : token) : bool := match t with TokA _ => true | _ => false end.
Definition is_opt (t : token) : bool := match t with TokO _ _ => true | _ => false end.

(** [n], [n - 1], ..., [m] *)
Fixpoint down_from (n m : nat) : list nat :=
  if (n <? m)%nat then [] else match n with O => [O] | S n' => n :: down_from n' m end.

(** The lengths of the prefixes of the tokens that match the pattern of an
    arity, the one a regular expression tries first in front: one argument is
    [-*A-*], at most one [-*A?-*], several [-*A[A-]*], a command [-*A[-AO]*]. *)
Definition prefixes (n : arity) (l : list token) : list nat :=
  let k := run_length is_dash l in
  match drop k l with
  | TokA _ :: rest =>
      let upto m := down_from (k + 1 + m) (k + 1) in
      match n with
      | Zero => down_from k 0
      | One => upto (run_length is_dash rest)
      | AtMostOne => upto (run_length is_dash rest) ++ down_from k 0
      | OneOrMore => upto (run_length (λ t, is_arg t || is_dash t) rest)
      | Remaining => upto (length rest)
      end
  | _ => match n with Zero | AtMostOne => down_from k 0 | _ => [] end
  end.

(** [re.match] of the patterns of several actions one after the other: the first
    way in which all of them match. *)
Fixpoint match_all (l : list arity) (toks : list token) : option (list nat) :=
  match l with
  | [] => Some []
  | n :: l => head (omap (λ k, cons k <$> match_all l (drop k toks)) (prefixes n toks))
  end.

(** Trailing actions that took nothing are left for later when an option is next. *)
Fixpoint drop_trailing_zeros (l : list nat) : list nat :=
  match l with
  | [] => []
  | k :: l => match drop_trailing_zeros l with
              | [] => if bool_decide (k = O) then [] else [k]
              | l => k :: l
              end
  end.
Definition next_is_option (l : list nat) (toks : list token) : bool :=
  match drop (sum_list l) toks with TokO _ _ :: _ => true | _ => false end.

(** [_match_arguments_partial]: as many of the actions as match, from the left. *)
Fixpoint match_partial_go (n : nat) (l : list arity) (toks : list token) : list nat :=
  match n with
  | O => []
  | S n' =>
      match match_all (take n l) toks with
      | Some counts => if next_is_option counts toks then drop_trailing_zeros counts else counts
      | None => match_partial_go n' l toks
      end
  end.
Definition match_partial (l : list arity) (toks : list token) : list nat :=
  match_partial_go (length l) l toks.

(** [_match_argument] for an option, whose pattern has no [--]. *)
Definition match_argument (a : action) (toks : list token) : result nat :=
  match nargs a, toks with
  | Zero, _ => Ok O
  | One, TokA _ :: _ => Ok 1%nat
  | One, _ => argument_error a "expected one argument"
  | AtMostOne, TokA _ :: _ => Ok 1%nat
  | AtMostOne, _ => Ok O
  | OneOrMore, _ =>
      let n := run_length is_arg toks in
      if (n =? 0)%nat then argument_error a "expected at least one argument" else Ok n
  | Remaining, TokA _ :: toks => Ok (S (length toks))
  | Remaining, _ => argument_error a "expected at least one argument"
  end.

(** ** Taking an action *)

Abbreviation namespace := (gmap string value).

(** A command with its own parser: what its arguments leave, and the strings it
    does not recognise. *)
Abbreviation Commands := (list (string * (list string → result (namespace * list string)))).

Record state := {
  ns : namespace;
  waiting : list action;         (* positionals still to be parsed *)
  seen : list string;            (* actions taken, by destination *)
  given : list string;           (* those among them that took a value *)
  extras : list string }.

Definition set_ns (m : namespace) (st : state) : state :=
  {| ns := m; waiting := waiting st; seen := seen st; given := given st; extras := extras st |}.
Definition add_extras (l : list string) (st : state) : state :=
  {| ns := ns st; waiting := waiting st; seen := seen st; given := given st;
     extras := extras st ++ l |}.

(** [_get_value]: errors of the conversion stop the parser. *)
Definition get_value (a : action) (s : string) : result value :=
  match convert (conv a) s with
  | Ok v => Ok v
  | Err (ArgumentTypeError msg) => argument_error a msg
  | Err (TypeError _) | Err (ValueError _) =>
      argument_error a ("invalid " +:+ type_name (conv a) +:+ " value: " +:+ repr s)
  | Err e => Err e
  end.

#[export] Instance value_eq_dec : EqDecision value.
Proof.
  refine (fix go v w := let _ : EqDecision value := @go in
    match v, w with
    | VNone, VNone => left _
    | VBool b, VBool c => cast_if (decide (b = c))
    | VInt b, VInt c => cast_if (decide (b = c))
    | VFloat b, VFloat c => cast_if (decide (b = c))
    | VText b, VText c => cast_if (decide (b = c))
    | VPath b, VPath c => cast_if (decide (b = c))
    | VPair a b, VPair c d => cast_if_and (decide (a = c)) (decide (b = d))
    | VList l, VList k => cast_if (decide (l = k))
    | _, _ => right _
    end); abstract congruence.
Defined.

(** [_check_value] *)
Definition allowed (a : action) (v : value) : bool :=
  match choices a with Some l => bool_decide (v ∈ l) | None => true end.
Definition value_text (v : value) : string :=
  match v with VInt z => str_int z | VText s => repr s | _ => "" end.
Definition check_value (a : action) (v : value) : result unit :=
  raise (ExitWith ("argument " +:+ action_name a +:+ ": invalid choice: " +:+ value_text v
                   +:+ " (choose from " +:+ join ", " (value_text <$> default [] (choices a)) +:+ ")"))
    when negb (allowed a v);;
  Ok tt.
Definition checked_value (a : action) (s : string) : result value :=
  v ← get_value a s; _ ← check_value a v; Ok v.

(** [_get_values] *)
Definition get_values (a : action) (args : list string) : result value :=
  match nargs a, args with
  | AtMostOne, [] =>
      match initial a with
      | VText s => if positional_action a then checked_value a s else Ok VNone
      | v => if positional_action a then Ok v else Ok VNone
      end
  | One, [s] | AtMostOne, [s] => checked_value a s
  | Remaining, _ =>
      l ← mapR (get_value a) args;
      match l with
      | v :: _ => _ ← check_value a v; Ok (VList l)
      | [] => Err (IndexError "list index out of range")
      end
  | _, _ => l ← mapR (get_value a) args; _ ← mapR (check_value a) l; Ok (VList l)
  end.

Definition conflicts (p : parser) (a : action) : list string :=
  g ← exclusive p; if bool_decide (dest a ∈ g) then filter (λ d, d ≠ dest a) g else [].

(** The texts of a list of values that came from the default conversion. *)
Definition texts (v : value) : list string :=
  match v with VList l => omap (λ v, match v with VText s => Some s | _ => None end) l | _ => [] end.

(** [action(parser, namespace, values, option_string)]: the namespace and the
    unrecognised strings of a command. *)
Definition apply_action (commands : Commands) (a : action) (v : value) (flag : string)
    (m : namespace) : result (namespace * list string) :=
  match does a with
  | Store => Ok (<[dest a := v]> m, [])
  | StoreTrue => Ok (<[dest a := VBool true]> m, [])
  | Append =>
      let items := match m !! dest a with Some (VList l) => l | _ => [] end in
      Ok (<[dest a := VList (items ++ [v])]> m, [])
  | BooleanOptional => Ok (<[dest a := VBool (negb (starts_with "--no-" flag))]> m, [])
  | Help => Err (SystemExit 0)
  | SubCommand =>
      match texts v with
      | [] => Err (IndexError "list index out of range")
      | name :: args =>
          match head (filter (λ c, c.1 = name) commands) with
          | Some (_, parse) => '(sub, rest) ← parse args; Ok (sub ∪ <[dest a := VText name]> m, rest)
          | None => argument_error a ("unknown parser " +:+ repr name)
          end
      end
  end.

Definition take_action (p : parser) (commands : Commands) (a : action) (args : list string)
    (flag : string) (st : state) : result state :=
  v ← get_values a args;
  let present := match args, nargs a with [], AtMostOne => false | _, _ => true end in
  let conflict := filter (λ d, d ∈ given st) (conflicts p a) in
  match present, head conflict with
  | true, Some d =>
      argument_error a ("not allowed with argument "
        +:+ default d (action_name <$> head (filter (λ b, dest b = d) (actions p))))
  | _, _ =>
      '(m, unknown) ← apply_action commands a v flag (ns st);
      Ok {| ns := m; waiting := waiting st; seen := seen st ++ [dest a];
            given := if present then given st ++ [dest a] else given st;
            extras := extras st ++ unknown |}
  end.

(** ** Consuming the command line *)

Section parse.
Context (p : parser) (commands : Commands).

(** What is to be done for one string: actions with their arguments and the
    option string, the number of strings consumed, unrecognised strings. *)
Record plan := {
  to_take : list (action * list string * string);
  consumed : nat;
  unknown : list string }.

Definition take_first (t : action * list string * string) (r : plan) : plan :=
  {| to_take := t :: to_take r; consumed := consumed r; unknown := unknown r |}.

Definition with_following (a : action) (flag : string) (rest : list token) : result plan :=
  n ← match_argument a rest;
  Ok {| to_take := [(a, token_text <$> take n rest, flag)]; consumed := S n; unknown := [] |}.

(** An option with a value in the same string; a short switch may be followed
    by further short options. *)
Fixpoint with_explicit (a : action) (flag sep : string) (value : list ascii) (rest : list token)
    : result plan :=
  let ignored := argument_error a ("ignored explicit argument " +:+ repr (of_chars value)) in
  n ← match_argument a [TokA (of_chars value)];
  match n, value with
  | O, c :: value' =>
      if is_long flag then ignored
      else if negb (String.eqb sep "") || Ascii.eqb "-" c then ignored
      else
        let flag' := of_chars ["-"%char; c] in
        match find_option p flag' with
        | Some b =>
            take_first (a, [], flag) <$>
              match value' with
              | [] => with_following b flag' rest
              | e :: value'' =>
                  if Ascii.eqb "=" e then with_explicit b flag' "=" value'' rest
                  else with_explicit b flag' "" value' rest
              end
        | None =>
            Ok {| to_take := [(a, [], flag)]; consumed := 1;
                  unknown := [of_chars ("-"%char :: value)] |}
        end
  | O, [] => ignored
  | 1%nat, _ =>
      Ok {| to_take := [(a, [of_chars value], flag)]; consumed := 1; unknown := [] |}
  | _, _ => ignored
  end.

Definition plan_option (s : string) (readings : list reading) (rest : list token) : result plan :=
  match readings with
  | [r] =>
      match r_action r with
      | None => Ok {| to_take := []; consumed := 1; unknown := [s] |}
      | Some a =>
          match r_explicit r with
          | None => with_following a (r_option r) rest
          | Some (sep, value) => with_explicit a (r_option r) sep (chars value) rest
          end
      end
  | _ => Err (ExitWith ("ambiguous option: " +:+ s +:+ " could match "
                        +:+ join ", " (r_option <$> readings)))
  end.

Definition take_all (l : list (action * list string * string)) (st : state) : result state :=
  foldM (λ st '(a, args, flag), take_action p commands a args flag st) st l.

(** [consume_optional] *)
Definition consume_optional (s : string) (readings : list reading) (rest : list token)
    (st : state) : result (state * nat) :=
  r ← plan_option s readings rest;
  st ← take_all (to_take r) (add_extras (unknown r) st);
  Ok (st, consumed r).

(** The strings of a positional: the [--] among them is dropped. *)
Definition strings_of (a : action) (toks : list token) : list string :=
  match nargs a with
  | Remaining => token_text <$> match toks with TokDash :: toks => toks | _ => toks end
  | _ => token_text <$> filter (λ t, is_dash t = false) toks
  end.

(** [consume_positionals]: the new state and the number of strings consumed. *)
Fixpoint take_positionals (l : list action) (counts : list nat) (toks : list token) (st : state)
    : result (state * nat) :=
  match l, counts with
  | a :: l, n :: counts =>
      st ← take_action p commands a (strings_of a (take n toks)) "" st;
      '(st, m) ← take_positionals l counts (drop n toks) st;
      Ok (st, n + m)%nat
  | _, _ => Ok (st, O)
  end.
Definition consume_positionals (toks : list token) (st : state) : result (state * nat) :=
  let counts := match_partial (nargs <$> waiting st) toks in
  let left := drop (length counts) (waiting st) in
  '(st, n) ← take_positionals (waiting st) counts toks st;
  Ok ({| ns := ns st; waiting := left; seen := seen st; given := given st; extras := extras st |}, n).

(** Positionals and options in turn, up to the last option: [skip] strings are
    consumed already. *)
Fixpoint consume (toks : list token) (skip : nat) (st : state) : result (state * list token) :=
  match toks, skip with
  | [], _ => Ok (st, [])
  | _ :: toks, S skip => consume toks skip st
  | TokO s readings :: rest, O =>
      '(st, n) ← consume_optional s readings rest st;
      consume rest (pred n) st
  | t :: rest, O =>
      if existsb is_opt rest then
        '(st, n) ← consume_positionals toks st;
        match n with
        | S n => consume rest n st
        | O =>
            let k := run_length (λ t, negb (is_opt t)) rest in
            consume rest k (add_extras (token_text <$> t :: take k rest) st)
        end
      else Ok (st, toks)
  end.

Definition set_initial (m : namespace) (a : action) : namespace :=
  match does a with
  | Help => m
  | _ => match m !! dest a with Some _ => m | None => <[dest a := initial a]> m end
  end.
Definition initial_ns : namespace := foldl set_initial ∅ (actions p).

(** Required actions must have been taken; the default of the others, when it
    is a string that is still there, is converted. *)
Definition missing (st : state) : list string :=
  action_name <$> filter (λ a, required a = true ∧ dest a ∉ seen st) (actions p).
Definition convert_default (m : namespace) (a : action) : result namespace :=
  match initial a with
  | VText s => if bool_decide (m !! dest a = Some (VText s))
               then v ← get_value a s; Ok (<[dest a := v]> m) else Ok m
  | _ => Ok m
  end.
Definition finish (st : state) : result (namespace * list string) :=
  m ← foldM convert_default (ns st) (filter (λ a, dest a ∉ seen st) (actions p));
  raise (ExitWith ("the following arguments are required: " +:+ join ", " (missing st)))
    when negb (bool_decide (missing st = []));;
  Ok (m, extras st).

Definition start : state :=
  {| ns := initial_ns; waiting := filter (λ a, positional_action a = true) (actions p);
     seen := []; given := []; extras := [] |}.

(** [parse_known_args] *)
Definition parse_known_args (argv : list string) : result (namespace * list string) :=
  '(st, rest) ← consume (classify p argv) 0 start;
  '(st, n) ← consume_positionals rest st;
  finish (add_extras (token_text <$> drop n rest) st).

Definition parse_with (argv : list string) : result namespace :=
  '(m, unknown) ← parse_known_args argv;
  raise (ExitWith ("unrecognized arguments: " +:+ join " " unknown))
    when negb (bool_decide (unknown = []));;
  Ok m.
End parse.

(** [parser.parse_args(argv)] for a parser without commands and for one with. *)
Definition parse_args (p : parser) (argv : list string) : result namespace := parse_with p [] argv.
Definition parse_command (p : parser) (subs : list (string * parser)) (argv : list string)
    : result namespace :=
  parse_with p ((λ '(name, sub), (name, parse_known_args sub [])) <$> subs) argv.

(** ** Well-formed parsers *)

(** The type of what an action stores when it is taken, and of what it leaves. *)
Definition stored_ty (a : action) : ty :=
  match does a with
  | StoreTrue | BooleanOptional | Help => TBool
  | Append => TList (elem (conv a))
  | SubCommand => TText
  | Store => match nargs a with OneOrMore => TList (elem (conv a)) | _ => elem (conv a) end
  end.
Definition result_ty (a : action) : ty :=
  if required a then stored_ty a
  else match initial a with VNone => TOption (stored_ty a) | _ => stored_ty a end.

Definition chosen (a : action) (v : value) : bool :=
  match does a, nargs a with
  | Store, OneOrMore => match v with VList l => forallb (allowed a) l | _ => false end
  | Store, _ | SubCommand, _ => allowed a v
  | _, _ => true
  end.

(** The effect fits the arity; the default has the type of what is stored; a
    textual default is what it converts to. *)
Definition well_declared (a : action) : bool :=
  match does a, nargs a with
  | Store, One | Store, OneOrMore | Append, One => true
  | Store, AtMostOne => positional_action a && negb (required a)
  | StoreTrue, Zero | BooleanOptional, Zero | Help, Zero => true
  | SubCommand, Remaining => required a && bool_decide (type_name (conv a) = "str")
                             && match elem (conv a) with TText => true | _ => false end
  | _, _ => false
  end
  && (bool_decide (initial a = VNone) || has_type (stored_ty a) (initial a))
  && match initial a with
     | VText s => match convert (conv a) s with Ok v => bool_decide (v = VText s) | Err _ => false end
     | _ => true
     end.
Definition well_formed (p : parser) : bool :=
  forallb well_declared (actions p) && bool_decide (NoDup (dest <$> actions p)).

Lemma well_formed_declared p a : well_formed p = true → a ∈ actions p → well_declared a = true.
Proof.
  unfold well_formed. rewrite andb_true_iff, forallb_forall. intros [H _] Ha.
  apply H. by apply list_elem_of_In.
Qed.

Lemma well_formed_unique p a b :
  well_formed p = true → a ∈ actions p → b ∈ actions p → dest a = dest b → a = b.
Proof.
  unfold well_formed. rewrite andb_true_iff, bool_decide_eq_true. intros [_ H] Ha Hb E.
  apply list_elem_of_lookup in Ha as [i Ha], Hb as [j Hb].
  assert (i = j) as ->.
  { eapply NoDup_lookup; [exact H| |]; rewrite list_lookup_fmap; [rewrite Ha|rewrite Hb]; simpl;
      [reflexivity|by rewrite E]. }
  by rewrite Ha in Hb; injection Hb as ->.
Qed.

(** ** What arguments an action gets *)

Definition args_fit (a : action) (args : list string) : Prop :=
  (nargs a = One → length args = 1%nat) ∧ (nargs a = AtMostOne → (length args ≤ 1)%nat) ∧
  (nargs a = Remaining → args ≠ []).

Lemma elem_of_down_from n m k : k ∈ down_from n m → (m ≤ k ≤ n)%nat.
Proof.
  induction n as [|n IH]; cbn [down_from];
    match goal with |- context [(?x <? m)%nat] => destruct (Nat.ltb_spec0 x m) as [E|E] end;
    try by intros ?%not_elem_of_nil.
  - intros ->%list_elem_of_singleton. lia.
  - intros [->|H]%elem_of_cons; [lia|]. apply IH in H. lia.
Qed.

Lemma run_length_take {A} (f : A → bool) l n :
  (n ≤ run_length f l)%nat → Forall (λ x, f x = true) (take n l) ∧ (n ≤ length l)%nat.
Proof.
  revert n. induction l as [|x l IH]; intros n Hn; simpl in *.
  - split; [by rewrite take_nil|lia].
  - destruct n as [|n]; [split; [by constructor|lia]|].
    destruct (f x) eqn:E; [|lia]. destruct (IH n) as [H1 H2]; [lia|].
    split; [by constructor|lia].
Qed.

Lemma no_dashes_left l :
  Forall (λ t, is_dash t = true) l → filter (λ t, is_dash t = false) l = [].
Proof. intros H. apply filter_none. eapply Forall_impl; [exact H|]. by intros t ->. Qed.

(** The strings besides [--] in a prefix that matches an arity. *)
Definition strings_in (n : nat) (toks : list token) : nat :=
  length (filter (λ t, is_dash t = false) (take n toks)).

Lemma prefix_dashes toks n :
  (n ≤ run_length is_dash toks)%nat → strings_in n toks = 0%nat.
Proof. intros H. unfold strings_in. by rewrite no_dashes_left by apply run_length_take, H. Qed.

Lemma prefix_one toks s rest n :
  drop (run_length is_dash toks) toks = TokA s :: rest →
  (run_length is_dash toks + 1 ≤ n ≤ run_length is_dash toks + 1 + run_length is_dash rest)%nat →
  strings_in n toks = 1%nat.
Proof.
  intros E Hn. unfold strings_in.
  set (k := run_length is_dash toks) in *.
  assert (take n toks = take k toks ++ TokA s :: take (n - k - 1) rest) as ->.
  { rewrite <- (take_drop k toks) at 1. rewrite take_app.
    destruct (run_length_take is_dash toks k (le_n _)) as [_ Hk].
    rewrite take_take, length_take, Nat.min_r, (Nat.min_l k) by lia. f_equal.
    rewrite E. destruct (n - k)%nat as [|m] eqn:?; [lia|]. simpl. by rewrite Nat.sub_0_r. }
  rewrite filter_app, filter_cons_True by done.
  by rewrite !no_dashes_left by (apply run_length_take; lia).
Qed.

Lemma prefixes_one toks n : n ∈ prefixes One toks → strings_in n toks = 1%nat.
Proof.
  unfold prefixes. destruct (drop _ toks) as [|[s rs|s|] rest] eqn:E; try by intros ?%not_elem_of_nil.
  intros H%elem_of_down_from. by eapply prefix_one.
Qed.

Lemma prefixes_at_most_one toks n : n ∈ prefixes AtMostOne toks → (strings_in n toks ≤ 1)%nat.
Proof.
  unfold prefixes. destruct (drop _ toks) as [|[s rs|s|] rest] eqn:E.
  1,2,4: intros H%elem_of_down_from; rewrite prefix_dashes; lia.
  intros [H|H]%elem_of_app; apply elem_of_down_from in H.
  - by rewrite (prefix_one _ _ _ _ E).
  - rewrite prefix_dashes; lia.
Qed.

Lemma prefixes_remaining toks n :
  n ∈ prefixes Remaining toks →
  match take n toks with TokDash :: toks => toks | _ => take n toks end ≠ [].
Proof.
  unfold prefixes. destruct (drop _ toks) as [|[s rs|s|] rest] eqn:E; try by intros ?%not_elem_of_nil.
  intros H%elem_of_down_from. destruct toks as [|t toks]; [done|].
  destruct n as [|n]; [lia|]. destruct t; try done.
  cbn [run_length is_dash drop take] in *. destruct n as [|n]; [lia|].
  destruct toks as [|t toks]; [done|]. done.
Qed.

Lemma prefix_fits a toks n :
  n ∈ prefixes (nargs a) toks → args_fit a (strings_of a (take n toks)).
Proof.
  intros H. unfold strings_of.
  split_and!; intros E; rewrite E in *.
  - rewrite length_fmap. by apply prefixes_one.
  - rewrite length_fmap. by apply prefixes_at_most_one.
  - intros Hnil%fmap_nil_inv. by apply prefixes_remaining in H.
Qed.

(** Each count is one its arity admits where it is applied. *)
Fixpoint counts_fit (l : list arity) (counts : list nat) (toks : list token) : Prop :=
  match l, counts with
  | n :: l, k :: counts => k ∈ prefixes n toks ∧ counts_fit l counts (drop k toks)
  | _, [] => True
  | [], _ :: _ => False
  end.

Lemma match_all_fit l toks counts : match_all l toks = Some counts → counts_fit l counts toks.
Proof.
  revert toks counts. induction l as [|n l IH]; intros toks counts; simpl; [by intros [= <-]|].
  intros H. apply head_Some_elem_of, list_elem_of_omap in H as (k & Hk & H).
  destruct (match_all l (drop k toks)) as [c|] eqn:E; [|done]. injection H as <-.
  split; [done|]. by apply IH.
Qed.

Lemma counts_fit_zeros l counts toks :
  counts_fit l counts toks → counts_fit l (drop_trailing_zeros counts) toks.
Proof.
  revert l toks. induction counts as [|k counts IH]; intros l toks; [done|].
  destruct l as [|n l]; [done|]. intros [Hk H]. simpl. specialize (IH _ _ H).
  destruct (drop_trailing_zeros counts) as [|k' c'].
  - case_bool_decide; [done|]. split; [done|]. by destruct l.
  - by split.
Qed.

Lemma counts_fit_take n l counts toks : counts_fit (take n l) counts toks → counts_fit l counts toks.
Proof.
  revert n counts toks. induction l as [|a l IH]; intros n counts toks; [by rewrite take_nil|].
  destruct n as [|n]; simpl; [by destruct counts|].
  destruct counts as [|k counts]; [done|]. intros [Hk H]. split; [done|]. by eapply IH.
Qed.

Lemma match_partial_fit l toks : counts_fit l (match_partial l toks) toks.
Proof.
  unfold match_partial. generalize (length l). intros n.
  induction n as [|n IH]; [by destruct l|]. cbn [match_partial_go].
  destruct (match_all _ toks) as [counts|] eqn:E; [|done].
  apply match_all_fit, counts_fit_take in E.
  destruct (next_is_option counts toks); [by apply counts_fit_zeros|done].
Qed.

(** ** Options refer to actions of the parser *)

Definition reading_ok (p : parser) (r : reading) : Prop := ∀ a, r_action r = Some a → a ∈ actions p.
Definition token_ok (p : parser) (t : token) : Prop :=
  match t with TokO _ rs => Forall (reading_ok p) rs | _ => True end.

Lemma option_table_actions p s a : (s, a) ∈ option_table p → a ∈ actions p.
Proof.
  unfold option_table. intros (b & H & Hb)%list_elem_of_bind.
  by apply list_elem_of_fmap in H as (? & [= -> ->] & _).
Qed.

Lemma find_option_actions p s a : find_option p s = Some a → a ∈ actions p.
Proof.
  unfold find_option. intros ([n b] & H & ->)%fmap_Some.
  apply head_Some_elem_of, list_elem_of_filter in H as [_ H]. by eapply option_table_actions.
Qed.

Lemma option_tuples_ok p s : Forall (reading_ok p) (option_tuples p s).
Proof.
  unfold option_tuples. destruct (partition_equals s) as [prefix e].
  destruct (is_long s).
  - apply Forall_fmap, Forall_forall. intros [n a] [_ H]%list_elem_of_filter b [= <-].
    by eapply option_table_actions.
  - apply Forall_forall. intros r ([n a] & Hr & H)%list_elem_of_bind.
    destruct (String.eqb n _); [|destruct (starts_with _ _); [|by apply not_elem_of_nil in Hr]];
      apply list_elem_of_singleton in Hr as ->; intros b [= <-]; by eapply option_table_actions.
Qed.

Lemma classify_ok p argv : Forall (token_ok p) (classify p argv).
Proof.
  induction argv as [|s argv IH]; cbn [classify]; [by constructor|].
  destruct (String.eqb s "--").
  { constructor; [done|]. apply Forall_fmap, Forall_forall. done. }
  constructor; [|done]. destruct (parse_optional p s) as [rs|] eqn:E; [|done]. simpl.
  unfold parse_optional in E. destruct (chars s) as [|c rest]; [done|].
  assert (∀ name e, Forall (reading_ok p)
            [{| r_action := find_option p name; r_option := name; r_explicit := e |}]) as Hfind.
  { intros name e. constructor; [|by constructor]. intros a. by apply find_option_actions. }
  destruct (negb _); [done|]. case_bool_decide; [injection E as <-; apply Hfind|].
  case_bool_decide; [done|]. destruct (partition_equals s) as [name e].
  destruct (bool_decide (is_Some e) && _); [injection E as <-; apply Hfind|].
  pose proof (option_tuples_ok p s) as Ho. destruct (option_tuples p s) as [|r l].
  - destruct (_ || _); [done|]. injection E as <-. constructor; [|by constructor]. by intros a.
  - by injection E as <-.
Qed.

(** ** What is planned for an option fits *)

Definition planned_ok (p : parser) (t : action * list string * string) : Prop :=
  t.1.1 ∈ actions p ∧ args_fit t.1.1 t.1.2.

Lemma match_argument_fits a toks n :
  match_argument a toks = Ok n → args_fit a (token_text <$> take n toks).
Proof.
  unfold match_argument, args_fit. intros H.
  split_and!; intros E; rewrite E in H; destruct toks as [|[] toks]; try done;
    injection H as <-; simpl; try done; lia.
Qed.

Lemma match_argument_single a s n :
  match_argument a [TokA s] = Ok n → n = 1%nat → args_fit a [s].
Proof. intros H ->. by apply match_argument_fits in H. Qed.

Lemma match_argument_none a s : match_argument a [TokA s] = Ok 0%nat → args_fit a [].
Proof. intros H. by apply match_argument_fits in H. Qed.

Lemma with_following_ok p a flag rest r :
  a ∈ actions p → with_following a flag rest = Ok r → Forall (planned_ok p) (to_take r).
Proof.
  intros Ha H. unfold with_following in H. apply bind_Ok in H as (n & Hn & [= <-]).
  constructor; [|by constructor]. split; [done|]. by apply match_argument_fits.
Qed.

Lemma with_explicit_ok p n a flag sep value rest r :
  (length value ≤ n)%nat → a ∈ actions p →
  with_explicit p a flag sep value rest = Ok r → Forall (planned_ok p) (to_take r).
Proof.
  revert a flag sep value rest r. induction n as [n IH] using lt_wf_ind.
  intros a flag sep value rest r Hn Ha H.
  destruct value as [|c value']; cbn [with_explicit] in H;
    apply bind_Ok in H as (k & Hk & H); destruct k as [|[|k]]; try done.
  - injection H as <-. constructor; [|by constructor]. split; [done|]. by eapply match_argument_single.
  - destruct (is_long flag); [done|]. destruct (_ || _); [done|].
    assert (planned_ok p (a, [], flag)) as Hfirst.
    { split; [done|]. by eapply match_argument_none. }
    destruct (find_option p _) as [b|] eqn:Hb;
      [|by injection H as <-; repeat constructor; try apply Hfirst].
    apply find_option_actions in Hb.
    match type of H with take_first _ <$> ?m = _ => destruct m as [r'|] eqn:E; [|done] end.
    injection H as <-. constructor; [done|]. simpl in Hn.
    destruct value' as [|e value'']; [by eapply with_following_ok|]. simpl in Hn.
    destruct (Ascii.eqb "=" e); eapply (IH (n - 1)%nat); try exact E; simpl; try done; lia.
  - injection H as <-. constructor; [|by constructor]. split; [done|]. by eapply match_argument_single.
Qed.

Lemma plan_option_ok p s rs rest r :
  Forall (reading_ok p) rs → plan_option p s rs rest = Ok r → Forall (planned_ok p) (to_take r).
Proof.
  intros Hrs H. destruct rs as [|r0 [|]]; try done. apply Forall_cons_1 in Hrs as [Hr _].
  simpl in H. destruct (r_action r0) as [a|] eqn:E; [|injection H as <-; by constructor].
  specialize (Hr a E). destruct (r_explicit r0) as [[sep v]|].
  - by eapply with_explicit_ok.
  - by eapply with_following_ok.
Qed.

(** ** Invariants of parsing *)

Section invariant.
Context (p : parser) (commands : Commands) (P : namespace → list string → Prop).
Hypothesis step : ∀ a args flag st st',
  a ∈ actions p → args_fit a args → take_action p commands a args flag st = Ok st' →
  P (ns st) (seen st) → P (ns st') (seen st').

Definition holds (st : state) : Prop := P (ns st) (seen st) ∧ Forall (λ a, a ∈ actions p) (waiting st).

Lemma take_action_waiting a args flag st st' :
  take_action p commands a args flag st = Ok st' → waiting st' = waiting st.
Proof.
  unfold take_action. intros H. apply bind_Ok in H as (v & _ & H).
  destruct (match args, nargs a with [], AtMostOne => false | _, _ => true end);
    [destruct (head _); [done|]|];
    apply bind_Ok in H as ([m u] & _ & H); by injection H as <-.
Qed.

Lemma take_all_holds l st st' :
  Forall (planned_ok p) l → take_all p commands l st = Ok st' → holds st → holds st'.
Proof.
  revert st. induction l as [|[[a args] flag] l IH]; intros st Hl H Hst; [by injection H as <-|].
  apply Forall_cons_1 in Hl as [[Ha Hargs] Hl]. unfold take_all in H. cbn [foldM] in H.
  apply bind_Ok in H as (st1 & H1 & H). apply (IH st1); [done|done|].
  destruct Hst as [HP Hw]. split; [by eapply step|]. by rewrite (take_action_waiting _ _ _ _ _ H1).
Qed.

Lemma consume_optional_holds s rs rest st st' n :
  Forall (reading_ok p) rs → consume_optional p commands s rs rest st = Ok (st', n) →
  holds st → holds st'.
Proof.
  intros Hrs H Hst. unfold consume_optional in H.
  apply bind_Ok in H as (r & Hr & H). apply bind_Ok in H as (st1 & H1 & [= <- <-]).
  by eapply take_all_holds; [eapply plan_option_ok| |].
Qed.

Lemma take_positionals_holds l counts toks st st' n :
  Forall (λ a, a ∈ actions p) l → counts_fit (nargs <$> l) counts toks →
  take_positionals p commands l counts toks st = Ok (st', n) → holds st → holds st'.
Proof.
  revert counts toks st st' n. induction l as [|a l IH]; intros counts toks st st' n Hl Hc H Hst;
    [by injection H as <- <-|].
  destruct counts as [|k counts]; [by injection H as <- <-|].
  apply Forall_cons_1 in Hl as [Ha Hl]. destruct Hc as [Hk Hc]. cbn [take_positionals] in H.
  apply bind_Ok in H as (st1 & H1 & H). apply bind_Ok in H as ([st2 m] & H2 & [= <- <-]).
  eapply IH; [done|exact Hc|exact H2|]. destruct Hst as [HP Hw].
  split; [eapply step; [exact Ha|by apply prefix_fits|exact H1|done]|].
  by rewrite (take_action_waiting _ _ _ _ _ H1).
Qed.

Lemma consume_positionals_holds toks st st' n :
  consume_positionals p commands toks st = Ok (st', n) → holds st → holds st'.
Proof.
  intros H Hst. unfold consume_positionals in H.
  apply bind_Ok in H as ([st1 m] & H1 & [= <- <-]). pose proof Hst as [_ Hw].
  apply take_positionals_holds in H1 as [HP _]; [|done|apply match_partial_fit|done].
  split; [done|]. simpl. by apply Forall_drop.
Qed.

Lemma add_extras_holds l st : holds st → holds (add_extras l st).
Proof. done. Qed.

Lemma consume_holds toks skip st st' rest :
  Forall (token_ok p) toks → consume p commands toks skip st = Ok (st', rest) →
  holds st → holds st'.
Proof.
  revert skip st. induction toks as [|t toks IH]; intros skip st Ht H Hst;
    [by injection H as -> _|].
  apply Forall_cons_1 in Ht as [Ht1 Ht]. destruct skip as [|skip]; [|destruct t; by eapply IH].
  assert (∀ st1, holds st1 → ∀ t0, 
    (if existsb is_opt toks then
       '(st, n) ← consume_positionals p commands (t0 :: toks) st1;
        match n with
        | S n => consume p commands toks n st
        | O => let k := run_length (λ t, negb (is_opt t)) toks in
               consume p commands toks k (add_extras (token_text <$> t0 :: take k toks) st)
        end
      else Ok (st1, t0 :: toks)) = Ok (st', rest) → holds st') as Hpos.
  { intros st1 Hst1 t0 H1. destruct (existsb is_opt toks); [|by injection H1 as <- <-].
    apply bind_Ok in H1 as ([st2 n] & H2 & H1). apply consume_positionals_holds in H2; [|done].
destruct n as [|n]; (eapply IH; [done|exact H1|]); [by apply add_extras_holds|done]. }
  destruct t as [s rs|s|]; cbn [consume] in H; [|by eapply Hpos|by eapply Hpos].
  apply bind_Ok in H as ([st1 n] & H1 & H).
  eapply IH; [done|exact H|]. by eapply consume_optional_holds.
Qed.

Lemma parse_known_holds argv m u :
  P (initial_ns p) [] → parse_known_args p commands argv = Ok (m, u) →
  ∃ st, holds st ∧ finish p st = Ok (m, u).
Proof.
  intros H0 H. unfold parse_known_args in H.
  apply bind_Ok in H as ([st1 rest] & H1 & H). apply bind_Ok in H as ([st2 n] & H2 & H).
  eexists; split; [|exact H]. apply add_extras_holds.
  eapply consume_positionals_holds; [exact H2|].
  eapply consume_holds; [apply classify_ok|exact H1|]. split; [done|].
  apply Forall_forall. intros a. simpl. rewrite list_elem_of_filter. by intros [_ ?].
Qed.
End invariant.

(** ** Types of values *)

Lemma has_type_list t l : has_type (TList t) (VList l) = true ↔ Forall (λ v, has_type t v = true) l.
Proof.
  unfold has_type. rewrite bool_decide_eq_true. simpl. rewrite mapM_is_Some.
  split; intros H; (eapply Forall_impl; [exact H|]); intros v; simpl; by rewrite bool_decide_eq_true.
Qed.

Lemma has_type_option t v : has_type t v = true → has_type (TOption t) v = true.
Proof.
  unfold has_type. rewrite !bool_decide_eq_true. intros [x Hx].
  destruct v; simpl; try rewrite Hx; simpl; eauto.
Qed.

Lemma has_type_cast t v : has_type t v = true → ∃ x, cast t v = Some x.
Proof. unfold has_type. rewrite bool_decide_eq_true. by intros [x Hx]; exists x. Qed.

Lemma get_value_typed a s v : get_value a s = Ok v → has_type (elem (conv a)) v = true.
Proof.
  unfold get_value. destruct (convert (conv a) s) as [w|e] eqn:E; [intros [= <-]|by destruct e].
  by apply convert_typed in E.
Qed.

Lemma checked_value_good a s v :
  checked_value a s = Ok v → has_type (elem (conv a)) v = true ∧ allowed a v = true.
Proof.
  intros H. unfold checked_value in H. apply bind_Ok in H as (w & Hw & H).
  apply bind_Ok in H as ([] & Hc & H). injection H as ->. split; [by eapply get_value_typed|].
  unfold check_value in Hc. apply guard_Ok in Hc as [Hc _]. by apply negb_false_iff in Hc.
Qed.

Lemma get_values_list a args v :
  (l ← mapR (get_value a) args; _ ← mapR (check_value a) l; Ok (VList l)) = Ok v →
  has_type (TList (elem (conv a))) v = true ∧ ∃ l, v = VList l ∧ Forall (λ v, allowed a v = true) l.
Proof.
  intros H. apply bind_Ok in H as (l & Hl & H). apply bind_Ok in H as (us & Hu & H). injection H as <-.
  apply mapR_Ok in Hl, Hu. split.
  - apply has_type_list, Forall_forall. intros v Hv.
    apply list_elem_of_lookup in Hv as [i Hv]. destruct (Forall2_lookup_r _ _ _ _ _ Hl Hv) as (s & _ & E).
    by eapply get_value_typed.
  - exists l. split; [done|]. apply Forall_forall. intros v Hv.
    apply list_elem_of_lookup in Hv as [i Hv]. destruct (Forall2_lookup_l _ _ _ _ _ Hu Hv) as (u & _ & E).
    unfold check_value in E. apply guard_Ok in E as [E _]. by apply negb_false_iff in E.
Qed.

(** ** The type of a namespace *)

Definition good (a : action) (v : value) : Prop := has_type (stored_ty a) v = true ∧ chosen a v = true.

Section typed.
Context (p : parser) (commands : Commands).
Hypothesis wf : well_formed p = true.
(** What a command defines is no destination of its parser. *)
Hypothesis separate : ∀ name f args m u a,
  (name, f) ∈ commands → f args = Ok (m, u) → a ∈ actions p → does a ≠ Help → m !! dest a = None.

Definition typed (m : namespace) (seen : list string) : Prop :=
  ∀ a, a ∈ actions p → does a ≠ Help →
    ∃ v, m !! dest a = Some v ∧ (good a v ∨ (v = initial a ∧ (dest a ∈ seen → required a = false))).

Lemma get_values_store a args v :
  well_declared a = true → does a = Store → args_fit a args → get_values a args = Ok v →
  good a v ∨ (v = initial a ∧ required a = false).
Proof.
  unfold well_declared, good, stored_ty, chosen, get_values, args_fit. intros Hwf Hs (H1 & H2 & _) H. rewrite Hs in *.
  rewrite !andb_true_iff in Hwf. destruct Hwf as [[Hd _] Hi].
  destruct (nargs a) eqn:En; try done.
  - specialize (H1 eq_refl). destruct args as [|s [|]]; try done. left. by eapply checked_value_good.
  - specialize (H2 eq_refl). apply andb_true_iff in Hd as [Hp Hr]. rewrite Hp in H.
    apply negb_true_iff in Hr. destruct args as [|s [|]]; [|left; by eapply checked_value_good|simpl in H2; lia].
    destruct (initial a) eqn:Ei; try (right; by injection H as <-). left. by eapply checked_value_good.
  - apply get_values_list in H as (Ht & l & -> & Hl). left. split; [done|].
    apply forallb_forall. intros w Hw. apply list_elem_of_In in Hw. by eapply Forall_forall in Hl.
Qed.

Lemma get_values_append a args v :
  well_declared a = true → does a = Append → args_fit a args → get_values a args = Ok v →
  has_type (elem (conv a)) v = true.
Proof.
  unfold well_declared, get_values, args_fit. intros Hwf Hs [H1 _] H. rewrite Hs in *.
  destruct (nargs a); try done. specialize (H1 eq_refl). destruct args as [|s [|]]; try done.
  by eapply checked_value_good.
Qed.

Lemma get_values_command a args v name rest :
  well_declared a = true → does a = SubCommand → get_values a args = Ok v →
  texts v = name :: rest → good a (VText name).
Proof.
  unfold well_declared, get_values, good, stored_ty, chosen. intros Hwf Hs H Ht. rewrite Hs in *.
  destruct (nargs a) eqn:En; try done. apply bind_Ok in H as (l & Hl & H). destruct l as [|w l]; [done|].
  apply bind_Ok in H as (u & Hc & H). injection H as <-. split; [done|].
  apply mapR_Ok in Hl. inversion Hl as [|s w' ss l' Hw _]; subst.
  apply get_value_typed in Hw. apply andb_true_iff in Hwf as [Hwf _].
  rewrite !andb_true_iff in Hwf. destruct Hwf as [[[_ _] He] _].
  destruct (elem (conv a)); try done. destruct w; try done. simpl in Ht. injection Ht as -> _.
  unfold check_value in Hc. apply guard_Ok in Hc as [Hc _]. by apply negb_false_iff in Hc.
Qed.

(** What taking an action leaves at its own destination and at the others. *)
Lemma apply_action_other a b v flag m m' u :
  a ∈ actions p → b ∈ actions p → does b ≠ Help → dest b ≠ dest a →
  apply_action commands a v flag m = Ok (m', u) → m' !! dest b = m !! dest b.
Proof.
  unfold apply_action. intros Ha Hb Hh Hne H. destruct (does a);
    try (injection H as <- _; by rewrite lookup_insert_ne); try done.
  destruct (texts v) as [|name args]; [done|].
  destruct (head _) as [[n f]|] eqn:E; [|done]. apply head_Some_elem_of, list_elem_of_filter in E as [_ E].
  apply bind_Ok in H as ([sub rest] & Hf & H). injection H as <- _.
  rewrite lookup_union_r by (by eapply separate). by rewrite lookup_insert_ne.
Qed.

Lemma apply_action_own a args v flag m m' u :
  a ∈ actions p → args_fit a args → get_values a args = Ok v → does a ≠ Help →
  (∃ w, m !! dest a = Some w ∧ (good a w ∨ w = initial a)) →
  apply_action commands a v flag m = Ok (m', u) →
  ∃ w, m' !! dest a = Some w ∧ (good a w ∨ (w = initial a ∧ required a = false)).
Proof.
  intros Ha Hargs Hv Hh (w & Hw & Hgood) H. pose proof (well_formed_declared _ _ wf Ha) as Hd.
  unfold apply_action in H. destruct (does a) eqn:E; try done.
  - injection H as <- _. rewrite lookup_insert_eq. eexists; split; [done|].
    by eapply get_values_store.
  - injection H as <- _. rewrite lookup_insert_eq. eexists; split; [done|]. left.
    unfold good, stored_ty, chosen. rewrite E. done.
  - injection H as <- _. rewrite lookup_insert_eq, Hw. eexists; split; [done|]. left.
    unfold good, stored_ty, chosen. rewrite E. split; [|done].
    apply has_type_list, Forall_app. split.
    + assert (w = VNone ∨ has_type (TList (elem (conv a))) w = true) as [->|Ht].
      { destruct Hgood as [[Ht _]| ->]; [unfold stored_ty in Ht; rewrite E in Ht; by right|].
        unfold well_declared, stored_ty in Hd. rewrite E in Hd. rewrite !andb_true_iff in Hd.
        destruct Hd as [[_ Hd] _]. apply orb_true_iff in Hd as [Hd|Hd]; [left|by right].
        by apply bool_decide_eq_true in Hd. }
      * by constructor.
      * destruct w; try done. by apply has_type_list.
    + constructor; [|by constructor]. by eapply get_values_append.
  - injection H as <- _. rewrite lookup_insert_eq. eexists; split; [done|]. left.
    unfold good, stored_ty, chosen. rewrite E. done.
  - destruct (texts v) as [|name rest] eqn:Et; [done|].
    destruct (head _) as [[n f]|] eqn:Ef; [|done]. apply head_Some_elem_of, list_elem_of_filter in Ef as [_ Ef].
    apply bind_Ok in H as ([sub k] & Hf & H). injection H as <- _.
    rewrite lookup_union_r by (eapply separate; try done; by rewrite E). rewrite lookup_insert_eq.
    eexists; split; [done|]. left. by eapply get_values_command.
Qed.

Lemma take_action_result a args flag st st' :
  take_action p commands a args flag st = Ok st' →
  ∃ v u, get_values a args = Ok v ∧ apply_action commands a v flag (ns st) = Ok (ns st', u) ∧
    seen st' = seen st ++ [dest a].
Proof.
  unfold take_action. intros H. apply bind_Ok in H as (v & Hv & H). exists v.
  destruct (match args, nargs a with [], AtMostOne => false | _, _ => true end);
    [destruct (head _); [done|]|];
    apply bind_Ok in H as ([m u] & Hm & H); injection H as <-; eauto.
Qed.

Lemma typed_step a args flag st st' :
  a ∈ actions p → args_fit a args → take_action p commands a args flag st = Ok st' →
  typed (ns st) (seen st) → typed (ns st') (seen st').
Proof.
  intros Ha Hargs H Ht b Hb Hh. apply take_action_result in H as (v & u & Hv & H & ->).
  destruct (decide (dest b = dest a)) as [Eq|Ne].
  - pose proof (well_formed_unique _ _ _ wf Hb Ha Eq) as ->.
    destruct (apply_action_own a args v flag (ns st) (ns st') u) as (w & Hw & Hc); try done.
    { destruct (Ht a Ha Hh) as (w & Hw & [Hg|[-> _]]); eauto. }
    exists w. split; [done|]. destruct Hc as [Hg|[-> Hr]]; [by left|by right].
  - rewrite (apply_action_other _ _ _ _ _ _ _ Ha Hb Hh Ne H).
    destruct (Ht b Hb Hh) as (w & Hw & Hc). exists w. split; [done|].
    destruct Hc as [Hg|[-> Hr]]; [by left|right]. split; [done|].
    intros [Hs|Hs%list_elem_of_singleton]%elem_of_app; [by apply Hr|done].
Qed.

Lemma initial_ns_lookup a :
  a ∈ actions p → does a ≠ Help → initial_ns p !! dest a = Some (initial a).
Proof.
  unfold initial_ns. intros Ha Hh.
  pose proof (proj2 (proj1 (andb_true_iff _ _) wf)) as Hn. apply bool_decide_eq_true in Hn.
  apply list_elem_of_split in Ha as (l1 & l2 & Hl). rewrite Hl in *. rewrite foldl_app. simpl.
  rewrite fmap_app in Hn. apply NoDup_app in Hn as (_ & H1 & H2).
  apply NoDup_cons in H2 as [H2 _].
  assert (∀ l m d, d ∉ dest <$> l → foldl set_initial m l !! d = m !! d) as Hout.
  { induction l as [|b l IH]; intros m d Hd; [done|]. simpl.
    apply not_elem_of_cons in Hd as [Hd1 Hd2]. rewrite IH by done. unfold set_initial.
    destruct (does b); try done; destruct (m !! dest b); by rewrite ?lookup_insert_ne by done. }
  rewrite Hout by done. unfold set_initial at 1.
  assert (foldl set_initial ∅ l1 !! dest a = None) as ->.
  { rewrite Hout; [by rewrite lookup_empty|]. intros Hd. apply (H1 _ Hd). left. }
  destruct (does a); by rewrite ?lookup_insert_eq.
Qed.

Lemma typed_initial : typed (initial_ns p) [].
Proof.
  intros a Ha Hh. exists (initial a). split; [by apply initial_ns_lookup|]. right. split; [done|].
  by intros ?%not_elem_of_nil.
Qed.

Lemma convert_defaults m m' l :
  Forall (λ a, a ∈ actions p) l → foldM convert_default m l = Ok m' → m' = m.
Proof.
  revert m. induction l as [|a l IH]; intros m Hl H; [by injection H as ->|].
  apply Forall_cons_1 in Hl as [Ha Hl]. cbn [foldM] in H. apply bind_Ok in H as (m1 & H1 & H).
  apply IH in H as ->; [|done]. clear IH Hl. unfold convert_default in H1.
  pose proof (well_formed_declared _ _ wf Ha) as Hd. unfold well_declared in Hd.
  apply andb_true_iff in Hd as [_ Hd]. destruct (initial a) as [| | | |s| | |]; try by injection H1 as ->.
  case_bool_decide as Hm; [|by injection H1 as ->]. apply bind_Ok in H1 as (v & Hv & H1).
  injection H1 as <-. unfold get_value in Hv. destruct (convert (conv a) s); [|done].
  injection Hv as ->. apply bool_decide_eq_true in Hd as ->. by apply insert_id.
Qed.

Lemma finish_typed st m u a :
  typed (ns st) (seen st) → finish p st = Ok (m, u) → a ∈ actions p → does a ≠ Help →
  ∃ v, m !! dest a = Some v ∧ (good a v ∨ (v = initial a ∧ required a = false)).
Proof.
  intros Ht H Ha Hh. unfold finish in H. apply bind_Ok in H as (m1 & Hm & H).
  apply convert_defaults in Hm as ->.
  2:{ apply Forall_forall. intros b. rewrite list_elem_of_filter. by intros [_ ?]. }
  apply guard_Ok in H as [Hr H]. injection H as <- <-. apply negb_false_iff, bool_decide_eq_true in Hr.
  destruct (Ht a Ha Hh) as (v & Hv & Hc). exists v. split; [done|].
  destruct Hc as [?|[-> Hs]]; [by left|right]. split; [done|].
  destruct (required a) eqn:E; [|done]. apply Hs. destruct (decide (dest a ∈ seen st)); [done|].
  exfalso. unfold missing in Hr. apply fmap_nil_inv in Hr.
  apply (not_elem_of_nil a). rewrite <- Hr. apply list_elem_of_filter. done.
Qed.

Lemma good_result a v :
  a ∈ actions p → good a v ∨ (v = initial a ∧ required a = false) →
  has_type (result_ty a) v = true ∧ (chosen a v = true ∨ v = initial a).
Proof.
  intros Ha [[Ht Hc]|[-> Hr]].
  - split; [|by left]. unfold result_ty. destruct (required a); [done|].
    destruct (initial a); try done. by apply has_type_option.
  - split; [|by right]. unfold result_ty. rewrite Hr.
    pose proof (well_formed_declared _ _ wf Ha) as Hd. unfold well_declared in Hd.
    rewrite !andb_true_iff in Hd. destruct Hd as [[_ Hd] _]. apply orb_true_iff in Hd as [Hd|Hd].
    + apply bool_decide_eq_true in Hd as ->. done.
    + destruct (initial a); done.
Qed.

Lemma parse_known_typed argv m u a :
  parse_known_args p commands argv = Ok (m, u) → a ∈ actions p → does a ≠ Help →
  ∃ v, m !! dest a = Some v ∧ has_type (result_ty a) v = true ∧ (chosen a v = true ∨ v = initial a).
Proof.
  intros H Ha Hh.
  destruct (parse_known_holds p commands typed typed_step argv m u typed_initial H)
    as (st & [Ht _] & Hf).
  destruct (finish_typed _ _ _ _ Ht Hf Ha Hh) as (v & Hv & Hc). exists v. split; [done|].
  by apply good_result.
Qed.

Lemma parse_with_known argv m :
  parse_with p commands argv = Ok m → parse_known_args p commands argv = Ok (m, []).
Proof.
  intros H. unfold parse_with in H. apply bind_Ok in H as ([m' u] & Hm & H).
  apply guard_Ok in H as [Hu H]. injection H as ->.
  apply negb_false_iff, bool_decide_eq_true in Hu as ->. done.
Qed.
End typed.

Lemma parse_typed p argv m a :
  well_formed p = true → parse_args p argv = Ok m → a ∈ actions p → does a ≠ Help →
  ∃ v, m !! dest a = Some v ∧ has_type (result_ty a) v = true ∧ (chosen a v = true ∨ v = initial a).
Proof.
  intros Hwf H Ha Hh. apply parse_with_known in H.
  eapply parse_known_typed; try done. by intros name f args m' u b ?%not_elem_of_nil.
Qed.

(** ** Commands with parsers of their own *)

(** A parser defines nothing besides the destinations of its actions. *)
Lemma parse_known_keys p argv m u d :
  parse_known_args p [] argv = Ok (m, u) → d ∉ dest <$> actions p → m !! d = None.
Proof.
  intros H. revert d. set (P := λ (m : namespace) (_ : list string), ∀ d, d ∉ dest <$> actions p → m !! d = None).
  assert (∀ (m' : namespace) (a : action) v d, a ∈ actions p → d ∉ dest <$> actions p →
            m' !! d = None → <[dest a := v]> m' !! d = None) as Hins.
  { intros m' a v d Ha Hd Hm. rewrite lookup_insert_ne; [done|]. intros <-. apply Hd.
    by apply list_elem_of_fmap_2. }
  destruct (parse_known_holds p [] P) with argv m u as (st & [HP _] & Hf); try done.
  - intros a args flag st st' Ha _ Ht HP d Hd. apply take_action_result in Ht as (v & k & _ & Ht & _).
    unfold apply_action in Ht. destruct (does a); try done;
      try (injection Ht as <- _; apply Hins; [done|done|by apply HP]).
    by destruct (texts v).
  - intros d Hd. unfold initial_ns.
    assert (∀ l m', Forall (λ a, a ∈ actions p) l → m' !! d = None → foldl set_initial m' l !! d = None) as Hl.
    { induction l as [|a l IH]; intros m' Hl Hm; [done|]. apply Forall_cons_1 in Hl as [Ha Hl].
      apply IH; [done|]. unfold set_initial. destruct (does a); try done;
        (destruct (m' !! dest a); [done|by apply Hins]). }
    apply Hl; [by apply Forall_forall|by rewrite lookup_empty].
  - unfold finish in Hf. apply bind_Ok in Hf as (m1 & Hm & Hf). apply guard_Ok in Hf as [_ Hf].
    injection Hf as <- _. intros d Hd. revert Hm. specialize (HP d Hd). revert HP. generalize (ns st).
    assert (Forall (λ a, a ∈ actions p) (filter (λ a, dest a ∉ seen st) (actions p))) as Hl.
    { apply Forall_forall. intros b. rewrite list_elem_of_filter. by intros [_ ?]. }
    revert Hl. generalize (filter (λ a, dest a ∉ seen st) (actions p)).
    induction l as [|a l IH]; intros Hl m0 Hm0 Hm; [by injection Hm as <-|].
    apply Forall_cons_1 in Hl as [Ha Hl]. cbn [foldM] in Hm. apply bind_Ok in Hm as (m2 & Hm2 & Hm).
    apply (IH Hl m2); [|done]. unfold convert_default in Hm2.
    destruct (initial a); try (by injection Hm2 as <-).
    case_bool_decide; [|by injection Hm2 as <-]. apply bind_Ok in Hm2 as (v & _ & [= <-]).
    by apply Hins.
Qed.

Lemma parse_command_typed d names subs argv m :
  Forall (λ '(_, sub), well_formed sub = true ∧ d ∉ dest <$> actions sub) subs → d ≠ "help" →
  parse_command (argument_parser [sub_commands d names]) subs argv = Ok m →
  ∃ name sub, (name, sub) ∈ subs ∧ name ∈ names ∧ m !! d = Some (VText name) ∧
    ∀ a, a ∈ actions sub → does a ≠ Help →
      ∃ v, m !! dest a = Some v ∧ has_type (result_ty a) v = true ∧ (chosen a v = true ∨ v = initial a).
Proof.
  intros Hsubs Hd H. apply parse_with_known in H.
  set (p := argument_parser [sub_commands d names]) in *.
  set (commands := (λ '(name, sub), (name, parse_known_args sub [])) <$> subs) in *.
  assert (well_formed p = true) as Hwf.
  { unfold well_formed. apply andb_true_iff. split; [reflexivity|]. apply bool_decide_eq_true. simpl.
    repeat constructor; set_solver. }
  assert (∀ name f, (name, f) ∈ commands →
            ∃ sub, (name, sub) ∈ subs ∧ f = parse_known_args sub [] ∧ well_formed sub = true ∧
              d ∉ dest <$> actions sub) as Hc.
  { intros name f ([n sub] & [= -> ->] & Hin)%list_elem_of_fmap.
    pose proof (proj1 (Forall_forall _ _) Hsubs _ Hin) as [? ?]. by exists sub. }
  assert (∀ name f args m u a, (name, f) ∈ commands → f args = Ok (m, u) → a ∈ actions p →
            does a ≠ Help → m !! dest a = None) as Hsep.
  { intros name f args m' u a Hf Hok Ha Hh. destruct (Hc _ _ Hf) as (sub & _ & -> & _ & Hout).
    eapply parse_known_keys; [exact Hok|]. apply elem_of_cons in Ha as [->|Ha]; [done|].
    by apply list_elem_of_singleton in Ha as ->. }
  set (P := λ (m : namespace) (seen : list string), d ∈ seen →
    ∃ name f args sm u, (name, f) ∈ commands ∧ f args = Ok (sm, u) ∧ name ∈ names ∧
      m !! d = Some (VText name) ∧ sm ⊆ m).
  destruct (parse_known_holds p commands P) with argv m ([] : list string)
    as (st & [HP _] & Hf); [|by intros ?%not_elem_of_nil|done|].
  - intros a args flag st st' Ha Hargs Ht _ _. apply take_action_result in Ht as (v & k & Hv & Ht & _).
    unfold p in Ha. simpl in Ha. apply elem_of_cons in Ha as [->|Ha]; [done|].
    apply list_elem_of_singleton in Ha as ->. unfold apply_action in Ht. cbn [does sub_commands] in Ht.
    destruct (texts v) as [|name rest] eqn:Et; [done|].
    destruct (head _) as [[n f]|] eqn:E; [|done].
    apply head_Some_elem_of, list_elem_of_filter in E as [En E]. simpl in En. subst n.
    apply bind_Ok in Ht as ([sm u] & Hok & Ht). injection Ht as <- _.
    exists name, f, rest, sm, u. split; [done|]. split; [done|]. split; [|split].
    + assert (good (sub_commands d names) (VText name)) as [_ Hn].
      { eapply get_values_command; try done; by apply (well_formed_declared p); [done|right; left]. }
      unfold chosen, allowed in Hn. simpl in Hn. apply bool_decide_eq_true in Hn.
      apply list_elem_of_fmap in Hn as (? & [= <-] & ?). done.
    + rewrite lookup_union_r; [apply lookup_insert_eq|].
      apply (Hsep _ _ _ _ _ (sub_commands d names) E Hok); [by right; left|done].
    + apply map_union_subseteq_l.
  - pose proof Hf as Hf'. unfold finish in Hf. apply bind_Ok in Hf as (m1 & Hm & Hf).
    apply (convert_defaults p Hwf) in Hm as ->.
    2:{ apply Forall_forall. intros b. rewrite list_elem_of_filter. by intros [_ ?]. }
    apply guard_Ok in Hf as [Hr Hf]. injection Hf as <- _.
    apply negb_false_iff, bool_decide_eq_true in Hr.
    destruct HP as (name & f & args & sm & u & Hin & Hok & Hn & Hname & Hsub).
    { destruct (decide (d ∈ seen st)); [done|]. exfalso. unfold missing in Hr. apply fmap_nil_inv in Hr.
      apply (not_elem_of_nil (sub_commands d names)). rewrite <- Hr. apply list_elem_of_filter.
      split; [done|]. by right; left. }
    destruct (Hc _ _ Hin) as (sub & Hs & -> & Hwfs & _). exists name, sub.
    split; [done|]. split; [done|]. split; [done|]. intros a Ha Hh.
    destruct (parse_known_typed sub [] Hwfs) with args sm u a as (v & Hv & Ht); try done.
    { by intros ? ? ? ? ? ? ?%not_elem_of_nil. }
    exists v. split; [|done]. by eapply lookup_weaken.
Qed.

(** ** Reading a namespace *)

(** [args.name], with the type it was declared with. *)
Definition attr (m : namespace) (name : string) (t : ty) : result (interp t) :=
  match m !! name with
  | Some v => match cast t v with
              | Some x => Ok x
              | None => Err (TypeError name)
              end
  | None => Err (AttributeError name)
  end.

(** The type a parser declares for a destination. *)
Definition declared (p : parser) (name : string) : option ty :=
  result_ty <$> head (filter (λ a, dest a = name ∧ negb (match does a with Help => true | _ => false end) = true)
                        (actions p)).

Lemma typed_attr (l : list action) (m : namespace) name t :
  (∀ a, a ∈ l → does a ≠ Help →
     ∃ v, m !! dest a = Some v ∧ has_type (result_ty a) v = true ∧ (chosen a v = true ∨ v = initial a)) →
  result_ty <$> head (filter (λ a, dest a = name ∧ negb (match does a with Help => true | _ => false end) = true) l)
    = Some t →
  ∃ x, attr m name t = Ok x.
Proof.
  intros H Ht. apply fmap_Some in Ht as (a & Ha & ->).
  apply head_Some_elem_of, list_elem_of_filter in Ha as [[<- Hd] Ha].
  destruct (H a Ha) as (v & Hv & Htype & _); [by intros E; rewrite E in Hd|].
  unfold attr. rewrite Hv. destruct (has_type_cast _ _ Htype) as [x ->]. by exists x.
Qed.

Lemma attr_declared p argv m name t :
  well_formed p = true → parse_args p argv = Ok m → declared p name = Some t → ∃ x, attr m name t = Ok x.
Proof. intros Hwf Hm. apply typed_attr. intros a. by apply parse_typed with (argv := argv). Qed.

(** Evaluates the reads of the declared attributes of a parsed namespace. *)
Ltac read_attrs Hm :=
  lazymatch type of Hm with
  | parse_args ?p ?argv = Ok ?m =>
      let Hwf := fresh "Hwf" in
      assert (well_formed p = true) as Hwf by (vm_compute; reflexivity);
      repeat match goal with
      | |- context [attr m ?name ?t] =>
          let x := fresh "x" in let E := fresh "E" in
          destruct (attr_declared p argv m name t Hwf Hm eq_refl) as [x E];
          rewrite E; cbn [mbind result_bind]
      end
  end.

(** ** How parsing stops *)

(** The help text, or an error message and the usage. *)
Definition is_exit (e : exn) : Prop := e = SystemExit 0 ∨ ∃ msg, e = ExitWith msg.
Definition exits {A} (r : result A) : Prop := ∀ e, r = Err e → is_exit e.

Lemma exits_Ok {A} (x : A) : exits (Ok x).
Proof. done. Qed.
Lemma exits_with {A} msg : exits (A := A) (Err (ExitWith msg)).
Proof. intros e [= <-]. right. by eexists. Qed.
Lemma exits_bind {A B} (r : result A) (f : A → result B) :
  exits r → (∀ x, r = Ok x → exits (f x)) → exits (r ≫= f).
Proof.
  intros Hr Hf e. destruct r as [x|e']; simpl; [by apply Hf|]. intros [= ->]. by apply Hr.
Qed.
Lemma exits_mapR {A B} (f : A → result B) l : (∀ x, exits (f x)) → exits (mapR f l).
Proof.
  intros Hf. induction l as [|x l IH]; cbn [mapR]; [apply exits_Ok|].
  apply exits_bind; [done|]. intros y _. apply exits_bind; [done|]. intros ys _. apply exits_Ok.
Qed.
#[local] Hint Resolve exits_Ok exits_with exits_mapR : core.

Lemma argument_error_exits {A} a msg : exits (argument_error (A := A) a msg).
Proof. apply exits_with. Qed.
#[local] Hint Resolve argument_error_exits : core.

Lemma get_value_exits a s : exits (get_value a s).
Proof.
  unfold get_value. destruct (convert (conv a) s) as [v|e] eqn:E; [auto|].
  apply convert_errors in E. by destruct e.
Qed.
Lemma check_value_exits a v : exits (check_value a v).
Proof. unfold check_value. destruct (negb _); auto. Qed.
#[local] Hint Resolve get_value_exits check_value_exits : core.

Lemma checked_value_exits a s : exits (checked_value a s).
Proof. apply exits_bind; [auto|]. intros v _. apply exits_bind; auto. Qed.
#[local] Hint Resolve checked_value_exits : core.

Lemma mapR_nonempty {A B} (f : A → result B) l l' : mapR f l = Ok l' → l ≠ [] → l' ≠ [].
Proof. intros H Hl ->. apply mapR_Ok in H. by inversion H; subst. Qed.

Lemma get_values_exits a args : args_fit a args → exits (get_values a args).
Proof.
  intros (_ & _ & H). unfold get_values.
  assert (exits (l ← mapR (get_value a) args; _ ← mapR (check_value a) l; Ok (VList l))) as Hl.
  { apply exits_bind; [auto|]. intros l _. apply exits_bind; auto. }
  destruct (nargs a) eqn:En; [done|by destruct args as [|s []]| |done|].
  - destruct args as [|s []]; auto. destruct (initial a), (positional_action a); auto.
  - apply exits_bind; [auto|]. intros l Hm. apply mapR_nonempty in Hm; [|auto].
    destruct l; [done|]. apply exits_bind; auto.
Qed.

Section exits.
Context (p : parser) (commands : Commands).
Hypothesis wf : well_formed p = true.
Hypothesis commands_exit : ∀ name f args, (name, f) ∈ commands → exits (f args).

Lemma command_texts a args v :
  well_declared a = true → does a = SubCommand → args_fit a args → get_values a args = Ok v →
  texts v ≠ [].
Proof.
  unfold well_declared, get_values. intros Hd Hs (_ & _ & Hargs) H. rewrite Hs in *.
  destruct (nargs a); try done. apply bind_Ok in H as (l & Hl & H).
  pose proof (mapR_nonempty _ _ _ Hl (Hargs eq_refl)) as Hne. apply mapR_Ok in Hl.
  destruct l as [|w l]; [done|]. apply bind_Ok in H as (u & _ & [= <-]).
  inversion Hl as [|s w' ss l' Hw _]; subst. apply get_value_typed in Hw.
  rewrite !andb_true_iff in Hd. destruct Hd as [[[_ He] _] _].
  destruct (elem (conv a)); try done. by destruct w.
Qed.

Lemma take_action_exits a args flag st :
  a ∈ actions p → args_fit a args → exits (take_action p commands a args flag st).
Proof.
  intros Ha Hargs. unfold take_action. apply exits_bind; [by apply get_values_exits|].
  intros v Hv. assert (exits (apply_action commands a v flag (ns st))) as Happly.
  { pose proof (well_formed_declared _ _ wf Ha) as Hd. unfold apply_action.
    destruct (does a) eqn:E; auto; [by intros e [= <-]; left|].
    pose proof (command_texts a args v Hd E Hargs Hv) as Ht. destruct (texts v) as [|name rest]; [done|].
    destruct (head _) as [[n f]|] eqn:Ef; [|auto].
    apply head_Some_elem_of, list_elem_of_filter in Ef as [_ Ef].
    apply exits_bind; [by eapply commands_exit|]. intros [sub u] _. auto. }
  destruct (match args, nargs a with [], AtMostOne => false | _, _ => true end);
    [destruct (head _); [auto|]|]; (apply exits_bind; [done|]; intros [m u] _; auto).
Qed.

Lemma take_all_exits l st : Forall (planned_ok p) l → exits (take_all p commands l st).
Proof.
  revert st. induction l as [|[[a args] flag] l IH]; intros st Hl; [apply exits_Ok|].
  apply Forall_cons_1 in Hl as [[Ha Hargs] Hl]. unfold take_all. cbn [foldM].
  apply exits_bind; [by apply take_action_exits|]. intros st' _. by apply IH.
Qed.

Lemma match_argument_exits a toks : exits (match_argument a toks).
Proof.
  unfold match_argument. destruct (nargs a), toks as [|[] toks]; auto; case_goal; auto.
Qed.

Lemma with_following_exits a flag rest : exits (with_following a flag rest).
Proof. apply exits_bind; [apply match_argument_exits|auto]. Qed.

Lemma with_explicit_exits n a flag sep value rest :
  (length value ≤ n)%nat → exits (with_explicit p a flag sep value rest).
Proof.
  revert a flag sep value. induction n as [n IH] using lt_wf_ind. intros a flag sep value Hn.
  destruct value as [|c value]; cbn [with_explicit];
    (apply exits_bind; [apply match_argument_exits|]); intros k _; destruct k as [|[|k]]; auto.
  destruct (is_long flag); auto. destruct (_ || _); auto. destruct (find_option p _) as [b|]; auto.
  assert (exits match value with
                | [] => with_following b (of_chars ["-"%char; c]) rest
                | e :: value'' =>
                    if Ascii.eqb "=" e then with_explicit p b (of_chars ["-"%char; c]) "=" value'' rest
                    else with_explicit p b (of_chars ["-"%char; c]) "" value rest
                end) as Hm.
  { simpl in Hn. destruct value as [|e value'']; [apply with_following_exits|]. simpl in Hn.
    destruct (Ascii.eqb "=" e); apply (IH (n - 1)%nat); simpl; lia. }
  intros e. revert Hm. generalize (match value with
                | [] => with_following b (of_chars ["-"%char; c]) rest
                | e :: value'' =>
                    if Ascii.eqb "=" e then with_explicit p b (of_chars ["-"%char; c]) "=" value'' rest
                    else with_explicit p b (of_chars ["-"%char; c]) "" value rest
                end).
  intros [r|e'] Hm; [done|]. simpl. intros [= <-]. by apply Hm.
Qed.

Lemma consume_optional_exits s rs rest st :
  Forall (reading_ok p) rs → exits (consume_optional p commands s rs rest st).
Proof.
  intros Hrs. unfold consume_optional. apply exits_bind.
  - unfold plan_option. destruct rs as [|r []]; auto. destruct (r_action r); auto.
    destruct (r_explicit r) as [[sep v]|]; [by eapply with_explicit_exits|apply with_following_exits].
  - intros r Hr. apply exits_bind; [|auto]. apply take_all_exits. by eapply plan_option_ok.
Qed.

Lemma take_positionals_exits l counts toks st :
  Forall (λ a, a ∈ actions p) l → counts_fit (nargs <$> l) counts toks →
  exits (take_positionals p commands l counts toks st).
Proof.
  revert counts toks st. induction l as [|a l IH]; intros counts toks st Hl Hc; [apply exits_Ok|].
  destruct counts as [|k counts]; [apply exits_Ok|]. apply Forall_cons_1 in Hl as [Ha Hl].
  destruct Hc as [Hk Hc]. cbn [take_positionals].
  apply exits_bind; [by apply take_action_exits, prefix_fits|]. intros st1 _.
  apply exits_bind; [by apply IH|]. intros [st2 m] _. auto.
Qed.

Definition trivially : namespace → list string → Prop := λ _ _, True.

Lemma consume_positionals_exits toks st :
  holds p trivially st → exits (consume_positionals p commands toks st).
Proof.
  intros [_ Hw]. apply exits_bind; [|by intros [st1 n] _; auto].
  apply take_positionals_exits; [done|apply match_partial_fit].
Qed.

Lemma consume_exits toks skip st :
  Forall (token_ok p) toks → holds p trivially st → exits (consume p commands toks skip st).
Proof.
  revert skip st. induction toks as [|t toks IH]; intros skip st Ht Hst; [apply exits_Ok|].
  apply Forall_cons_1 in Ht as [Ht1 Ht]. destruct skip as [|skip]; [|destruct t; by apply IH].
  destruct t as [s rs|s|]; cbn [consume].
  1: { apply exits_bind; [by apply consume_optional_exits|]. intros [st1 n] H1.
       apply IH; [done|]. by eapply consume_optional_holds. }
  all: destruct (existsb is_opt toks); auto.
  all: apply exits_bind; [by apply consume_positionals_exits|]; intros [st1 n] H1.
  all: apply consume_positionals_holds with (P := trivially) in H1; [|done|done].
  all: destruct n as [|n]; apply IH; auto; by apply add_extras_holds.
Qed.

Lemma finish_exits st : exits (finish p st).
Proof.
  apply exits_bind.
  - generalize (filter (λ a, dest a ∉ seen st) (actions p)) (ns st).
    induction l as [|a l IH]; intros m; [apply exits_Ok|]. cbn [foldM].
    apply exits_bind; [|by intros; apply IH]. unfold convert_default.
    destruct (initial a); auto. case_bool_decide; auto. apply exits_bind; auto.
  - intros m _. destruct (negb _); auto.
Qed.

Lemma parse_known_exits argv : exits (parse_known_args p commands argv).
Proof.
  assert (holds p trivially (start p)) as H0.
  { split; [done|]. apply Forall_forall. intros a. simpl. rewrite list_elem_of_filter. by intros [_ ?]. }
  apply exits_bind; [by apply consume_exits; [apply classify_ok|]|]. intros [st rest] Hst.
  apply consume_holds with (P := trivially) in Hst; [|done|apply classify_ok|done].
  apply exits_bind; [by apply consume_positionals_exits|]. intros [st1 n] _. apply finish_exits.
Qed.

Lemma parse_with_exits argv : exits (parse_with p commands argv).
Proof.
  apply exits_bind; [apply parse_known_exits|]. intros [m u] _. destruct (negb _); auto.
Qed.
End exits.

Lemma parse_args_exits p argv : well_formed p = true → exits (parse_args p argv).
Proof. intros Hwf. apply parse_with_exits; [done|]. by intros name f args ?%not_elem_of_nil. Qed.

Lemma parse_command_exits p subs argv :
  well_formed p = true → Forall (λ '(_, sub), well_formed sub = true) subs →
  exits (parse_command p subs argv).
Proof.
  intros Hwf Hsubs. apply parse_with_exits; [done|].
  intros name f args ([n sub] & [= -> ->] & Hin)%list_elem_of_fmap.
  pose proof (proj1 (Forall_forall _ _) Hsubs _ Hin) as Hs. simpl in Hs.
  apply parse_known_exits; [done|]. by intros ? ? ? ?%not_elem_of_nil.
Qed.
