(* ===== verification/Machine.v ===== *)
(** * Programs over files

    The host a program runs on: files with their texts, directories, and the two
    output streams.  A program changes the host and returns or raises; [changes]
    bounds the files a program may change, and [spares] says that it changes none
    unless it succeeds.

    A file is the sequence of its characters, one byte each, and can be read when it
    exists; a path stands for itself, so a file reached by two different paths is two
    files. *)

From stdpp Require Import base numbers list strings gmap.
From Stdlib Require Import ZArith Lia Ascii.
From S2P Require Import Prelude PyText Bytes Csv CsvText PyJson Argparse.

Open Scope Z_scope.

(** ** The host *)

Record host := {
  files : gmap string string; dirs : gset string; unwritable : gset string;
  out : string; err : string }.

Definition with_files (f : gmap string string) (h : host) : host :=
  {| files := f; dirs := dirs h; unwritable := unwritable h;
     out := out h; err := err h |}.
Definition with_dirs (d : gset string) (h : host) : host :=
  {| files := files h; dirs := d; unwritable := unwritable h;
     out := out h; err := err h |}.
Definition with_out (text : string) (h : host) : host :=
  {| files := files h; dirs := dirs h; unwritable := unwritable h;
     out := text; err := err h |}.
Definition with_err (text : string) (h : host) : host :=
  {| files := files h; dirs := dirs h; unwritable := unwritable h;
     out := out h; err := text |}.

(** A program that returns a value or raises. *)
Definition prog (A : Type) : Type := host → result A * host.
#[export] Instance prog_ret : MRet prog := λ A a h, (Ok a, h).
#[export] Instance prog_bind : MBind prog := λ A B f m h,
  match m h with (Ok a, h') => f a h' | (Err e, h') => (Err e, h') end.

Definition lift {A} (r : result A) : prog A := λ h, (r, h).
Definition throw {A} (e : exn) : prog A := lift (Err e).
(** [try: ... except]: the handler takes over unless it declines. *)
Definition catch {A} (m : prog A) (handler : exn → option (prog A)) : prog A := λ h,
  match m h with
  | (Err e, h') => match handler e with Some k => k h' | None => (Err e, h') end
  | r => r
  end.

Fixpoint each {A B} (f : A → prog B) (l : list A) : prog (list B) :=
  match l with
  | [] => mret []
  | x :: l => y ← f x; ys ← each f l; mret (y :: ys)
  end.

(** ** Errors *)

Definition is_os_error (e : exn) : bool :=
  match e with FileNotFoundError _ | OSError _ | TimeoutError _ => true | _ => false end.
Definition is_value_error (e : exn) : bool := match e with ValueError _ => true | _ => false end.

(** [str(error)] *)
Definition message (e : exn) : string :=
  match e with
  | ValueError m | TypeError m | OverflowError m | StructError m | RuntimeError m | KeyError m
  | AttributeError m | IndexError m | ZeroDivisionError m | TimeoutError m | TimeoutExpired m
  | FileNotFoundError m | OSError m | ArgumentTypeError m | ExitWith m => m
  | StopIteration => ""
  | SystemExit z => str_int z
  end.

Definition no_such_file (path : string) : exn :=
  FileNotFoundError ("[Errno 2] No such file or directory: " +:+ repr path).
Definition permission_denied (path : string) : exn :=
  OSError ("[Errno 13] Permission denied: " +:+ repr path).
Definition file_exists (path : string) : exn := OSError ("[Errno 17] File exists: " +:+ repr path).
Definition is_a_directory (path : string) : exn :=
  OSError ("[Errno 21] Is a directory: " +:+ repr path).

(** ** Paths *)

Definition parent (path : string) : string :=
  path_of (path_root (chars path)) (removelast (path_parts path)).
(** The directories above a directory, outermost first, and itself. *)
Definition ancestors (dir : string) : list string :=
  let parts := path_parts dir in
  (λ n, path_of (path_root (chars dir)) (take n parts)) <$> seq 1 (length parts).
Definition slash (dir name : string) : string := path_text (dir +:+ "/" +:+ name).
(** [path.with_suffix(path.suffix + ext)] of a path with a name. *)
Definition add_suffix (path ext : string) : string := path +:+ ext.

(** The order of paths: part by part. *)
Fixpoint parts_le (a b : list string) : bool :=
  match a, b with
  | [], _ => true
  | _, [] => false
  | x :: a, y :: b => if String.eqb x y then parts_le a b else String.leb x y
  end.
Definition path_le (a b : string) : Prop :=
  parts_le (of_chars <$> split_all "/" (chars a)) (of_chars <$> split_all "/" (chars b)) = true.
#[export] Instance path_le_dec a b : Decision (path_le a b).
Proof. apply bool_eq_dec. Defined.

(** ** Operations *)

Definition is_file (path : string) : prog bool := λ h, (Ok (bool_decide (is_Some (files h !! path))), h).
Definition is_dir (path : string) : prog bool := λ h, (Ok (bool_decide (path ∈ dirs h)), h).

Definition read_file (path : string) : prog string := λ h,
  match files h !! path with
  | Some text => (Ok text, h)
  | None => (Err (if bool_decide (path ∈ dirs h) then is_a_directory path else no_such_file path), h)
  end.

(** Text mode: each kind of line end is a line feed. *)
Fixpoint universal_newlines (s : list ascii) : list ascii :=
  match s with
  | [] => []
  | c :: s =>
      if Ascii.eqb c CR then
        LF :: match s with
              | d :: s' => if Ascii.eqb d LF then universal_newlines s' else universal_newlines s
              | [] => []
              end
      else c :: universal_newlines s
  end.
Definition read_text (path : string) : prog string :=
  text ← read_file path; mret (of_chars (universal_newlines (chars text))).
Definition read_bytes (path : string) : prog (list Z) := text ← read_file path; mret (bytes_of text).
(** The texts of the files there are. *)
Definition snapshot : prog (string → option string) := λ h,
  (Ok (λ path, (λ text, of_chars (universal_newlines (chars text))) <$> files h !! path), h).
(** Below a directory, by the parts of the paths. *)
Definition below (dir path : string) : Prop :=
  path_root (chars dir) = path_root (chars path) ∧
  path_parts dir `prefix_of` path_parts path ∧ path_parts dir ≠ path_parts path.
#[export] Instance below_dec dir path : Decision (below dir path).
Proof. unfold below. apply _. Defined.
(** [dir.rglob(pattern)]: the files and directories below whose names match. *)
Definition rglob (dir : string) (matches : list ascii → Prop) `{!∀ name, Decision (matches name)}
    : prog (list string) := λ h,
  (Ok (filter (λ path, below dir path ∧ matches (default [] (last (path_parts path))))
         ((map_to_list (files h)).*1 ++ elements (dirs h))), h).

(** [csv.DictReader] over a file opened with its line ends kept. *)
Definition read_table (path : string) : prog Table := text ← read_file path; lift (csv_table text).

Definition write_text (path text : string) : prog unit := λ h,
  if bool_decide (path ∈ dirs h) then (Err (is_a_directory path), h)
  else if bool_decide (parent path ∉ dirs h) then (Err (no_such_file path), h)
  else if bool_decide (path ∈ unwritable h) then (Err (permission_denied path), h)
  else (Ok tt, with_files (<[path := text]> (files h)) h).
Definition text_of_bytes (data : list Z) : string := of_chars (char_of <$> data).
Definition write_bytes (path : string) (data : list Z) : prog unit := write_text path (text_of_bytes data).
Definition unlines (lines : list string) : string := foldr (λ l text, l +:+ newline +:+ text) "" lines.

(** [dir.mkdir(parents=True, exist_ok=True)] *)
Definition make_dir (dir : string) : prog unit := λ h,
  if bool_decide (dir ∈ dirs h) then (Ok tt, h)
  else if bool_decide (is_Some (files h !! dir)) then (Err (file_exists dir), h)
  else if bool_decide (dir ∈ unwritable h) then (Err (permission_denied dir), h)
  else (Ok tt, with_dirs ({[dir]} ∪ dirs h) h).
Definition make_dirs (dir : string) : prog unit := _ ← each make_dir (ancestors dir); mret ().
(** [path.parent.mkdir(parents=True, exist_ok=True); path.write_text(text)] *)
Definition put_text (path text : string) : prog unit :=
  _ ← make_dirs (parent path); write_text path text.

(** A write to a file that is open. *)
Definition append_text (path text : string) : prog unit := λ h,
  (Ok tt, with_files (alter (λ old, old +:+ text) path (files h)) h).

Definition print_text (text : string) : prog unit := λ h, (Ok tt, with_out (out h +:+ text) h).
Definition print_line (text : string) : prog unit := print_text (text +:+ newline).
Definition print_lines (lines : list string) : prog unit := print_text (unlines lines).
Definition print_error (text : string) : prog unit := λ h, (Ok tt, with_err (err h +:+ text +:+ newline) h).

(** ** Programs *)

(** [parser.error(message)]; the usage text before it is not in the model. *)
Definition parser_error {A} (text : string) : prog A :=
  _ ← print_error ("error: " +:+ text); throw (SystemExit 2).
(** [parse_args] and the attribute accesses after it. *)
Definition parse {A} (parses : list string → result namespace) (read : namespace → result A)
    (argv : list string) : prog A :=
  match parses argv with
  | Ok m => lift (read m)
  | Err (ExitWith text) => parser_error text
  | Err e => throw e
  end.

(** [except (OSError, ValueError) as error: print(f"{name}: {error}", file=sys.stderr); return 2] *)
Definition reporting (name : string) (m : prog Z) : prog Z :=
  catch m (λ e, if is_os_error e || is_value_error e
                then Some (_ ← print_error (name +:+ ": " +:+ message e); mret 2) else None).

(** The exit status of [raise SystemExit(main())]: a message or any other
    exception is printed to the error stream and gives one. *)
Definition exit_status (r : result Z) : Z :=
  match r with Ok status | Err (SystemExit status) => status | Err _ => 1 end.

(** ** What a program may change *)

(** From [h] to [h'] only the files in [P] changed, directories were only added
    and the permissions are the same. *)
Record changed (P : string → Prop) (h h' : host) : Prop := {
  changed_files : ∀ path, ¬ P path → files h' !! path = files h !! path;
  changed_dirs : dirs h ⊆ dirs h';
  changed_unwritable : unwritable h' = unwritable h }.

Lemma changed_refl P h : changed P h h.
Proof. by split. Qed.
Lemma changed_trans P h1 h2 h3 : changed P h1 h2 → changed P h2 h3 → changed P h1 h3.
Proof.
  intros [F1 D1 W1] [F2 D2 W2]. split; [|set_solver|congruence].
  intros path Hp. rewrite F2, F1 by done. done.
Qed.
#[export] Instance changed_preorder P : PreOrder (changed P).
Proof. split; [intros h; apply changed_refl|intros h1 h2 h3; apply changed_trans]. Qed.

Definition changes {A} (P : string → Prop) (m : prog A) : Prop := ∀ h, changed P h (m h).2.

Lemma changes_weaken {A} (P Q : string → Prop) (m : prog A) :
  (∀ path, P path → Q path) → changes P m → changes Q m.
Proof. intros HPQ Hm h. destruct (Hm h) as [F D W]. split; auto. Qed.

Lemma changes_ret {A} P (a : A) : changes P (mret a).
Proof. intros h. done. Qed.
Lemma changes_lift {A} P (r : result A) : changes P (lift r).
Proof. intros h. done. Qed.
Lemma changes_throw {A} P e : changes P (throw (A := A) e).
Proof. intros h. done. Qed.
(** What follows may depend on what the first step returned. *)
Lemma changes_then {A B} P (m : prog A) (f : A → prog B) :
  changes P m → (∀ h a h', m h = (Ok a, h') → changes P (f a)) → changes P (m ≫= f).
Proof.
  intros Hm Hf h. unfold mbind, prog_bind. pose proof (Hm h) as Hc. destruct (m h) as [[a|e] h'] eqn:E; simpl in *;
    [|done]. etrans; [exact Hc|by eapply Hf].
Qed.
Lemma changes_bind {A B} P (m : prog A) (f : A → prog B) :
  changes P m → (∀ a, changes P (f a)) → changes P (m ≫= f).
Proof.
  intros Hm Hf h. unfold mbind, prog_bind. specialize (Hm h). destruct (m h) as [[a|e] h']; simpl in *; [|done].
  etrans; [exact Hm|apply Hf].
Qed.
Lemma changes_catch {A} P (m : prog A) handler :
  changes P m → (∀ e k, handler e = Some k → changes P k) → changes P (catch m handler).
Proof.
  intros Hm Hk h. unfold catch. specialize (Hm h). destruct (m h) as [[a|e] h']; simpl in *; [done|].
  destruct (handler e) as [k|] eqn:E; [|done]. etrans; [exact Hm|by eapply Hk].
Qed.
Lemma changes_each {A B} P (f : A → prog B) l : (∀ x, changes P (f x)) → changes P (each f l).
Proof.
  intros Hf. induction l as [|x l IH]; simpl; [apply changes_ret|].
  apply changes_bind; [done|]. intros y. apply changes_bind; [done|]. intros ys. apply changes_ret.
Qed.

Lemma changes_is_file P path : changes P (is_file path).
Proof. intros h. done. Qed.
Lemma changes_is_dir P path : changes P (is_dir path).
Proof. intros h. done. Qed.
Lemma changes_snapshot P : changes P snapshot.
Proof. intros h. done. Qed.
Lemma changes_rglob P dir matches `{!∀ name, Decision (matches name)} : changes P (rglob dir matches).
Proof. intros h. done. Qed.
Lemma changes_read P path : changes P (read_file path).
Proof. intros h. unfold read_file. by destruct (files h !! path). Qed.
Lemma changes_write (P : string → Prop) path text : P path → changes P (write_text path text).
Proof.
  intros Hp h. unfold write_text. repeat case_bool_decide; try done. split; [|done..].
  intros path' Hp'. simpl. apply lookup_insert_ne. by intros ->.
Qed.
Lemma changes_append (P : string → Prop) path text : P path → changes P (append_text path text).
Proof.
  intros Hp h. split; [|done..]. intros path' Hp'. simpl. apply lookup_alter_ne. by intros ->.
Qed.
Lemma changes_make_dir P dir : changes P (make_dir dir).
Proof. intros h. unfold make_dir. repeat case_bool_decide; try done. split; [done|simpl; set_solver|done..]. Qed.
Lemma changes_print P text : changes P (print_text text).
Proof. intros h. done. Qed.
Lemma changes_error P text : changes P (print_error text).
Proof. intros h. done. Qed.

Create HintDb changes.
#[export] Hint Resolve changes_ret changes_lift changes_throw changes_each changes_is_file changes_is_dir
  changes_snapshot changes_rglob changes_read changes_make_dir changes_print changes_error : changes.

(** Proves [changes P m] by the structure of [m]. *)
Ltac changes_tac :=
  repeat first
    [ progress intros
    | solve [auto with changes]
    | apply changes_bind | apply changes_each
    | apply changes_write; solve [set_solver]
    | progress unfold reporting, parser_error, read_text, read_bytes, read_table, write_bytes, put_text,
        make_dirs, print_line, print_lines
    | apply changes_catch
    | match goal with
      | |- changes _ (match ?x with _ => _ end) => destruct x
      | H : (if ?b then Some _ else None) = Some _ |- _ => destruct b; [injection H as <-|discriminate H]
      end ].

Lemma changes_make_dirs P dir : changes P (make_dirs dir).
Proof. changes_tac. Qed.
Lemma changes_put (P : string → Prop) path text : P path → changes P (put_text path text).
Proof. intros Hp. apply changes_bind; [apply changes_make_dirs|]. intros []. by apply changes_write. Qed.

(** It only looks at the host. *)
Definition observes {A} (m : prog A) : Prop := ∀ h, (m h).2 = h.
Lemma observes_lift {A} (r : result A) : observes (lift r).
Proof. done. Qed.
Lemma observes_ret {A} (a : A) : observes (mret a).
Proof. done. Qed.
Lemma observes_throw {A} e : observes (throw (A := A) e).
Proof. done. Qed.
Lemma observes_bind {A B} (m : prog A) (f : A → prog B) :
  observes m → (∀ a, observes (f a)) → observes (m ≫= f).
Proof.
  intros Hm Hf h. unfold mbind, prog_bind. specialize (Hm h). destruct (m h) as [[a|e] h']; simpl in *; [|done].
  subst. apply Hf.
Qed.
Lemma observes_is_file path : observes (is_file path).
Proof. done. Qed.
Lemma observes_is_dir path : observes (is_dir path).
Proof. done. Qed.
Lemma observes_rglob dir matches `{!∀ name, Decision (matches name)} : observes (rglob dir matches).
Proof. done. Qed.
Lemma observes_read path : observes (read_file path).
Proof. intros h. unfold read_file. by destruct (files h !! path). Qed.
Lemma observes_run {A} (m : prog A) h a h' : observes m → m h = (Ok a, h') → h' = h.
Proof. intros Hm E. specialize (Hm h). by rewrite E in Hm. Qed.
Create HintDb observes.
#[export] Hint Resolve observes_lift observes_ret observes_throw observes_is_file observes_is_dir
  observes_rglob observes_read : observes.
Ltac observes_tac :=
  repeat first
    [ progress intros | solve [auto with observes] | apply observes_bind
    | progress unfold read_text, read_bytes, read_table
    | match goal with |- observes (match ?x with _ => _ end) => destruct x end ].

(** ** Programs that change files only when they succeed *)

(** It changes no file at all. *)
Definition quiet {A} (m : prog A) : Prop := ∀ h, files (m h).2 = files h.
(** Unless it returns, it leaves every file as it was. *)
Definition spares {A} (m : prog A) : Prop :=
  ∀ h, match m h with (Ok _, _) => True | (Err _, h') => files h' = files h end.
(** It returns [x] whatever the host is. *)
Definition returns {A} (m : prog A) (x : A) : Prop := ∀ h, (m h).1 = Ok x.
(** Unless its status is zero, it leaves every file as it was. *)
Definition commits (m : prog Z) : Prop :=
  ∀ h, match m h with (Ok Z0, _) => True | (_, h') => files h' = files h end.

Lemma changes_quiet {A} (m : prog A) : changes (λ _, False) m → quiet m.
Proof. intros Hm h. apply map_eq. intros path. apply (changed_files _ _ _ (Hm h)). tauto. Qed.
Lemma quiet_commits m : quiet m → commits m.
Proof. intros Hm h. specialize (Hm h). destruct (m h) as [[[]|] ?]; done. Qed.
Lemma spares_quiet {A} (m : prog A) : quiet m → spares m.
Proof. intros Hm h. specialize (Hm h). by destruct (m h) as [[] ?]. Qed.
Lemma spares_bind {A B} (m : prog A) (f : A → prog B) : quiet m → (∀ a, spares (f a)) → spares (m ≫= f).
Proof.
  intros Hm Hf h. unfold mbind, prog_bind. specialize (Hm h). destruct (m h) as [[a|e] h']; simpl in *; [|done].
  specialize (Hf a h'). destruct (f a h') as [[b|e] h'']; [done|congruence].
Qed.
Lemma write_spares path text : spares (write_text path text).
Proof. intros h. unfold write_text. by repeat case_bool_decide. Qed.

Lemma returns_ret {A} (x : A) : returns (mret x) x.
Proof. done. Qed.
Lemma returns_print {B} text (f : () → prog B) x : returns (f ()) x → returns (print_text text ≫= f) x.
Proof. intros Hf h. apply Hf. Qed.

Lemma commits_bind {A} (m : prog A) (f : A → prog Z) : quiet m → (∀ a, commits (f a)) → commits (m ≫= f).
Proof.
  intros Hm Hf h. unfold mbind, prog_bind. specialize (Hm h). destruct (m h) as [[a|e] h']; simpl in *; [|done].
  specialize (Hf a h'). destruct (f a h') as [[[]|e] h'']; (done || congruence).
Qed.
(** The last change, after which nothing can fail. *)
Lemma commits_last {A} (m : prog A) (f : A → prog Z) : spares m → (∀ a, returns (f a) 0) → commits (m ≫= f).
Proof.
  intros Hm Hf h. unfold mbind, prog_bind. specialize (Hm h). destruct (m h) as [[a|e] h']; [|done].
  specialize (Hf a h'). destruct (f a h') as [r h'']. simpl in Hf. by subst.
Qed.
(** A step that depends on the status that is returned. *)
Lemma commits_status {A} (m k : prog A) status :
  spares m → quiet k → commits ((if status =? 0 then m else k) ≫= λ _, mret status).
Proof.
  intros Hm Hk. destruct (Z.eqb_spec status 0) as [->|_].
  - apply commits_last; [done|]. intros _. apply returns_ret.
  - apply commits_bind; [done|]. intros _. by apply quiet_commits.
Qed.
Lemma commits_catch (m : prog Z) handler :
  commits m → (∀ e k, handler e = Some k → quiet k) → commits (catch m handler).
Proof.
  intros Hm Hk h. unfold catch. specialize (Hm h). destruct (m h) as [[z|e] h']; [done|].
  destruct (handler e) as [k|] eqn:E; [|done]. specialize (Hk e k E h').
  destruct (k h') as [[[]|] ?]; simpl in *; (done || congruence).
Qed.

Lemma make_dirs_quiet dir : quiet (make_dirs dir).
Proof. apply changes_quiet, changes_make_dirs. Qed.
Lemma put_spares path text : spares (put_text path text).
Proof. apply spares_bind; [apply make_dirs_quiet|]. intros []. apply write_spares. Qed.

(** What a successful run went through. *)
Lemma run_bind {A B} (m : prog A) (f : A → prog B) h b h' :
  (m ≫= f) h = (Ok b, h') ↔ ∃ a h1, m h = (Ok a, h1) ∧ f a h1 = (Ok b, h').
Proof.
  unfold mbind, prog_bind. destruct (m h) as [[a|e] h1]; split.
  - intros H. by exists a, h1.
  - by intros (? & ? & [= -> ->] & ?).
  - done.
  - by intros (? & ? & [=] & ?).
Qed.
Lemma run_lift {A} (r : result A) h a h' : lift r h = (Ok a, h') ↔ r = Ok a ∧ h' = h.
Proof. unfold lift. split; [by intros [= -> ->]|by intros [-> ->]]. Qed.
Lemma run_read path h text h' :
  read_file path h = (Ok text, h') → files h !! path = Some text ∧ h' = h.
Proof.
  unfold read_file. destruct (files h !! path) as [t|]; [|by intros [=]]. by intros [= -> ->].
Qed.
Lemma run_write path text h h' :
  write_text path text h = (Ok tt, h') → h' = with_files (<[path := text]> (files h)) h.
Proof. unfold write_text. repeat case_bool_decide; by intros [= <-]. Qed.

Lemma run_put path text h h' :
  put_text path text h = (Ok tt, h') → files h' = <[path := text]> (files h).
Proof.
  unfold put_text. intros ([] & h1 & H1 & H2)%run_bind. apply run_write in H2 as ->. simpl.
  pose proof (make_dirs_quiet (parent path) h) as E. rewrite H1 in E. simpl in E. by rewrite E.
Qed.

Lemma bytes_of_text data : bytes_ok data → bytes_of (text_of_bytes data) = data.
Proof.
  intros Hd. unfold bytes_of, text_of_bytes. rewrite chars_of_chars.
  induction Hd as [|b data Hb _ IH]; [done|]. rewrite !fmap_cons, IH. f_equal.
  unfold is_byte in Hb. unfold code, char_of. rewrite N_ascii_embedding; lia.
Qed.

(** More of what a successful run went through. *)
Lemma run_ret {A} (a b : A) h h' : mret (M := prog) a h = (Ok b, h') ↔ a = b ∧ h' = h.
Proof. split; [by intros [= -> ->]|by intros [-> ->]]. Qed.
Lemma run_throw {A} e h (a : A) h' : ¬ throw e h = (Ok a, h').
Proof. by intros [=]. Qed.
Lemma run_print text h h' : print_text text h = (Ok (), h') ↔ h' = with_out (out h +:+ text) h.
Proof. unfold print_text. split; [by intros [= <-]|by intros ->]. Qed.
Lemma run_quiet {A} (m : prog A) h a h' : quiet m → m h = (Ok a, h') → files h' = files h.
Proof. intros Hm E. specialize (Hm h). by rewrite E in Hm. Qed.
(** [if b: raise e] *)
Lemma run_check {A} (b : bool) e (f : () → prog A) h a h' :
  ((if b then throw e else mret ()) ≫= f) h = (Ok a, h') ↔ b = false ∧ f () h = (Ok a, h').
Proof.
  rewrite run_bind. destruct b; split.
  - by intros (? & ? & ?%run_throw & _).
  - by intros [? _].
  - by intros (? & ? & [<- ->]%run_ret & ?).
  - intros [_ Hf]. by exists (), h.
Qed.
Lemma run_read_text path h text h' :
  read_text path h = (Ok text, h') ↔
  h' = h ∧ ∃ raw, files h !! path = Some raw ∧ text = of_chars (universal_newlines (chars raw)).
Proof.
  unfold read_text. rewrite run_bind. split.
  - intros (raw & h1 & [Hr ->]%run_read & [<- ->]%run_ret). split; [done|]. by exists raw.
  - intros (-> & raw & Hr & ->). exists raw, h. unfold read_file. by rewrite Hr.
Qed.
Lemma run_read_bytes path h data h' :
  read_bytes path h = (Ok data, h') → h' = h ∧ ∃ raw, files h !! path = Some raw ∧ data = bytes_of raw.
Proof.
  unfold read_bytes. intros (raw & h1 & [Hr ->]%run_read & [<- ->]%run_ret)%run_bind. split; [done|].
  by exists raw.
Qed.

(** ** Files in a directory *)

(** A single component of a path. *)
Definition simple (name : string) : bool :=
  forallb (λ c, negb (Ascii.eqb "/" c)) (chars name)
  && negb (bool_decide (name = "")) && negb (bool_decide (name = ".")).

Lemma split_go_app sep current a b :
  split_go sep current (a ++ sep :: b) = split_go sep current a ++ split_all sep b.
Proof.
  revert current. induction a as [|c a IH]; intros current; simpl.
  - by rewrite bool_decide_true.
  - case_bool_decide; [by rewrite IH|apply IH].
Qed.
Lemma split_go_single sep current s :
  forallb (λ c, negb (Ascii.eqb sep c)) s = true → split_go sep current s = [current ++ s].
Proof.
  revert current. induction s as [|c s IH]; intros current; simpl; [by rewrite app_nil_r|].
  intros [Hc%negb_true_iff%Ascii.eqb_neq Hs]%andb_true_iff. rewrite bool_decide_false by congruence.
  by rewrite IH, <- app_assoc.
Qed.

Lemma path_parts_slash dir name :
  simple name = true → path_parts (dir +:+ "/" +:+ name) = path_parts dir ++ [chars name].
Proof.
  intros [[Hs He%negb_true_iff%bool_decide_eq_false]%andb_true_iff
          Hd%negb_true_iff%bool_decide_eq_false]%andb_true_iff.
  unfold path_parts, split_all. rewrite !chars_app. change (chars "/" ++ ?s) with ("/"%char :: s).
  rewrite split_go_app, filter_app. f_equal. unfold split_all. rewrite split_go_single by done.
  rewrite filter_cons_True; [done|]. simpl.
  split; intros E; [apply He|apply Hd]; rewrite <- (of_chars_chars name), E; done.
Qed.

Lemma path_root_slash dir name :
  simple name = true → path_root (chars (dir +:+ "/" +:+ name)) = path_root (chars dir ++ ["/"%char; "a"%char]).
Proof.
  intros [[Hs He%negb_true_iff%bool_decide_eq_false]%andb_true_iff _]%andb_true_iff.
  rewrite !chars_app. change (chars "/" ++ ?s) with ("/"%char :: s).
  destruct (chars name) as [|n s] eqn:E; [by rewrite <- (of_chars_chars name), E in He|].
  cbn [forallb] in Hs. apply andb_true_iff in Hs as [Hn%negb_true_iff _].
  destruct (chars dir) as [|a [|b [|c d]]]; cbn [app path_root]; rewrite ?Hn, ?Ascii.eqb_refl;
    cbn [andb negb]; rewrite ?andb_false_r, ?andb_true_r; try done; by destruct s.
Qed.

Lemma append_assoc (a b c : string) : (a +:+ b) +:+ c = a +:+ b +:+ c.
Proof. induction a as [|x a IH]; [done|]. exact (f_equal (String x) IH). Qed.

Lemma join_last sep parts part :
  join sep (parts ++ [part]) = foldr (λ p s, p +:+ sep +:+ s) "" parts +:+ part.
Proof.
  induction parts as [|p parts IH]; [done|]. cbn [app foldr].
  transitivity (p +:+ sep +:+ join sep (parts ++ [part])); [by destruct parts|].
  by rewrite IH, !append_assoc.
Qed.

(** The files of a directory have its path and their names. *)
Lemma slash_simple dir : ∃ prefix, ∀ name, simple name = true → slash dir name = prefix +:+ name.
Proof.
  exists (of_chars (path_root (chars dir ++ ["/"%char; "a"%char]))
          +:+ foldr (λ p s, p +:+ "/" +:+ s) "" (of_chars <$> path_parts dir)).
  intros name Hn. unfold slash, path_text, path_of. rewrite path_root_slash, path_parts_slash by done.
  rewrite bool_decide_false by (intros [_ E]; by destruct (path_parts dir)).
  rewrite fmap_app. cbn [fmap list_fmap]. rewrite join_last, of_chars_chars. by rewrite append_assoc.
Qed.
Lemma slash_inj dir a b : simple a = true → simple b = true → slash dir a = slash dir b → a = b.
Proof.
  intros Ha Hb. destruct (slash_simple dir) as [prefix Hp]. rewrite !Hp by done. apply (inj (String.append prefix)).
Qed.
