(* ===== verification/Xml.v ===== *)
(** * XML

    [xml.etree.ElementTree] as the reports use it: elements with attributes, a text
    and a tail, and [ElementTree.write] with [xml_declaration] and the encoding
    ["unicode"], of which the declaration is the one of Python 3.10 and later.

    [parse_document] is a reader of the format, without comments, CDATA sections and
    processing instructions.  [parse_printed] says that what is written is read back;
    it needs characters that XML can hold, as [write] does not look for others. *)

From stdpp Require Import base numbers list strings.
From Stdlib Require Import ZArith Lia Ascii.
From S2P Require Import Prelude PyText PyRegex CsvText Machine.

Open Scope Z_scope.

Unset Elimination Schemes.
Inductive element :=
  Element (tag : string) (attrib : list (string * string)) (content : string)
          (children : list element) (tail : string).
Set Elimination Schemes.

Section element_ind.
Variable P : element → Prop.
Hypothesis Helement : ∀ tag attrib content children tail,
  Forall P children → P (Element tag attrib content children tail).

Fixpoint element_ind (e : element) : P e :=
  match e with
  | Element tag attrib content children tail =>
      Helement tag attrib content children tail
        ((fix go l : Forall P l :=
            match l with [] => Forall_nil_2 P | e :: l => Forall_cons_2 P e l (element_ind e) (go l) end)
           children)
  end.
End element_ind.

(** ** Writing *)

(** [_escape_cdata] and [_escape_attrib]; the ampersand is replaced first, so the
    replacements are those of the single characters. *)
Definition escape_cdata (c : ascii) : list ascii :=
  if Ascii.eqb c "&" then chars "&amp;"
  else if Ascii.eqb c "<" then chars "&lt;"
  else if Ascii.eqb c ">" then chars "&gt;" else [c].
Definition escape_attrib (c : ascii) : list ascii :=
  if Ascii.eqb c double_quote_char then chars "&quot;"
  else if Ascii.eqb c CR then chars "&#13;"
  else if Ascii.eqb c LF then chars "&#10;"
  else if Ascii.eqb c (char_of 9) then chars "&#09;" else escape_cdata c.
Definition escaped (escape : ascii → list ascii) (text : string) : list ascii :=
  mjoin (escape <$> chars text).

Definition attribute (kv : string * string) : list ascii :=
  " "%char :: chars kv.1 ++ "="%char :: double_quote_char :: escaped escape_attrib kv.2
  ++ [double_quote_char].

(** [_serialize_xml]; an element without text and children is one tag. *)
Fixpoint serialize (e : element) : list ascii :=
  match e with
  | Element tag attrib content children tail =>
      "<"%char :: chars tag ++ mjoin (attribute <$> attrib)
      ++ (if bool_decide (content = "") && (length children =? 0)%nat then chars " />"
          else ">"%char :: escaped escape_cdata content ++ mjoin (map serialize children)
               ++ "<"%char :: "/"%char :: chars tag ++ [">"%char])
      ++ escaped escape_cdata tail
  end.

Definition declaration : list ascii := chars ("<?xml version='1.0' encoding='utf-8'?>" +:+ newline).
Definition xml_document (e : element) : string := of_chars (declaration ++ serialize e).

(** ** Reading *)

(** The characters XML 1.0 can hold. *)
Definition legal (c : ascii) : bool :=
  (32 <=? code c) || existsb (Ascii.eqb c) [char_of 9; LF; CR].
Definition xml_blank (c : ascii) : bool := existsb (Ascii.eqb c) [" "%char; char_of 9; LF; CR].
Fixpoint skip_space (s : list ascii) : list ascii :=
  match s with
  | c :: s' => if xml_blank c then skip_space s' else s
  | [] => []
  end.

Definition name_start (c : ascii) : bool :=
  is_lower c || ((65 <=? code c) && (code c <=? 90)) || is_char "_" c || is_char ":" c.
Definition name_char (c : ascii) : bool :=
  name_start c || is_digit c || is_char "-" c || is_char "." c.

(** The characters before the first one that stops, and the rest. *)
Fixpoint break (stop : ascii → bool) (s : list ascii) : list ascii * list ascii :=
  match s with
  | [] => ([], [])
  | c :: s' => if stop c then ([], s) else let '(before, rest) := break stop s' in (c :: before, rest)
  end.

(** The character a reference stands for, by the text between [&] and [;]. *)
Definition entities : list (string * ascii) :=
  [("amp", "&"%char); ("lt", "<"%char); ("gt", ">"%char); ("quot", double_quote_char); ("apos", "'"%char)].
Definition numeric (base : Z) (digit : ascii → bool) (s : list ascii) : option ascii :=
  if forallb digit s then
    v ← py_int base (of_chars s); if (v <? 256) && legal (char_of v) then Some (char_of v) else None
  else None.
Definition reference (name : list ascii) : option ascii :=
  match after_prefix (chars "#x") name, after_prefix (chars "#") name with
  | Some digits, _ => numeric 16 is_hex digits
  | None, Some digits => numeric 10 is_digit digits
  | None, None => snd <$> head (filter (λ e, chars e.1 = name) entities)
  end.

(** The text that is written, references resolved; [name] is the reference so far. *)
Fixpoint decode (normal : ascii → ascii) (name : option (list ascii)) (s : list ascii)
    : option (list ascii) :=
  match s, name with
  | [], None => Some []
  | [], Some _ => None
  | c :: s, None =>
      if Ascii.eqb c "&" then decode normal (Some []) s
      else if legal c && negb (Ascii.eqb c "<")
      then text ← decode normal None s; Some (normal c :: text) else None
  | c :: s, Some n =>
      if Ascii.eqb c ";" then r ← reference n; text ← decode normal None s; Some (r :: text)
      else decode normal (Some (n ++ [c])) s
  end.

(** In the value of an attribute white space is a space unless it is a reference. *)
Definition normal_value (c : ascii) : ascii := if xml_blank c then " "%char else c.

Definition parse_name (s : list ascii) : option (string * list ascii) :=
  match break (λ c, negb (name_char c)) s with
  | (c :: name, rest) => if name_start c then Some (of_chars (c :: name), rest) else None
  | ([], _) => None
  end.
Definition parse_text (s : list ascii) : option (string * list ascii) :=
  let '(raw, rest) := break (Ascii.eqb "<") s in
  text ← decode id None raw; Some (of_chars text, rest).
Definition parse_quoted (s : list ascii) : option (string * list ascii) :=
  match s with
  | q :: s =>
      if existsb (Ascii.eqb q) [double_quote_char; "'"%char] then
        match break (Ascii.eqb q) s with
        | (raw, _ :: rest) => text ← decode normal_value None raw; Some (of_chars text, rest)
        | (_, []) => None
        end
      else None
  | [] => None
  end.

(** [Eq], with white space on both sides. *)
Definition after_equals (s : list ascii) : option (list ascii) :=
  match skip_space s with
  | c :: s => if Ascii.eqb c "=" then Some (skip_space s) else None
  | [] => None
  end.

(** White space comes before an attribute, and its name is not used again. *)
Fixpoint parse_attributes (fuel : nat) (s : list ascii)
    : option (list (string * string) * list ascii) :=
  match fuel with
  | O => None
  | S fuel =>
      match s, skip_space s with
      | b :: _, c :: s' =>
          if xml_blank b && name_start c then
            '(name, rest) ← parse_name (c :: s');
            rest ← after_equals rest;
            '(value, rest) ← parse_quoted rest;
            '(attrib, rest) ← parse_attributes fuel rest;
            if bool_decide (name ∈ attrib.*1) then None else Some ((name, value) :: attrib, rest)
          else Some ([], c :: s')
      | _, _ => None
      end
  end.

(** An element with its tail, and elements up to an end tag. *)
Fixpoint parse_element (fuel : nat) (s : list ascii) : option (element * list ascii) :=
  match fuel with
  | O => None
  | S fuel =>
      s ← after_prefix (chars "<") s;
      '(tag, s) ← parse_name s;
      '(attrib, s) ← parse_attributes fuel s;
      match after_prefix (chars "/>") s with
      | Some s => '(tail, s) ← parse_text s; Some (Element tag attrib "" [] tail, s)
      | None =>
          s ← after_prefix (chars ">") s;
          '(content, s) ← parse_text s;
          '(children, s) ← parse_children fuel s;
          s ← after_prefix (chars ("</" +:+ tag)) s;
          s ← after_prefix (chars ">") (skip_space s);
          '(tail, s) ← parse_text s;
          Some (Element tag attrib content children tail, s)
      end
  end
with parse_children (fuel : nat) (s : list ascii) : option (list element * list ascii) :=
  match fuel with
  | O => None
  | S fuel =>
      match after_prefix (chars "</") s with
      | Some _ => Some ([], s)
      | None =>
          '(e, s) ← parse_element fuel s;
          '(children, s) ← parse_children fuel s;
          Some (e :: children, s)
      end
  end.

(** An optional declaration, and the root element with nothing but white space
    after it. *)
Definition after_declaration (s : list ascii) : list ascii :=
  match after_prefix (chars "<?xml ") s with
  | Some s => let '(_, s) := break (Ascii.eqb ">") s in skip_space (tl s)
  | None => s
  end.
Definition parse_document (text : string) : option element :=
  let s := after_declaration (universal_newlines (chars text)) in
  '(e, rest) ← parse_element (S (length s)) s;
  match e with
  | Element tag attrib content children tail =>
      if forallb xml_blank (chars tail) && bool_decide (rest = [])
      then Some (Element tag attrib content children "") else None
  end.

(** ** What is written is read *)

Definition name_ok (name : string) : bool :=
  forallb name_char (chars name) && match chars name with c :: _ => name_start c | [] => false end.
(** Characters that [read_text] and an XML reader leave alone. *)
Definition plain (c : ascii) : bool := legal c && negb (Ascii.eqb c CR).

Definition attributes_ok (attrib : list (string * string)) : bool :=
  forallb (λ kv, name_ok kv.1 && forallb legal (chars kv.2)) attrib && bool_decide (NoDup attrib.*1).
(** An element XML can hold: names, and characters. *)
Fixpoint xml_ok (e : element) : bool :=
  match e with
  | Element tag attrib content children tail =>
      name_ok tag && attributes_ok attrib && forallb plain (chars content)
      && forallb xml_ok children && forallb plain (chars tail)
  end.

Lemma decode_cdata c s :
  legal c = true → decode id None (escape_cdata c ++ s) = (t ← decode id None s; Some (c :: t)).
Proof. destruct c as [[] [] [] [] [] [] [] []]; intros Hc; (discriminate Hc || reflexivity). Qed.
Lemma decode_attrib c s :
  legal c = true →
  decode normal_value None (escape_attrib c ++ s) = (t ← decode normal_value None s; Some (c :: t)).
Proof. destruct c as [[] [] [] [] [] [] [] []]; intros Hc; (discriminate Hc || reflexivity). Qed.

Lemma decode_escaped escape normal text :
  (∀ c s, legal c = true → decode normal None (escape c ++ s) = (t ← decode normal None s; Some (c :: t))) →
  forallb legal (chars text) = true → decode normal None (escaped escape text) = Some (chars text).
Proof.
  intros Hstep. unfold escaped. induction (chars text) as [|c s IH]; [done|]. cbn [forallb].
  intros [Hc Hs]%andb_true_iff. rewrite fmap_cons, join_cons, Hstep by done. by rewrite (IH Hs).
Qed.

Lemma break_before stop s rest :
  forallb (λ c, negb (stop c)) s = true → match rest with [] => True | c :: _ => stop c = true end →
  break stop (s ++ rest) = (s, rest).
Proof.
  intros Hs Hr. induction s as [|c s IH]; simpl in *.
  - destruct rest as [|c rest]; [done|]. simpl. by rewrite Hr.
  - apply andb_true_iff in Hs as [Hc Hs]. apply negb_true_iff in Hc. by rewrite Hc, (IH Hs).
Qed.

(** What the escapes leave out. *)
Lemma escaped_none escape (stop : ascii → bool) text :
  (∀ c, legal c = true → forallb (λ c, negb (stop c)) (escape c) = true) →
  forallb legal (chars text) = true → forallb (λ c, negb (stop c)) (escaped escape text) = true.
Proof.
  intros He. unfold escaped. induction (chars text) as [|c s IH]; [done|]. cbn [forallb].
  intros [Hc Hs]%andb_true_iff. rewrite fmap_cons, join_cons, forallb_app, He by done. by apply IH.
Qed.

Lemma plain_legal s : forallb plain s = true → forallb legal s = true.
Proof.
  induction s as [|c s IH]; [done|]. simpl. intros [[Hc _]%andb_true_iff Hs]%andb_true_iff.
  by rewrite Hc, IH.
Qed.

(** What may follow a text. *)
Definition tag_follows (rest : list ascii) : Prop :=
  match rest with [] => True | c :: _ => Ascii.eqb "<" c = true end.

Lemma parse_text_escaped text rest :
  forallb plain (chars text) = true → tag_follows rest →
  parse_text (escaped escape_cdata text ++ rest) = Some (text, rest).
Proof.
  intros Ht%plain_legal Hr. unfold parse_text. rewrite break_before; [|apply escaped_none; [|done]|done].
  - rewrite (decode_escaped _ _ _ decode_cdata Ht). simpl. by rewrite of_chars_chars.
  - intros c. destruct c as [[] [] [] [] [] [] [] []]; intros Hc; (discriminate Hc || reflexivity).
Qed.

Lemma parse_quoted_escaped text rest :
  forallb legal (chars text) = true →
  parse_quoted (double_quote_char :: escaped escape_attrib text ++ double_quote_char :: rest) = Some (text, rest).
Proof.
  intros Ht. unfold parse_quoted. cbn [existsb]. rewrite Ascii.eqb_refl. cbn [orb].
  rewrite break_before; [|apply escaped_none; [|done]|apply Ascii.eqb_refl].
  - rewrite (decode_escaped _ _ _ decode_attrib Ht). simpl. by rewrite of_chars_chars.
  - intros c. destruct c as [[] [] [] [] [] [] [] []]; intros Hc; (discriminate Hc || reflexivity).
Qed.

Lemma forallb_twice {A} (p : A → bool) l : forallb (λ x, negb (negb (p x))) l = forallb p l.
Proof. induction l as [|x l IH]; [done|]. simpl. by rewrite negb_involutive, IH. Qed.

(** What may follow a name. *)
Definition name_ends (rest : list ascii) : Prop :=
  match rest with [] => True | c :: _ => name_char c = false end.
Lemma parse_name_ok name rest :
  name_ok name = true → name_ends rest → parse_name (chars name ++ rest) = Some (name, rest).
Proof.
  unfold name_ok. intros [Hall Hfirst]%andb_true_iff Hr. unfold parse_name. rewrite break_before.
  - destruct (chars name) as [|c s] eqn:E; [done|]. rewrite Hfirst, <- E. by rewrite of_chars_chars.
  - by rewrite forallb_twice.
  - destruct rest as [|c rest]; [done|]. simpl in *. by rewrite Hr.
Qed.

Lemma after_prefix_app p s : after_prefix p (p ++ s) = Some s.
Proof. induction p as [|c p IH]; [done|]. simpl. by rewrite bool_decide_true. Qed.

Lemma name_first name : name_ok name = true → ∃ c s, chars name = c :: s ∧ name_start c = true.
Proof. unfold name_ok. intros [_ H]%andb_true_iff. destruct (chars name) as [|c s]; [done|]. by exists c, s. Qed.
Lemma name_start_not_blank c : name_start c = true → xml_blank c = false.
Proof. by destruct c as [[] [] [] [] [] [] [] []]. Qed.
Lemma skip_space_start c s : name_start c = true → skip_space (c :: s) = c :: s.
Proof. intros Hc. simpl. by rewrite (name_start_not_blank c Hc). Qed.

(** The rest after the attributes: the end of the tag, white space before it allowed. *)
Definition tag_ends (rest : list ascii) : Prop :=
  match skip_space rest with c :: _ => name_start c = false | [] => False end.

Lemma parse_attributes_ok attrib rest fuel :
  attributes_ok attrib = true → tag_ends rest → (length attrib < fuel)%nat →
  parse_attributes fuel (mjoin (attribute <$> attrib) ++ rest) = Some (attrib, skip_space rest).
Proof.
  unfold attributes_ok. intros [Hall Hnd%bool_decide_eq_true]%andb_true_iff Hr. revert fuel Hnd.
  induction attrib as [|[name value] attrib IH]; intros fuel Hnd Hf; (destruct fuel as [|fuel]; [simpl in Hf; lia|]).
  - cbn [fmap list_fmap mjoin list_join app parse_attributes]. unfold tag_ends in Hr.
    destruct rest as [|b rest]; [done|]. destruct (skip_space (b :: rest)) as [|c s]; [done|].
    by rewrite Hr, andb_false_r.
  - cbn [forallb fst snd] in Hall. apply andb_true_iff in Hall as [[Hn Hv]%andb_true_iff Hall].
    rewrite fmap_cons in Hnd. apply NoDup_cons in Hnd as [Hnew Hnd]. cbn [fst] in Hnew.
    rewrite fmap_cons, join_cons. unfold attribute at 1. cbn [fst snd]. rewrite <- !app_comm_cons, <- !app_assoc.
    rewrite <- !app_comm_cons, <- !app_assoc. cbn [app].
    destruct (name_first name Hn) as (c & s & Hcs & Hc). cbn [parse_attributes]. 
    change (skip_space (" "%char :: ?t)) with (skip_space t). rewrite Hcs at 1. rewrite <- app_comm_cons.
    rewrite skip_space_start by done. cbn [xml_blank existsb]. rewrite Ascii.eqb_refl. cbn [orb andb]. rewrite Hc.
    rewrite app_comm_cons, <- Hcs, parse_name_ok by done. cbn [mbind option_bind].
    change (after_equals ("="%char :: double_quote_char :: ?t)) with (Some (double_quote_char :: t)).
    cbn [mbind option_bind]. rewrite parse_quoted_escaped by done. cbn [mbind option_bind].
    rewrite (IH Hall fuel Hnd) by (simpl in Hf; lia). cbn [mbind option_bind].
    by rewrite bool_decide_false.
Qed.

(** The two ends of a start tag end a name and the attributes. *)
Lemma name_ends_attributes attrib rest :
  name_ends rest → name_ends (mjoin (attribute <$> attrib) ++ rest).
Proof. by destruct attrib as [|kv attrib]. Qed.

(** The parts of a printed element between its attributes and its tail. *)
Definition body (tag content : string) (children : list element) : list ascii :=
  if bool_decide (content = "") && (length children =? 0)%nat then chars " />"
  else ">"%char :: escaped escape_cdata content ++ mjoin (map serialize children)
       ++ "<"%char :: "/"%char :: chars tag ++ [">"%char].

Definition reads_back (e : element) : Prop := ∀ fuel rest,
  xml_ok e = true → tag_follows rest → (length (serialize e) ≤ fuel)%nat →
  parse_element fuel (serialize e ++ rest) = Some (e, rest).

Lemma xml_ok_inv tag attrib content children tail :
  xml_ok (Element tag attrib content children tail) = true →
  name_ok tag = true ∧ attributes_ok attrib = true ∧ forallb plain (chars content) = true ∧
  forallb xml_ok children = true ∧ forallb plain (chars tail) = true.
Proof. cbn [xml_ok]. by intros [[[[? ?]%andb_true_iff ?]%andb_true_iff ?]%andb_true_iff ?]%andb_true_iff. Qed.

Lemma start_tag e s : xml_ok e = true → after_prefix (chars "</") (serialize e ++ s) = None.
Proof.
  destruct e as [tag attrib content children tail]. intros (Hn & _)%xml_ok_inv. cbn [serialize].
  destruct (name_first tag Hn) as (c & t & -> & Hc).
  cbn. rewrite bool_decide_true, bool_decide_false by (done || by intros <-). done.
Qed.

Lemma parse_children_ok children rest fuel :
  Forall reads_back children → forallb xml_ok children = true →
  (length (mjoin (map serialize children)) < fuel)%nat →
  parse_children fuel (mjoin (map serialize children) ++ chars "</" ++ rest)
    = Some (children, chars "</" ++ rest).
Proof.
  intros Hall. revert fuel. induction Hall as [|e children He _ IH]; intros fuel Hok Hf.
  - destruct fuel as [|fuel]; [simpl in Hf; lia|]. done.
  - cbn [map forallb] in *. rewrite join_cons in *. rewrite length_app in Hf.
    apply andb_true_iff in Hok as [Hok Hoks]. destruct fuel as [|fuel]; [lia|]. cbn [parse_children].
    rewrite <- app_assoc.
    assert (length (serialize e) ≠ 0)%nat as Hne by (by destruct e). rewrite start_tag by done.
    rewrite He; [|done| |lia].
    + cbn [mbind option_bind]. rewrite IH by (done || lia). done.
    + destruct children as [|e' children]; [done|]. cbn [map]. rewrite join_cons, <- app_assoc.
      by destruct e'.
Qed.

Lemma body_cases tag content children t :
  (body tag content children ++ t = chars " />" ++ t ∧ content = "" ∧ children = []) ∨
  body tag content children ++ t =
    ">"%char :: escaped escape_cdata content ++ mjoin (map serialize children)
    ++ chars "</" ++ chars tag ++ ">"%char :: t ∧
  (length (mjoin (map serialize children)) < length (body tag content children))%nat.
Proof.
  unfold body. destruct (_ && _) eqn:E.
  - left. apply andb_true_iff in E as [Hc%bool_decide_eq_true Hl%Nat.eqb_eq].
    by apply nil_length_inv in Hl.
  - right. split; [simpl; rewrite <- !app_assoc; simpl; by rewrite <- app_assoc|].
    simpl. rewrite !length_app. simpl. lia.
Qed.

Lemma attributes_length attrib : (length attrib ≤ length (mjoin (attribute <$> attrib)))%nat.
Proof.
  induction attrib as [|kv attrib IH]; [done|]. rewrite fmap_cons, join_cons, length_app. simpl. lia.
Qed.

Lemma element_ok e : reads_back e.
Proof.
  induction e as [tag attrib content children tail IH].
  intros fuel rest (Hn & Ha & Hc & Hch & Ht)%xml_ok_inv Hr Hf.
  cbn [serialize] in *. fold (body tag content children) in *.
  destruct fuel as [|fuel]; [simpl in Hf; lia|]. cbn [parse_element].
  cbn [length] in Hf. rewrite !length_app in Hf. pose proof (attributes_length attrib).
  rewrite <- app_comm_cons. change (after_prefix (chars "<") ("<"%char :: ?t)) with (Some t).
  cbn [mbind option_bind]. rewrite <- !app_assoc.
  destruct (body_cases tag content children (escaped escape_cdata tail ++ rest)) as [(-> & -> & ->)|[-> Hlt]].
  - rewrite parse_name_ok by (done || (apply name_ends_attributes; reflexivity)). cbn [mbind option_bind].
    rewrite parse_attributes_ok by (done || unfold body in *; simpl in *; lia). cbn [mbind option_bind].
    change (after_prefix (chars "/>") (skip_space (chars " />" ++ ?t))) with (Some t). cbn beta iota.
    by rewrite parse_text_escaped.
  - rewrite parse_name_ok by (done || (apply name_ends_attributes; reflexivity)). cbn [mbind option_bind].
    rewrite parse_attributes_ok by (done || lia). cbn [mbind option_bind].
    change (skip_space (">"%char :: ?t)) with (">"%char :: t).
    change (after_prefix (chars "/>") (">"%char :: ?t)) with (@None (list ascii)).
    change (after_prefix (chars ">") (">"%char :: ?t)) with (Some t). cbn beta iota. cbn [mbind option_bind].
    rewrite parse_text_escaped; [|done|].
    2:{ destruct children as [|e' children]; [done|]. cbn [map]. rewrite join_cons, <- app_assoc. by destruct e'. }
    cbn [mbind option_bind]. rewrite parse_children_ok by (done || lia). cbn [mbind option_bind].
    rewrite chars_app, app_assoc, after_prefix_app. cbn [mbind option_bind].
    change (skip_space (">"%char :: ?t)) with (">"%char :: t).
    change (after_prefix (chars ">") (">"%char :: ?t)) with (Some t). cbn [mbind option_bind].
    by rewrite parse_text_escaped.
Qed.

(** ** Documents *)

Definition not_cr (c : ascii) : bool := negb (Ascii.eqb c CR).

Lemma universal_newlines_id s : forallb not_cr s = true → universal_newlines s = s.
Proof.
  induction s as [|c s IH]; [done|]. simpl. unfold not_cr. destruct (Ascii.eqb c CR); [done|].
  simpl. intros Hs. by rewrite IH.
Qed.

Lemma forallb_Forall {A} (p : A → bool) l : forallb p l = true ↔ Forall (λ x, p x = true) l.
Proof. induction l as [|x l IH]; simpl; [done|]. by rewrite andb_true_iff, Forall_cons, IH. Qed.
Lemma forallb_join {A} (p : A → bool) (ls : list (list A)) :
  Forall (λ l, forallb p l = true) ls → forallb p (mjoin ls) = true.
Proof. induction 1 as [|l ls Hl _ IH]; [done|]. rewrite join_cons, forallb_app, Hl. by rewrite IH. Qed.

Lemma name_no_cr name : name_ok name = true → forallb not_cr (chars name) = true.
Proof.
  intros [Hn%forallb_Forall _]%andb_true_iff. apply forallb_Forall.
  eapply Forall_impl; [exact Hn|]. intros c. by destruct c as [[] [] [] [] [] [] [] []].
Qed.
Lemma attrib_no_cr text : forallb not_cr (escaped escape_attrib text) = true.
Proof.
  apply forallb_join, Forall_fmap, Forall_true; unfold compose. intros c. by destruct c as [[] [] [] [] [] [] [] []].
Qed.
Lemma cdata_no_cr text :
  forallb plain (chars text) = true → forallb not_cr (escaped escape_cdata text) = true.
Proof.
  intros Ht%forallb_Forall. apply forallb_join, Forall_fmap. eapply Forall_impl; [exact Ht|].
  intros c. by destruct c as [[] [] [] [] [] [] [] []].
Qed.
Lemma attributes_no_cr attrib :
  attributes_ok attrib = true → forallb not_cr (mjoin (attribute <$> attrib)) = true.
Proof.
  intros [Ha%forallb_Forall _]%andb_true_iff. apply forallb_join, Forall_fmap.
  eapply Forall_impl; [exact Ha|]. intros [name value] [Hn _]%andb_true_iff. cbn in Hn.
  unfold attribute, compose. cbn [fst snd forallb].
  rewrite forallb_app. cbn [forallb]. rewrite forallb_app, name_no_cr, attrib_no_cr by done. done.
Qed.

Lemma serialize_no_cr e : xml_ok e = true → forallb not_cr (serialize e) = true.
Proof.
  induction e as [tag attrib content children tail IH]. intros (Hn & Ha & Hc & Hch & Ht)%xml_ok_inv.
  cbn [serialize forallb]. rewrite !forallb_app, name_no_cr, attributes_no_cr, cdata_no_cr by done.
  destruct (bool_decide _ && _); [done|]. cbn [forallb]. rewrite !forallb_app, cdata_no_cr by done.
  cbn [forallb]. rewrite !forallb_app, name_no_cr, forallb_join; [done| |done].
  apply Forall_fmap. apply forallb_Forall in Hch. rewrite Forall_forall in *.
  intros e He. apply IH; [done|]. by apply Hch.
Qed.

(** A document that is written is read back. *)
Lemma parse_printed tag attrib content children :
  xml_ok (Element tag attrib content children "") = true →
  parse_document (xml_document (Element tag attrib content children "")) =
    Some (Element tag attrib content children "").
Proof.
  set (e := Element tag attrib content children "") in *. intros Hok.
  unfold parse_document, xml_document. rewrite chars_of_chars, universal_newlines_id.
  - assert (after_declaration (declaration ++ serialize e) = serialize e) as -> by reflexivity.
    pose proof (element_ok e (S (length (serialize e))) []) as He. rewrite app_nil_r in He.
    rewrite He by (done || lia). done.
  - rewrite forallb_app, serialize_no_cr by done. done.
Qed.

Example parse_examples :
  parse_document ("<?xml version='1.0'?><a x = '1' y=" +:+ of_chars [double_quote_char] +:+ "&lt;&#65;&#x42;"
    +:+ of_chars [double_quote_char] +:+ "><b />c&amp;d</a >" +:+ newline)
  = Some (Element "a" [("x", "1"); ("y", "<AB")] "" [Element "b" [] "" [] "c&d"] "") ∧
  (parse_document <$> ["<a>"; "<a></b>"; "<a x='1' x='2'/>"; "<a>&nope;</a>"; "<a/><b/>"; "<a>&#0;</a>"])
  = replicate 6 None.
Proof. vm_compute. split; reflexivity. Qed.
