(* ===== verification/ArchTrace.v ===== *)
(** * Retirement traces

    [tools/check_arch_trace.py] (the invariants of the architectural retirement
    trace) and [tools/branch_oracle_from_trace.py] (the branch outcomes a
    retirement order determines). *)

From stdpp Require Import base numbers list strings gmap.
From Stdlib Require Import ZArith Lia Ascii.
From S2P Require Import Prelude PyText Bytes Csv.

Open Scope Z_scope.

(** ** check_arch_trace *)
Module Check.

Definition FIELDS : list string :=
  ["order"; "cycle"; "lane"; "arch"; "pc"; "instr"; "next_pc"; "rd_write"; "rd";
   "wdata"; "exception"; "cause"; "mode"].

Definition at_line (line : Z) (msg : string) : exn :=
  ValueError ("line " +:+ str_int line +:+ ": " +:+ msg).

Definition parse_uint (value : option string) (name : string) (line base : Z) : result Z :=
  match (s ← value; py_int base s) with
  | None => Err (at_line line (name +:+ " is not a base-" +:+ str_int base +:+ " integer: "
                               +:+ match value with Some s => repr s | None => "None" end))
  | Some parsed =>
      raise (at_line line (name +:+ " is negative")) when parsed <? 0;;
      Ok parsed
  end.

(** The fields of one row: the numbers [parse_uint] reads, and the text of the
    hexadecimal columns. *)
Record Rec := {
  order : Z; cycle : Z; lane : Z; arch : Z; rd_write : Z; rd : Z; exception : Z;
  cause : Z; mode : Z; pc : string; instr : string; next_pc : string; wdata : string }.

Definition parse_row (line : Z) (row : Row) : result Rec :=
  raise (at_line line "row does not match the declared columns")
    when negb (bool_decide (surplus row = []))
         || bool_decide (map_Exists (λ _ v, v = None) (columns row));;
  order ← column row "order" ≫= λ v, parse_uint v "order" line 10;
  cycle ← column row "cycle" ≫= λ v, parse_uint v "cycle" line 10;
  lane ← column row "lane" ≫= λ v, parse_uint v "lane" line 10;
  arch ← column row "arch" ≫= λ v, parse_uint v "arch" line 10;
  rd_write ← column row "rd_write" ≫= λ v, parse_uint v "rd_write" line 10;
  rd ← column row "rd" ≫= λ v, parse_uint v "rd" line 10;
  exception ← column row "exception" ≫= λ v, parse_uint v "exception" line 10;
  cause ← column row "cause" ≫= λ v, parse_uint v "cause" line 10;
  mode ← column row "mode" ≫= λ v, parse_uint v "mode" line 10;
  pc ← column row "pc" ≫= text_of;
  instr ← column row "instr" ≫= text_of;
  next_pc ← column row "next_pc" ≫= text_of;
  wdata ← column row "wdata" ≫= text_of;
  Ok {| order := order; cycle := cycle; lane := lane; arch := arch; rd_write := rd_write;
        rd := rd; exception := exception; cause := cause; mode := mode;
        pc := pc; instr := instr; next_pc := next_pc; wdata := wdata |}.

Definition is_bit (v : Z) : bool := (v =? 0) || (v =? 1).

Definition HEX_DIGITS : list ascii := chars "0123456789abcdefABCDEF".
Definition exact_hex (digits : Z) (value : string) : bool :=
  (zlen (chars value) =? digits)
  && forallb (λ c, bool_decide (c ∈ HEX_DIGITS)) (chars value).

Definition check_hex (line : Z) (_ : unit) (c : string * Z * string) : result unit :=
  let '(name, digits, value) := c in
  raise (at_line line (name +:+ " must be exactly " +:+ str_int digits +:+ " hex digits"))
    when negb (exact_hex digits value);;
  Ok tt.

(** The checks of one row, in the order of the loop body. *)
Definition check_rec (line expected_order previous_cycle previous_lane : Z) (r : Rec)
    : result unit :=
  raise (at_line line ("order is " +:+ str_int (order r) +:+ ", expected contiguous "
                       +:+ str_int expected_order))
    when negb (order r =? expected_order);;
  raise (at_line line ("cycle regressed from " +:+ str_int previous_cycle +:+ " to "
                       +:+ str_int (cycle r)))
    when cycle r <? previous_cycle;;
  let expected_lane := if cycle r =? previous_cycle then previous_lane + 1 else 0 in
  raise (at_line line ("lane is " +:+ str_int (lane r) +:+ ", expected "
                       +:+ str_int expected_lane +:+ " in cycle " +:+ str_int (cycle r)))
    when negb (lane r =? expected_lane);;
  raise (at_line line ("lane " +:+ str_int (lane r) +:+ " is outside 0..2")) when 2 <? lane r;;
  raise (at_line line "arch/rd_write/exception fields must be bits")
    when negb (is_bit (arch r)) || negb (is_bit (rd_write r)) || negb (is_bit (exception r));;
  raise (at_line line "non-architectural retirement writes a register")
    when (arch r =? 0) && negb (rd_write r =? 0);;
  raise (at_line line ("rd " +:+ str_int (rd r) +:+ " is outside x0..x31")) when 31 <? rd r;;
  raise (at_line line ("cause " +:+ str_int (cause r) +:+ " exceeds the trace's 5-bit field"))
    when 31 <? cause r;;
  raise (at_line line ("invalid RISC-V privilege mode " +:+ str_int (mode r)))
    when negb (existsb (Z.eqb (mode r)) [0; 1; 3]);;
  _ ← foldM (check_hex line) tt
        [("pc", 16, pc r); ("instr", 8, instr r); ("next_pc", 16, next_pc r);
         ("wdata", 16, wdata r)];
  if negb (arch r =? 0) && (exception r =? 0) then
    pc_value ← int_text 16 (pc r);
    raise (at_line line "architectural PC is not 4-byte aligned")
      when negb (Z.land pc_value 3 =? 0);;
    next_value ← int_text 16 (next_pc r);
    raise (at_line line "architectural next_pc is not 4-byte aligned")
      when negb (Z.land next_value 3 =? 0);;
    Ok tt
  else Ok tt.

(** One turn of the loop; the state is [(previous_cycle, previous_lane)]. *)
Definition check_row (s : Z * Z) (e : Z * Row) : result (Z * Z) :=
  let '(previous_cycle, previous_lane) := s in
  let '(expected_order, row) := e in
  let line := expected_order + 2 in
  r ← parse_row line row;
  _ ← check_rec line expected_order previous_cycle previous_lane r;
  Ok (cycle r, lane r).

Definition validate (t : Table) : result Z :=
  raise (ValueError "header mismatch")
    when negb (bool_decide (default [] (fieldnames t) = FIELDS));;
  raise (ValueError "trace has no retirement rows") when bool_decide (rows t = []);;
  _ ← foldM check_row (-1, -1) (enumerate (rows t));
  Ok (zlen (rows t)).

(** The lines printed and the exit status, for the traces found. *)
Fixpoint report (traces : list (string * Table)) : result (list string) :=
  match traces with
  | [] => Ok []
  | (path, t) :: traces =>
      n ← validate t;
      rest ← report traces;
      Ok (("TRACE PASS " +:+ path +:+ " rows=" +:+ str_int n) :: rest)
  end.
Definition main (traces : list (string * Table)) : Z :=
  match (raise (ValueError "no arch.csv traces found") when bool_decide (traces = []);;
         report traces) with
  | Ok _ => 0
  | Err _ => 1
  end.
End Check.

(** ** branch_oracle_from_trace *)
Module Oracle.

Definition CONTROL_OPCODES : list Z := [0x63; 0x6F; 0x67].

Definition lane_column (lane : Z) (field : string) : string :=
  "r" +:+ str_int lane +:+ "_" +:+ field.

Definition required : list string :=
  "retire_valid" :: mjoin ((λ lane, [lane_column lane "pc"; lane_column lane "instr"])
                             <$> zrange 0 3).

(** The retirements of one row: the lanes its mask selects. *)
Definition retire_lane (row : Row) (retire_valid : Z) (retired : list (Z * Z)) (lane : Z)
    : result (list (Z * Z)) :=
  if negb (Z.land retire_valid (Z.shiftl 1 lane) =? 0) then
    pc ← int_column row (lane_column lane "pc") 16;
    instr ← int_column row (lane_column lane "instr") 16;
    Ok (retired ++ [(pc, instr)])
  else Ok retired.

Definition retire_row (retired : list (Z * Z)) (row : Row) : result (list (Z * Z)) :=
  retire_valid ← int_column row "retire_valid" 16;
  foldM (retire_lane row retire_valid) retired (zrange 0 3).

(** One turn of the loop over [retired]. *)
Definition add_record (retired : list (Z * Z)) (records : list Z) (e : Z * (Z * Z))
    : result (list Z) :=
  let '(index, (pc, instr)) := e in
  if negb (existsb (Z.eqb (Z.land instr 0x7F)) CONTROL_OPCODES) then Ok records
  else
    raise (ValueError ("final retired instruction at 0x" +:+ hex_pad 16 pc
             +:+ " is a control; its actual target is unavailable"))
      when zlen retired <=? index + 1;;
    next ← get_item retired (index + 1);
    let actual_target := next.1 in
    let actual_taken := negb (actual_target =? pc + 4) in
    Ok (records ++ [Z.lor (Z.shiftl (Z.b2z actual_taken) 64) actual_target]).

Definition oracle_records (retired : list (Z * Z)) : result (list Z) :=
  foldM (add_record retired) [] (enumerate retired).

(** The lines of the output file. *)
Definition main (t : Table) (expect_count : option Z) : result (list string) :=
  raise (ValueError ("trace lacks required columns: "
           +:+ join ", " (missing_columns required t)))
    when negb (bool_decide (missing_columns required t = []));;
  retired ← foldM retire_row [] (rows t);
  records ← oracle_records retired;
  raise (ValueError ("oracle records=" +:+ str_int (zlen records)))
    when match expect_count with Some n => negb (zlen records =? n) | None => false end;;
  Ok (hex_pad 17 <$> records).
End Oracle.

(** ** What an accepted trace is *)

Section spec.
Import Check.

Definition bit (v : Z) : Prop := v = 0 ∨ v = 1.
Definition hex_text (digits : Z) (s : string) : Prop :=
  zlen (chars s) = digits ∧ Forall (λ c, c ∈ HEX_DIGITS) (chars s).
Definition aligned (s : string) : Prop := ∃ v, py_int 16 s = Some v ∧ v mod 4 = 0.

(** The fields of one retirement are in range. *)
Definition fields_ok (r : Rec) : Prop :=
  lane r ≤ 2 ∧ bit (arch r) ∧ bit (rd_write r) ∧ bit (exception r) ∧
  (arch r = 0 → rd_write r = 0) ∧ rd r ≤ 31 ∧ cause r ≤ 31 ∧
  (mode r = 0 ∨ mode r = 1 ∨ mode r = 3) ∧
  hex_text 16 (pc r) ∧ hex_text 8 (instr r) ∧ hex_text 16 (next_pc r) ∧ hex_text 16 (wdata r) ∧
  (arch r = 1 → exception r = 0 → aligned (pc r) ∧ aligned (next_pc r)).

(** The next retirement: in the same cycle the next lane, in a later one lane 0. *)
Definition follows (p r : Z * Z) : Prop :=
  (p.1 = r.1 ∧ r.2 = p.2 + 1) ∨ (p.1 < r.1 ∧ r.2 = 0).
Definition slot (r : Rec) : Z * Z := (cycle r, lane r).

Fixpoint chain (expected : Z) (previous : Z * Z) (rs : list Rec) : Prop :=
  match rs with
  | [] => True
  | r :: rs => order r = expected ∧ follows previous (slot r) ∧ fields_ok r ∧
               chain (expected + 1) (slot r) rs
  end.

Lemma is_bit_true v : is_bit v = true ↔ bit v.
Proof. unfold is_bit, bit. rewrite orb_true_iff, !Z.eqb_eq. done. Qed.

Lemma exact_hex_true digits s : exact_hex digits s = true ↔ hex_text digits s.
Proof.
  unfold exact_hex, hex_text. rewrite andb_true_iff, Z.eqb_eq, forallb_forall, Forall_forall.
  setoid_rewrite bool_decide_eq_true. setoid_rewrite <-list_elem_of_In. done.
Qed.

Lemma check_hex_Ok line name digits value :
  check_hex line tt (name, digits, value) = Ok tt ↔ hex_text digits value.
Proof.
  unfold check_hex. rewrite guard_Ok, negb_false_iff, exact_hex_true. by split; [intros [? _]|].
Qed.

Lemma land3_mod v : Z.land v 3 = v mod 4.
Proof. change 3 with (Z.ones 2). by rewrite Z.land_ones by lia. Qed.

Lemma aligned_Ok {A} s e (k : result A) x :
  (v ← int_text 16 s; (raise e when negb (Z.land v 3 =? 0);; k)) = Ok x ↔ aligned s ∧ k = Ok x.
Proof.
  unfold int_text, aligned. rewrite bind_Ok. setoid_rewrite guard_Ok.
  setoid_rewrite negb_false_iff. setoid_rewrite Z.eqb_eq. setoid_rewrite land3_mod. split.
  - intros (v & Hv & Hm & Hk). split; [|done]. exists v. split; [|done].
    destruct (py_int 16 s); [by injection Hv as ->|done].
  - intros [(v & Hv & Hm) Hk]. exists v. by rewrite Hv.
Qed.

Lemma follows_check previous c l :
  0 ≤ l →
  ((c <? previous.1) = false ∧
   negb (l =? (if c =? previous.1 then previous.2 + 1 else 0)) = false) ↔
  follows previous (c, l).
Proof.
  intros Hl. unfold follows. simpl. rewrite negb_false_iff, Z.ltb_ge, Z.eqb_eq.
  destruct (Z.eqb_spec c previous.1); lia.
Qed.

Lemma check_rec_Ok line expected previous r :
  0 ≤ lane r →
  check_rec line expected previous.1 previous.2 r = Ok tt ↔
  order r = expected ∧ follows previous (slot r) ∧ fields_ok r.
Proof.
  intros Hl. unfold slot. rewrite <-follows_check by done. unfold check_rec, fields_ok.
  rewrite !guard_Ok, bind_Ok, !orb_false_iff, andb_false_iff, !negb_false_iff, !is_bit_true.
  rewrite !Z.eqb_eq, !Z.ltb_ge, Z.eqb_neq. simpl existsb.
  rewrite !orb_true_iff, !Z.eqb_eq.
  assert (∀ k : result unit, (∃ a : unit, foldM (check_hex line) tt
      [("pc", 16, pc r); ("instr", 8, instr r); ("next_pc", 16, next_pc r);
       ("wdata", 16, wdata r)] = Ok a ∧ k = Ok tt) ↔
    (hex_text 16 (pc r) ∧ hex_text 8 (instr r) ∧ hex_text 16 (next_pc r) ∧
     hex_text 16 (wdata r)) ∧ k = Ok tt) as Hhex.
  { intros k. rewrite <-!(check_hex_Ok line). split.
    - intros ([] & Hf & Hk). rewrite foldM_unit, !Forall_cons in Hf.
      destruct Hf as (H1 & H2 & H3 & H4 & _). split; [|exact Hk]. split_and!; done.
    - intros (Hf & Hk). exists tt. rewrite foldM_unit, !Forall_cons. split; [|done].
      destruct Hf as (H1 & H2 & H3 & H4). split_and!; done. }
  rewrite Hhex. clear Hhex.
  assert ((if negb (arch r =? 0) && (exception r =? 0)
    then pc_value ← int_text 16 (pc r);
         (raise (at_line line "architectural PC is not 4-byte aligned")
          when negb (Z.land pc_value 3 =? 0);;
          (next_value ← int_text 16 (next_pc r);
           (raise (at_line line "architectural next_pc is not 4-byte aligned")
            when negb (Z.land next_value 3 =? 0);; Ok tt)))
    else Ok tt) = Ok tt ↔
    (arch r ≠ 0 → exception r = 0 → aligned (pc r) ∧ aligned (next_pc r))) as Hal.
  { destruct (Z.eqb_spec (arch r) 0), (Z.eqb_spec (exception r) 0); simpl;
      [split; [intros; done|done]..| |split; [intros; done|done]].
    rewrite !aligned_Ok. split; [intros (? & ? & _); auto|].
    intros H. destruct H as [? ?]; auto. }
  rewrite Hal. clear Hal. unfold bit. intuition lia.
Qed.

Lemma parse_uint_nonneg v name line base z : parse_uint v name line base = Ok z → 0 ≤ z.
Proof.
  unfold parse_uint. destruct (s ← v; py_int base s); [|done].
  rewrite guard_Ok. intros [H [= ->]]. by b2p.
Qed.

Lemma parse_row_nonneg line row r :
  parse_row line row = Ok r → 0 ≤ cycle r ∧ 0 ≤ lane r ∧ 0 ≤ rd r ∧ 0 ≤ cause r.
Proof.
  unfold parse_row. rewrite guard_Ok. intros [_ H].
  repeat (apply bind_Ok in H as (? & ?%bind_Ok & H)). injection H as <-. simpl.
  naive_solver eauto using parse_uint_nonneg.
Qed.

Lemma check_row_Ok previous expected row s :
  check_row previous (expected, row) = Ok s ↔
  ∃ r, parse_row (expected + 2) row = Ok r ∧ s = slot r ∧ order r = expected ∧
       follows previous (slot r) ∧ fields_ok r.
Proof.
  destruct previous as [pc pl]. unfold check_row. rewrite bind_Ok. split.
  - intros (r & Hr & H). apply bind_Ok in H as ([] & Hc & [= <-]).
    pose proof (parse_row_nonneg _ _ _ Hr) as (_ & Hl & _).
    apply (check_rec_Ok _ _ (pc, pl)) in Hc; [|done]. by exists r.
  - intros (r & Hr & -> & Hc). pose proof (parse_row_nonneg _ _ _ Hr) as (_ & Hl & _).
    exists r. split; [done|]. apply (check_rec_Ok (expected + 2) _ (pc, pl)) in Hc; [|done].
    simpl in Hc. by rewrite Hc.
Qed.

(** The rows parse as [rs], from [expected] on. *)
Definition parsed (expected : Z) (rows : list Row) (rs : list Rec) : Prop :=
  Forall2 (λ e r, parse_row (e.1 + 2) e.2 = Ok r)
    (zip (zrange expected (expected + zlen rows)) rows) rs.

Lemma check_rows expected previous rows s :
  foldM check_row previous (zip (zrange expected (expected + zlen rows)) rows) = Ok s →
  ∃ rs, parsed expected rows rs ∧ chain expected previous rs.
Proof.
  revert expected previous. induction rows as [|row rows IH]; intros expected previous.
  { exists []. split; [|done]. unfold parsed. rewrite zrange_empty by (unfold zlen; simpl; lia).
    constructor. }
  unfold parsed. rewrite zlen_cons, zrange_cons by (pose proof (zlen_nonneg rows); lia).
  replace (expected + (1 + zlen rows)) with (expected + 1 + zlen rows) by lia.
  match goal with |- context [zip (?a :: ?l) (?b :: ?k)] =>
    change (zip (a :: l) (b :: k)) with ((a, b) :: zip l k) end.
  cbn [foldM]. intros (s1 & H1 & H)%bind_Ok.
  apply check_row_Ok in H1 as (r & Hr & -> & Ho & Hf & Hok).
  destruct (IH _ _ H) as (rs & Hp & Hc).
  exists (r :: rs). split; [by constructor|]. done.
Qed.

Lemma check_rows_complete expected previous rows rs :
  parsed expected rows rs → chain expected previous rs →
  ∃ s, foldM check_row previous (zip (zrange expected (expected + zlen rows)) rows) = Ok s.
Proof.
  revert expected previous rs. induction rows as [|row rows IH]; intros expected previous rs.
  { intros _ _. rewrite zrange_empty by (unfold zlen; simpl; lia). by eexists. }
  unfold parsed. rewrite zlen_cons, zrange_cons by (pose proof (zlen_nonneg rows); lia).
  replace (expected + (1 + zlen rows)) with (expected + 1 + zlen rows) by lia.
  match goal with |- context [zip (?a :: ?l) (?b :: ?k)] =>
    change (zip (a :: l) (b :: k)) with ((a, b) :: zip l k) end.
  intros Hp. inversion Hp as [|? r ? rs' Hr Hp']; subst. intros (Ho & Hf & Hok & Hc).
  cbn [foldM]. destruct (check_row_Ok previous expected row (slot r)) as [_ ->].
  - cbn [mbind result_bind]. by apply (IH _ _ rs').
  - by exists r.
Qed.

Lemma parsed_length expected rows rs : parsed expected rows rs → zlen rs = zlen rows.
Proof.
  intros Hp%Forall2_length. unfold zlen in *. rewrite <-Hp, length_zip_with. unfold zrange.
  rewrite length_seqZ. lia.
Qed.
Lemma parsed_unique expected rows rs rs' : parsed expected rows rs → parsed expected rows rs' → rs = rs'.
Proof.
  unfold parsed. intros Hp. revert rs'. induction Hp as [|e r l rs Hr Hp IH]; intros rs' Hp'.
  - by inversion Hp'.
  - inversion Hp' as [|? r' ? rs'' Hr' Hp'']; subst. rewrite Hr in Hr'. injection Hr' as ->.
    f_equal. by apply IH.
Qed.

(** Consequences of the chain. *)
Definition slot_lt (p r : Z * Z) : Prop := p.1 < r.1 ∨ (p.1 = r.1 ∧ p.2 < r.2).

Lemma chain_facts expected previous rs :
  chain expected previous rs →
  (∀ i r, rs !! i = Some r → order r = expected + Z.of_nat i ∧ fields_ok r) ∧
  Pairwise slot_lt (previous :: (slot <$> rs)) ∧
  (∀ i r, rs !! S i = Some r → ∃ p, rs !! i = Some p ∧ follows (slot p) (slot r)).
Proof.
  revert expected previous. induction rs as [|r rs IH]; intros expected previous; simpl.
  { intros _. split; [done|]. split; [by split|]. done. }
  intros (Ho & Hf & Hok & Hc). destruct (IH _ _ Hc) as (IH1 & [IH2 IH2'] & IH3).
  split; [|split; [split|]].
  - intros [|i] x Hx; simpl in Hx; [injection Hx as <-; split; [lia|done]|].
    destruct (IH1 i x Hx) as [-> ?]. split; [lia|done].
  - constructor; [unfold follows, slot_lt in *; lia|].
    eapply Forall_impl; [exact IH2|]. intros [c l]. unfold follows, slot_lt, slot in *. simpl in *. lia.
  - by split.
  - intros [|i] x Hx; simpl in Hx; [|by apply IH3].
    exists r. split; [done|]. destruct rs as [|x' rs]; [done|]. simpl in Hx, Hc.
    injection Hx as <-. tauto.
Qed.

Lemma lanes_bounded rs c :
  Forall (λ r, 0 ≤ lane r ≤ 2) rs → Pairwise slot_lt (slot <$> rs) →
  (length (filter (λ r, cycle r = c) rs) ≤ 3)%nat.
Proof.
  intros Hl Hp. rewrite Pairwise_fmap in Hp.
  apply (Pairwise_filter _ (λ r, cycle r = c)) in Hp.
  set (f := filter (λ r, cycle r = c) rs) in *.
  assert (∀ r, r ∈ f → cycle r = c ∧ 0 ≤ lane r ≤ 2) as Hin.
  { intros r [Hr Hrs]%list_elem_of_filter. rewrite Forall_forall in Hl. auto. }
  assert (NoDup (lane <$> f)) as Hnd.
  { clearbody f. induction f as [|r f IH]; [constructor|]. destruct Hp as [Hr Hp].
    apply NoDup_cons. split; [|apply IH; [done|intros x Hx; apply Hin; by constructor]].
    intros (x & Hx & Hxf)%list_elem_of_fmap. rewrite Forall_forall in Hr.
    specialize (Hr x Hxf). destruct (Hin r) as [Hrc _]; [by constructor|].
    destruct (Hin x) as [Hxc _]; [by constructor|].
    unfold slot_lt, slot in Hr. simpl in Hr. lia. }
  assert ((lane <$> f) ⊆+ zrange 0 3) as Hsub%submseteq_length.
  { apply NoDup_submseteq; [done|]. intros l (r & -> & Hr)%list_elem_of_fmap.
    apply elem_of_zrange. apply Hin in Hr. lia. }
  rewrite length_fmap in Hsub. exact Hsub.
Qed.
End spec.

(** ** Properties of traces *)

(** The retirements are numbered 0, 1, 2, ..., their fields are in range, their slots
    strictly increase, each cycle starts at lane 0 and uses consecutive lanes. *)
Definition retired_in_order (rs : list Check.Rec) : Prop :=
  (∀ i r, rs !! i = Some r → Check.order r = Z.of_nat i ∧ fields_ok r) ∧
  Pairwise slot_lt (slot <$> rs) ∧
  (∀ i r, rs !! i = Some r → 0 < Check.lane r →
     ∃ j p, i = S j ∧ rs !! j = Some p ∧ Check.cycle p = Check.cycle r ∧
            Check.lane r = Check.lane p + 1).

Theorem validate_sound t n :
  Check.validate t = Ok n →
  fieldnames t = Some Check.FIELDS ∧
  ∃ rs, parsed 0 (rows t) rs ∧ zlen rs = n ∧ 0 < n ∧ retired_in_order rs ∧
    (∀ c, (length (filter (λ r, Check.cycle r = c) rs) ≤ 3)%nat).
Proof.
  unfold Check.validate. rewrite !guard_Ok, negb_false_iff, bool_decide_eq_true.
  rewrite bool_decide_eq_false. intros (Hf & Hne & H).
  apply bind_Ok in H as (s & H & [= <-]).
  split.
  { destruct (fieldnames t); simpl in Hf; [by subst|done]. }
  apply (check_rows 0) in H as (rs & Hp & Hc).
  destruct (chain_facts _ _ _ Hc) as (H1 & [_ H2] & H3).
  assert (length rs = length (rows t)) as Hl.
  { apply Forall2_length in Hp. rewrite <-Hp, length_zip_with. unfold zrange, zlen.
    rewrite length_seqZ. lia. }
  exists rs. split_and!; try done.
  - unfold zlen. by rewrite Hl.
  - destruct (rows t); [done|]. unfold zlen. simpl. lia.
  - split_and!; [done..|]. intros i r Hi Hlane. destruct i as [|i].
    + destruct rs as [|r' rs']; [done|]. simpl in Hi. injection Hi as ->.
      destruct Hc as (_ & [Hf'|Hf'] & _); unfold slot in Hf'; simpl in Hf'; [|lia].
      pose proof Hp as Hp'. unfold parsed in Hp'.
      inversion Hp' as [|? ? ? ? Hr]; subst. apply parse_row_nonneg in Hr. lia.
    + destruct (H3 _ _ Hi) as (p & Hpi & Hfol). exists i, p. split_and!; try done;
        unfold follows, slot in Hfol; simpl in Hfol; lia.
  - intros c. apply lanes_bounded; [|done]. apply Forall_lookup. intros i r Hi.
    destruct (H1 _ _ Hi) as [_ [Hl2 _]]. split; [|done].
    destruct (Forall2_lookup_r _ _ _ _ _ Hp Hi) as (e & _ & Hr).
    apply parse_row_nonneg in Hr. lia.
Qed.

(** Its checks reject nothing else. *)
Theorem validate_complete t rs :
  fieldnames t = Some Check.FIELDS → rows t ≠ [] → parsed 0 (rows t) rs →
  chain 0 (-1, -1) rs → Check.validate t = Ok (zlen (rows t)).
Proof.
  intros Hf Hne Hp Hc. unfold Check.validate. rewrite Hf.
  rewrite bool_decide_true by done. cbn [negb]. rewrite bool_decide_false by done.
  destruct (check_rows_complete 0 (-1, -1) (rows t) rs Hp Hc) as [s Hs].
  unfold enumerate. rewrite Z.add_0_l in Hs. by rewrite Hs.
Qed.

Lemma chain_intro expected previous rs :
  (∀ i r, rs !! i = Some r → Check.order r = expected + Z.of_nat i ∧ fields_ok r) →
  Pairwise slot_lt (previous :: (slot <$> rs)) → Forall (λ r, 0 ≤ Check.cycle r ∧ 0 ≤ Check.lane r) rs →
  previous.1 < 0 ∨ 0 ≤ previous.2 →
  (∀ i r, rs !! i = Some r → 0 < Check.lane r →
     ∃ p, (previous :: (slot <$> rs)) !! i = Some p ∧ p.1 = Check.cycle r ∧ Check.lane r = p.2 + 1) →
  chain expected previous rs.
Proof.
  revert expected previous. induction rs as [|r rs IH]; intros expected previous Ho [Hlt Hp] Hl Hprev Hs; [done|].
  apply Forall_cons in Hl as [[Hc Hr] Hl]. pose proof (Ho 0%nat r eq_refl) as [Hord Hok].
  cbn [chain]. split_and!; [lia| |done|].
  - apply Forall_inv in Hlt. unfold follows, slot_lt, slot in *. simpl in *.
    destruct (decide (0 < Check.lane r)) as [H0|]; [|lia].
    destruct (Hs 0%nat r eq_refl H0) as (p & [= <-] & ? & ?). left. lia.
  - apply IH; [|done|done|by right|].
    + intros i x Hi. destruct (Ho (S i) x Hi) as [-> ?]. split; [lia|done].
    + intros i x Hi. by apply (Hs (S i) x).
Qed.

Lemma parsed_lanes expected entries rs :
  parsed expected entries rs → Forall (λ r, 0 ≤ Check.cycle r ∧ 0 ≤ Check.lane r) rs.
Proof.
  intros Hp. apply Forall_lookup. intros i r Hi.
  destruct (Forall2_lookup_r _ _ _ _ _ Hp Hi) as (e & _ & Hr). apply parse_row_nonneg in Hr. tauto.
Qed.

Lemma in_order_chain entries rs : parsed 0 entries rs → retired_in_order rs → chain 0 (-1, -1) rs.
Proof.
  intros Hp%parsed_lanes (Ho & Hlt & Hlane). apply chain_intro.
  - intros i r Hi. destruct (Ho i r Hi) as [-> ?]. split; [lia|done].
  - split; [|done]. apply Forall_fmap. eapply Forall_impl; [exact Hp|]. intros r [Hc _].
    left. simpl. lia.
  - exact Hp.
  - by left.
  - intros i r Hi H0. destruct (Hlane i r Hi H0) as (j & p & -> & Hj & Hc & Hl).
    exists (slot p). split; [|done]. simpl. by rewrite list_lookup_fmap, Hj.
Qed.

(** C24: validate accepts exactly the traces with the declared columns and at least one
    row whose rows parse to retirements numbered 0, 1, 2, ..., with every field in
    range, whose (cycle, lane) slots strictly increase, each cycle starting at lane 0 and
    using consecutive lanes; it returns their number, and then no cycle retires more
    than three instructions. *)
Theorem validate_correct t n :
  (Check.validate t = Ok n ↔
   fieldnames t = Some Check.FIELDS ∧
   ∃ rs, parsed 0 (rows t) rs ∧ zlen rs = n ∧ 0 < n ∧ retired_in_order rs) ∧
  (Check.validate t = Ok n → ∀ rs c, parsed 0 (rows t) rs →
   (length (filter (λ r, Check.cycle r = c) rs) ≤ 3)%nat).
Proof.
  split; [split|].
  - intros (Hf & rs & Hp & Hn & H0 & Hr & _)%validate_sound. split; [done|]. by exists rs.
  - intros (Hf & rs & Hp & <- & H0 & Hr). rewrite (parsed_length 0 (rows t) rs Hp) in *.
    apply (validate_complete t rs); [done| |done|by eapply in_order_chain].
    intros E. by rewrite E in H0.
  - intros (_ & rs' & Hp' & _ & _ & _ & Hc)%validate_sound rs c Hp.
    by rewrite (parsed_unique _ _ _ _ Hp Hp').
Qed.

(** ** Properties of the branch oracle *)

Definition control (instr : Z) : bool :=
  existsb (Z.eqb (Z.land instr 0x7F)) Oracle.CONTROL_OPCODES.

(** Record [r] states the outcome of the control retired at [e]. *)
Definition outcome_of (retired : list (Z * Z)) (e : Z * (Z * Z)) (r : Z) : Prop :=
  ∃ next, retired !! Z.to_nat (e.1 + 1) = Some next ∧ 0 ≤ r < 2 ^ 65 ∧
    r mod 2 ^ 64 = next.1 ∧ (Z.testbit r 64 = true ↔ next.1 ≠ e.2.1 + 4).

Lemma record_outcome taken target :
  0 ≤ target < 2 ^ 64 →
  let r := Z.lor (Z.shiftl (Z.b2z taken) 64) target in
  0 ≤ r < 2 ^ 65 ∧ r mod 2 ^ 64 = target ∧ Z.testbit r 64 = taken.
Proof.
  intros Ht r. unfold r. rewrite lor_shiftl_add by lia. split_and!.
  - destruct taken; simpl; lia.
  - destruct taken; simpl; lia.
  - by rewrite Z.add_comm, Z.mod_add, Z.mod_small by lia.
  - apply Z.b2z_inj. rewrite Z.testbit_spec' by lia.
    rewrite Z.div_add_l, Z.div_small, Z.add_0_r by lia. by destruct taken.
Qed.

Lemma add_records retired es records :
  Forall (λ p, 0 ≤ p.1 < 2 ^ 64) retired →
  (∀ e, e ∈ es → 0 ≤ e.1) →
  match foldM (Oracle.add_record retired) records es with
  | Ok out => ∃ new, out = records ++ new ∧
      Forall2 (outcome_of retired) (filter (λ e, control e.2.2 = true) es) new
  | Err _ => ∃ e, e ∈ es ∧ control e.2.2 = true ∧ zlen retired ≤ e.1 + 1
  end.
Proof.
  intros Hr. revert records. induction es as [|[i [pc instr]] es IH]; intros records Hes.
  { exists []. rewrite app_nil_r. split; [done|constructor]. }
  cbn [foldM]. unfold Oracle.add_record at 2. fold (control instr).
  rewrite filter_cons. cbn [snd].
  assert (∀ e, e ∈ es → 0 ≤ e.1) as Hes' by (intros e He; apply Hes; by constructor).
  destruct (control instr) eqn:Hc; simpl negb; cbn iota.
  - rewrite decide_True by done. destruct (Z.leb_spec (zlen retired) (i + 1)).
    { simpl. exists (i, (pc, instr)). split; [by constructor|done]. }
    assert (0 ≤ i) by (apply (Hes (i, (pc, instr))); by constructor).
    destruct (lookup_lt_is_Some_2 retired (Z.to_nat (i + 1))) as [next Hn];
      [unfold zlen in *; lia|].
    rewrite (get_item_Ok _ _ next) by (done || lia). cbn [mbind result_bind].
    set (record := Z.lor _ _).
    specialize (IH (records ++ [record]) Hes').
    destruct (foldM _ _ _) as [out|].
    + destruct IH as (new & -> & Hnew). exists (record :: new).
      rewrite <-app_assoc. split; [done|]. constructor; [|done].
      exists next. rewrite Forall_lookup in Hr.
      destruct (record_outcome (negb (next.1 =? pc + 4)) next.1 (Hr _ _ Hn)) as (H1 & H2 & H3).
      split; [done|]. split; [done|]. split; [done|]. unfold record. rewrite H3. simpl.
      rewrite negb_true_iff, Z.eqb_neq. done.
    + destruct IH as (e' & He & Hce). exists e'. split; [by constructor|done].
  - rewrite decide_False by done. cbn [mbind result_bind].
    specialize (IH records Hes'). destruct (foldM _ _ _) as [out|]; [done|].
    destruct IH as (e' & He & Hce). exists e'. split; [by constructor|done].
Qed.

(** C38: oracle_records fails only when the last retired instruction is a branch, JAL or
    JALR; otherwise it gives one 65-bit record per control instruction, in
    retirement order, whose low 64 bits are the next retired PC and whose top bit
    says whether that differs from the fall-through address. *)
Theorem oracle_correct retired :
  Forall (λ p, 0 ≤ p.1 < 2 ^ 64) retired →
  match Oracle.oracle_records retired with
  | Ok records =>
      Forall2 (outcome_of retired)
        (filter (λ e, control e.2.2 = true) (enumerate retired)) records
  | Err _ => ∃ pc instr, last retired = Some (pc, instr) ∧ control instr = true
  end.
Proof.
  intros Hr. unfold Oracle.oracle_records.
  assert (∀ e, e ∈ enumerate retired → 0 ≤ e.1 ∧ retired !! Z.to_nat e.1 = Some e.2) as He.
  { intros e [k Hk]%list_elem_of_lookup. rewrite lookup_enumerate in Hk.
    destruct (retired !! k) eqn:Hx; [|done]. injection Hk as <-. simpl.
    rewrite Nat2Z.id. split; [lia|done]. }
  pose proof (add_records retired (enumerate retired) [] Hr (λ e H, proj1 (He e H))) as H.
  destruct (foldM _ _ _) as [out|].
  - by destruct H as (new & -> & Hnew).
  - destruct H as ([i [pc instr]] & Hin & Hc & Hlen). destruct (He _ Hin) as [Hi Hx].
    exists pc, instr. split; [|done]. rewrite last_lookup. simpl in *.
    pose proof (lookup_lt_Some _ _ _ Hx). rewrite <-Hx. f_equal. unfold zlen in Hlen. lia.
Qed.

Lemma oracle_correct_witness :
  Forall (λ p, 0 ≤ p.1 < 2 ^ 64) [(0x1000, 0x63); (0x2000, 0x13); (0x2004, 0x6F); (0x2008, 0x13)] ∧
  Forall2 (outcome_of [(0x1000, 0x63); (0x2000, 0x13); (0x2004, 0x6F); (0x2008, 0x13)])
    [(0, (0x1000, 0x63)); (2, (0x2004, 0x6F))] [2 ^ 64 + 0x2000; 0x2008].
Proof.
  assert (Forall (λ p, 0 ≤ p.1 < 2 ^ 64)
    [(0x1000, 0x63); (0x2000, 0x13); (0x2004, 0x6F); (0x2008, 0x13)]) as H
    by (repeat constructor; simpl; lia).
  split; [exact H|].
  exact (oracle_correct [(0x1000, 0x63); (0x2000, 0x13); (0x2004, 0x6F); (0x2008, 0x13)] H).
Defined.

(** A three-row trace: two retirements in cycle 5, one in cycle 7. *)
Definition sample_trace : Table := dict_reader
  [Check.FIELDS;
   ["0"; "5"; "0"; "1"; "0000000080000000"; "00000013"; "0000000080000004"; "1"; "3";
    "0000000000000000"; "0"; "0"; "3"];
   ["1"; "5"; "1"; "1"; "0000000080000004"; "00000013"; "0000000080000008"; "0"; "0";
    "00000000000000aB"; "0"; "0"; "3"];
   ["2"; "7"; "0"; "0"; "0000000080000008"; "00000013"; "0000000080000100"; "0"; "0";
    "0000000000000000"; "1"; "11"; "1"]].

Lemma validate_correct_witness :
  Check.validate sample_trace = Ok 3 ∧
  ∃ rs, parsed 0 (rows sample_trace) rs ∧ zlen rs = 3 ∧ retired_in_order rs ∧
    ∀ c, (length (filter (λ r, Check.cycle r = c) rs) ≤ 3)%nat.
Proof.
  assert (Check.validate sample_trace = Ok 3) as H by (vm_compute; reflexivity).
  split; [exact H|]. destruct (validate_correct sample_trace 3) as [Hiff Hthree].
  destruct (proj1 Hiff H) as (_ & rs & Hp & Hn & _ & Hr). exists rs.
  split; [exact Hp|]. split; [exact Hn|]. split; [exact Hr|]. intros c. exact (Hthree H rs c Hp).
Defined.

