(* ===== verification/IssueTrace.v ===== *)
(** * Issue-window experiment: the instruction stream

    [tools/issue_window_experiment.py], first part: [DynamicInstruction], the
    extraction of the committed stream from a cycle trace ([load_trace]) with
    its dependence links, and the assignment of issue pipes. *)

From stdpp Require Import base numbers list strings gmap.
From Stdlib Require Import ZArith Lia.
From S2P Require Import Prelude PyText Csv.

Open Scope Z_scope.

(** ** Instructions *)

Record DynamicInstruction := {
  uid : Z; pc : Z; bits : Z; uses_rs1 : bool; uses_rs2 : bool; rs1 : Z; rs2 : Z;
  writes_rd : bool; rd : Z; observed_release : Z; intrinsic_release : Z;
  actual_issue : Z; actual_complete : Z; actual_retire : Z; actual_pipe : Z;
  deps : list nat; previous_mem : option nat }.

#[export] Instance DynamicInstruction_inhabited : Inhabited DynamicInstruction :=
  populate {| uid := 0; pc := 0; bits := 0; uses_rs1 := false; uses_rs2 := false; rs1 := 0;
              rs2 := 0; writes_rd := false; rd := 0; observed_release := 0;
              intrinsic_release := 0; actual_issue := 0; actual_complete := 0;
              actual_retire := 0; actual_pipe := 0; deps := []; previous_mem := None |}.

Section properties.
Variable self : DynamicInstruction.
Definition opcode : Z := Z.land (bits self) 0x7f.
Definition is_mem : bool := existsb (Z.eqb opcode) [0x03; 0x23; 0x2f].
Definition is_store : bool := opcode =? 0x23.
Definition is_branch : bool := opcode =? 0x63.
Definition is_jump : bool := existsb (Z.eqb opcode) [0x67; 0x6f].
Definition is_system_or_fence : bool := existsb (Z.eqb opcode) [0x0f; 0x73].
Definition is_hard : bool := is_branch || is_jump || is_system_or_fence.
Definition is_persistent_hard : bool := is_jump || is_system_or_fence.
Definition is_m : bool :=
  existsb (Z.eqb opcode) [0x33; 0x3b] && (Z.land (Z.shiftr (bits self) 25) 0x7f =? 1).
Definition pipe_options : list Z :=
  if is_mem then [2]
  else if is_branch || is_jump || is_system_or_fence then [0]
  else if is_m then [1]
  else [0; 1].
Definition latency : Z := Z.max 1 (actual_complete self - actual_issue self).
End properties.

(** ** Reading the trace *)

Definition parse_hex (raw : Row) (field : string) : result Z := int_column raw field 16.

Definition packed_reg (raw : Row) (field : string) (lane : Z) : result Z :=
  v ← parse_hex raw field; Ok (Z.land (Z.shiftr v (lane * 5)) 0x1f).

Record Meta := {
  m_pc : Z; m_bits : Z; m_uses_rs1 : bool; m_uses_rs2 : bool; m_rs1 : Z; m_rs2 : Z;
  m_writes_rd : bool; m_rd : Z }.

(** The dictionaries and counters of [load_trace]. *)
Record Load := {
  metadata : gmap Z Meta; first_f : gmap Z Z; first_f_intrinsic : gmap Z Z;
  first_q : gmap Z Z; issue : gmap Z (Z * Z); complete : gmap Z Z; retire : gmap Z Z;
  committed : list Z; held_cycles : Z; backend_held_cycles : Z; total_cycles : Z;
  actual_retired : Z }.

Definition load_init : Load :=
  {| metadata := ∅; first_f := ∅; first_f_intrinsic := ∅; first_q := ∅; issue := ∅;
     complete := ∅; retire := ∅; committed := []; held_cycles := 0;
     backend_held_cycles := 0; total_cycles := 0; actual_retired := 0 |}.

Definition required : list string :=
  ["cycle"; "fetch_valid"; "fetch_fire"; "queue_valid"; "issue_valid"; "complete_valid";
   "retire_count"; "candidate_uses_rs1"; "candidate_uses_rs2"; "candidate_reg_write";
   "candidate_rs1"; "candidate_rs2"; "candidate_rd"].

(** [d.setdefault(k, v)] as a statement. *)
Definition setdefault {A} (d : gmap Z A) (k : Z) (v : A) : gmap Z A :=
  match d !! k with Some _ => d | None => <[k := v]> d end.

Definition lane_set (mask lane : Z) : bool := negb (Z.land mask (Z.shiftl 1 lane) =? 0).
Definition lane_field (prefix : string) (lane : Z) (suffix : string) : string :=
  prefix +:+ str_int lane +:+ suffix.

(** The four lane loops. *)
Definition fetch_lane (raw : Row) (cycle mask : Z) (s : Load) (lane : Z) : result Load :=
  if negb (lane_set mask lane) then Ok s else
  uid ← int_column raw (lane_field "f" lane "_uid") 16;
  Ok {| metadata := metadata s; first_f := setdefault (first_f s) uid cycle;
        first_f_intrinsic :=
          setdefault (first_f_intrinsic s) uid (cycle - backend_held_cycles s);
        first_q := first_q s; issue := issue s; complete := complete s; retire := retire s;
        committed := committed s; held_cycles := held_cycles s;
        backend_held_cycles := backend_held_cycles s; total_cycles := total_cycles s;
        actual_retired := actual_retired s |}.

Definition queue_lane (raw : Row) (cycle mask uses1 uses2 reg_write : Z) (s : Load) (lane : Z)
    : result Load :=
  if negb (lane_set mask lane) then Ok s else
  uid ← int_column raw (lane_field "q" lane "_uid") 16;
  pc ← int_column raw (lane_field "q" lane "_pc") 16;
  bits ← int_column raw (lane_field "q" lane "_instr") 16;
  rs1 ← packed_reg raw "candidate_rs1" lane;
  rs2 ← packed_reg raw "candidate_rs2" lane;
  rd ← packed_reg raw "candidate_rd" lane;
  let meta := {| m_pc := pc; m_bits := bits; m_uses_rs1 := lane_set uses1 lane;
                 m_uses_rs2 := lane_set uses2 lane; m_rs1 := rs1; m_rs2 := rs2;
                 m_writes_rd := lane_set reg_write lane; m_rd := rd |} in
  Ok {| metadata := setdefault (metadata s) uid meta; first_f := first_f s;
        first_f_intrinsic := first_f_intrinsic s; first_q := setdefault (first_q s) uid cycle;
        issue := issue s; complete := complete s; retire := retire s;
        committed := committed s; held_cycles := held_cycles s;
        backend_held_cycles := backend_held_cycles s; total_cycles := total_cycles s;
        actual_retired := actual_retired s |}.

Definition issue_lane (raw : Row) (cycle mask : Z) (s : Load) (lane : Z) : result Load :=
  if negb (lane_set mask lane) then Ok s else
  uid ← int_column raw (lane_field "i" lane "_uid") 16;
  Ok {| metadata := metadata s; first_f := first_f s; first_f_intrinsic := first_f_intrinsic s;
        first_q := first_q s; issue := setdefault (issue s) uid (cycle, lane);
        complete := complete s; retire := retire s; committed := committed s;
        held_cycles := held_cycles s; backend_held_cycles := backend_held_cycles s;
        total_cycles := total_cycles s; actual_retired := actual_retired s |}.

Definition complete_lane (raw : Row) (cycle mask : Z) (s : Load) (lane : Z) : result Load :=
  if negb (lane_set mask lane) then Ok s else
  uid ← int_column raw (lane_field "c" lane "_uid") 16;
  Ok {| metadata := metadata s; first_f := first_f s; first_f_intrinsic := first_f_intrinsic s;
        first_q := first_q s; issue := issue s; complete := setdefault (complete s) uid cycle;
        retire := retire s; committed := committed s; held_cycles := held_cycles s;
        backend_held_cycles := backend_held_cycles s; total_cycles := total_cycles s;
        actual_retired := actual_retired s |}.

Definition retire_lane (raw : Row) (cycle : Z) (s : Load) (lane : Z) : result Load :=
  uid ← int_column raw (lane_field "r" lane "_uid") 16;
  Ok {| metadata := metadata s; first_f := first_f s; first_f_intrinsic := first_f_intrinsic s;
        first_q := first_q s; issue := issue s; complete := complete s;
        retire := <[uid := cycle]> (retire s); committed := committed s ++ [uid];
        held_cycles := held_cycles s; backend_held_cycles := backend_held_cycles s;
        total_cycles := total_cycles s; actual_retired := actual_retired s |}.

Definition count_cycle (s : Load) : Load :=
  {| metadata := metadata s; first_f := first_f s; first_f_intrinsic := first_f_intrinsic s;
     first_q := first_q s; issue := issue s; complete := complete s; retire := retire s;
     committed := committed s; held_cycles := held_cycles s;
     backend_held_cycles := backend_held_cycles s; total_cycles := total_cycles s + 1;
     actual_retired := actual_retired s |}.
Definition count_retired (n : Z) (s : Load) : Load :=
  {| metadata := metadata s; first_f := first_f s; first_f_intrinsic := first_f_intrinsic s;
     first_q := first_q s; issue := issue s; complete := complete s; retire := retire s;
     committed := committed s; held_cycles := held_cycles s;
     backend_held_cycles := backend_held_cycles s; total_cycles := total_cycles s;
     actual_retired := actual_retired s + n |}.
Definition count_held (backend : bool) (s : Load) : Load :=
  {| metadata := metadata s; first_f := first_f s; first_f_intrinsic := first_f_intrinsic s;
     first_q := first_q s; issue := issue s; complete := complete s; retire := retire s;
     committed := committed s; held_cycles := held_cycles s + 1;
     backend_held_cycles := backend_held_cycles s + Z.b2z backend;
     total_cycles := total_cycles s; actual_retired := actual_retired s |}.

(** [int(raw.get(name, "0"), 10)] *)
Definition get_int (raw : Row) (name : string) : result Z :=
  s ← text_of (default (Some "0") (columns raw !! name)); int_text 10 s.

(** [a or b] of two such counters, tested for truth. *)
Definition either (raw : Row) (name1 name2 : string) : result bool :=
  v ← get_int raw name1;
  if negb (v =? 0) then Ok true else w ← get_int raw name2; Ok (negb (w =? 0)).

Definition hold_row (raw : Row) (fetch_mask : Z) (s : Load) : result Load :=
  if fetch_mask =? 0 then Ok s else
  fire ← parse_hex raw "fetch_fire";
  if negb (fire =? 0) then Ok s else
  predictor_hold ← either raw "bp_fetch_stall" "bp_decode_stall";
  control_hold ← either raw "control_flush" "control_redirect";
  Ok (count_held (negb predictor_hold && negb control_hold) s).

(** One turn of the loop over the rows. *)
Definition load_row (s : Load) (raw : Row) : result Load :=
  cycle ← int_column raw "cycle" 10;
  let s := count_cycle s in
  fetch_mask ← parse_hex raw "fetch_valid";
  s ← foldM (fetch_lane raw cycle fetch_mask) s (zrange 0 3);
  queue_mask ← parse_hex raw "queue_valid";
  uses1 ← parse_hex raw "candidate_uses_rs1";
  uses2 ← parse_hex raw "candidate_uses_rs2";
  reg_write ← parse_hex raw "candidate_reg_write";
  s ← foldM (queue_lane raw cycle queue_mask uses1 uses2 reg_write) s (zrange 0 3);
  issue_mask ← parse_hex raw "issue_valid";
  s ← foldM (issue_lane raw cycle issue_mask) s (zrange 0 3);
  complete_mask ← parse_hex raw "complete_valid";
  s ← foldM (complete_lane raw cycle complete_mask) s (zrange 0 3);
  retire_count ← int_column raw "retire_count" 10;
  let s := count_retired retire_count s in
  s ← foldM (retire_lane raw cycle) s (zrange 0 retire_count);
  hold_row raw fetch_mask s.

Definition dict_item {A} (d : gmap Z A) (k : Z) : result A :=
  match d !! k with Some v => Ok v | None => Err (KeyError (str_int k)) end.

(** The instruction of one committed uid. *)
Definition make_instruction (s : Load) (uid : Z) : result DynamicInstruction :=
  match metadata s !! uid, issue s !! uid, complete s !! uid with
  | Some meta, Some (issue_cycle, issue_pipe), Some completed =>
      q ← dict_item (first_q s) uid;
      retired ← dict_item (retire s) uid;
      Ok {| uid := uid; pc := m_pc meta; bits := m_bits meta; uses_rs1 := m_uses_rs1 meta;
            uses_rs2 := m_uses_rs2 meta; rs1 := m_rs1 meta; rs2 := m_rs2 meta;
            writes_rd := m_writes_rd meta; rd := m_rd meta;
            observed_release := default q (first_f s !! uid);
            intrinsic_release := default (q - backend_held_cycles s) (first_f_intrinsic s !! uid);
            actual_issue := issue_cycle; actual_complete := completed;
            actual_retire := retired; actual_pipe := issue_pipe;
            deps := []; previous_mem := None |}
  | _, _, _ => Err (ValueError ("committed UID 0x" +:+ hex_int uid +:+ " lacks Q/I/C metadata"))
  end.

(** ** Dependence links *)

Record Links := { last_writer : gmap Z nat; last_mem : option nat }.

Definition add_producer (last_writer : gmap Z nat) (deps : list nat) (u : bool * Z)
    : list nat :=
  let '(uses, reg) := u in
  match (if uses && negb (reg =? 0) then last_writer !! reg else None) with
  | Some producer => if bool_decide (producer ∈ deps) then deps else deps ++ [producer]
  | None => deps
  end.
Definition producers (i : DynamicInstruction) (last_writer : gmap Z nat) : list nat :=
  foldl (add_producer last_writer) [] [(uses_rs1 i, rs1 i); (uses_rs2 i, rs2 i)].

Definition set_links (i : DynamicInstruction) (d : list nat) (m : option nat)
    : DynamicInstruction :=
  {| uid := uid i; pc := pc i; bits := bits i; uses_rs1 := uses_rs1 i; uses_rs2 := uses_rs2 i;
     rs1 := rs1 i; rs2 := rs2 i; writes_rd := writes_rd i; rd := rd i;
     observed_release := observed_release i; intrinsic_release := intrinsic_release i;
     actual_issue := actual_issue i; actual_complete := actual_complete i;
     actual_retire := actual_retire i; actual_pipe := actual_pipe i;
     deps := d; previous_mem := m |}.

Fixpoint link_from (index : nat) (s : Links) (instructions : list DynamicInstruction)
    : list DynamicInstruction :=
  match instructions with
  | [] => []
  | i :: rest =>
      let i' := set_links i (producers i (last_writer s))
                  (if is_mem i then last_mem s else previous_mem i) in
      let s' := {| last_writer := if writes_rd i && negb (rd i =? 0)
                                  then <[rd i := index]> (last_writer s) else last_writer s;
                   last_mem := if is_mem i then Some index else last_mem s |} in
      i' :: link_from (S index) s' rest
  end.

Definition link_instructions (instructions : list DynamicInstruction)
    : list DynamicInstruction :=
  link_from 0 {| last_writer := ∅; last_mem := None |} instructions.

Record Stats := { s_cycles : Z; s_retired : Z; s_held_cycles : Z; s_backend_held_cycles : Z }.

Definition load_trace (t : Table) : result (list DynamicInstruction * Stats) :=
  raise (ValueError ("trace lacks fields: " +:+ join ", " (missing_columns required t)))
    when negb (bool_decide (missing_columns required t = []));;
  s ← foldM load_row load_init (rows t);
  instructions ← mapR (make_instruction s) (committed s);
  raise (ValueError ("extracted " +:+ str_int (zlen instructions)
           +:+ " instructions, trace says " +:+ str_int (actual_retired s)))
    when negb (zlen instructions =? actual_retired s);;
  Ok (link_instructions instructions,
      {| s_cycles := total_cycles s; s_retired := actual_retired s;
         s_held_cycles := held_cycles s; s_backend_held_cycles := backend_held_cycles s |}).

(** ** Issue pipes *)

(** The recursive [assign] of [pipe_assignment]: it tries the pipes of the next
    instruction in order and backtracks; on success the dictionary holds one
    pipe per selected index. *)
Fixpoint assign (instructions : list DynamicInstruction) (selected : list nat) (used : list Z)
    : option (list (nat * Z)) :=
  match selected with
  | [] => Some []
  | index :: selected =>
      (fix try (pipes : list Z) : option (list (nat * Z)) :=
         match pipes with
         | [] => None
         | pipe :: pipes =>
             if bool_decide (pipe ∈ used) then try pipes
             else match assign instructions selected (pipe :: used) with
                  | Some result => Some ((index, pipe) :: result)
                  | None => try pipes
                  end
         end) (pipe_options (instructions !!! index))
  end.

Definition pipe_assignment (instructions : list DynamicInstruction) (selected : list nat)
    : option (list (nat * Z)) :=
  assign instructions selected [].

(** ** Releases *)

Definition release_step (field : DynamicInstruction → Z) (s : list Z * Z)
    (i : DynamicInstruction) : list Z * Z :=
  let '(result, previous) := s in
  let previous := Z.max previous (field i) in
  (result ++ [previous], previous).

Definition monotonic_release (instructions : list DynamicInstruction)
    (field : DynamicInstruction → Z) : list Z :=
  (foldl (release_step field) ([], - 10 ^ 18) instructions).1.

(** ** Pipe assignment: soundness and completeness *)

(** A group issue: one pipe per selected instruction, of those it can use, no
    pipe twice and none of [used]. *)
Definition group_issue (instructions : list DynamicInstruction) (selected : list nat)
    (used : list Z) (r : list (nat * Z)) : Prop :=
  r.*1 = selected ∧ NoDup r.*2 ∧ (∀ p, p ∈ r.*2 → p ∉ used) ∧
  Forall (λ e, e.2 ∈ pipe_options (instructions !!! e.1)) r.

Lemma assign_cons instructions index selected used :
  assign instructions (index :: selected) used =
  foldr (λ pipe rest,
      if bool_decide (pipe ∈ used) then rest
      else match assign instructions selected (pipe :: used) with
           | Some result => Some ((index, pipe) :: result)
           | None => rest
           end) None (pipe_options (instructions !!! index)).
Proof.
  cbn [assign]. generalize (pipe_options (instructions !!! index)). intros pipes.
  induction pipes as [|pipe pipes IH]; [done|]. cbn [foldr]. by rewrite <-IH.
Qed.

Lemma group_issue_cons instructions index selected used r :
  group_issue instructions (index :: selected) used r ↔
  ∃ pipe r', r = (index, pipe) :: r' ∧ pipe ∈ pipe_options (instructions !!! index) ∧
    pipe ∉ used ∧ group_issue instructions selected (pipe :: used) r'.
Proof.
  unfold group_issue. split.
  - intros (Hs & Hn & Hu & Hf). destruct r as [|[i p] r]; [done|].
    injection Hs as -> Hs. simpl in *. apply NoDup_cons in Hn as [Hp Hn].
    apply Forall_cons in Hf as [Hpo Hf]. exists p, r. split_and!; try done.
    + apply Hu. by constructor.
    + intros q Hq. rewrite not_elem_of_cons. split; [by intros ->|].
      apply Hu. by constructor.
  - intros (p & r' & -> & Hpo & Hpu & Hs & Hn & Hu & Hf). simpl. split_and!.
    + by f_equal.
    + constructor; [|done]. intros Hp. apply (Hu p Hp). by constructor.
    + intros q [->|Hq]%elem_of_cons; [done|]. intros Hqu. apply (Hu q Hq). by constructor.
    + by constructor.
Qed.

Lemma assign_spec instructions selected used :
  match assign instructions selected used with
  | Some r => group_issue instructions selected used r
  | None => ∀ r, ¬ group_issue instructions selected used r
  end.
Proof.
  revert used. induction selected as [|index selected IH]; intros used.
  { simpl. split_and!; [done|constructor|by intros p ?%not_elem_of_nil|constructor]. }
  rewrite assign_cons.
  assert (∀ pipes, (∀ p, p ∈ pipes → p ∈ pipe_options (instructions !!! index)) →
    (∀ r p r', r = (index, p) :: r' → p ∈ pipe_options (instructions !!! index) →
       p ∉ pipes → p ∉ used → ¬ group_issue instructions selected (p :: used) r') →
    match foldr (λ pipe rest,
      if bool_decide (pipe ∈ used) then rest
      else match assign instructions selected (pipe :: used) with
           | Some result => Some ((index, pipe) :: result)
           | None => rest
           end) None pipes with
    | Some r => group_issue instructions (index :: selected) used r
    | None => ∀ r, ¬ group_issue instructions (index :: selected) used r
    end) as Hgen.
  { induction pipes as [|pipe pipes IHp]; intros Hin Hout; cbn [foldr].
    { intros r (p & r' & -> & Hp & Hpu & Hr)%group_issue_cons.
      eapply Hout; try done. apply not_elem_of_nil. }
    specialize (IH (pipe :: used)). case_bool_decide as Hu.
    - apply IHp; [intros p Hp; apply Hin; by constructor|].
      intros r p r' Hr Hp Hnp Hpu. eapply Hout; try done.
      rewrite not_elem_of_cons. split; [by intros ->|done].
    - destruct (assign instructions selected (pipe :: used)) as [r|].
      + apply group_issue_cons. exists pipe, r. split_and!; try done.
        apply Hin. by constructor.
      + apply IHp; [intros p Hp; apply Hin; by constructor|].
        intros r p r' Hr Hp Hnp Hpu. destruct (decide (p = pipe)) as [->|]; [apply IH|].
        eapply Hout; try done. by rewrite not_elem_of_cons. }
  apply Hgen; [done|]. intros; done.
Qed.

(** pipe_assignment finds a pipe for every selected instruction whenever one
    exists: a result gives each selected instruction, in order, one of its pipes and
    no pipe twice, and no result means that no such assignment exists. *)
Theorem pipe_assignment_correct instructions selected :
  match pipe_assignment instructions selected with
  | Some r => group_issue instructions selected [] r
  | None => ∀ r, ¬ group_issue instructions selected [] r
  end.
Proof. apply assign_spec. Qed.

(** ** Dependence links *)

(** [d] is the last position of [l] that satisfies [P]. *)
Definition youngest (P : DynamicInstruction → bool) (l : list DynamicInstruction) (d : nat)
    : Prop :=
  (∃ x, l !! d = Some x ∧ P x = true) ∧ ∀ j y, (d < j)%nat → l !! j = Some y → P y = false.

Definition writes (reg : Z) (i : DynamicInstruction) : bool :=
  writes_rd i && negb (rd i =? 0) && (rd i =? reg).

Lemma youngest_snoc P l x d :
  youngest P (l ++ [x]) d ↔ if P x then d = length l else youngest P l d.
Proof.
  unfold youngest. destruct (P x) eqn:Hx.
  - split.
    + intros [(y & Hy & HP) Hlast]. pose proof (lookup_lt_Some _ _ _ Hy) as Hlt.
      rewrite length_app in Hlt. simpl in Hlt.
      destruct (decide (d = length l)) as [|Hne]; [done|].
      specialize (Hlast (length l) x ltac:(lia)).
      rewrite Hlast in Hx; [done|]. by apply list_lookup_middle.
    + intros ->. split; [exists x; split; [by apply list_lookup_middle|done]|].
      intros j y Hj Hy%lookup_lt_Some. rewrite length_app in Hy. simpl in Hy. lia.
  - split; intros [(y & Hy & HP) Hlast].
    + pose proof (lookup_lt_Some _ _ _ Hy) as Hlt. rewrite length_app in Hlt. simpl in Hlt.
      destruct (decide (d = length l)) as [->|Hne].
      { rewrite list_lookup_middle in Hy by done. injection Hy as ->. by rewrite HP in Hx. }
      rewrite lookup_app_l in Hy by lia. split; [by exists y|].
      intros j z Hj Hz. apply (Hlast j); [done|]. by apply lookup_app_l_Some.
    + split; [exists y; split; [by apply lookup_app_l_Some|done]|].
      intros j z Hj Hz. apply lookup_app_Some in Hz as [Hz|[Hlen Hz]]; [by eapply Hlast|].
      destruct (j - length l)%nat; [|done]. simpl in Hz. by injection Hz as <-.
Qed.

Lemma youngest_nil P d : ¬ youngest P [] d.
Proof. by intros [(x & Hx & _) _]. Qed.

Definition links_ok (l : list DynamicInstruction) (s : Links) : Prop :=
  (∀ reg d, reg ≠ 0 → last_writer s !! reg = Some d ↔ youngest (writes reg) l d) ∧
  (∀ d, last_mem s = Some d ↔ youngest is_mem l d).

(** The registers an instruction reads. *)
Definition reads (i : DynamicInstruction) (reg : Z) : Prop :=
  reg ≠ 0 ∧ ((uses_rs1 i = true ∧ rs1 i = reg) ∨ (uses_rs2 i = true ∧ rs2 i = reg)).

Lemma add_producer_spec lw ds uses reg :
  NoDup ds →
  NoDup (add_producer lw ds (uses, reg)) ∧
  ∀ d, d ∈ add_producer lw ds (uses, reg) ↔
       d ∈ ds ∨ (uses = true ∧ reg ≠ 0 ∧ lw !! reg = Some d).
Proof.
  intros Hn. unfold add_producer.
  destruct uses, (Z.eqb_spec reg 0); simpl; try (split; [done|naive_solver]).
  destruct (lw !! reg) as [p|]; [|split; [done|naive_solver]].
  case_bool_decide as Hp; [split; [done|naive_solver]|]. split.
  - apply NoDup_app. split_and!; [done| |apply NoDup_singleton].
    by intros x Hx ->%list_elem_of_singleton.
  - intros d. rewrite elem_of_app, list_elem_of_singleton. naive_solver.
Qed.

Lemma producers_spec i lw :
  NoDup (producers i lw) ∧
  ∀ d, d ∈ producers i lw ↔ ∃ reg, reads i reg ∧ lw !! reg = Some d.
Proof.
  unfold producers, reads. cbn [foldl].
  destruct (add_producer_spec lw [] (uses_rs1 i) (rs1 i) (NoDup_nil_2)) as [H1 H2].
  destruct (add_producer_spec lw _ (uses_rs2 i) (rs2 i) H1) as [H3 H4].
  split; [done|]. intros d. rewrite H4, H2, elem_of_nil. naive_solver.
Qed.

Lemma link_from_spec l rest s k i :
  links_ok l s → rest !! k = Some i →
  ∃ d m, link_from (length l) s rest !! k = Some (set_links i d m) ∧ NoDup d ∧
    (∀ j, j ∈ d ↔ ∃ reg, reads i reg ∧ youngest (writes reg) (l ++ take k rest) j) ∧
    (is_mem i = true → ∀ j, m = Some j ↔ youngest is_mem (l ++ take k rest) j) ∧
    (is_mem i = false → m = previous_mem i).
Proof.
  revert l s k. induction rest as [|x rest IH]; intros l s [|k] [Hw Hm] Hk; try done.
  - simpl in Hk. injection Hk as ->. cbn [link_from].
    destruct (producers_spec i (last_writer s)) as [Hnd Hp].
    eexists _, _. split; [done|]. split; [done|].
    rewrite take_0, app_nil_r. split; [|split].
    + intros j. rewrite Hp. split; intros (reg & Hr & Hj); exists reg; split; try done;
        apply Hw; try done; by destruct Hr.
    + by intros ->.
    + by intros ->.
  - simpl in Hk. cbn [link_from].
    replace (S (length l)) with (length (l ++ [x])) by (rewrite length_app; simpl; lia).
    match goal with |- context [link_from _ ?s' rest] =>
      destruct (IH (l ++ [x]) s' k) as (d & m & H1 & H2 & H3 & H4 & H5); [|done|] end.
    + split; simpl.
      * intros reg d Hreg. rewrite youngest_snoc. unfold writes at 1.
        destruct (writes_rd x && negb (rd x =? 0)); simpl; [|by apply Hw].
        destruct (Z.eqb_spec (rd x) reg) as [<-|Hne].
        { rewrite lookup_insert_eq. naive_solver. }
        rewrite lookup_insert_ne by done. by apply Hw.
      * intros d. rewrite youngest_snoc. destruct (is_mem x); [naive_solver|apply Hm].
    + exists d, m. rewrite <-!app_assoc in H3, H4. done.
Qed.

(** Load_trace links each instruction to exactly the youngest earlier writers of
    the registers it reads (register zero excepted), without repetition, and each
    memory instruction to the youngest earlier one; it changes nothing else. *)
Theorem links_correct instructions k i :
  instructions !! k = Some i → previous_mem i = None →
  ∃ d m, link_instructions instructions !! k = Some (set_links i d m) ∧ NoDup d ∧
    (∀ j, j ∈ d ↔ ∃ reg, reads i reg ∧ youngest (writes reg) (take k instructions) j) ∧
    (∀ j, m = Some j ↔ is_mem i = true ∧ youngest is_mem (take k instructions) j) ∧
    (∀ j, j ∈ d ∨ m = Some j → (j < k)%nat).
Proof.
  intros Hk Hprev.
  destruct (link_from_spec [] instructions {| last_writer := ∅; last_mem := None |} k i)
    as (d & m & H1 & H2 & H3 & H4 & H5); [|done|].
  { split; simpl.
    - intros reg d _. rewrite lookup_empty. split; [done|by intros ?%youngest_nil].
    - intros d. split; [done|by intros ?%youngest_nil]. }
  rewrite app_nil_l in H3, H4.
  assert (∀ j, m = Some j ↔ is_mem i = true ∧ youngest is_mem (take k instructions) j) as Hm.
  { intros j. destruct (is_mem i).
    - rewrite (H4 eq_refl). split; [done|by intros [_ ?]].
    - rewrite (H5 eq_refl), Hprev. split; [done|by intros [? _]]. }
  assert (∀ P j, youngest P (take k instructions) j → (j < k)%nat) as Hlt.
  { intros P j [(x & Hx%lookup_lt_Some & _) _]. rewrite length_take in Hx. lia. }
  exists d, m. split; [exact H1|]. split; [exact H2|]. split; [exact H3|].
  split; [exact Hm|]. intros j [Hj|Hj]; [apply H3 in Hj as (reg & _ & Hy)|apply Hm in Hj as [_ Hy]]; by eapply Hlt.
Qed.

(** Two loads: an add that feeds a store, and an unrelated branch. *)
Definition sample_instruction (bits : Z) (u1 u2 w : bool) (r1 r2 d : Z) : DynamicInstruction :=
  {| uid := 0; pc := 0; bits := bits; uses_rs1 := u1; uses_rs2 := u2; rs1 := r1; rs2 := r2;
     writes_rd := w; rd := d; observed_release := 0; intrinsic_release := 0; actual_issue := 0;
     actual_complete := 2; actual_retire := 3; actual_pipe := 0; deps := [];
     previous_mem := None |}.
Definition sample_stream : list DynamicInstruction :=
  [sample_instruction 0x03 true false true 2 0 5; sample_instruction 0x13 true false true 5 0 5;
   sample_instruction 0x63 true true false 0 6 0; sample_instruction 0x23 true true false 5 2 0].

Lemma links_correct_witness :
  ∃ i d m, sample_stream !! 3%nat = Some i ∧ previous_mem i = None ∧
    link_instructions sample_stream !! 3%nat = Some (set_links i d m) ∧ NoDup d ∧
    (∀ j, j ∈ d ↔ ∃ reg, reads i reg ∧ youngest (writes reg) (take 3 sample_stream) j) ∧
    (∀ j, m = Some j ↔ is_mem i = true ∧ youngest is_mem (take 3 sample_stream) j) ∧
    (∀ j, j ∈ d ∨ m = Some j → (j < 3)%nat).
Proof.
  eexists.
  destruct (links_correct sample_stream 3 _ eq_refl eq_refl) as (d & m & H).
  exists d, m. split; [reflexivity|]. split; [reflexivity|]. exact H.
Defined.

(** The store depends on the add, and follows the load in memory order. *)
Example sample_links :
  (λ i, (deps i, previous_mem i)) <$> link_instructions sample_stream =
    [([], None); ([0%nat], None); ([], None); ([1%nat], Some 0%nat)].
Proof. reflexivity. Qed.
