(* ===== verification/IssueWindow.v ===== *)
(** * Issue-window experiment: the scheduler

    [tools/issue_window_experiment.py], second part: [schedule], a cycle-by-cycle
    model of a finite issue and retirement window under the [strict] and the
    [window] selection policies, and the projections of [main].

    The flag lists of the code ([admitted], [issued], ...) are the sets of the
    indices whose flag is set, the two cycle lists are maps, and the completion
    heap is its sorted list.  Indices come from lists of matching length, so the
    index errors of ill-formed inputs are not modelled. *)

From stdpp Require Import base numbers list strings gmap sorting.
From Stdlib Require Import ZArith Lia QArith.
From S2P Require Import Prelude PyText Csv IssueTrace.

Open Scope Z_scope.

(** ** State *)

(** The window: flags, cycles, heap and pointers. *)
Record Window := {
  admitted : gset nat; issued : gset nat; completed : gset nat; retired : gset nat;
  issue_cycle : gmap nat Z; complete_cycle : gmap nat Z; completion_heap : list (Z * nat);
  next_admit : nat; retire_head : nat; mem_active : Z }.

Record Counters := {
  issue_slots : Z; no_issue_cycles : Z; window_full_cycles : Z; max_occupancy : Z;
  skipped_oldest_cycles : Z; max_skip_distance : Z; feed_stall_cycles : Z;
  free_branches : Z; free_jumps : Z }.

Record State := { win : Window; cycle : Z; feed_clock : Z; counters : Counters }.

(** [a / b] on integers, as an exact fraction. *)
Definition div_float (a b : Z) : result Q :=
  raise (ZeroDivisionError "division by zero") when b =? 0;;
  Ok (inject_Z a / inject_Z b)%Q.

Fixpoint combinations {A} (l : list A) (width : nat) : list (list A) :=
  match width with
  | O => [[]]
  | S width' =>
      match l with
      | [] => []
      | x :: l' => ((x ::.) <$> combinations l' width') ++ combinations l' width
      end
  end.

(** Comparison of tuples of indices. *)
Fixpoint tuple_lt (a b : list nat) : bool :=
  match a, b with
  | [], _ :: _ => true
  | x :: a, y :: b => if Nat.eqb x y then tuple_lt a b else Nat.ltb x y
  | _, [] => false
  end.

(** [heapq.heappush] on the sorted list. *)
Definition heap_le (a b : Z * nat) : bool :=
  if a.1 =? b.1 then Nat.leb a.2 b.2 else a.1 <? b.1.
Fixpoint heap_push (h : list (Z * nat)) (x : Z * nat) : list (Z * nat) :=
  match h with
  | [] => [x]
  | y :: h' => if heap_le x y then x :: h else y :: heap_push h' x
  end.

Section schedule.
Variable instructions : list DynamicInstruction.
Variable releases : list Z.
Variable policy : string.
Variable capacity : Z.
Variables pausable_feed free_perfect_branches free_perfect_jumps : bool.

Let count : nat := length instructions.
Let instruction (index : nat) : DynamicInstruction := instructions !!! index.

Definition is_free_control (index : nat) : bool :=
  (free_perfect_branches && is_branch (instruction index))
  || (free_perfect_jumps && is_jump (instruction index)).

Definition ready (w : Window) (index : nat) : bool :=
  let i := instruction index in
  if existsb (λ producer, negb (bool_decide (producer ∈ completed w))) (deps i) then false
  else if match previous_mem i with
          | Some m => negb (bool_decide (m ∈ issued w))
          | None => false
          end then false
  else if is_mem i && (3 <=? mem_active w) then false
  else if is_persistent_hard i && negb (Nat.eqb index (retire_head w)) then false
  else true.

(** [range(retire_head, next_admit)] *)
Definition window_range (w : Window) : list nat :=
  seq (retire_head w) (next_admit w - retire_head w).

Definition barrier_cutoff (w : Window) : Z :=
  match list_find (λ index, is_persistent_hard (instruction index) = true ∧ index ∉ retired w)
          (window_range w) with
  | Some (_, index) => Z.of_nat index
  | None => Z.of_nat (next_admit w) - 1
  end.

Definition unissued (w : Window) : list nat :=
  filter (λ index, index ∈ admitted w ∧ index ∉ issued w) (window_range w).

(** The strict candidates: the ready prefix of the oldest three, up to the
    first hard instruction. *)
Fixpoint ready_prefix (w : Window) (l : list nat) : list nat :=
  match l with
  | [] => []
  | index :: l =>
      if negb (ready w index) then []
      else if is_hard (instruction index) then [index]
      else index :: ready_prefix w l
  end.

(** [for width in range(len(candidates), 0, -1)] *)
Fixpoint widest_prefix (candidates : list nat) (width : nat) : list (nat * Z) :=
  match width with
  | O => []
  | S width' =>
      match pipe_assignment instructions (take width candidates) with
      | Some assignment => assignment
      | None => widest_prefix candidates width'
      end
  end.

(** A hard instruction terminates its issue group. *)
Definition breaks_group (combination : list nat) : bool :=
  existsb (λ index, is_hard (instruction index)
                    && existsb (λ younger, Nat.ltb index younger) combination) combination.

Definition consider (best : option (list nat * list (nat * Z))) (combination : list nat)
    : option (list nat * list (nat * Z)) :=
  if breaks_group combination then best
  else match pipe_assignment instructions combination with
       | None => best
       | Some assignment =>
           match best with
           | None => Some (combination, assignment)
           | Some (b, _) => if tuple_lt combination b then Some (combination, assignment)
                            else best
           end
       end.

Fixpoint widest_group (ready_indices : list nat) (width : nat) : list (nat * Z) :=
  match width with
  | O => []
  | S width' =>
      match foldl consider None (combinations ready_indices width) with
      | Some (_, assignment) => assignment
      | None => widest_group ready_indices width'
      end
  end.

(** [choose()]; the dictionary it returns is a list in selection order. *)
Definition choose (w : Window) : list (nat * Z) :=
  let cutoff := barrier_cutoff w in
  let candidates := filter (λ index, Z.of_nat index ≤ cutoff) (unissued w) in
  if bool_decide (policy = "strict") then
    let prefix := ready_prefix w (take 3 candidates) in
    widest_prefix prefix (length prefix)
  else
    let ready_indices := filter (λ index, ready w index = true) candidates in
    widest_group ready_indices (Nat.min 3 (length ready_indices)).

(** *** The phases of one cycle *)

Definition retire_one (w : Window) : Window :=
  {| admitted := admitted w; issued := issued w; completed := completed w;
     retired := {[retire_head w]} ∪ retired w; issue_cycle := issue_cycle w;
     complete_cycle := complete_cycle w; completion_heap := completion_heap w;
     next_admit := next_admit w; retire_head := S (retire_head w);
     mem_active := mem_active w |}.

(** At most [n] more retirements this cycle. *)
Fixpoint retire_loop (n : nat) (w : Window) : Window :=
  match n with
  | O => w
  | S n =>
      if Nat.ltb (retire_head w) count && bool_decide (retire_head w ∈ completed w) then
        let index := retire_head w in
        let w := retire_one w in
        if is_hard (instruction index) && negb (is_free_control index) then w
        else retire_loop n w
      else w
  end.

Definition complete_one (w : Window) (index : nat) (at_cycle mem : Z) : Window :=
  {| admitted := admitted w; issued := issued w; completed := {[index]} ∪ completed w;
     retired := retired w; issue_cycle := issue_cycle w;
     complete_cycle := <[index := at_cycle]> (complete_cycle w);
     completion_heap := completion_heap w; next_admit := next_admit w;
     retire_head := retire_head w; mem_active := mem_active w - mem |}.

Definition with_heap (w : Window) (h : list (Z * nat)) : Window :=
  {| admitted := admitted w; issued := issued w; completed := completed w;
     retired := retired w; issue_cycle := issue_cycle w; complete_cycle := complete_cycle w;
     completion_heap := h; next_admit := next_admit w; retire_head := retire_head w;
     mem_active := mem_active w |}.

(** Pops every completion due at [now]; [h] is the heap. *)
Fixpoint drain (now : Z) (h : list (Z * nat)) (w : Window) : Window :=
  match h with
  | [] => with_heap w []
  | (due, index) :: h' =>
      if due <=? now then
        drain now h'
          (if bool_decide (index ∈ completed w) then w
           else complete_one w index due (Z.b2z (is_mem (instruction index))))
      else with_heap w h
  end.

Definition complete_store (now : Z) (w : Window) : Window :=
  if Nat.ltb (retire_head w) count && bool_decide (retire_head w ∈ issued w)
     && is_store (instruction (retire_head w)) && negb (bool_decide (retire_head w ∈ completed w))
  then complete_one w (retire_head w) now 1
  else w.

(** Admission of [next_admit]; a free control completes at once. *)
Definition admit_one (now : Z) (w : Window) : Window :=
  let index := next_admit w in
  let free := is_free_control index in
  {| admitted := {[index]} ∪ admitted w;
     issued := if free then {[index]} ∪ issued w else issued w;
     completed := if free then {[index]} ∪ completed w else completed w;
     retired := retired w;
     issue_cycle := if free then <[index := now]> (issue_cycle w) else issue_cycle w;
     complete_cycle := if free then <[index := now]> (complete_cycle w) else complete_cycle w;
     completion_heap := completion_heap w; next_admit := S index;
     retire_head := retire_head w; mem_active := mem_active w |}.

Definition count_free (c : Counters) (index : nat) : Counters :=
  let free := Z.b2z (is_free_control index) in
  let branch := Z.b2z (is_branch (instruction index)) in
  {| issue_slots := issue_slots c; no_issue_cycles := no_issue_cycles c;
     window_full_cycles := window_full_cycles c; max_occupancy := max_occupancy c;
     skipped_oldest_cycles := skipped_oldest_cycles c;
     max_skip_distance := max_skip_distance c; feed_stall_cycles := feed_stall_cycles c;
     free_branches := free_branches c + free * branch;
     free_jumps := free_jumps c + free * (1 - branch) |}.

(** [next_admit - retire_head] *)
Definition occupancy (w : Window) : Z := Z.of_nat (next_admit w) - Z.of_nat (retire_head w).

(** At most [n] more admissions this cycle. *)
Fixpoint admit_loop (n : nat) (now feed_clock : Z) (s : Window * Counters) : Window * Counters :=
  match n with
  | O => s
  | S n =>
      let '(w, c) := s in
      if Nat.ltb (next_admit w) count && (occupancy w <? capacity)
         && (releases !!! next_admit w <=? feed_clock)
      then admit_loop n now feed_clock (admit_one now w, count_free c (next_admit w))
      else s
  end.

Definition issue_one (now : Z) (w : Window) (index : nat) : Window :=
  let i := instruction index in
  {| admitted := admitted w; issued := {[index]} ∪ issued w; completed := completed w;
     retired := retired w; issue_cycle := <[index := now]> (issue_cycle w);
     complete_cycle := complete_cycle w;
     completion_heap := if is_store i then completion_heap w
                        else heap_push (completion_heap w) (now + latency i, index);
     next_admit := next_admit w; retire_head := retire_head w;
     mem_active := mem_active w + Z.b2z (is_mem i) |}.

Definition maximum (x : nat) (l : list nat) : nat := foldl Nat.max x l.

(** The counters of a cycle that issues [keys], with [oldest] unissued. *)
Definition count_issue (c : Counters) (keys : list nat) (oldest : nat) : Counters :=
  let skipped := negb (bool_decide (oldest ∈ keys)) in
  {| issue_slots := issue_slots c + zlen keys; no_issue_cycles := no_issue_cycles c;
     window_full_cycles := window_full_cycles c; max_occupancy := max_occupancy c;
     skipped_oldest_cycles := skipped_oldest_cycles c + Z.b2z skipped;
     max_skip_distance :=
       if skipped then Z.max (max_skip_distance c)
                         (Z.of_nat (maximum 0 keys) - Z.of_nat oldest)
       else max_skip_distance c;
     feed_stall_cycles := feed_stall_cycles c; free_branches := free_branches c;
     free_jumps := free_jumps c |}.

Definition count_occupancy (c : Counters) (occupancy : Z) (feed_blocked : bool) : Counters :=
  {| issue_slots := issue_slots c; no_issue_cycles := no_issue_cycles c;
     window_full_cycles := window_full_cycles c + Z.b2z feed_blocked;
     max_occupancy := Z.max (max_occupancy c) occupancy;
     skipped_oldest_cycles := skipped_oldest_cycles c;
     max_skip_distance := max_skip_distance c; feed_stall_cycles := feed_stall_cycles c;
     free_branches := free_branches c; free_jumps := free_jumps c |}.

Definition count_stalls (c : Counters) (no_issue feed_stall : bool) : Counters :=
  {| issue_slots := issue_slots c; no_issue_cycles := no_issue_cycles c + Z.b2z no_issue;
     window_full_cycles := window_full_cycles c; max_occupancy := max_occupancy c;
     skipped_oldest_cycles := skipped_oldest_cycles c;
     max_skip_distance := max_skip_distance c;
     feed_stall_cycles := feed_stall_cycles c + Z.b2z feed_stall;
     free_branches := free_branches c; free_jumps := free_jumps c |}.

Definition feed_blocked (w : Window) (feed_clock : Z) : bool :=
  Nat.ltb (next_admit w) count && (releases !!! next_admit w <=? feed_clock)
  && (capacity <=? occupancy w).

(** Retirement, completions and admission, up to [choose()]. *)
Definition before_issue (s : State) : Window * Counters :=
  let w := retire_loop 3 (win s) in
  let w := drain (cycle s) (completion_heap w) w in
  let w := complete_store (cycle s) w in
  let '(w, c) := admit_loop 3 (cycle s) (feed_clock s) (w, counters s) in
  (w, count_occupancy c (occupancy w) (feed_blocked w (feed_clock s))).

Definition issue_group (now : Z) (w : Window) (keys : list nat) : Window :=
  foldl (issue_one now) w (merge_sort Nat.le keys).

(** The body of the main loop, without the progress check. *)
Definition step (s : State) : State :=
  let '(w, c) := before_issue s in
  let assignment := choose w in
  let keys := assignment.*1 in
  let blocked := feed_blocked w (feed_clock s) in
  let '(w', c') :=
    if bool_decide (assignment = []) then (w, c)
    else (issue_group (cycle s) w keys, count_issue c keys (default O (head (unissued w)))) in
  {| win := w'; cycle := cycle s + 1;
     feed_clock := if pausable_feed && blocked then feed_clock s else feed_clock s + 1;
     counters := count_stalls c'
       (bool_decide (assignment = []) && negb (occupancy w =? 0))
       (pausable_feed && blocked) |}.

Definition finished (s : State) : bool := negb (Nat.ltb (retire_head (win s)) count).

(** [while retire_head < count: ...]; [None] when the fuel runs out. *)
Fixpoint run (fuel : nat) (start_cycle : Z) (s : State) : option (result State) :=
  if finished s then Some (Ok s)
  else match fuel with
       | O => None
       | S fuel =>
           let s := step s in
           if 10 * Z.max 1 (Z.of_nat count) <? cycle s - start_cycle then
             Some (Err (RuntimeError (policy +:+ " scheduler made no terminating progress at instruction "
                                      +:+ str_int (Z.of_nat (retire_head (win s))))))
           else run fuel start_cycle s
       end.

Definition init (start : Z) : State :=
  {| win := {| admitted := ∅; issued := ∅; completed := ∅; retired := ∅; issue_cycle := ∅;
               complete_cycle := ∅; completion_heap := []; next_admit := 0; retire_head := 0;
               mem_active := 0 |};
     cycle := start; feed_clock := start;
     counters := {| issue_slots := 0; no_issue_cycles := 0; window_full_cycles := 0;
                    max_occupancy := 0; skipped_oldest_cycles := 0; max_skip_distance := 0;
                    feed_stall_cycles := 0; free_branches := 0; free_jumps := 0 |} |}.

(** Enough for the progress check to fire first. *)
Definition loop_fuel : nat := Z.to_nat (10 * Z.max 1 (Z.of_nat count) + 1).

(** The dictionary [schedule] returns: the final counters with the cycles and
    the instructions per cycle. *)
Record Summary := { cycles : Z; ipc : Q; totals : Counters }.

Definition minimum (x : Z) (l : list Z) : Z := foldl Z.min x l.

Definition schedule : option (result Summary) :=
  match releases with
  | [] => Some (Err (ValueError "min() iterable argument is empty"))
  | r :: rs =>
      let start_cycle := minimum r rs in
      outcome ← run loop_fuel start_cycle (init start_cycle);
      Some (s ← outcome;
            ipc ← div_float (Z.of_nat count) (cycle s - start_cycle);
            Ok {| cycles := cycle s - start_cycle; ipc := ipc; totals := counters s |})
  end.
End schedule.

(** ** The report of [main] *)

(** [statistics.median] of a non-empty list. *)
Definition median (values : list Z) : Q :=
  let data := merge_sort Z.le values in
  let n := length data in
  if Nat.odd n then inject_Z (data !!! (n / 2)%nat)
  else ((inject_Z (data !!! (n / 2 - 1)%nat) + inject_Z (data !!! (n / 2)%nat)) / 2)%Q.
Definition median_or_zero (values : list Z) : Q :=
  match values with [] => 0%Q | _ => median values end.

Record Projection := {
  calibration_cycles : Z; selection_delta_cycles : Z; selection_only_cycles : Z;
  selection_only_ipc : Q; strict_buffered_cycles : Z; strict_buffered_ipc : Q;
  issue_window_cycles : Z; issue_window_ipc : Q; issue_window_saved_cycles : Z }.

Record Report := {
  latency_alu : Q; latency_load : Q; latency_store : Q;
  results : list (string * Summary); projection : Projection }.

(** One entry of the result dictionary. *)
Definition run_feed (instructions : list DynamicInstruction) (capacity : Z) (fb fj : bool)
    (feed : string * list Z) (policy : string) : result (string * Summary) :=
  let '(feed_name, release) := feed in
  summary ← default (Err (RuntimeError "out of fuel"))
    (schedule instructions release policy capacity
       (bool_decide (feed_name = "debackpressured_feed")) fb fj);
  Ok (feed_name +:+ "_" +:+ policy, summary).

Definition project (trace_stats : Stats) (observed_strict buffered_strict buffered_window : Summary)
    : result Projection :=
  let calibration := s_cycles trace_stats - cycles observed_strict in
  let selection_delta := cycles buffered_strict - cycles buffered_window in
  let projected_cycles := cycles buffered_window + calibration in
  let strict_cycles := cycles buffered_strict + calibration in
  selection_ipc ← div_float (s_retired trace_stats) (s_cycles trace_stats - selection_delta);
  strict_ipc ← div_float (s_retired trace_stats) strict_cycles;
  window_ipc ← div_float (s_retired trace_stats) projected_cycles;
  Ok {| calibration_cycles := calibration; selection_delta_cycles := selection_delta;
        selection_only_cycles := s_cycles trace_stats - selection_delta;
        selection_only_ipc := selection_ipc; strict_buffered_cycles := strict_cycles;
        strict_buffered_ipc := strict_ipc; issue_window_cycles := projected_cycles;
        issue_window_ipc := window_ipc;
        issue_window_saved_cycles := s_cycles trace_stats - projected_cycles |}.

Definition main (t : Table) (capacity : Z) (fb fj : bool) : result Report :=
  '(instructions, trace_stats) ← load_trace t;
  let observed := ("observed_feed", monotonic_release instructions observed_release) in
  let intrinsic := ("debackpressured_feed", monotonic_release instructions intrinsic_release) in
  let run_one := run_feed instructions capacity fb fj in
  observed_strict ← run_one observed "strict";
  observed_window ← run_one observed "window";
  buffered_strict ← run_one intrinsic "strict";
  buffered_window ← run_one intrinsic "window";
  let latencies P := latency <$> filter (λ i, P i = true) instructions in
  projection ← project trace_stats observed_strict.2 buffered_strict.2 buffered_window.2;
  Ok {| latency_alu := median_or_zero (latencies (λ i, negb (is_mem i)));
        latency_load := median_or_zero (latencies (λ i, is_mem i && negb (is_store i)));
        latency_store := median_or_zero (latencies is_store);
        results := [observed_strict; observed_window; buffered_strict; buffered_window];
        projection := projection |}.

(** ** The window invariant *)

Section invariant.
Variable instructions : list DynamicInstruction.
Variables free_perfect_branches free_perfect_jumps : bool.
Let count : nat := length instructions.
Let free : nat → bool :=
  is_free_control instructions free_perfect_branches free_perfect_jumps.

(** The memory operations among a set of indices. *)
Definition mem_count (X : gset nat) : nat :=
  size (filter (λ i, is_mem (instructions !!! i) = true) X).

Lemma mem_count_insert i X :
  i ∉ X → Z.of_nat (mem_count ({[i]} ∪ X)) = Z.b2z (is_mem (instructions !!! i)) + Z.of_nat (mem_count X).
Proof.
  intros Hi. unfold mem_count. rewrite filter_union_L, filter_singleton_L by apply _.
  case_decide as Hm; [rewrite Hm|apply not_true_is_false in Hm; rewrite Hm].
  - rewrite size_union, size_singleton; [simpl; lia|].
    apply disjoint_singleton_l. rewrite elem_of_filter. tauto.
  - by rewrite union_empty_l_L.
Qed.

Record inv (now : Z) (w : Window) : Prop := {
  inv_head : (retire_head w ≤ next_admit w ≤ count)%nat;
  inv_admitted : ∀ i, i ∈ admitted w ↔ (i < next_admit w)%nat;
  inv_retired : ∀ i, i ∈ retired w ↔ (i < retire_head w)%nat;
  inv_retire_completed : ∀ i, (i < retire_head w)%nat → i ∈ completed w;
  inv_completed_issued : ∀ i, i ∈ completed w → i ∈ issued w;
  inv_issued_admitted : ∀ i, i ∈ issued w → (i < next_admit w)%nat;
  inv_heap_nodup : NoDup (completion_heap w).*2;
  inv_heap : ∀ i, i ∈ (completion_heap w).*2 ↔
    i ∈ issued w ∧ i ∉ completed w ∧ is_store (instructions !!! i) = false;
  inv_due : ∀ due i, (due, i) ∈ completion_heap w →
    ∃ t, issue_cycle w !! i = Some t ∧ due = t + latency (instructions !!! i);
  inv_mem : mem_active w = Z.of_nat (mem_count (issued w ∖ completed w));
  inv_issue_dom : ∀ i, is_Some (issue_cycle w !! i) ↔ i ∈ issued w;
  inv_complete_dom : ∀ i, is_Some (complete_cycle w !! i) ↔ i ∈ completed w;
  inv_past : ∀ i t, issue_cycle w !! i = Some t ∨ complete_cycle w !! i = Some t → t ≤ now;
  inv_order : ∀ i t, issue_cycle w !! i = Some t → free i = false →
    (∀ d, d ∈ deps (instructions !!! i) → ∃ c, complete_cycle w !! d = Some c ∧ c ≤ t) ∧
    (∀ m, previous_mem (instructions !!! i) = Some m → ∃ tm, issue_cycle w !! m = Some tm ∧ tm ≤ t);
  inv_latency : ∀ i t c, issue_cycle w !! i = Some t → complete_cycle w !! i = Some c →
    free i = false → t ≤ c ∧ (is_store (instructions !!! i) = false → c = t + latency (instructions !!! i)) }.

Lemma inv_mono now now' w : inv now w → now ≤ now' → inv now' w.
Proof.
  intros [] Hn. split; try done. intros i t Ht. specialize (inv_past0 i t Ht). lia.
Qed.

Lemma inv_retire_one now w :
  inv now w → retire_head w ∈ completed w → inv now (retire_one w).
Proof.
  intros H Hc. pose proof (inv_completed_issued _ _ H _ Hc) as Hi.
  pose proof (inv_issued_admitted _ _ H _ Hi) as Hlt. destruct H. split; simpl; try done.
  - lia.
  - intros i. rewrite elem_of_union, elem_of_singleton, inv_retired0. lia.
  - intros i Hle. destruct (decide (i = retire_head w)) as [->|]; [done|].
    apply inv_retire_completed0. lia.
Qed.

(** Completing a pending instruction, with [h] the heap without it. *)
Lemma inv_complete now w i c h :
  inv now w → i ∈ issued w → i ∉ completed w → c ≤ now →
  NoDup h.*2 → (∀ x, x ∈ h → x ∈ completion_heap w) →
  (∀ j, j ∈ h.*2 ↔ j ∈ (completion_heap w).*2 ∧ j ≠ i) →
  (∀ t, issue_cycle w !! i = Some t →
     t ≤ c ∧ (is_store (instructions !!! i) = false → c = t + latency (instructions !!! i))) →
  inv now (with_heap (complete_one w i c (Z.b2z (is_mem (instructions !!! i)))) h).
Proof.
  intros H Hi Hnc Hcn Hnd Hsub Hmem Ht.
  assert (issued w ∖ completed w = {[i]} ∪ issued w ∖ ({[i]} ∪ completed w)) as Hset.
  { apply set_eq. intros j. rewrite elem_of_union, !elem_of_difference, elem_of_union,
      elem_of_singleton. destruct (decide (j = i)) as [->|]; tauto. }
  destruct H. split; simpl; try done.
  - intros j Hj. apply elem_of_union. right. by apply inv_retire_completed0.
  - intros j [->%elem_of_singleton|Hj]%elem_of_union; auto.
  - intros j. rewrite Hmem, inv_heap0, not_elem_of_union, not_elem_of_singleton. tauto.
  - intros due j Hj. apply inv_due0. by apply Hsub.
  - rewrite inv_mem0, Hset, mem_count_insert; [lia|].
    rewrite elem_of_difference, elem_of_union, elem_of_singleton. tauto.
  - intros j. rewrite elem_of_union, elem_of_singleton.
    destruct (decide (i = j)) as [->|Hne].
    + rewrite lookup_insert_eq. split; [by left|by eexists].
    + rewrite lookup_insert_ne, inv_complete_dom0 by done. split; [by right|].
      intros [?|?]; [by subst|done].
  - intros j t [Hj|Hj]; [by apply (inv_past0 j); left|].
    destruct (decide (i = j)) as [->|Hne].
    + rewrite lookup_insert_eq in Hj. by injection Hj as <-.
    + rewrite lookup_insert_ne in Hj by done. apply (inv_past0 j). by right.
  - intros j t Hj Hf. destruct (inv_order0 j t Hj Hf) as [H1 H2]. split; [|done].
    intros d Hd. destruct (H1 d Hd) as (c' & Hc' & Hle).
    exists c'. split; [|done]. rewrite lookup_insert_ne; [done|]. intros <-.
    apply Hnc, inv_complete_dom0. by eexists.
  - intros j t c' Hj Hc' Hf. destruct (decide (i = j)) as [->|Hne].
    + rewrite lookup_insert_eq in Hc'. injection Hc' as <-. by apply Ht.
    + rewrite lookup_insert_ne in Hc' by done. by eapply inv_latency0.
Qed.

Lemma with_heap_same w : with_heap w (completion_heap w) = w.
Proof. by destruct w. Qed.

Lemma inv_drain now h w :
  inv now (with_heap w h) → inv now (drain instructions now h w).
Proof.
  revert w. induction h as [|[due i] h IH]; intros w H; [done|]. cbn [drain].
  destruct (Z.leb_spec due now) as [Hdue|]; [|done].
  destruct (proj1 (inv_heap _ _ H i)) as (Hi & Hnc & Hns); [by left|]. simpl in Hi, Hnc.
  rewrite bool_decide_false by done. apply IH.
  pose proof (inv_heap_nodup _ _ H) as Hnd. simpl in Hnd. apply NoDup_cons in Hnd as [Hin Hnd].
  change (with_heap (complete_one w i due (Z.b2z (is_mem (instructions !!! i)))) h)
    with (with_heap (complete_one (with_heap w ((due, i) :: h)) i due
            (Z.b2z (is_mem (instructions !!! i)))) h).
  apply inv_complete; try done.
  - intros x Hx. by right.
  - intros j. simpl. rewrite elem_of_cons. split.
    + intros Hj. split; [by right|by intros ->].
    + by intros [[?|?] ?].
  - intros t Ht. destruct (inv_due _ _ H due i) as (t' & Ht' & ->); [by left|].
    simpl in Ht, Ht'. rewrite Ht in Ht'. injection Ht' as <-.
    split; [|done]. unfold latency. lia.
Qed.

Lemma inv_complete_store now w :
  inv now w → inv now (complete_store instructions now w).
Proof.
  intros H. unfold complete_store. destruct (_ && _) eqn:Ht; [|done]. b2p.
  assert (is_mem (instructions !!! (retire_head w)) = true) as Hm.
  { unfold is_mem, is_store in *.
    match goal with H : opcode _ =? 0x23 = true |- _ => apply Z.eqb_eq in H; by rewrite H end. }
  rewrite <-(with_heap_same (complete_one _ _ _ _)).
  change 1 with (Z.b2z true). rewrite <-Hm.
  apply inv_complete; try done.
  - apply (inv_heap_nodup _ _ H).
  - intros j. split; [|tauto]. intros Hj. split; [done|]. intros ->.
    apply (inv_heap _ _ H) in Hj as (_ & _ & Hj). congruence.
  - intros t Hit. split; [apply (inv_past _ _ H (retire_head w)); by left|].
    intros Hj. congruence.
Qed.

Lemma inv_retire_loop now n w :
  inv now w →
  inv now (retire_loop instructions free_perfect_branches free_perfect_jumps n w).
Proof.
  revert w. induction n as [|n IH]; intros w H; [done|]. cbn [retire_loop].
  destruct (Nat.ltb _ _ && _) eqn:Ht; [|done]. b2p.
  assert (inv now (retire_one w)) as H' by by apply inv_retire_one.
  destruct (_ && _); [done|]. by apply IH.
Qed.

Lemma inv_admit_one now w :
  inv now w → (next_admit w < count)%nat →
  inv now (admit_one instructions free_perfect_branches free_perfect_jumps now w).
Proof.
  intros H Hlt. set (a := next_admit w) in *.
  assert (a ∉ issued w) as Hai by (intros Ha%(inv_issued_admitted _ _ H); unfold a in *; lia).
  assert (a ∉ completed w) as Hac by (by intros Ha%(inv_completed_issued _ _ H)).
  assert (issue_cycle w !! a = None) as Hia.
  { destruct (issue_cycle w !! a) eqn:E; [|done]. exfalso. apply Hai, (inv_issue_dom _ _ H). by rewrite E. }
  assert (complete_cycle w !! a = None) as Hca.
  { destruct (complete_cycle w !! a) eqn:E; [|done]. exfalso.
    apply Hac, (inv_complete_dom _ _ H). by rewrite E. }
  assert (∀ i, i ∈ ({[a]} ∪ admitted w : gset nat) ↔ (i < S a)%nat) as Hadm.
  { intros i. rewrite elem_of_union, elem_of_singleton, (inv_admitted _ _ H). unfold a. lia. }
  unfold admit_one. fold a. fold (free a). destruct (free a) eqn:Hf; destruct H; split; simpl;
    try done; try (unfold a in *; lia).
  - intros i Hi. apply elem_of_union. right. by apply inv_retire_completed0.
  - intros i [?|?]%elem_of_union; apply elem_of_union; [by left|right; by apply inv_completed_issued0].
  - intros i [->%elem_of_singleton|Hi%inv_issued_admitted0]%elem_of_union; unfold a in *; lia.
  - intros i. rewrite inv_heap0, !elem_of_union, !elem_of_singleton.
    destruct (decide (i = a)) as [->|]; tauto.
  - intros due i Hi. destruct (inv_due0 due i Hi) as (t & Ht & ->). exists t.
    split; [|done]. rewrite lookup_insert_ne; [done|]. intros <-. congruence.
  - rewrite inv_mem0. do 2 f_equal. apply set_eq. intros i.
    rewrite !elem_of_difference, !elem_of_union, !elem_of_singleton.
    destruct (decide (i = a)) as [->|]; tauto.
  - intros i. rewrite lookup_insert_is_Some', elem_of_union, elem_of_singleton, inv_issue_dom0.
    naive_solver.
  - intros i. rewrite lookup_insert_is_Some', elem_of_union, elem_of_singleton, inv_complete_dom0.
    naive_solver.
  - intros i t. destruct (decide (a = i)) as [->|Hne].
    + rewrite !lookup_insert_eq. intros [[= <-]|[= <-]]; done.
    + rewrite !lookup_insert_ne by done. apply inv_past0.
  - intros i t Hi Hfi. destruct (decide (a = i)) as [->|Hne]; [congruence|].
    rewrite lookup_insert_ne in Hi by done. destruct (inv_order0 i t Hi Hfi) as [H1 H2]. split.
    + intros d Hd. destruct (H1 d Hd) as (c & Hc & Hle). exists c. split; [|done].
      rewrite lookup_insert_ne; [done|]. intros <-. congruence.
    + intros m Hm. destruct (H2 m Hm) as (tm & Htm & Hle). exists tm. split; [|done].
      rewrite lookup_insert_ne; [done|]. intros <-. congruence.
  - intros i t c Hi Hc Hfi. destruct (decide (a = i)) as [->|Hne]; [congruence|].
    rewrite lookup_insert_ne in Hi, Hc by done. by eapply inv_latency0.
  - intros i Hi%inv_issued_admitted0. unfold a in *. lia.
Qed.

Lemma heap_push_perm h x : heap_push h x ≡ₚ x :: h.
Proof.
  induction h as [|y h IH]; simpl; [done|]. destruct (heap_le x y); [done|].
  rewrite IH. apply perm_swap.
Qed.

(** What [ready] checked when [i] was selected. *)
Definition may_issue (w : Window) (i : nat) : Prop :=
  (i < next_admit w)%nat ∧
  (∀ d, d ∈ deps (instructions !!! i) → d ∈ completed w) ∧
  (∀ m, previous_mem (instructions !!! i) = Some m → m ∈ issued w).

Lemma inv_issue_one now w i :
  inv now w → i ∉ issued w → may_issue w i → inv now (issue_one instructions now w i).
Proof.
  intros H Hi (Hlt & Hdeps & Hprev).
  assert (i ∉ completed w) as Hnc by (by intros Hc%(inv_completed_issued _ _ H)).
  assert (issue_cycle w !! i = None) as Hii.
  { destruct (issue_cycle w !! i) eqn:E; [|done]. exfalso. apply Hi, (inv_issue_dom _ _ H). by rewrite E. }
  assert (i ∉ (completion_heap w).*2) as Hih by (by intros (? & _)%(inv_heap _ _ H)).
  unfold issue_one. destruct H. split; simpl; try done.
  - intros j Hj. apply elem_of_union. right. auto.
  - intros j [->%elem_of_singleton|Hj]%elem_of_union; auto.
  - destruct (is_store _); [done|]. rewrite heap_push_perm. simpl. by constructor.
  - intros j. rewrite elem_of_union, elem_of_singleton.
    destruct (is_store (instructions !!! i)) eqn:Hs.
    + rewrite inv_heap0. destruct (decide (j = i)) as [->|]; [|tauto].
      rewrite Hs. naive_solver.
    + rewrite heap_push_perm. simpl. rewrite elem_of_cons, inv_heap0.
      destruct (decide (j = i)) as [->|]; tauto.
  - intros due j Hj. assert ((due, j) = (now + latency (instructions !!! i), i) ∨
      (due, j) ∈ completion_heap w) as [[= -> ->]|Hj'].
    { destruct (is_store _); [by right|]. rewrite heap_push_perm in Hj.
      by apply elem_of_cons in Hj. }
    + exists now. by rewrite lookup_insert_eq.
    + destruct (inv_due0 due j Hj') as (t & Ht & ->). exists t. split; [|done].
      rewrite lookup_insert_ne; [done|]. intros <-. congruence.
  - rewrite inv_mem0.
    assert (({[i]} ∪ issued w) ∖ completed w = {[i]} ∪ issued w ∖ completed w) as ->.
    { apply set_eq. intros j. rewrite !elem_of_union, !elem_of_difference, elem_of_union,
        elem_of_singleton. destruct (decide (j = i)) as [->|]; tauto. }
    rewrite mem_count_insert; [lia|]. rewrite elem_of_difference. tauto.
  - intros j. rewrite lookup_insert_is_Some', elem_of_union, elem_of_singleton, inv_issue_dom0.
    naive_solver.
  - intros j t. destruct (decide (i = j)) as [->|Hne].
    + rewrite lookup_insert_eq. intros [[= <-]|Hj]; [done|]. apply (inv_past0 j). by right.
    + rewrite lookup_insert_ne by done. apply inv_past0.
  - intros j t Hj Hf. destruct (decide (i = j)) as [->|Hne].
    + rewrite lookup_insert_eq in Hj. injection Hj as <-. split.
      * intros d Hd%Hdeps%inv_complete_dom0. destruct Hd as [c Hc]. exists c.
        split; [done|]. apply (inv_past0 d). by right.
      * intros m Hm%Hprev. destruct (decide (j = m)) as [->|]; [done|].
        destruct (proj2 (inv_issue_dom0 m) Hm) as [tm Htm]. exists tm.
        rewrite lookup_insert_ne by done. split; [done|]. apply (inv_past0 m). by left.
    + rewrite lookup_insert_ne in Hj by done. destruct (inv_order0 j t Hj Hf) as [H1 H2].
      split; [done|]. intros m Hm. destruct (H2 m Hm) as (tm & Htm & Hle).
      exists tm. split; [|done]. rewrite lookup_insert_ne; [done|]. intros <-. congruence.
  - intros j t c Hj Hc Hf. destruct (decide (i = j)) as [->|Hne].
    + exfalso. apply Hnc, inv_complete_dom0. by eexists.
    + rewrite lookup_insert_ne in Hj by done. by eapply inv_latency0.
Qed.

Lemma inv_issue_all now w keys :
  inv now w → NoDup keys → (∀ i, i ∈ keys → i ∉ issued w ∧ may_issue w i) →
  inv now (foldl (issue_one instructions now) w keys) ∧
  issued (foldl (issue_one instructions now) w keys) = list_to_set keys ∪ issued w ∧
  next_admit (foldl (issue_one instructions now) w keys) = next_admit w ∧
  retire_head (foldl (issue_one instructions now) w keys) = retire_head w ∧
  completed (foldl (issue_one instructions now) w keys) = completed w.
Proof.
  revert w. induction keys as [|i keys IH]; intros w H Hnd Hk.
  { simpl. split_and!; try done. by rewrite union_empty_l_L. }
  apply NoDup_cons in Hnd as [Hi Hnd]. cbn [foldl].
  destruct (Hk i) as [Hii Hmi]; [by left|].
  destruct (IH (issue_one instructions now w i)) as (H1 & H2 & H3 & H4 & H5).
  - by apply inv_issue_one.
  - done.
  - intros j Hj. destruct (Hk j) as [Hji (Hm1 & Hm2 & Hm3)]; [by right|]. simpl. split.
    + rewrite elem_of_union, elem_of_singleton. intros [->|?]; done.
    + split_and!; try done. intros m Hm. simpl. apply elem_of_union. right. by apply Hm3.
  - split_and!; try done. rewrite H2. simpl. rewrite !(assoc_L (∪)). f_equal. apply union_comm_L.
Qed.
End invariant.

(** ** Selection *)

Lemma elem_of_combinations {A} (l c : list A) n :
  c ∈ combinations l n ↔ c `sublist_of` l ∧ length c = n.
Proof.
  revert n c. induction l as [|x l IH]; intros [|n] c.
  - simpl. rewrite list_elem_of_singleton. split; [intros ->; split; [constructor|done]|].
    intros [_ Hc]. by apply nil_length_inv.
  - simpl. split; [by intros ?%not_elem_of_nil|]. intros [Hs Hl].
    apply sublist_nil_r in Hs. by subst.
  - simpl. rewrite list_elem_of_singleton. split; [intros ->; split; [apply sublist_nil_l|done]|].
    intros [_ Hc]. by apply nil_length_inv.
  - cbn [combinations]. rewrite elem_of_app, list_elem_of_fmap. split.
    + intros [(c' & -> & Hc')|Hc].
      * apply IH in Hc' as [Hs Hl]. split; [by constructor|]. simpl. by f_equal.
      * apply IH in Hc as [Hs Hl]. split; [by constructor|done].
    + intros [Hs Hl]. inversion Hs as [|? c' ? Hs'|? ? ? Hs']; subst.
      * left. exists c'. split; [done|]. apply IH. split; [done|]. simpl in Hl. lia.
      * right. by apply IH.
Qed.

Lemma tuple_lt_trans a b c : tuple_lt a b = true → tuple_lt b c = true → tuple_lt a c = true.
Proof.
  revert b c. induction a as [|x a IH]; intros [|y b] [|z c]; simpl; try done.
  destruct (Nat.eqb_spec x y) as [->|], (Nat.eqb_spec y z) as [->|].
  - apply IH.
  - done.
  - by destruct (Nat.eqb_spec x z).
  - destruct (Nat.ltb_spec x y), (Nat.ltb_spec y z); try done. intros _ _.
    destruct (Nat.eqb_spec x z); [lia|]. by destruct (Nat.ltb_spec x z); [|lia].
Qed.

Lemma tuple_lt_irrefl a : tuple_lt a a = false.
Proof. induction a as [|x a IH]; [done|]. simpl. by rewrite Nat.eqb_refl. Qed.

Section selection.
Variable instructions : list DynamicInstruction.

(** A group the window policy may issue. *)
Definition feasible (c : list nat) : Prop :=
  breaks_group instructions c = false ∧ ∃ r, group_issue instructions c [] r.

Lemma feasible_assignment c :
  feasible c ↔ breaks_group instructions c = false ∧ ∃ a, pipe_assignment instructions c = Some a.
Proof.
  unfold feasible, pipe_assignment. pose proof (assign_spec instructions c []) as H.
  destruct (assign instructions c []) as [r|].
  - split; intros [Hb _]; (split; [done|by exists r]).
  - split; intros [_ [r Hr]]; [by apply H in Hr|done].
Qed.

Lemma best_group cs :
  match foldl (consider instructions) None cs with
  | None => ∀ c, c ∈ cs → ¬ feasible c
  | Some (b, a) => b ∈ cs ∧ feasible b ∧ pipe_assignment instructions b = Some a ∧
                   ∀ c, c ∈ cs → feasible c → tuple_lt c b = false
  end.
Proof.
  induction cs as [|c cs IH] using rev_ind; [by intros c ?%not_elem_of_nil|].
  rewrite foldl_app. cbn [foldl]. unfold consider at 1.
  assert (∀ x, x ∈ cs ++ [c] ↔ x ∈ cs ∨ x = c) as Hin
    by (intros x; by rewrite elem_of_app, list_elem_of_singleton).
  destruct (foldl _ None cs) as [[b a]|].
  - destruct IH as (Hb & Hf & Ha & Hmin).
    destruct (breaks_group instructions c) eqn:Hbr.
    { split; [apply Hin; by auto|]. split; [by auto|]. split; [by auto|]. intros c' [?| ->]%Hin Hc'; [auto|]. destruct Hc'. congruence. }
    destruct (pipe_assignment instructions c) as [a'|] eqn:Hp; cycle 1.
    { split; [apply Hin; by auto|]. split; [by auto|]. split; [by auto|]. intros c' [?| ->]%Hin Hc'; [auto|].
      apply feasible_assignment in Hc' as [_ [? ?]]. congruence. }
    assert (feasible c) as Hfc by (apply feasible_assignment; eauto).
    destruct (tuple_lt c b) eqn:Hlt.
    + split; [apply Hin; by auto|]. split; [by auto|]. split; [by auto|]. intros c' [Hc| ->]%Hin Hc'; [|apply tuple_lt_irrefl].
      destruct (tuple_lt c' c) eqn:E; [|done].
      rewrite <-(Hmin c' Hc Hc'). symmetry. by eapply tuple_lt_trans.
    + split; [apply Hin; by auto|]. split; [by auto|]. split; [by auto|]. intros c' [?| ->]%Hin Hc'; auto.
  - destruct (breaks_group instructions c) eqn:Hbr.
    { intros c' [?| ->]%Hin; [auto|]. intros [? _]. congruence. }
    destruct (pipe_assignment instructions c) as [a'|] eqn:Hp.
    + assert (feasible c) as Hfc by (apply feasible_assignment; eauto).
      split; [apply Hin; by auto|]. split; [by auto|]. split; [by auto|]. intros c' [Hc| ->]%Hin Hc'; [by destruct (IH c' Hc)|apply tuple_lt_irrefl].
    + intros c' [?| ->]%Hin; [auto|]. intros [_ [? ?]]%feasible_assignment. congruence.
Qed.

(** The result of the window policy on the ready indices [l]. *)
Lemma widest_group_spec l width :
  let r := widest_group instructions l width in
  (r ≠ [] → r.*1 `sublist_of` l ∧ feasible r.*1 ∧ group_issue instructions r.*1 [] r) ∧
  (length r ≤ width)%nat ∧
  (∀ c, c `sublist_of` l → (length c ≤ width)%nat → feasible c →
     (length c ≤ length r)%nat ∧
     (length c = length r → tuple_lt c r.*1 = false)).
Proof.
  induction width as [|width IH]; cbn zeta in *; cbn [widest_group].
  { split; [done|]. split; [simpl; lia|]. intros c _ Hc _. simpl. split; [lia|].
    intros Hl. apply nil_length_inv in Hl as ->. done. }
  pose proof (best_group (combinations l (S width))) as H.
  destruct (foldl _ None _) as [[b a]|].
  - destruct H as ([Hs Hl]%elem_of_combinations & Hf & Ha & Hmin).
    assert (group_issue instructions b [] a) as Hg.
    { pose proof (assign_spec instructions b []) as Hsp. unfold pipe_assignment in Ha.
      by rewrite Ha in Hsp. }
    assert (a.*1 = b) as Hab by apply Hg. rewrite Hab.
    assert (length a = S width) as Hla by (rewrite <-Hl, <-Hab; by rewrite length_fmap).
    split; [done|]. split; [lia|]. intros c Hc Hlc Hfc. split; [lia|]. intros Heq.
    apply Hmin; [|done]. apply elem_of_combinations. split; [done|lia].
  - destruct IH as (IH1 & IH2 & IH3). split; [done|]. split; [lia|]. intros c Hc Hlc Hfc.
    destruct (decide (length c = S width)) as [He|Hne].
    { exfalso. apply (H c); [|done]. by apply elem_of_combinations. }
    apply IH3; [done|lia|done].
Qed.

Lemma ready_prefix_spec (w : Window) l :
  ready_prefix instructions w l `prefix_of` l ∧
  Forall (λ i, ready instructions w i = true) (ready_prefix instructions w l).
Proof.
  induction l as [|i l [IH1 IH2]]; simpl; [split; [done|constructor]|].
  destruct (ready instructions w i) eqn:Hr; simpl; [|split; [apply prefix_nil|constructor]].
  destruct (is_hard _).
  - split; [by exists l|by repeat constructor].
  - split; [by apply prefix_cons|by constructor].
Qed.

Lemma widest_prefix_spec l width :
  let r := widest_prefix instructions l width in
  (width ≤ length l)%nat → r ≠ [] →
  r.*1 = take (length r) l ∧ group_issue instructions r.*1 [] r ∧ (length r ≤ width)%nat.
Proof.
  induction width as [|width IH]; cbn zeta in *; cbn [widest_prefix]; intros Hw Hne; [done|].
  pose proof (assign_spec instructions (take (S width) l) []) as H.
  unfold pipe_assignment in *. revert Hne. destruct (assign _ _ _) as [a|]; intros Hne.
  - assert (a.*1 = take (S width) l) as Ha by apply H.
    assert (length a = S width) as Hl
      by (rewrite <-(length_fmap fst a), Ha, length_take; lia).
    rewrite Hl, Ha. split_and!; [done|exact H|lia].
  - destruct IH as (? & ? & ?); [lia|done|]. split_and!; try done. lia.
Qed.
End selection.

(** A sublist all of whose elements pass a test is a sublist of the filtered list. *)
Lemma sublist_filter_all {A} (P : A → Prop) `{∀ x, Decision (P x)} k l :
  k `sublist_of` l → Forall P k → k `sublist_of` filter P l.
Proof.
  induction 1 as [|x k l Hs IH|x k l Hs IH]; intros Hf; [constructor| |]; rewrite filter_cons.
  - apply Forall_cons in Hf as [Hx Hf]. rewrite decide_True by done. constructor. by apply IH.
  - case_decide; [constructor|]; by apply IH.
Qed.

Section choice.
Variable instructions : list DynamicInstruction.
Variable policy : string.

Definition candidates (w : Window) : list nat :=
  filter (λ index, Z.of_nat index ≤ barrier_cutoff instructions w) (unissued w).

(** Whatever the policy, a non-empty choice is a group of at most three ready,
    unissued instructions of the window with one pipe each. *)
Lemma choose_sound w :
  let r := choose instructions policy w in
  (length r ≤ 3)%nat ∧
  (r ≠ [] → r.*1 `sublist_of` candidates w ∧ group_issue instructions r.*1 [] r ∧
            Forall (λ i, ready instructions w i = true) r.*1).
Proof.
  unfold choose. fold (candidates w). cbn zeta. case_bool_decide as Hp.
  - set (p := ready_prefix instructions w (take 3 (candidates w))).
    destruct (ready_prefix_spec instructions w (take 3 (candidates w))) as [Hpre Hready].
    fold p in Hpre, Hready.
    pose proof (widest_prefix_spec instructions p (length p) (le_n _)) as H. cbn zeta in H.
    set (r := widest_prefix _ _ _) in *.
    assert (length p ≤ 3)%nat as Hl3.
    { apply prefix_length in Hpre. rewrite length_take in Hpre. lia. }
    destruct (decide (r = [])) as [->|Hne]; [split; [simpl; lia|done]|].
    destruct (H Hne) as (H1 & H2 & H3). split; [lia|]. intros _. split_and!.
    + rewrite H1. etrans; [apply sublist_take|]. etrans; [|apply sublist_take].
      destruct Hpre as [k Hk]. rewrite Hk. by apply sublist_inserts_r.
    + done.
    + rewrite H1. by apply Forall_take.
  - set (l := filter _ (candidates w)).
    destruct (widest_group_spec instructions l (Nat.min 3 (length l))) as (H1 & H2 & _).
    cbn zeta in *. set (r := widest_group _ _ _) in *. split; [lia|]. intros Hne.
    destruct (H1 Hne) as (Hs & _ & Hg). split_and!; [|done|].
    + etrans; [exact Hs|]. apply sublist_filter.
    + apply Forall_forall. intros i Hi. eapply sublist_subseteq in Hi; [|exact Hs].
      by apply list_elem_of_filter in Hi as [? _].
Qed.
End choice.

(** ** The state invariant *)

Section steps.
Variable instructions : list DynamicInstruction.
Variable releases : list Z.
Variable policy : string.
Variable capacity : Z.
Variables pausable_feed free_perfect_branches free_perfect_jumps : bool.
Hypothesis capacity_nonneg : 0 ≤ capacity.

Let count : nat := length instructions.
Let free : nat → bool :=
  is_free_control instructions free_perfect_branches free_perfect_jumps.
Let window_inv : Z → Window → Prop := inv instructions free_perfect_branches free_perfect_jumps.

(** Instructions that left the queue, by slot or for free. *)
Definition issue_total (c : Counters) : Z := issue_slots c + free_branches c + free_jumps c.

Definition bookkeeping (w : Window) (c : Counters) : Prop :=
  issue_total c = Z.of_nat (size (issued w)) ∧ max_occupancy c ≤ capacity ∧
  (policy = "strict" → skipped_oldest_cycles c = 0 ∧ max_skip_distance c = 0).

Record state_inv (s : State) : Prop := {
  st_window : window_inv (cycle s) (win s);
  st_books : bookkeeping (win s) (counters s);
  st_occupancy : occupancy (win s) ≤ capacity;
  st_mem : mem_active (win s) ≤ 3 }.

Lemma retire_loop_frame n w :
  let w' := retire_loop instructions free_perfect_branches free_perfect_jumps n w in
  issued w' = issued w ∧ mem_active w' = mem_active w ∧ next_admit w' = next_admit w ∧
  (retire_head w ≤ retire_head w')%nat ∧ completion_heap w' = completion_heap w.
Proof.
  revert w. induction n as [|n IH]; intros w; [done|]. cbn [retire_loop].
  destruct (_ && _); [|done]. destruct (_ && _); [simpl; split_and!; done || lia|].
  destruct (IH (retire_one w)) as (H1 & H2 & H3 & H4 & H5). simpl in *.
  split_and!; try done. lia.
Qed.

Lemma drain_frame now h w :
  let w' := drain instructions now h w in
  issued w' = issued w ∧ mem_active w' ≤ mem_active w ∧ next_admit w' = next_admit w ∧
  retire_head w' = retire_head w.
Proof.
  revert w. induction h as [|[due i] h IH]; intros w; cbn [drain]; [by simpl|].
  destruct (due <=? now); [|by simpl].
  destruct (bool_decide _); [apply IH|].
  destruct (IH (complete_one w i due (Z.b2z (is_mem (instructions !!! i))))) as (H1 & H2 & H3 & H4).
  cbn zeta in *. simpl in *. split_and!; try done.
  destruct (is_mem _); simpl in *; lia.
Qed.

Lemma complete_store_frame now w :
  let w' := complete_store instructions now w in
  issued w' = issued w ∧ mem_active w' ≤ mem_active w ∧ next_admit w' = next_admit w ∧
  retire_head w' = retire_head w.
Proof. unfold complete_store. destruct (_ && _); simpl; split_and!; done || lia. Qed.

Lemma admit_loop_inv n now feed w c :
  window_inv now w → bookkeeping w c → occupancy w ≤ capacity → mem_active w ≤ 3 →
  let '(w', c') := admit_loop instructions releases capacity free_perfect_branches
                     free_perfect_jumps n now feed (w, c) in
  window_inv now w' ∧ bookkeeping w' c' ∧ occupancy w' ≤ capacity ∧ mem_active w' ≤ 3.
Proof.
  revert w c. induction n as [|n IH]; intros w c Hw Hb Ho Hm; [done|]. cbn [admit_loop].
  destruct (_ && _) eqn:Ht; [|done]. b2p.
  match goal with H : Nat.ltb _ _ = true |- _ => apply Nat.ltb_lt in H end.
  apply IH.
  - by apply inv_admit_one.
  - destruct Hb as (Hb1 & Hb2 & Hb3). split_and!; [|done|done].
    unfold issue_total in *. simpl. fold free. destruct (free (next_admit w)) eqn:Hf; simpl.
    + rewrite size_union, size_singleton.
      * destruct (is_branch _); simpl; lia.
      * apply disjoint_singleton_l. intros Hi%(inv_issued_admitted _ _ _ _ _ Hw). lia.
    + lia.
  - unfold occupancy in *. simpl. lia.
  - done.
Qed.

Lemma before_issue_inv s :
  state_inv s →
  let '(w, c) := before_issue instructions releases capacity free_perfect_branches
                   free_perfect_jumps s in
  window_inv (cycle s) w ∧ bookkeeping w c ∧ occupancy w ≤ capacity ∧ mem_active w ≤ 3.
Proof.
  intros [Hw Hb Ho Hm]. unfold before_issue.
  set (w1 := retire_loop _ _ _ 3 (win s)).
  destruct (retire_loop_frame 3 (win s)) as (A1 & A2 & A3 & A4 & A5).
  fold w1 in A1, A2, A3, A4, A5.
  assert (window_inv (cycle s) w1) as Hw1 by by apply inv_retire_loop.
  set (w2 := drain instructions (cycle s) (completion_heap w1) w1).
  destruct (drain_frame (cycle s) (completion_heap w1) w1) as (B1 & B2 & B3 & B4).
  fold w2 in B1, B2, B3, B4.
  assert (window_inv (cycle s) w2) as Hw2.
  { apply inv_drain. rewrite with_heap_same. done. }
  set (w3 := complete_store instructions (cycle s) w2).
  destruct (complete_store_frame (cycle s) w2) as (C1 & C2 & C3 & C4).
  fold w3 in C1, C2, C3, C4.
  assert (window_inv (cycle s) w3) as Hw3 by by apply inv_complete_store.
  pose proof (admit_loop_inv 3 (cycle s) (feed_clock s) w3 (counters s) Hw3) as H.
  destruct (admit_loop _ _ _ _ _ _ _ _ _) as [w c].
  destruct H as (D1 & (D2 & D2' & D2'') & D3 & D4).
  - unfold bookkeeping in *. by rewrite C1, B1, A1.
  - unfold occupancy in *. rewrite C3, B3, A3, C4, B4. lia.
  - lia.
  - split_and!; try done. split_and!; try done. simpl. lia.
Qed.

(** *** Issuing *)

Definition mem_sum (keys : list nat) : Z :=
  foldr (λ i n, Z.b2z (is_mem (instructions !!! i)) + n) 0 keys.

Lemma mem_sum_perm k l : k ≡ₚ l → mem_sum k = mem_sum l.
Proof. induction 1; simpl; lia. Qed.

Lemma issue_mem now w keys :
  mem_active (foldl (issue_one instructions now) w keys) = mem_active w + mem_sum keys.
Proof.
  revert w. induction keys as [|i keys IH]; intros w; simpl; [lia|]. rewrite IH. simpl. lia.
Qed.

(** A group holds at most one memory operation: they all need pipe 2. *)
Lemma group_mem keys used r :
  group_issue instructions keys used r →
  0 ≤ mem_sum keys ≤ 1 ∧ (2 ∈ used → mem_sum keys = 0).
Proof.
  revert used r. induction keys as [|i keys IH]; intros used r; [simpl; lia|].
  intros (p & r' & -> & Hp & Hpu & Hr)%group_issue_cons.
  destruct (IH _ _ Hr) as [H1 H2]. simpl. unfold pipe_options in Hp.
  destruct (is_mem (instructions !!! i)); simpl; [|split; [lia|]].
  - apply list_elem_of_singleton in Hp as ->. rewrite H2 by by left. split; [lia|done].
  - intros Hu. rewrite H2 by by right. done.
Qed.

Lemma ready_may_issue w i :
  i ∈ candidates instructions w → ready instructions w i = true →
  i ∉ issued w ∧ (i < next_admit w)%nat ∧
  (∀ d, d ∈ deps (instructions !!! i) → d ∈ completed w) ∧
  (∀ m, previous_mem (instructions !!! i) = Some m → m ∈ issued w) ∧
  (is_mem (instructions !!! i) = true → mem_active w ≤ 2).
Proof.
  intros Hi Hr. apply list_elem_of_filter in Hi as [_ Hi].
  apply list_elem_of_filter in Hi as [[_ Hn] Hrange]. apply elem_of_seq in Hrange.
  unfold ready in Hr. destruct (existsb _ _) eqn:Hd; [done|].
  destruct (match previous_mem _ with Some _ => _ | None => _ end) eqn:Hm; [done|].
  destruct (_ && _) eqn:Hact; [done|]. split_and!; [done|lia| | |].
  - intros d Hin. destruct (decide (d ∈ completed w)) as [|Hnc]; [done|exfalso].
    apply not_true_iff_false in Hd. apply Hd. apply existsb_exists. exists d.
    split; [by apply list_elem_of_In|]. by rewrite bool_decide_false.
  - intros m Hpm. rewrite Hpm in Hm. apply negb_false_iff in Hm. by apply bool_decide_eq_true in Hm.
  - intros Hmem. rewrite Hmem in Hact. simpl in Hact. apply Z.leb_gt in Hact. lia.
Qed.

Lemma unissued_sorted w : Pairwise lt (unissued w).
Proof.
  apply Pairwise_filter. unfold window_range.
  assert (∀ n m, Pairwise lt (seq m n)) as Hseq; [|apply Hseq].
  induction n as [|n IH]; intros m; [exact I|]. cbn [seq]. split; [|apply IH].
  apply Forall_forall. intros j Hj%elem_of_seq. lia.
Qed.

(** The strict policy never passes over the oldest unissued instruction. *)
Lemma strict_oldest w :
  policy = "strict" → choose instructions policy w ≠ [] →
  default O (head (unissued w)) ∈ (choose instructions policy w).*1.
Proof.
  intros Hp. unfold choose. rewrite bool_decide_true by done.
  fold (candidates instructions w).
  set (p := ready_prefix _ _ _). set (r := widest_prefix _ _ _). intros Hne.
  destruct (widest_prefix_spec instructions p (length p) (le_n _) Hne) as (H1 & _ & _).
  fold r in H1. destruct (ready_prefix_spec instructions w (take 3 (candidates instructions w)))
    as [[k Hk] _]. fold p in Hk.
  pose proof (unissued_sorted w) as Hs.
  destruct r as [|[i x] r]; [done|]. simpl in H1 |- *.
  destruct p as [|j p]; [done|]. simpl in H1. injection H1 as -> _.
  destruct (candidates instructions w) as [|c cs] eqn:Hc; [done|].
  simpl in Hk. injection Hk as -> _.
  cut (default O (head (unissued w)) = j); [intros ->; by left|].
  unfold candidates in Hc. destruct (unissued w) as [|u us]; [done|]. simpl.
  rewrite filter_cons in Hc. case_decide as Hu; [by injection Hc|].
  exfalso. assert (j ∈ filter (λ index, Z.of_nat index ≤ barrier_cutoff instructions w) us) as Hj
    by (rewrite Hc; by left).
  apply list_elem_of_filter in Hj as [Hj Hju]. destruct Hs as [Hs _].
  rewrite Forall_forall in Hs. specialize (Hs _ Hju). lia.
Qed.

Abbreviation step := (step instructions releases policy capacity pausable_feed
                        free_perfect_branches free_perfect_jumps).

Lemma step_inv s : state_inv s → state_inv (step s).
Proof.
  intros Hs. pose proof (before_issue_inv s Hs) as H. unfold IssueWindow.step.
  destruct (before_issue _ _ _ _ _ _) as [w c]. destruct H as (Hw & Hb & Ho & Hm).
  assert (window_inv (cycle s + 1) w) as Hw' by (apply (inv_mono _ _ _ (cycle s)); [done|lia]).
  case_bool_decide as Hr; [split; simpl; done|].
  destruct (choose_sound instructions policy w) as [Hl3 Hc]. destruct (Hc Hr) as (Hsub & Hg & Hready).
  set (keys := (choose instructions policy w).*1) in *.
  assert (NoDup keys) as Hnd.
  { eapply sublist_NoDup; [|exact Hsub]. unfold candidates, unissued, window_range.
    repeat apply NoDup_filter. apply NoDup_seq. }
  set (sorted := merge_sort Nat.le keys).
  assert (sorted ≡ₚ keys) as Hperm by apply merge_sort_Permutation.
  assert (∀ i, i ∈ sorted → i ∉ issued w ∧ may_issue instructions w i ∧
    (is_mem (instructions !!! i) = true → mem_active w ≤ 2)) as Hk.
  { intros i Hi. rewrite Hperm in Hi. rewrite Forall_forall in Hready.
    destruct (ready_may_issue w i) as (K1 & K2 & K3 & K4 & K5);
      [by eapply sublist_subseteq|by apply Hready|]. done. }
  destruct (inv_issue_all instructions free_perfect_branches free_perfect_jumps (cycle s) w sorted)
    as (I1 & I2 & I3 & I4 & _); [exact Hw|by rewrite Hperm| |].
  { intros i Hi. destruct (Hk i Hi) as (? & ? & _). done. }
  change (foldl (issue_one instructions (cycle s)) w sorted)
    with (issue_group instructions (cycle s) w keys) in I1, I2, I3, I4.
  assert (mem_active (issue_group instructions (cycle s) w keys) ≤ 3) as Hm3.
  { unfold issue_group. fold sorted. rewrite issue_mem, (mem_sum_perm sorted keys Hperm).
    destruct (group_mem keys [] _ Hg) as [Hsum _].
    destruct (decide (mem_sum keys = 0)); [lia|].
    assert (∃ i, i ∈ keys ∧ is_mem (instructions !!! i) = true) as (i & Hi & Hmem).
    { clear -n. induction keys as [|i ks IH]; [done|]. simpl in n.
      destruct (is_mem (instructions !!! i)) eqn:E; [exists i; split; [by left|done]|].
      destruct IH as (j & Hj & Hm); [simpl in n; lia|]. exists j. split; [by right|done]. }
    rewrite <-Hperm in Hi. destruct (Hk i Hi) as (_ & _ & H2). specialize (H2 Hmem). lia. }
  split; cbn [win cycle counters].
  - apply (inv_mono _ _ _ (cycle s)); [done|lia].
  - destruct Hb as (B1 & B2 & B3). split_and!.
    + rewrite I2, size_union, size_list_to_set by
        (try (by rewrite Hperm); apply disjoint_list_to_set_l || idtac;
         apply elem_of_disjoint; intros i Hi%elem_of_list_to_set; by apply Hk).
      rewrite (Permutation_length Hperm). unfold issue_total in *. simpl. unfold zlen. lia.
    + done.
    + intros Hp. destruct (B3 Hp) as [B4 B5].
      pose proof (strict_oldest w Hp Hr) as Hold. fold keys in Hold. simpl.
      rewrite bool_decide_true by done. simpl. split; [lia|done].
  - unfold occupancy in *. by rewrite I3, I4.
  - done.
Qed.

Lemma state_inv_init start : state_inv (init start).
Proof.
  split; simpl; [|split_and!; [done|done|done]|unfold occupancy; simpl; lia|lia].
  split; simpl.
  - lia.
  - intros i. rewrite elem_of_empty. lia.
  - intros i. rewrite elem_of_empty. lia.
  - lia.
  - by intros i ?%elem_of_empty.
  - by intros i ?%elem_of_empty.
  - constructor.
  - intros i. rewrite elem_of_empty. split; [by intros ?%not_elem_of_nil|tauto].
  - by intros due i ?%not_elem_of_nil.
  - unfold mem_count. by rewrite difference_empty_l_L || rewrite (difference_diag_L ∅).
  - intros i. rewrite lookup_empty, elem_of_empty. split; [by intros [? ?]|done].
  - intros i. rewrite lookup_empty, elem_of_empty. split; [by intros [? ?]|done].
  - intros i t. rewrite !lookup_empty. by intros [?|?].
  - intros i t. by rewrite lookup_empty.
  - intros i t c. by rewrite lookup_empty.
Qed.

Lemma reachable_inv start n : state_inv (Nat.iter n step (init start)).
Proof. induction n as [|n IH]; [apply state_inv_init|by apply step_inv]. Qed.

Lemma cycle_iter start n : cycle (Nat.iter n step (init start)) = start + Z.of_nat n.
Proof.
  induction n as [|n IH]; [simpl; lia|]. rewrite Nat.iter_succ, Nat2Z.inj_succ.
  unfold IssueWindow.step at 1. destruct (before_issue _ _ _ _ _ _) as [w c].
  case_bool_decide; cbn [cycle]; rewrite IH; lia.
Qed.

Abbreviation run := (run instructions releases policy capacity pausable_feed
                       free_perfect_branches free_perfect_jumps).

(** The loop stops within its fuel, at a state its steps reach. *)
Lemma run_spec start n fuel :
  10 * Z.max 1 (Z.of_nat count) < Z.of_nat (n + fuel) → Z.of_nat n ≤ 10 * Z.max 1 (Z.of_nat count) →
  match run fuel start (Nat.iter n step (init start)) with
  | Some (Ok s) => ∃ k, s = Nat.iter k step (init start) ∧ finished instructions s = true ∧
      Z.of_nat k ≤ 10 * Z.max 1 (Z.of_nat count)
  | Some (Err e) => ∃ msg, e = RuntimeError msg
  | None => False
  end.
Proof.
  revert n. induction fuel as [|fuel IH]; intros n Hf Hn; cbn [IssueWindow.run].
  { destruct (finished _ _) eqn:Hfin; [by exists n|lia]. }
  destruct (finished _ _) eqn:Hfin; [by exists n|].
  change (step (Nat.iter n step (init start))) with (Nat.iter (S n) step (init start)).
  rewrite cycle_iter. fold count.
  destruct (Z.ltb_spec (10 * Z.max 1 (Z.of_nat count)) (start + Z.of_nat (S n) - start)).
  - by eexists.
  - apply IH; lia.
Qed.

Lemma finished_all s :
  state_inv s → finished instructions s = true →
  retire_head (win s) = count ∧ next_admit (win s) = count ∧
  size (issued (win s)) = count ∧ ∀ i, (i < count)%nat → i ∈ completed (win s).
Proof.
  intros [Hw _ _ _] Hf. unfold finished in Hf. apply negb_true_iff, Nat.ltb_ge in Hf.
  pose proof (inv_head _ _ _ _ _ Hw) as Hh. fold count in Hh, Hf.
  assert (retire_head (win s) = count) as Heq by lia.
  assert (∀ i, (i < count)%nat → i ∈ completed (win s)) as Hc
    by (intros i Hi; apply (inv_retire_completed _ _ _ _ _ Hw); lia).
  split_and!; [done|lia| |done].
  assert (issued (win s) = set_seq 0 count) as ->.
  { apply set_eq. intros i. rewrite elem_of_set_seq. split.
    - intros Hi%(inv_issued_admitted _ _ _ _ _ Hw). lia.
    - intros [_ Hi]. apply (inv_completed_issued _ _ _ _ _ Hw), Hc. lia. }
  apply size_set_seq.
Qed.
End steps.

(** ** Properties of the scheduler *)

(** C5: schedule always returns: its loop stops by retiring every instruction or by
    its own progress check.  A normal result accounts for every instruction exactly
    once, as an issue slot or as a free control, never held more than [capacity]
    instructions, and under the strict policy never passed over the oldest unissued
    instruction; an error is the empty release list, the progress check, or the
    division of an empty stream. *)
Theorem schedule_accounts instructions releases policy capacity pausable fb fj :
  0 ≤ capacity →
  match schedule instructions releases policy capacity pausable fb fj with
  | None => False
  | Some (Ok r) =>
      issue_slots (totals r) + free_branches (totals r) + free_jumps (totals r)
        = zlen instructions ∧
      max_occupancy (totals r) ≤ capacity ∧ 0 < cycles r ∧
      cycles r ≤ 10 * Z.max 1 (zlen instructions) ∧
      (policy = "strict" → skipped_oldest_cycles (totals r) = 0) ∧
      (ipc r == inject_Z (zlen instructions) / inject_Z (cycles r))%Q
  | Some (Err e) => releases = [] ∨ instructions = [] ∨ ∃ msg, e = RuntimeError msg
  end.
Proof.
  intros Hcap. unfold schedule. destruct releases as [|r0 rs]; [by left|].
  set (start := minimum r0 rs).
  pose proof (run_spec instructions (r0 :: rs) policy capacity pausable fb fj start 0
    (loop_fuel instructions)) as H. cbn [Nat.iter nat_rect] in H.
  specialize (H ltac:(unfold loop_fuel; lia) ltac:(lia)).
  destruct (run _ _ _ _ _ _ _ _ _ _) as [[s|e]|]; [|by right; right|done].
  destruct H as (k & -> & Hfin & Hbound). cbn [mbind option_bind result_bind].
  set (s := Nat.iter k _ _) in *.
  assert (state_inv instructions policy capacity fb fj s) as Hs by by apply reachable_inv.
  assert (cycle s - start = Z.of_nat k) as Hcy by (unfold s; rewrite cycle_iter; lia).
  destruct (finished_all _ _ _ _ _ _ Hs Hfin) as (Hr & _ & Hsize & _).
  rewrite Hcy. unfold div_float. destruct (Z.eqb_spec (Z.of_nat k) 0) as [Hk|Hk].
  - right. left. assert (k = 0%nat) as -> by lia. simpl in Hr. by apply nil_length_inv.
  - cbn [mbind result_bind totals cycles ipc].
    destruct (st_books _ _ _ _ _ _ Hs) as (B1 & B2 & B3). unfold issue_total in B1.
    rewrite Hsize in B1. unfold zlen. split_and!; try done; try lia.
    intros Hp. by apply B3.
Qed.

(** C4: in every state the scheduler reaches, an instruction that issued (and is not a
    free control) has all its producers completed, and the memory operation before it
    issued, no later than its own issue cycle; what it completes it completes not
    before it issued, after exactly its latency unless it is a store. *)
Theorem hazards_respected instructions releases policy capacity pausable fb fj start n i t :
  0 ≤ capacity →
  let s := Nat.iter n (step instructions releases policy capacity pausable fb fj) (init start) in
  issue_cycle (win s) !! i = Some t → is_free_control instructions fb fj i = false →
  (∀ d, d ∈ deps (instructions !!! i) →
     ∃ c, complete_cycle (win s) !! d = Some c ∧ c ≤ t) ∧
  (∀ m, previous_mem (instructions !!! i) = Some m →
     ∃ tm, issue_cycle (win s) !! m = Some tm ∧ tm ≤ t) ∧
  (∀ c, complete_cycle (win s) !! i = Some c →
     t ≤ c ∧ (is_store (instructions !!! i) = false → c = t + latency (instructions !!! i))).
Proof.
  intros Hcap s Ht Hf.
  destruct (reachable_inv instructions releases policy capacity pausable fb fj Hcap start n)
    as [Hw _ _ _].
  destruct (inv_order _ _ _ _ _ Hw i t Ht Hf) as [H1 H2]. split; [exact H1|]. split; [exact H2|].
  intros c Hc. exact (inv_latency _ _ _ _ _ Hw i t c Ht Hc Hf).
Qed.

(** C28: in every state the scheduler reaches, the window holds at most [capacity]
    instructions, retirement is in program order and only of completed instructions,
    only issued instructions complete and only admitted ones issue, and the number of
    memory operations in flight is exactly the issued, uncompleted ones: at most
    three. *)
Theorem window_safe instructions releases policy capacity pausable fb fj start n :
  0 ≤ capacity →
  let s := Nat.iter n (step instructions releases policy capacity pausable fb fj) (init start) in
  let w := win s in
  (retire_head w ≤ next_admit w ≤ length instructions)%nat ∧ occupancy w ≤ capacity ∧
  (∀ i, i ∈ admitted w ↔ (i < next_admit w)%nat) ∧
  (∀ i, i ∈ retired w ↔ (i < retire_head w)%nat) ∧
  retired w ⊆ completed w ∧ completed w ⊆ issued w ∧ issued w ⊆ admitted w ∧
  mem_active w = Z.of_nat (mem_count instructions (issued w ∖ completed w)) ∧
  mem_active w ≤ 3.
Proof.
  intros Hcap s w.
  destruct (reachable_inv instructions releases policy capacity pausable fb fj Hcap start n)
    as [Hw _ Ho Hm]. fold s in Hw, Ho, Hm. fold w in Hw, Ho, Hm.
  split; [exact (inv_head _ _ _ _ _ Hw)|]. split; [exact Ho|].
  split; [exact (inv_admitted _ _ _ _ _ Hw)|]. split; [exact (inv_retired _ _ _ _ _ Hw)|].
  split; [intros i Hi%(inv_retired _ _ _ _ _ Hw); by apply (inv_retire_completed _ _ _ _ _ Hw)|].
  split; [exact (inv_completed_issued _ _ _ _ _ Hw)|].
  split; [|split; [exact (inv_mem _ _ _ _ _ Hw)|exact Hm]].
  intros i Hi. by apply (inv_admitted _ _ _ _ _ Hw), (inv_issued_admitted _ _ _ _ _ Hw).
Qed.

(** C29: choose never issues more than three instructions, gives each one of its pipes
    and no pipe twice, and takes only ready instructions of the window; under the
    window policy the group is as large as any the ready instructions allow, and no
    group of the same size comes earlier in program order. *)
Theorem choose_correct instructions policy w :
  let r := choose instructions policy w in
  let ready_indices := filter (λ i, ready instructions w i = true) (candidates instructions w) in
  (length r ≤ 3)%nat ∧
  (r ≠ [] → r.*1 `sublist_of` ready_indices ∧ group_issue instructions r.*1 [] r) ∧
  (policy ≠ "strict" → ∀ c, c `sublist_of` ready_indices → (length c ≤ 3)%nat →
     feasible instructions c →
     (length c ≤ length r)%nat ∧ (length c = length r → tuple_lt c r.*1 = false)).
Proof.
  intros r ready_indices. destruct (choose_sound instructions policy w) as [H1 H2].
  fold r in H1, H2. split; [done|]. split.
  - intros Hne. destruct (H2 Hne) as (Hs & Hg & Hr). split; [|done].
    by apply sublist_filter_all.
  - intros Hp c Hc Hl Hf. unfold r, choose. rewrite bool_decide_false by done.
    fold (candidates instructions w). fold ready_indices.
    destruct (widest_group_spec instructions ready_indices (Nat.min 3 (length ready_indices)))
      as (_ & _ & H). apply H; [done| |done].
    apply sublist_length in Hc. lia.
Qed.

(** ** A worked example

    The stream of [sample_stream], linked, with one-cycle releases. *)
Definition example_stream : list DynamicInstruction := link_instructions sample_stream.
Definition example_state (n : nat) : State :=
  Nat.iter n (step example_stream [0; 0; 1; 1] "window" 4 false false false) (init 0).

Lemma schedule_accounts_witness :
  match schedule example_stream [0; 0; 1; 1] "strict" 4 true false false with
  | None => False
  | Some (Ok r) =>
      issue_slots (totals r) + free_branches (totals r) + free_jumps (totals r)
        = zlen example_stream ∧
      max_occupancy (totals r) ≤ 4 ∧ 0 < cycles r ∧
      cycles r ≤ 10 * Z.max 1 (zlen example_stream) ∧
      ("strict" = "strict" → skipped_oldest_cycles (totals r) = 0) ∧
      (ipc r == inject_Z (zlen example_stream) / inject_Z (cycles r))%Q
  | Some (Err e) => [0; 0; 1; 1] = [] ∨ example_stream = [] ∨ ∃ msg, e = RuntimeError msg
  end.
Proof. apply (schedule_accounts example_stream [0; 0; 1; 1] "strict" 4 true false false). lia. Defined.

Lemma hazards_respected_witness :
  ∃ t, issue_cycle (win (example_state 12)) !! 3%nat = Some t ∧
  (∀ d, d ∈ deps (example_stream !!! 3%nat) →
     ∃ c, complete_cycle (win (example_state 12)) !! d = Some c ∧ c ≤ t) ∧
  (∀ m, previous_mem (example_stream !!! 3%nat) = Some m →
     ∃ tm, issue_cycle (win (example_state 12)) !! m = Some tm ∧ tm ≤ t) ∧
  (∀ c, complete_cycle (win (example_state 12)) !! 3%nat = Some c →
     t ≤ c ∧ (is_store (example_stream !!! 3%nat) = false →
              c = t + latency (example_stream !!! 3%nat))).
Proof.
  eexists. split; [vm_compute; reflexivity|].
  apply (hazards_respected example_stream [0; 0; 1; 1] "window" 4 false false false 0 12 3);
    [lia|vm_compute; reflexivity|reflexivity].
Defined.

Lemma window_safe_witness :
  let w := win (example_state 2) in
  (retire_head w ≤ next_admit w ≤ length example_stream)%nat ∧ occupancy w ≤ 4 ∧
  (∀ i, i ∈ admitted w ↔ (i < next_admit w)%nat) ∧
  (∀ i, i ∈ retired w ↔ (i < retire_head w)%nat) ∧
  retired w ⊆ completed w ∧ completed w ⊆ issued w ∧ issued w ⊆ admitted w ∧
  mem_active w = Z.of_nat (mem_count example_stream (issued w ∖ completed w)) ∧
  mem_active w ≤ 3.
Proof.
  apply (window_safe example_stream [0; 0; 1; 1] "window" 4 false false false 0 2). lia.
Defined.

(** A load, its user, and two independent adds: the strict policy waits behind
    the user, the window policy goes on. *)
Definition skip_stream : list DynamicInstruction := link_instructions
  [sample_instruction 0x03 true false true 2 0 5; sample_instruction 0x13 true false true 5 0 5;
   sample_instruction 0x13 false false true 0 0 6; sample_instruction 0x13 false false true 0 0 7].
Example skip_cycles :
  (λ p, match schedule skip_stream [0; 0; 1; 1] p 4 false false false with
        | Some (Ok r) => (cycles r, skipped_oldest_cycles (totals r))
        | _ => (0, 0)
        end) <$> ["strict"; "window"] = [(7, 0); (6, 1)].
Proof. vm_compute. reflexivity. Qed.
