(* ===== verification/PipelineTrace.v ===== *)
(** * Single-issue pipeline report

    [tools/pipeline_trace.py]: reading of an openrv64-cycle-v1 trace, collection
    of the per-instruction records, and the four parts of the report.  A report
    is the list of its lines. *)

From stdpp Require Import base numbers list strings gmap sorting.
From Stdlib Require Import ZArith Lia.
From S2P Require Import Prelude PyText Bytes Csv PyFloat PyDict.

Open Scope Z_scope.

Definition SCHEMA : string := "openrv64-cycle-v1".
Definition STAGES : list string := ["IF"; "ID"; "EX"; "MEM"; "WB"].
Definition EVENTS : list string :=
  ["redirect"; "trap"; "irq"; "mret"; "sret"; "restart"; "halt"; "reset"].
Definition STALL_CAUSES : list string :=
  ["raw"; "waw"; "scoreboard"; "if-memory"; "data-memory"; "execute"; "frontend-held";
   "serializing"].

(** ** Rows *)

(** The value under a column that is known to exist. *)
Definition parse_int (value : option string) (base : Z) (field_name : string) (line_number : Z)
    : result Z :=
  text ← text_of value;
  match py_int base text with
  | Some v => Ok v
  | None => Err (ValueError ("line " +:+ str_int line_number +:+ ": invalid " +:+ field_name
                             +:+ " value " +:+ repr text))
  end.

Record StageValue := { st_valid : bool; st_uid : Z; st_pc : Z; st_instr : Z }.

Record Row := {
  cycle : Z; valid : Z; stall : Z; flush : Z; advance : Z; events : Z; stall_causes : Z;
  stages : list StageValue; retire_valid : bool; retire_arch : bool; retire_exception : bool;
  retire_cause : Z; retire_next_pc : Z; retire_rd_write : bool; retire_rd : Z;
  retire_wdata : Z }.

(** [stage_cycles] holds one list per name of [STAGES]. *)
Record Instruction := {
  uid : Z; pc : option Z; instr : option Z; stage_cycles : list (list Z); stall_cycles : Z;
  retire_cycle : option Z; r_retire_arch : bool; exception : bool; cause : Z; next_pc : Z;
  rd_write : bool; rd : Z; wdata : Z }.

Definition new_instruction (uid : Z) : Instruction :=
  {| uid := uid; pc := None; instr := None; stage_cycles := [[]; []; []; []; []];
     stall_cycles := 0; retire_cycle := None; r_retire_arch := false; exception := false;
     cause := 0; next_pc := 0; rd_write := false; rd := 0; wdata := 0 |}.

Definition stage_names : list string := ["if"; "id"; "ex"; "mem"; "wb"].

Definition required : list string :=
  ["schema"; "cycle"; "valid"; "stall"; "flush"; "advance"; "events"; "stall_causes";
   "retire_valid"; "retire_arch"; "retire_exception"; "retire_cause"; "retire_next_pc";
   "retire_rd_write"; "retire_rd"; "retire_wdata"]
  ++ mjoin ((λ stage, [stage +:+ "_uid"; stage +:+ "_pc"; stage +:+ "_instr"]) <$> stage_names).

Definition parse_column (raw : Csv.Row) (line_number : Z) (name : string) (base : Z) : result Z :=
  v ← column raw name; parse_int v base name line_number.

Definition load_stage (raw : Csv.Row) (line_number valid : Z) (s : Z * string)
    : result StageValue :=
  let '(index, name) := s in
  uid ← parse_column raw line_number (name +:+ "_uid") 16;
  pc ← parse_column raw line_number (name +:+ "_pc") 16;
  instr ← parse_column raw line_number (name +:+ "_instr") 16;
  Ok {| st_valid := bit valid index; st_uid := uid; st_pc := pc; st_instr := instr |}.

Definition truth (v : Z) : bool := negb (v =? 0).

Definition load_row (numbered : Z * Csv.Row) : result Row :=
  let '(line_number, raw) := numbered in
  let int := parse_column raw line_number in
  schema ← column raw "schema";
  raise (ValueError ("line " +:+ str_int line_number +:+ ": unsupported schema "
                     +:+ match schema with Some s => repr s | None => "None" end))
    when negb (bool_decide (schema = Some SCHEMA));;
  valid ← int "valid" 16;
  stages ← mapR (load_stage raw line_number valid) (enumerate stage_names);
  cycle ← int "cycle" 10;
  stall ← int "stall" 16;
  flush ← int "flush" 16;
  advance ← int "advance" 16;
  events ← int "events" 16;
  stall_causes ← int "stall_causes" 16;
  retire_valid ← int "retire_valid" 10;
  retire_arch ← int "retire_arch" 10;
  retire_exception ← int "retire_exception" 10;
  retire_cause ← int "retire_cause" 16;
  retire_next_pc ← int "retire_next_pc" 16;
  retire_rd_write ← int "retire_rd_write" 10;
  retire_rd ← int "retire_rd" 10;
  retire_wdata ← int "retire_wdata" 16;
  Ok {| cycle := cycle; valid := valid; stall := stall; flush := flush; advance := advance;
        events := events; stall_causes := stall_causes; stages := stages;
        retire_valid := truth retire_valid; retire_arch := truth retire_arch;
        retire_exception := truth retire_exception; retire_cause := retire_cause;
        retire_next_pc := retire_next_pc; retire_rd_write := truth retire_rd_write;
        retire_rd := retire_rd; retire_wdata := retire_wdata |}.

Definition load_rows (t : Table) : result (list Row) :=
  raise (ValueError "trace has no CSV header") when bool_decide (fieldnames t = None);;
  let missing := missing_columns required t in
  raise (ValueError ("trace is missing columns: " +:+ join ", " missing))
    when negb (bool_decide (missing = []));;
  loaded ← mapR load_row ((λ '(n, raw), (n + 2, raw)) <$> enumerate (rows t));
  raise (ValueError "trace contains no cycle rows") when bool_decide (loaded = []);;
  Ok loaded.

(** ** Instruction records *)

Definition flush_key (row : Row) (index uid : Z) : Z :=
  Z.lor (Z.lor (Z.shiftl (cycle row + 1) 68) (Z.shiftl index 64)) uid.

Definition stage_name (index : Z) : string := nth (Z.to_nat index) STAGES "".
Definition cycles_of (record : Instruction) (index : Z) : list Z :=
  nth (Z.to_nat index) (stage_cycles record) [].

(** [x is not None and x != v] *)
Definition changed (x : option Z) (v : Z) : bool :=
  match x with Some y => negb (y =? v) | None => false end.

(** The record after one valid stage has been entered in it. *)
Definition enter (row : Row) (index : Z) (stage : StageValue) (available : bool)
    (record : Instruction) : Instruction :=
  {| uid := uid record; pc := Some (st_pc stage);
     instr := if available then Some (st_instr stage) else instr record;
     stage_cycles := alter (λ l, l ++ [cycle row]) (Z.to_nat index) (stage_cycles record);
     stall_cycles := stall_cycles record + Z.b2z (bit (stall row) index);
     retire_cycle := retire_cycle record; r_retire_arch := r_retire_arch record;
     exception := exception record; cause := cause record; next_pc := next_pc record;
     rd_write := rd_write record; rd := rd record; wdata := wdata record |}.

(** One turn of the inner loop. *)
Definition collect_stage (row : Row) (instructions : list (Z * Instruction))
    (s : Z * StageValue) : result (list (Z * Instruction)) :=
  let '(index, stage) := s in
  if negb (st_valid stage) then Ok instructions else
  raise (ValueError ("cycle " +:+ str_int (cycle row) +:+ ": valid " +:+ stage_name index
                     +:+ " stage has UID zero")) when st_uid stage =? 0;;
  let available := negb (index =? 0) || negb (st_instr stage =? 0) in
  let instructions :=
    d_setdefault (st_uid stage) (new_instruction (st_uid stage)) instructions in
  let record := default (new_instruction (st_uid stage)) (d_get (st_uid stage) instructions) in
  let pc_changed := changed (pc record) (st_pc stage) in
  let instr_changed := available && changed (instr record) (st_instr stage) in
  if (pc_changed || instr_changed) && bit (flush row) index then
    Ok (d_set (flush_key row index (st_uid stage))
          (enter row index stage available (new_instruction (st_uid stage))) instructions)
  else
  raise (ValueError ("cycle " +:+ str_int (cycle row) +:+ ": UID " +:+ hex_int (st_uid stage)
                     +:+ " changed PC from " +:+ hex_int (default 0 (pc record)) +:+ " to "
                     +:+ hex_int (st_pc stage))) when pc_changed;;
  raise (ValueError ("cycle " +:+ str_int (cycle row) +:+ ": UID " +:+ hex_int (st_uid stage)
                     +:+ " changed instruction from " +:+ hex_pad 8 (default 0 (instr record))
                     +:+ " to " +:+ hex_pad 8 (st_instr stage))) when instr_changed;;
  Ok (d_set (st_uid stage) (enter row index stage available record) instructions).

Definition retire (row : Row) (record : Instruction) : Instruction :=
  {| uid := uid record; pc := pc record; instr := instr record;
     stage_cycles := stage_cycles record; stall_cycles := stall_cycles record;
     retire_cycle := Some (cycle row); r_retire_arch := retire_arch row;
     exception := retire_exception row; cause := retire_cause row;
     next_pc := retire_next_pc row; rd_write := retire_rd_write row; rd := retire_rd row;
     wdata := retire_wdata row |}.

Definition collect_retire (row : Row) (instructions : list (Z * Instruction))
    : result (list (Z * Instruction)) :=
  if negb (retire_valid row) then Ok instructions else
  wb ← get_item (stages row) 4;
  raise (ValueError ("cycle " +:+ str_int (cycle row)
                     +:+ ": retirement without a valid WB UID"))
    when negb (st_valid wb) || (st_uid wb =? 0);;
  let record := default (new_instruction (st_uid wb)) (d_get (st_uid wb) instructions) in
  Ok (d_set (st_uid wb) (retire row record) instructions).

Definition collect_row (instructions : list (Z * Instruction)) (row : Row)
    : result (list (Z * Instruction)) :=
  instructions ← foldM (collect_stage row) instructions (enumerate (stages row));
  collect_retire row instructions.

Definition collect_instructions (rows : list Row) : result (list (Z * Instruction)) :=
  foldM collect_row [] rows.

(** ** Parts of the report *)

Definition bit_names (mask : Z) (names : list string) : string :=
  let selected := (filter (λ '(index, _), bit mask index = true) (enumerate names)).*2 in
  if bool_decide (selected = []) then "-" else join "," selected.

Definition range_text (r : Z * Z) : string :=
  let '(start, previous) := r in
  if start =? previous then str_int start else str_int start +:+ "-" +:+ str_int previous.

(** The loop over the remaining cycles; the last range is closed after it. *)
Fixpoint range_loop (start previous : Z) (cycles : list Z) : list (Z * Z) :=
  match cycles with
  | [] => [(start, previous)]
  | c :: cycles =>
      if c =? previous + 1 then range_loop start c cycles
      else (start, previous) :: range_loop c c cycles
  end.
Definition ranges (cycles : list Z) : list (Z * Z) :=
  match sorted_set cycles with
  | [] => []
  | first :: rest => range_loop first first rest
  end.
Definition cycle_ranges (cycles : list Z) : string :=
  if bool_decide (cycles = []) then "-" else join "," (range_text <$> ranges cycles).

Definition pad_int (w n : Z) : string := pad_left w (str_int n).       (* f"{n:wd}" *)
Definition left_int (w n : Z) : string := pad_right w (str_int n).     (* f"{n:<wd}" *)

Definition completed_ids (instructions : list (Z * Instruction)) : list Z :=
  (filter (λ kv, retire_cycle (kv.2) ≠ None) instructions).*1.

Definition summary_stage (rows : list Row) (completed : list Z) (s : Z * string)
    : result string :=
  let '(index, name) := s in
  let cycles := zlen rows in
  let occupied := zcount (λ row, bit (valid row) index) rows in
  let done := zcount (λ row, match stages row !! Z.to_nat index with
                             | Some stage => st_valid stage && bool_decide (st_uid stage ∈ completed)
                             | None => false end) rows in
  let stalls := zcount (λ row, bit (stall row) index) rows in
  let advances := zcount (λ row, bit (advance row) index) rows in
  share ← true_div occupied cycles;
  Ok ("  " +:+ pad_right 5 name +:+ " " +:+ pad_int 5 occupied +:+ "/" +:+ left_int 5 cycles
      +:+ " " +:+ pad_left 7 (percent 2 share) +:+ " " +:+ pad_int 5 done +:+ "/"
      +:+ left_int 5 cycles +:+ " " +:+ pad_int 9 (occupied - done) +:+ " "
      +:+ pad_int 8 stalls +:+ " " +:+ pad_int 9 advances).

Definition write_summary (rows : list Row) (instructions : list (Z * Instruction))
    : result (list string) :=
  let cycles := zlen rows in
  let retired := zcount retire_arch rows in
  let exceptions := zcount retire_exception rows in
  first ← get_item rows 0;
  last ← get_item rows (-1);
  ipc ← true_div retired cycles;
  stage_lines ← mapR (summary_stage rows (completed_ids instructions)) (enumerate STAGES);
  let cause_counts :=
    (λ index, zcount (λ row, bit (stall_causes row) index) rows) <$> zrange 0 (zlen STALL_CAUSES) in
  let active_causes :=
    (λ '(name, count), name +:+ "=" +:+ str_int count) <$>
      filter (λ nc, nc.2 ≠ 0) (zip STALL_CAUSES cause_counts) in
  Ok (["SUMMARY";
       "  cycles=" +:+ str_int cycles +:+ " range=" +:+ str_int (cycle first) +:+ "-"
       +:+ str_int (cycle last) +:+ " fetched_uids=" +:+ str_int (zlen instructions)
       +:+ " arch_retired=" +:+ str_int retired +:+ " exceptions=" +:+ str_int exceptions
       +:+ " IPC=" +:+ fixed 4 ipc;
       "  stage  occupied completed  not_done   stalls  advances"]
      ++ stage_lines
      ++ ["  stall_causes: " +:+
            (if bool_decide (active_causes = []) then "-" else join ", " active_causes); ""]).

Definition stage_cell (row : Row) (index : Z) : result string :=
  stage ← get_item (stages row) index;
  if negb (st_valid stage) then Ok (if bit (flush row) index then "FLUSH" else ".") else
  let instr := if (index =? 0) && (st_instr stage =? 0) then "--------"
               else hex_pad 8 (st_instr stage) in
  let marker := if bit (stall row) index then "~"
                else if bit (advance row) index then ">" else " " in
  Ok (marker +:+ hex_int (st_uid stage) +:+ "@" +:+ hex_int (st_pc stage) +:+ ":" +:+ instr).

Definition cycle_line (row : Row) : result string :=
  cells ← mapR (stage_cell row) (zrange 0 5);
  Ok (pad_int 5 (cycle row) +:+ " | " +:+ join " | " (pad_right 26 <$> cells) +:+ " | "
      +:+ bit_names (events row) EVENTS +:+ " / " +:+ bit_names (stall_causes row) STALL_CAUSES).

Definition write_cycles (rows : list Row) (max_cycles : Z) : result (list string) :=
  let visible := if max_cycles =? 0 then rows else slice rows 0 max_cycles in
  lines ← mapR cycle_line visible;
  Ok (["CYCLE PIPELINE  (~ held/stalled, > advances, FLUSH invalidated)";
       "cycle | IF                         | ID                         | "
       +:+ "EX                         | MEM                        | "
       +:+ "WB                         | events / stall causes"]
      ++ lines
      ++ (if zlen visible <? zlen rows
          then ["... " +:+ str_int (zlen rows - zlen visible)
                +:+ " cycles omitted; use --max-cycles 0"] else [])
      ++ [""]).

Definition instruction_status (record : Instruction) : string :=
  if exception record then "exception(" +:+ str_int (cause record) +:+ ")"
  else if r_retire_arch record then "retired"
  else match retire_cycle record with Some _ => "consumed" | None => "not-retired" end.

Definition instruction_line (kv : Z * Instruction) : string :=
  let '(uid, record) := kv in
  let latency :=
    match mjoin (stage_cycles record) with
    | [] => 0
    | c :: cs => list_max c cs - list_min c cs + 1
    end in
  let spans := cycle_ranges <$> (cycles_of record <$> zrange 0 (zlen STAGES)) in
  pad_left 6 (hex_int uid) +:+ " " +:+ hex_pad 16 (default 0 (pc record)) +:+ " "
  +:+ hex_pad 8 (default 0 (instr record)) +:+ " " +:+ join " " (pad_right 11 <$> spans)
  +:+ " " +:+ pad_int 7 latency +:+ " " +:+ pad_int 6 (stall_cycles record) +:+ " "
  +:+ instruction_status record.

Definition write_instructions (instructions : list (Z * Instruction)) : list string :=
  ["INSTRUCTION TIMING";
   "uid    pc               instr     IF          ID          EX          "
   +:+ "MEM         WB          latency stalls status"]
  ++ (instruction_line <$> sort_by fst instructions) ++ [""].

Definition retire_line (record : Instruction) : string :=
  let result :=
    if exception record then "exception cause=" +:+ str_int (cause record)
    else if rd_write record
    then "x" +:+ str_int (rd record) +:+ "=" +:+ hex_pad 16 (wdata record)
    else if r_retire_arch record then "architectural" else "consumed" in
  pad_int 5 (default 0 (retire_cycle record)) +:+ " " +:+ pad_left 6 (hex_int (uid record))
  +:+ " " +:+ hex_pad 16 (default 0 (pc record)) +:+ " " +:+ hex_pad 8 (default 0 (instr record))
  +:+ " " +:+ hex_pad 16 (next_pc record) +:+ " " +:+ result.

Definition retired_records (instructions : list (Z * Instruction)) : list Instruction :=
  sort_by (λ record, default 0 (retire_cycle record))
    (filter (λ record, retire_cycle record ≠ None) instructions.*2).

Definition write_retire_log (instructions : list (Z * Instruction)) : list string :=
  ["RETIRE LOG"; "cycle  uid    pc               instr     next_pc          result"]
  ++ (retire_line <$> retired_records instructions).

Record Args := { start_cycle : option Z; end_cycle : option Z; max_cycles : Z }.

Definition selected (args : Args) (row : Row) : bool :=
  match start_cycle args with Some s => s <=? cycle row | None => true end &&
  match end_cycle args with Some e => cycle row <=? e | None => true end.

(** Exit status, and the lines of the report or of the error message. *)
Definition main (args : Args) (t : Table) : result (Z * list string) :=
  match (all_rows ← load_rows t; instructions ← collect_instructions all_rows;
         Ok (all_rows, instructions)) with
  | Err (ValueError msg) => Ok (2, ["pipeline_trace.py: " +:+ msg])
  | Err e => Err e
  | Ok (all_rows, instructions) =>
      let rows := filter (λ row, selected args row = true) all_rows in
      if bool_decide (rows = [])
      then Ok (2, ["pipeline_trace.py: selected cycle range is empty"]) else
      summary ← write_summary rows instructions;
      cycles ← write_cycles rows (max_cycles args);
      Ok (0, summary ++ cycles ++ write_instructions instructions
             ++ write_retire_log instructions)
  end.

(** ** Cycle ranges *)

Definition expand (r : Z * Z) : list Z := zrange (r.1) (r.2 + 1).

Lemma range_loop_expand start previous cycles :
  start ≤ previous →
  mjoin (expand <$> range_loop start previous cycles) = zrange start (previous + 1) ++ cycles.
Proof.
  revert start previous. induction cycles as [|c cycles IH]; intros start previous Hs.
  - simpl. unfold expand. simpl. done.
  - cbn [range_loop]. destruct (Z.eqb_spec c (previous + 1)) as [->|].
    + rewrite IH, (zrange_snoc start (previous + 1)), <-app_assoc by lia. done.
    + rewrite fmap_cons, join_cons, IH by lia. f_equal.
      rewrite zrange_snoc, zrange_empty by lia. done.
Qed.

Lemma range_loop_gaps start previous cycles :
  start ≤ previous → StronglySorted Z.lt (previous :: cycles) →
  Forall (λ r, start ≤ r.1 ≤ r.2) (range_loop start previous cycles) ∧
  Pairwise (λ r r', r.2 + 1 < r'.1) (range_loop start previous cycles).
Proof.
  revert start previous. induction cycles as [|c cycles IH]; intros start previous Hs Hl.
  - split; [by repeat constructor|]. simpl. repeat constructor.
  - apply StronglySorted_inv in Hl as [Hl Hp]. inversion Hp as [|?? Hc _]; subst.
    cbn [range_loop]. destruct (Z.eqb_spec c (previous + 1)); [by apply IH; [lia|]|].
    destruct (IH c c) as [H1 H2]; [lia|done|]. split.
    + constructor; [simpl; lia|]. eapply Forall_impl; [exact H1|]. simpl. lia.
    + split; [|done]. eapply Forall_impl; [exact H1|]. simpl. lia.
Qed.

(** cycle_ranges prints the cycles of a stage without loss: the ranges expand to
    exactly the distinct cycles in order, none is empty, and two neighbours leave a gap,
    so no shorter list of ranges would do. *)
Theorem cycle_ranges_exact cycles :
  cycle_ranges cycles =
    (if bool_decide (cycles = []) then "-" else join "," (range_text <$> ranges cycles)) ∧
  mjoin (expand <$> ranges cycles) = sorted_set cycles ∧
  (∀ c, c ∈ cycles ↔ ∃ r, r ∈ ranges cycles ∧ r.1 ≤ c ≤ r.2) ∧
  Forall (λ r, r.1 ≤ r.2) (ranges cycles) ∧
  Pairwise (λ r r', r.2 + 1 < r'.1) (ranges cycles).
Proof.
  split; [done|].
  assert (mjoin (expand <$> ranges cycles) = sorted_set cycles) as Hx.
  { unfold ranges. destruct (sorted_set cycles) as [|c l]; [done|].
    rewrite range_loop_expand by lia. rewrite zrange_snoc, zrange_empty by lia. done. }
  split; [exact Hx|]. split.
  { intros c. rewrite <-elem_of_sorted_set, <-Hx, list_elem_of_join. split.
    - intros (l & Hc & (r & -> & Hr)%list_elem_of_fmap). exists r. split; [done|].
      unfold expand in Hc. apply elem_of_zrange in Hc. lia.
    - intros (r & Hr & Hc). exists (expand r). split; [apply elem_of_zrange; lia|].
      by apply list_elem_of_fmap_2. }
  unfold ranges. pose proof (sorted_set_lt cycles) as Hs.
  destruct (sorted_set cycles) as [|c l]; [done|].
  destruct (range_loop_gaps c c l) as [H1 H2]; [lia|done|]. split; [|done].
  eapply Forall_impl; [exact H1|]. simpl. lia.
Qed.

Example cycle_ranges_example : cycle_ranges [7; 3; 4; 5; 9; 4; 10] = "3-5,7,9-10".
Proof. vm_compute. reflexivity. Qed.

(** ** Collection of records *)

(** The loop body as a sequence of events: the stages of a row, then its
    retirement. *)
Inductive event :=
  | Stage (row : Row) (index : Z) (stage : StageValue)
  | Retire (row : Row).

Definition step (instructions : list (Z * Instruction)) (e : event)
    : result (list (Z * Instruction)) :=
  match e with
  | Stage row index stage => collect_stage row instructions (index, stage)
  | Retire row => collect_retire row instructions
  end.

Definition row_events (row : Row) : list event :=
  ((λ '(index, stage), Stage row index stage) <$> enumerate (stages row)) ++ [Retire row].
Definition events_of (rows : list Row) : list event := mjoin (row_events <$> rows).

Lemma collect_row_events row D : collect_row D row = foldM step D (row_events row).
Proof.
  unfold collect_row, row_events. rewrite foldM_app.
  assert (∀ l D, foldM step D ((λ '(index, stage), Stage row index stage) <$> l) =
                 foldM (collect_stage row) D l) as H.
  { induction l as [|[i st] l IH]; intros D'; [done|]. cbn [fmap list_fmap foldM step].
    destruct (collect_stage row D' (i, st)); [apply IH|done]. }
  rewrite H. destruct (foldM (collect_stage row) D _) as [D'|]; [|done].
  cbn [mbind result_bind foldM step]. by destruct (collect_retire row D').
Qed.

Lemma collect_events rows : collect_instructions rows = foldM step [] (events_of rows).
Proof.
  unfold collect_instructions, events_of. rewrite foldM_join.
  generalize (@nil (Z * Instruction)) as D. induction rows as [|row rows IH]; intros D; [done|].
  simpl. rewrite collect_row_events. destruct (foldM step D (row_events row)); [apply IH|done].
Qed.

(** What the report relies on about a trace: five stages per row, distinct
    cycles, 64-bit identifiers. *)
Definition trace_ok (rows : list Row) : Prop :=
  NoDup (cycle <$> rows) ∧
  Forall (λ row, 0 ≤ cycle row ∧ length (stages row) = 5%nat ∧
                 Forall (λ st, 0 ≤ st_uid st < 2 ^ 64) (stages row)) rows.

Definition slot (e : event) : Z * Z :=
  match e with Stage row index _ => (cycle row, index) | Retire row => (cycle row, 5) end.
Definition event_ok (e : event) : Prop :=
  match e with
  | Stage row index st => 0 ≤ cycle row ∧ 0 ≤ index < 5 ∧ 0 ≤ st_uid st < 2 ^ 64
  | Retire row => ∃ wb, stages row !! 4%nat = Some wb ∧ 0 ≤ st_uid wb < 2 ^ 64
  end.

Lemma elem_of_enumerate {A} (l : list A) i x :
  (i, x) ∈ enumerate l ↔ ∃ n : nat, i = Z.of_nat n ∧ l !! n = Some x.
Proof.
  rewrite list_elem_of_lookup. setoid_rewrite lookup_enumerate. split.
  - intros (n & Hn). exists n. destruct (l !! n); simplify_eq/=. done.
  - intros (n & -> & Hn). exists n. by rewrite Hn.
Qed.

Lemma elem_of_row_events row e :
  e ∈ row_events row ↔
    e = Retire row ∨ ∃ n st, stages row !! n = Some st ∧ e = Stage row (Z.of_nat n) st.
Proof.
  unfold row_events. rewrite elem_of_app, list_elem_of_singleton, list_elem_of_fmap. split.
  - intros [([i st] & -> & (n & -> & Hn)%elem_of_enumerate)| ->]; [right; eauto|by left].
  - intros [->|(n & st & Hn & ->)]; [by right|]. left. exists (Z.of_nat n, st).
    split; [done|]. apply elem_of_enumerate. eauto.
Qed.

Lemma row_events_slots row :
  length (stages row) = 5%nat → slot <$> row_events row = (λ i, (cycle row, i)) <$> zrange 0 6.
Proof.
  intros Hl. destruct (stages row) as [|a [|b [|c [|d [|e [|? ?]]]]]] eqn:Hs; try done.
  unfold row_events. by rewrite Hs.
Qed.

Lemma trace_events rows :
  trace_ok rows → NoDup (slot <$> events_of rows) ∧ Forall event_ok (events_of rows).
Proof.
  intros [Hd Hok]. induction rows as [|row rows IH]; [split; [apply NoDup_nil_2|constructor]|].
  apply NoDup_cons in Hd as [Hc Hd]. apply Forall_cons in Hok as [(H0 & Hl & Hu) Hok].
  destruct (IH Hd Hok) as [IH1 IH2]. clear IH.
  change (events_of (row :: rows)) with (row_events row ++ events_of rows). split.
  - rewrite fmap_app, row_events_slots by done. apply NoDup_app. split_and!; [| |done].
    { by repeat (apply NoDup_cons; split; [set_solver|]); apply NoDup_nil_2. }
    intros s (i & -> & _)%list_elem_of_fmap (e & He & Hin)%list_elem_of_fmap.
    unfold events_of in Hin. apply list_elem_of_join in Hin as (l & Hin & Hl').
    apply list_elem_of_fmap in Hl' as (row' & -> & Hr'). apply Hc.
    apply list_elem_of_fmap. exists row'. split; [|done].
    apply elem_of_row_events in Hin as [->|(n & st & _ & ->)]; by injection He.
  - apply Forall_app. split; [|done]. apply Forall_forall.
    intros e [->|(n & st & Hn & ->)]%elem_of_row_events; simpl.
    + destruct (lookup_lt_is_Some_2 (stages row) 4) as [wb Hwb]; [lia|]. exists wb.
      split; [done|]. by apply (Forall_lookup_1 _ _ _ _ Hu Hwb).
    + pose proof (lookup_lt_Some _ _ _ Hn). split; [done|]. split; [lia|].
      by apply (Forall_lookup_1 _ _ _ _ Hu Hn).
Qed.

Lemma flush_key_value row index u :
  0 ≤ cycle row → 0 ≤ index < 5 → 0 ≤ u < 2 ^ 64 →
  flush_key row index u = (cycle row + 1) * 2 ^ 68 + index * 2 ^ 64 + u.
Proof.
  intros Hc Hi Hu. unfold flush_key.
  replace (Z.lor (Z.shiftl (cycle row + 1) 68) (Z.shiftl index 64))
    with (Z.shiftl ((cycle row + 1) * 2 ^ 4 + index) 64).
  - rewrite lor_shiftl_add by lia. lia.
  - rewrite lor_shiftl_add; rewrite ?Z.shiftl_mul_pow2 by lia; lia.
Qed.

Definition available (index : Z) (st : StageValue) : bool :=
  negb (index =? 0) || negb (st_instr st =? 0).

(** The record at [k], with the effect of [setdefault]. *)
Definition record_at (u k : Z) (D : list (Z * Instruction)) : Instruction :=
  default (new_instruction u) (d_get k D).

(** What one turn of the inner loop does. *)
Lemma collect_stage_cases row D i st D' :
  collect_stage row D (i, st) = Ok D' →
  (st_valid st = false ∧ D' = D) ∨
  (st_valid st = true ∧ st_uid st ≠ 0 ∧ ∃ k r,
     D' = d_set k (enter row i st (available i st) r) D ∧
     changed (pc r) (st_pc st) = false ∧
     available i st && changed (instr r) (st_instr st) = false ∧
     ((k = st_uid st ∧ r = record_at (st_uid st) k D) ∨
      (k = flush_key row i (st_uid st) ∧ r = new_instruction (st_uid st) ∧
       bit (flush row) i = true))).
Proof.
  unfold collect_stage, record_at. destruct (st_valid st) eqn:Hv; [|intros [= <-]; by left].
  cbn [negb]. intros H. ok_step H. apply Z.eqb_neq in Heqb. right. split; [done|]. split; [done|].
  fold (available i st) in H. unfold d_setdefault in H.
  destruct (d_get (st_uid st) D) as [r|] eqn:Hr.
  - rewrite Hr in H. simpl default in *.
    destruct (_ && bit _ _) eqn:Hf in H.
    + apply andb_true_iff in Hf as [_ Hf]. ok_step H. eexists _, _. split; [by rewrite H|].
      split; [done|]. split; [by destruct (available i st)|]. right. done.
    + ok_inv H. exists (st_uid st), r. split; [by rewrite H|]. rewrite Hr. auto.
  - rewrite d_get_set_eq in H. simpl in H. rewrite andb_false_r in H. simpl in H.
    ok_step H. rewrite d_set_set in H. eexists _, _. split; [by rewrite H|].
    rewrite Hr. simpl. split; [done|]. split; [by rewrite andb_false_r|]. by left.
Qed.

Lemma cycles_of_enter row i st a r j :
  length (stage_cycles r) = 5%nat → 0 ≤ i < 5 → 0 ≤ j < 5 →
  cycles_of (enter row i st a r) j =
    if i =? j then cycles_of r j ++ [cycle row] else cycles_of r j.
Proof.
  intros Hl Hi Hj. unfold cycles_of. cbn [stage_cycles enter]. rewrite !nth_lookup.
  destruct (Z.eqb_spec i j) as [->|].
  - rewrite list_lookup_alter_eq.
    destruct (lookup_lt_is_Some_2 (stage_cycles r) (Z.to_nat j)) as [l Hx]; [lia|].
    by rewrite Hx.
  - rewrite list_lookup_alter_ne by lia. done.
Qed.

(** A record that only grew. *)
Definition extends (r r' : Instruction) : Prop :=
  uid r' = uid r ∧ (∀ p, pc r = Some p → pc r' = Some p) ∧
  (∀ p, instr r = Some p → instr r' = Some p) ∧
  (∀ i c, 0 ≤ i < 5 → c ∈ cycles_of r i → c ∈ cycles_of r' i).

Lemma changed_false x v y : changed x v = false → x = Some y → y = v.
Proof. intros H ->. simpl in H. b2p. done. Qed.

Lemma enter_extends row i st r :
  length (stage_cycles r) = 5%nat → 0 ≤ i < 5 →
  changed (pc r) (st_pc st) = false →
  available i st && changed (instr r) (st_instr st) = false →
  extends r (enter row i st (available i st) r).
Proof.
  intros Hl Hi Hp Hc. split; [done|]. split; [|split].
  - intros p Hpr. simpl. by rewrite (changed_false _ _ _ Hp Hpr).
  - intros p Hpr. simpl. destruct (available i st); [|done]. simpl in Hc.
    by rewrite (changed_false _ _ _ Hc Hpr).
  - intros j c Hj Hin. rewrite cycles_of_enter by done. case_goal; set_solver.
Qed.

(** The observation of [st] in stage [i] of [row] is in a record. *)
Definition kept (D : list (Z * Instruction)) (row : Row) (i : Z) (st : StageValue) : Prop :=
  ∃ k r, d_get k D = Some r ∧ uid r = st_uid st ∧ pc r = Some (st_pc st) ∧
    (available i st = true → instr r = Some (st_instr st)) ∧ cycle row ∈ cycles_of r i ∧
    (k = st_uid st ∨ (k = flush_key row i (st_uid st) ∧ bit (flush row) i = true)).

Lemma kept_set D row i st u k r' :
  0 ≤ i < 5 → kept D row i st → extends (record_at u k D) r' → kept (d_set k r' D) row i st.
Proof.
  intros Hi (k0 & r0 & Hg & Hu & Hp & Ha & Hc & Hk) (He1 & He2 & He3 & He4).
  unfold record_at in *. destruct (decide (k0 = k)) as [->|Hne].
  - rewrite Hg in *. simpl in *. exists k, r'. rewrite d_get_set_eq.
    split; [done|]. split; [congruence|]. split; [auto|]. split; [auto|]. split; [auto|done].
  - exists k0, r0. rewrite d_get_set_ne by done. done.
Qed.

(** Everything in a record was observed. *)
Definition observed (evs : list event) (r : Instruction) : Prop :=
  ∀ i c, 0 ≤ i < 5 → c ∈ cycles_of r i → ∃ row st, Stage row i st ∈ evs ∧ st_valid st = true ∧
    cycle row = c ∧ st_uid st = uid r ∧ pc r = Some (st_pc st).

Definition stage_count (i : Z) (e : event) : Z :=
  match e with Stage _ j st => Z.b2z (st_valid st && (j =? i)) | Retire _ => 0 end.
Definition stall_count (e : event) : Z :=
  match e with
  | Stage row j st => Z.b2z (st_valid st && bit (stall row) j)
  | Retire _ => 0
  end.

(** The last row that retires [u]. *)
Definition retires (u : Z) (row : Row) : bool :=
  retire_valid row && match stages row !! 4%nat with Some wb => st_uid wb =? u | None => false end.
Definition retire_event (u : Z) (last : option Row) (e : event) : option Row :=
  match e with Retire row => if retires u row then Some row else last | Stage _ _ _ => last end.
Definition last_retire (u : Z) (evs : list event) : option Row :=
  foldl (retire_event u) None evs.

Lemma last_retire_snoc u evs e : last_retire u (evs ++ [e]) = retire_event u (last_retire u evs) e.
Proof. unfold last_retire. by rewrite foldl_app. Qed.

Record Inv (evs : list event) (D : list (Z * Instruction)) : Prop := {
  inv_keys : ∀ k r, d_get k D = Some r →
    length (stage_cycles r) = 5%nat ∧
    ((k = uid r ∧ 0 ≤ k < 2 ^ 64) ∨
     (retire_cycle r = None ∧ 2 ^ 64 ≤ k ∧
      ∃ row i st, Stage row i st ∈ evs ∧ k = flush_key row i (st_uid st)));
  inv_nodup : NoDup D.*1;
  inv_kept : ∀ row i st, Stage row i st ∈ evs → st_valid st = true →
    st_uid st ≠ 0 ∧ kept D row i st;
  inv_observed : ∀ k r, d_get k D = Some r → observed evs r;
  inv_count : ∀ i, 0 ≤ i < 5 → d_sum (λ r, zlen (cycles_of r i)) D = zsum (stage_count i) evs;
  inv_stalls : d_sum stall_cycles D = zsum stall_count evs;
  inv_retired : ∀ u, 0 ≤ u < 2 ^ 64 →
    match last_retire u evs with
    | Some row => ∃ r, d_get u D = Some r ∧ retire row r = r
    | None => ∀ r, d_get u D = Some r → retire_cycle r = None
    end }.

Lemma record_at_sum f u k r' D :
  f (new_instruction u) = 0 → d_sum f (d_set k r' D) = d_sum f D + f r' - f (record_at u k D).
Proof. intros H. rewrite d_sum_set. unfold record_at. destruct (d_get k D); simpl; lia. Qed.

(** A composite key is taken only by an observation in the same slot. *)
Lemma flush_key_fresh evs D row i st :
  Inv evs D → Forall event_ok evs → event_ok (Stage row i st) →
  (cycle row, i) ∉ (slot <$> evs) → d_get (flush_key row i (st_uid st)) D = None.
Proof.
  intros HI Hok (Hc & Hi & Hu) Hnew. apply eq_None_not_Some. intros [r Hr].
  destruct (inv_keys _ _ HI _ _ Hr) as [_ [[_ Hk]|(_ & _ & row' & i' & st' & Hin & Hk)]].
  { rewrite flush_key_value in Hk by done. lia. }
  rewrite Forall_forall in Hok. destruct (Hok _ Hin) as (Hc' & Hi' & Hu').
  rewrite !flush_key_value in Hk by done. apply Hnew.
  apply list_elem_of_fmap. exists (Stage row' i' st'). split; [|done]. simpl. f_equal; lia.
Qed.

Lemma elem_of_snoc {A} (x y : A) l : x ∈ l ++ [y] ↔ x ∈ l ∨ x = y.
Proof. by rewrite elem_of_app, list_elem_of_singleton. Qed.

Lemma observed_mono evs e r : observed evs r → observed (evs ++ [e]) r.
Proof.
  intros H i c Hi Hc. destruct (H i c Hi Hc) as (row & st & Hin & H').
  exists row, st. rewrite elem_of_snoc. tauto.
Qed.

Lemma cycles_of_new u i : cycles_of (new_instruction u) i = [].
Proof.
  unfold cycles_of. simpl. generalize (Z.to_nat i) as n. intros n.
  by do 6 (destruct n as [|n]; [done|]).
Qed.

Lemma record_at_spec evs D u k :
  Inv evs D → 0 ≤ u < 2 ^ 64 → k = u ∨ d_get k D = None →
  uid (record_at u k D) = u ∧ length (stage_cycles (record_at u k D)) = 5%nat ∧
  observed evs (record_at u k D).
Proof.
  intros HI Hu Hk. unfold record_at. destruct (d_get k D) as [r|] eqn:Hr; simpl.
  - destruct Hk as [->|]; [|done]. destruct (inv_keys _ _ HI _ _ Hr) as [Hl Hr'].
    split; [|by eauto using inv_observed]. destruct Hr' as [[? _]|(_ & ? & _)]; [done|lia].
  - split; [done|]. split; [done|]. intros i c Hi.
    rewrite cycles_of_new.
    by intros ?%elem_of_nil.
Qed.

(** An event without effect: an empty stage slot, a row that retires nothing. *)
Definition quiet (e : event) : Prop :=
  match e with
  | Stage _ _ st => st_valid st = false
  | Retire row => ∀ u, retires u row = false
  end.

Lemma keys_mono evs e k r :
  (length (stage_cycles r) = 5%nat ∧
    ((k = uid r ∧ 0 ≤ k < 2 ^ 64) ∨
     (retire_cycle r = None ∧ 2 ^ 64 ≤ k ∧
      ∃ row i st, Stage row i st ∈ evs ∧ k = flush_key row i (st_uid st)))) →
  (length (stage_cycles r) = 5%nat ∧
    ((k = uid r ∧ 0 ≤ k < 2 ^ 64) ∨
     (retire_cycle r = None ∧ 2 ^ 64 ≤ k ∧
      ∃ row i st, Stage row i st ∈ evs ++ [e] ∧ k = flush_key row i (st_uid st)))).
Proof.
  intros [? [?|(? & ? & row0 & i0 & st0 & ? & ?)]]; [auto|]. split; [done|]. right.
  split; [done|]. split; [done|]. exists row0, i0, st0. rewrite elem_of_snoc. auto.
Qed.

Lemma inv_quiet evs D e : quiet e → Inv evs D → Inv (evs ++ [e]) D.
Proof.
  intros Hq HI. split.
  - intros k r Hr. by apply keys_mono, (inv_keys _ _ HI).
  - apply (inv_nodup _ _ HI).
  - intros row i st [Hin|<-]%elem_of_snoc Hv; [by apply (inv_kept _ _ HI)|].
    simpl in Hq. by rewrite Hq in Hv.
  - intros k r Hr. by apply observed_mono, (inv_observed _ _ HI k).
  - intros i Hi. rewrite (inv_count _ _ HI i Hi), zsum_app.
    destruct e; simpl in *; rewrite ?Hq; simpl; lia.
  - rewrite (inv_stalls _ _ HI), zsum_app. destruct e; simpl in *; rewrite ?Hq; simpl; lia.
  - intros u Hu. rewrite last_retire_snoc.
    destruct e as [|row]; simpl in *; rewrite ?Hq; by apply (inv_retired _ _ HI).
Qed.

(** Entering a stage in the record at its key keeps the invariant. *)
Lemma enter_step evs D row i st k :
  Inv evs D → Forall event_ok evs → event_ok (Stage row i st) → st_valid st = true →
  st_uid st ≠ 0 →
  let r := record_at (st_uid st) k D in
  changed (pc r) (st_pc st) = false →
  available i st && changed (instr r) (st_instr st) = false →
  k = st_uid st ∨ (k = flush_key row i (st_uid st) ∧ bit (flush row) i = true ∧ d_get k D = None) →
  Inv (evs ++ [Stage row i st]) (d_set k (enter row i st (available i st) r) D).
Proof.
  intros HI Hok (Hc & Hi & Hu) Hv H0 r Hp Hc' Hk.
  destruct (record_at_spec evs D (st_uid st) k HI Hu) as (Hur & Hlr & Hor); [tauto|]. fold r in Hur, Hlr, Hor.
  pose proof (enter_extends row i st r Hlr Hi Hp Hc') as Hext.
  set (r' := enter row i st (available i st) r) in *.
  assert (length (stage_cycles r') = 5%nat) as Hl' by (unfold r'; simpl; by rewrite length_alter).
  split.
  - intros k' r0. rewrite d_get_set. case_decide as Hkk.
    + intros [= <-]. subst k'. split; [done|]. destruct Hk as [->|(-> & _ & Hn)].
      * left. simpl. by rewrite Hur.
      * right. split; [unfold r', r, record_at; by rewrite Hn|]. split.
        { rewrite flush_key_value by done. lia. }
        exists row, i, st. rewrite elem_of_snoc. auto.
    + intros Hr0. by apply keys_mono, (inv_keys _ _ HI).
  - apply d_set_NoDup, (inv_nodup _ _ HI).
  - intros row0 i0 st0 [Hin|Heq]%elem_of_snoc Hv0.
    + destruct (inv_kept _ _ HI _ _ _ Hin Hv0) as [? Hkept]. split; [done|].
      apply (kept_set D row0 i0 st0 (st_uid st)); [|done|exact Hext].
      rewrite Forall_forall in Hok. apply (Hok _ Hin).
    + injection Heq as -> -> ->. split; [done|]. exists k, r'. rewrite d_get_set_eq.
      split; [done|]. split; [done|]. split; [done|]. split; [simpl; by intros ->|].
      split; [|naive_solver]. unfold r'. rewrite cycles_of_enter, Z.eqb_refl by done. set_solver.
  - intros k' r0. rewrite d_get_set. case_decide as Hkk.
    + intros [= <-] j c Hj. unfold r'. rewrite cycles_of_enter by done.
      intros Hin. assert (c ∈ cycles_of r j ∨ (i = j ∧ c = cycle row)) as [Hin'|[-> ->]].
      { destruct (Z.eqb_spec i j); set_solver. }
      * destruct (Hor j c Hj Hin') as (row0 & st0 & Hin0 & Hv0 & Hc0 & Hu0 & Hp0).
        exists row0, st0. rewrite elem_of_snoc. split; [by left|]. split; [done|]. split; [done|].
        split; [done|]. simpl. by rewrite <-(changed_false _ _ _ Hp Hp0).
      * exists row, st. rewrite elem_of_snoc. auto.
    + intros Hr0. by apply observed_mono, (inv_observed _ _ HI k').
  - intros j Hj. rewrite (record_at_sum _ (st_uid st)) by (by rewrite cycles_of_new).
    rewrite (inv_count _ _ HI j Hj), zsum_app. fold r. unfold r'.
    rewrite cycles_of_enter by done. cbn [zsum foldr stage_count]. rewrite Hv.
    destruct (i =? j); rewrite ?zlen_snoc; simpl; lia.
  - rewrite (record_at_sum _ (st_uid st)) by done. rewrite (inv_stalls _ _ HI), zsum_app.
    fold r. cbn. rewrite Hv. simpl. lia.
  - intros u Hu'. rewrite last_retire_snoc. simpl retire_event.
    pose proof (inv_retired _ _ HI u Hu') as Hret.
    assert (∀ r0, d_get u (d_set k r' D) = Some r0 → d_get u D = Some r0 ∨ (k = u ∧ r0 = r')) as Hcase.
    { intros r0. rewrite d_get_set. case_decide; [intros [= <-]; auto|auto]. }
    destruct (last_retire u evs) as [row0|].
    + destruct Hret as (r0 & Hr0 & Hr1). rewrite d_get_set. case_decide as Hku; [|eauto].
      exists r'. split; [done|]. subst k. unfold r', r, record_at. rewrite Hr0. simpl.
      rewrite <-Hr1. done.
    + intros r0 [Hr0|[-> ->]]%Hcase; [eauto|]. unfold r'. simpl.
      unfold r, record_at. destruct (d_get u D) as [r1|] eqn:Hr1; [simpl; eauto|done].
Qed.

(** So does a retirement. *)
Lemma retire_step evs D row D' :
  Inv evs D → event_ok (Retire row) → collect_retire row D = Ok D' → Inv (evs ++ [Retire row]) D'.
Proof.
  intros HI (wb & Hwb & Hu) H.
  unfold collect_retire in H. destruct (retire_valid row) eqn:Hrv; cbn [negb] in H.
  2: { ok_step H. subst D'. apply inv_quiet; [|done]. intros u. unfold retires. by rewrite Hrv. }
  rewrite (get_item_Ok _ 4 wb) in H by done. cbn [mbind result_bind] in H.
  ok_step H. b2p. ok_step H. subst D'.
  destruct (record_at_spec evs D (st_uid wb) (st_uid wb) HI Hu) as (Hur & Hlr & Hor); [by left|].
  fold (record_at (st_uid wb) (st_uid wb) D). set (r := record_at _ _ D) in *.
  assert (∀ u, retires u row = (st_uid wb =? u)) as Hret.
  { intros u. unfold retires. by rewrite Hrv, Hwb. }
  split.
  - intros k r0. rewrite d_get_set. case_decide as Hk.
    + intros [= <-]. subst k. split; [done|]. left. simpl. by rewrite Hur.
    + intros Hr. by apply keys_mono, (inv_keys _ _ HI).
  - apply d_set_NoDup, (inv_nodup _ _ HI).
  - intros row0 i0 st0 [Hin|?]%elem_of_snoc Hv; [|done].
    destruct (inv_kept _ _ HI _ _ _ Hin Hv) as [? (k0 & r0 & Hg & Hx)]. split; [done|].
    unfold kept. destruct (decide (k0 = st_uid wb)) as [->|Hne].
    + exists (st_uid wb), (retire row r). rewrite d_get_set_eq. split; [done|].
      unfold r, record_at. by rewrite Hg.
    + exists k0, r0. by rewrite d_get_set_ne.
  - intros k r0. rewrite d_get_set. case_decide.
    + intros [= <-]. by apply observed_mono.
    + intros Hr. by apply observed_mono, (inv_observed _ _ HI k).
  - intros i Hi. rewrite (record_at_sum _ (st_uid wb)) by (by rewrite cycles_of_new).
    rewrite (inv_count _ _ HI i Hi), zsum_app. fold r.
    change (cycles_of (retire row r) i) with (cycles_of r i). simpl. lia.
  - rewrite (record_at_sum _ (st_uid wb)) by done. rewrite (inv_stalls _ _ HI), zsum_app.
    fold r. cbn. lia.
  - intros u Hu'. rewrite last_retire_snoc. simpl. rewrite Hret.
    destruct (Z.eqb_spec (st_uid wb) u) as [<-|Hne].
    + exists (retire row r). by rewrite d_get_set_eq.
    + rewrite d_get_set_ne by done. by apply (inv_retired _ _ HI).
Qed.

Lemma inv_empty : Inv [] [].
Proof. split; try done. all: try set_solver. apply NoDup_nil_2. Qed.

Lemma collect_inv rows D :
  trace_ok rows → collect_instructions rows = Ok D → Inv (events_of rows) D.
Proof.
  intros Ht H. rewrite collect_events in H. destruct (trace_events rows Ht) as [Hnd Hok].
  revert H. apply (foldM_inv Inv); [exact inv_empty|].
  intros evs e D1 D2 HI Hstep Hpre.
  assert (Forall event_ok evs ∧ event_ok e ∧ slot e ∉ slot <$> evs) as (Hoks & Hoke & Hnew).
  { destruct Hpre as [rest Hr]. rewrite Hr in Hnd, Hok.
    apply Forall_app in Hok as [Hok _]. apply Forall_app in Hok as [? He].
    apply Forall_cons in He as [? _]. split; [done|]. split; [done|].
    rewrite !fmap_app in Hnd. apply NoDup_app in Hnd as [Hnd _].
    apply NoDup_app in Hnd as (_ & Hnd & _). intros Hin. apply (Hnd _ Hin). simpl. set_solver. }
  destruct e as [row i st|row]; [|by eapply retire_step].
  destruct (collect_stage_cases _ _ _ _ _ Hstep) as [[Hv ->]|(Hv & H0 & k & r & -> & Hp & Hc & Hk)].
  - by apply inv_quiet.
  - destruct Hk as [[-> ->]|(-> & -> & Hf)].
    + apply enter_step; auto.
    + pose proof (flush_key_fresh _ _ _ _ _ HI Hoks Hoke Hnew) as Hn.
      pose proof (enter_step evs D1 row i st (flush_key row i (st_uid st)) HI Hoks Hoke Hv H0) as Hx.
      unfold record_at in Hx. rewrite Hn in Hx. simpl in Hx. apply Hx; auto.
Qed.

(** ** The trace in the records *)

(** Whether stage [i] of a row is valid, and how many of its valid stages
    stall. *)
Definition occupied (i : Z) (row : Row) : bool :=
  match stages row !! Z.to_nat i with Some st => st_valid st | None => false end.
Definition stalled (row : Row) : Z :=
  zcount (λ i, occupied i row && bit (stall row) i) (zrange 0 5).

Lemma row_stage_count row i :
  length (stages row) = 5%nat → 0 ≤ i < 5 →
  zsum (stage_count i) (row_events row) = Z.b2z (occupied i row).
Proof.
  intros Hl Hi. unfold row_events, occupied.
  destruct (stages row) as [|a [|b [|c [|d [|e [|? ?]]]]]]; try done.
  assert (i = 0 ∨ i = 1 ∨ i = 2 ∨ i = 3 ∨ i = 4) as [->|[->|[->|[->| ->]]]] by lia;
    vm_compute; by destruct a as [[]], b as [[]], c as [[]], d as [[]], e as [[]].
Qed.

Lemma row_stall_count row :
  length (stages row) = 5%nat → zsum stall_count (row_events row) = stalled row.
Proof.
  intros Hl. unfold row_events, stalled, occupied.
  destruct (stages row) as [|a [|b [|c [|d [|e [|? ?]]]]]]; try done.
Qed.

Lemma events_sum (f : event → Z) (g : Row → Z) rows :
  (∀ row, row ∈ rows → zsum f (row_events row) = g row) → zsum f (events_of rows) = zsum g rows.
Proof.
  intros H. induction rows as [|row rows IH]; [done|].
  change (events_of (row :: rows)) with (row_events row ++ events_of rows).
  rewrite zsum_app, zsum_cons, H, IH by set_solver. done.
Qed.

Lemma elem_of_events rows row i st :
  Stage row i st ∈ events_of rows ↔
    row ∈ rows ∧ 0 ≤ i ∧ stages row !! Z.to_nat i = Some st.
Proof.
  unfold events_of. rewrite list_elem_of_join. split.
  - intros (l & Hin & (row' & -> & Hr)%list_elem_of_fmap).
    apply elem_of_row_events in Hin as [?|(n & st' & Hn & [= -> -> ->])]; [done|].
    rewrite Nat2Z.id. split; [done|]. split; [lia|done].
  - intros (Hr & Hi & Hst). exists (row_events row). split.
    + apply elem_of_row_events. right. exists (Z.to_nat i), st. rewrite Z2Nat.id by done. auto.
    + by apply list_elem_of_fmap_2.
Qed.

(** C25: collect_instructions accounts for the whole trace and nothing else.  Every valid
    stage of every row is in a record of its UID that carries its PC and instruction
    (a record of its own when a flushed row contradicts an older one); every cycle in a
    record comes from such a row; per stage, and for the stalls, the records hold exactly
    as many cycles as the rows have. *)
Theorem collect_faithful rows D :
  trace_ok rows → collect_instructions rows = Ok D →
  (∀ row i st, row ∈ rows → 0 ≤ i → stages row !! Z.to_nat i = Some st → st_valid st = true →
     st_uid st ≠ 0 ∧ kept D row i st) ∧
  (∀ k r i c, d_get k D = Some r → 0 ≤ i < 5 → c ∈ cycles_of r i →
     ∃ row st, row ∈ rows ∧ stages row !! Z.to_nat i = Some st ∧ st_valid st = true ∧
       cycle row = c ∧ st_uid st = uid r ∧ pc r = Some (st_pc st)) ∧
  (∀ i, 0 ≤ i < 5 → d_sum (λ r, zlen (cycles_of r i)) D = zcount (occupied i) rows) ∧
  d_sum stall_cycles D = zsum stalled rows.
Proof.
  intros Ht H. pose proof (collect_inv rows D Ht H) as HI. destruct Ht as [_ Ht].
  rewrite Forall_forall in Ht. split; [|split; [|split]].
  - intros row i st Hr Hi Hst. apply (inv_kept _ _ HI). by apply elem_of_events.
  - intros k r i c Hk Hi Hc.
    destruct (inv_observed _ _ HI k r Hk i c Hi Hc) as (row & st & Hin & Hx).
    apply elem_of_events in Hin as (? & _ & ?). exists row, st. tauto.
  - intros i Hi. rewrite (inv_count _ _ HI i Hi). apply events_sum.
    intros row Hr. apply row_stage_count; [by apply Ht|done].
  - rewrite (inv_stalls _ _ HI). apply events_sum.
    intros row Hr. apply row_stall_count. by apply Ht.
Qed.

Lemma last_retire_events u rows :
  last_retire u (events_of rows) = last (filter (λ row, retires u row = true) rows).
Proof.
  unfold last_retire.
  cut (∀ acc, foldl (retire_event u) acc (events_of rows) =
    match last (filter (λ row, retires u row = true) rows) with Some row => Some row | None => acc end).
  { intros ->. by destruct (last _). }
  induction rows as [|row rows IH]; intros acc; [done|].
  change (events_of (row :: rows)) with (row_events row ++ events_of rows).
  unfold row_events. rewrite !foldl_app. simpl.
  assert (∀ l acc, foldl (retire_event u) acc ((λ '(i, st), Stage row i st) <$> l) = acc) as ->.
  { induction l as [|[i st] l IHl]; intros a; [done|]. apply IHl. }
  rewrite IH, filter_cons. case_decide as Hr.
  - rewrite last_cons, Hr. by destruct (last _).
  - by destruct (retires u row).
Qed.

(** The record of a UID holds the outcome of the last row that retires it, and is
    unretired exactly when there is none; the retire log lists the retired records, each
    once, in the order of their retirement cycles. *)
Theorem retirement_faithful rows D :
  trace_ok rows → collect_instructions rows = Ok D →
  (∀ u, 0 ≤ u < 2 ^ 64 →
     match last (filter (λ row, retires u row = true) rows) with
     | Some row => ∃ r, d_get u D = Some r ∧ retire row r = r
     | None => ∀ r, d_get u D = Some r → retire_cycle r = None
     end) ∧
  retired_records D ≡ₚ filter (λ record, retire_cycle record ≠ None) D.*2 ∧
  Pairwise (λ a b, default 0 (retire_cycle a) ≤ default 0 (retire_cycle b)) (retired_records D) ∧
  (∀ r, r ∈ retired_records D ↔ d_get (uid r) D = Some r ∧ retire_cycle r ≠ None).
Proof.
  intros Ht H. pose proof (collect_inv rows D Ht H) as HI.
  assert (retired_records D ≡ₚ filter (λ record, retire_cycle record ≠ None) D.*2) as Hperm
    by apply sort_by_perm.
  split; [|split; [done|split; [apply sort_by_sorted|]]].
  - intros u Hu. rewrite <-last_retire_events. by apply (inv_retired _ _ HI).
  - intros r. rewrite Hperm, list_elem_of_filter, list_elem_of_fmap. split.
    + intros (Hr & [k r'] & -> & Hin). split; [|done].
      pose proof (d_elem_get k r' D (inv_nodup _ _ HI) Hin) as Hg. simpl in *.
      destruct (inv_keys _ _ HI _ _ Hg) as [_ [[-> _]|[? _]]]; done.
    + intros [Hg Hr]. split; [done|]. exists (uid r, r). split; [done|]. by apply d_get_elem.
Qed.

(** A short trace: two instructions, a stall, and a flushed fetch under a used UID. *)
Definition sample_row (c stall flush : Z) (retires : bool) (stages : list (Z * Z * Z)) : Row :=
  {| cycle := c; valid := 0; stall := stall; flush := flush; advance := 0; events := 0;
     stall_causes := 0;
     stages := (λ '(u, p, i), {| st_valid := negb (u =? 0); st_uid := u; st_pc := p; st_instr := i |})
                 <$> stages;
     retire_valid := retires; retire_arch := retires; retire_exception := false;
     retire_cause := 0; retire_next_pc := 4; retire_rd_write := false; retire_rd := 0;
     retire_wdata := 0 |}.
Definition sample_rows : list Row :=
  [sample_row 3 0 0 false [(1, 0, 0x13); (0, 0, 0); (0, 0, 0); (0, 0, 0); (0, 0, 0)];
   sample_row 4 2 0 false [(2, 4, 0x33); (1, 0, 0x13); (0, 0, 0); (0, 0, 0); (0, 0, 0)];
   sample_row 5 0 1 true [(2, 8, 0); (0, 0, 0); (0, 0, 0); (0, 0, 0); (1, 0, 0x13)]].

Definition sample_records : list (Z * Instruction) :=
  match collect_instructions sample_rows with Ok D => D | Err _ => [] end.

Example sample_collect : (λ kv, (kv.1, stage_cycles (kv.2))) <$> sample_records =
  [(1, [[3]; [4]; []; []; [5]]); (2, [[4]; []; []; []; []]); (6 * 2 ^ 68 + 2, [[5]; []; []; []; []])].
Proof. vm_compute. reflexivity. Qed.

Lemma sample_ok : trace_ok sample_rows.
Proof.
  split; [by repeat (apply NoDup_cons; split; [set_solver|]); apply NoDup_nil_2|].
  repeat constructor; simpl; lia.
Qed.

Lemma collect_faithful_witness :
  trace_ok sample_rows ∧ collect_instructions sample_rows = Ok sample_records ∧
  d_sum stall_cycles sample_records = zsum stalled sample_rows.
Proof.
  assert (collect_instructions sample_rows = Ok sample_records) as H by (vm_compute; reflexivity).
  split; [exact sample_ok|]. split; [exact H|].
  apply (collect_faithful sample_rows sample_records sample_ok H).
Defined.

Lemma retirement_faithful_witness :
  trace_ok sample_rows ∧ collect_instructions sample_rows = Ok sample_records ∧
  Pairwise (λ a b, default 0 (retire_cycle a) ≤ default 0 (retire_cycle b))
    (retired_records sample_records).
Proof.
  assert (collect_instructions sample_rows = Ok sample_records) as H by (vm_compute; reflexivity).
  split; [exact sample_ok|]. split; [exact H|].
  apply (retirement_faithful sample_rows sample_records sample_ok H).
Defined.

Example sample_report :
  match main {| start_cycle := Some 4; end_cycle := None; max_cycles := 1 |}
          {| fieldnames := None; rows := [] |} with
  | Ok (status, lines) => status = 2 ∧ lines = ["pipeline_trace.py: trace has no CSV header"]
  | Err _ => False
  end.
Proof. vm_compute. split; reflexivity. Qed.
