(* ===== verification/Pipeline3p.v ===== *)
(** * Three-issue pipeline report

    [tools/pipeline_trace_3p.py]: reading of an openrv64-3p-cycle trace (two
    schema versions), the utilisation summary, the choice of an anchor row and
    the causal window around it. *)

From stdpp Require Import base numbers list strings gmap sorting.
From Stdlib Require Import ZArith Lia.
From S2P Require Import Prelude PyText Csv PyFloat PyDict.

Open Scope Z_scope.

Definition SCHEMAS : list string := ["openrv64-3p-cycle-v1"; "openrv64-3p-cycle-v2"].

Definition STAGES_V1 : list (string * string * string) :=
  [("F", "fetch_valid", "f"); ("D", "decode_valid", "d"); ("I", "issue_valid", "i");
   ("C", "complete_valid", "c"); ("R", "retire_valid", "r")].
Definition STAGES_V2 : list (string * string * string) :=
  [("F", "fetch_valid", "f"); ("D", "decode_valid", "d"); ("Q", "queue_valid", "q");
   ("I", "issue_valid", "i"); ("C", "complete_valid", "c"); ("R", "retire_valid", "r")].

Definition BASE_HEX_FIELDS : list string :=
  ["fetch_valid"; "fetch_ready"; "fetch_fire"; "decode_valid"; "decode_ready"; "decode_fire";
   "issue_valid"; "complete_valid"; "retire_valid"; "raw"; "waw"; "read_port"; "write_busy";
   "stall_causes"].
Definition BASE_DEC_FIELDS : list string :=
  ["cycle"; "retire_count"; "dispatch_q"; "retire_q"; "barrier"; "bp_present"; "bp_allocate";
   "bp_taken"; "bp_fetch_stall"; "bp_decode_stall"; "redirect"; "fetch_req_valid";
   "fetch_req_ready"; "fetch_resp_valid"; "axi_arvalid"; "axi_arready"].
Definition V2_HEX_FIELDS : list string :=
  ["queue_valid"; "candidate_fire"; "candidate_hazard_free"; "candidate_pipe"; "pipe_ready";
   "barrier_allow"; "raw_existing"; "raw_bundle"; "raw_completed"; "raw_rs1"; "raw_rs2";
   "waw_bundle"; "waw_completed"; "candidate_uses_rs1"; "candidate_uses_rs2";
   "candidate_reg_write"; "candidate_rs1"; "candidate_rs2"; "candidate_rd";
   "queue_retire_valid"; "completed_entries"; "fetch_line_valid"; "fetch_pending"; "lsu_slots";
   "lsu_sent"].
Definition V2_DEC_FIELDS : list string :=
  ["allocation_ready"; "block_lane"; "block_reason"; "control_flush"; "control_redirect";
   "fetch_bus_q"; "fetch_consume_hit"; "fetch_follow_hit"; "fetch_active"; "mem_req_valid";
   "mem_req_ready"; "mem_resp_valid"; "mem_resp_ready"; "mem_write"; "lsu_store_inflight";
   "lsu_order_block"].
Definition V2_OPTIONAL_HEX_FIELDS : list string :=
  ["retire_gpr_write"; "retire_gpr_rd"; "retire_gpr_data"; "mem_req_tag"; "mem_req_addr";
   "mem_req_wdata"; "mem_req_wstrb"; "mem_resp_tag"; "mem_resp_rdata"].
Definition V2_OPTIONAL_DEC_FIELDS : list string :=
  ["window_unissued"; "window_operand_ready"; "window_eligible"; "window_raw_block";
   "window_hard_block"; "window_mem_order_block"; "window_selected"; "window_issued"].

Definition BLOCK_REASONS : list (Z * string) :=
  [(0, "none"); (1, "raw_pending"); (2, "raw_bundle"); (3, "raw_completed");
   (4, "waw_pending"); (5, "waw_bundle"); (6, "waw_completed"); (7, "read_port");
   (8, "barrier"); (9, "retire_capacity"); (10, "pipe_conflict"); (11, "pipe_busy");
   (12, "invalid_pipe"); (13, "branch_redirect"); (14, "unknown")].
Definition PIPE_NAMES : list (Z * string) :=
  [(0, "EX0"); (1, "EX1"); (2, "MEM"); (3, "INVALID")].

(** [schema.endswith("v2")] *)
Definition ends_with (suffix s : string) : bool :=
  bool_decide (drop (length (chars s) - length (chars suffix)) (chars s) = chars suffix).
Definition is_v2 (schema : string) : bool := ends_with "v2" schema.

Definition stages_for_schema (schema : string) : list (string * string * string) :=
  if is_v2 schema then STAGES_V2 else STAGES_V1.

(** ** Rows: dictionaries of integers, with the schema *)

Record Row := { schema : string; values : gmap string Z }.

(** [int(row[name])].  [load] gives every row a value under every name the
    report reads ([load_sound] below), so the default is never used. *)
Definition get (row : Row) (name : string) : Z := default 0 (values row !! name).
Definition test (row : Row) (name : string) : bool := negb (get row name =? 0).

Definition put (name : string) (v : Z) (row : Row) : Row :=
  {| schema := schema row; values := <[name := v]> (values row) |}.

Definition lane_name (prefix : string) (lane : Z) (suffix : string) : string :=
  prefix +:+ str_int lane +:+ suffix.

Definition hex_fields (schema : string) : list string :=
  BASE_HEX_FIELDS ++ (if is_v2 schema then V2_HEX_FIELDS else []).
Definition dec_fields (schema : string) : list string :=
  BASE_DEC_FIELDS ++ (if is_v2 schema then V2_DEC_FIELDS else []).

Definition lane_columns (prefix : string) (lane : Z) : list string :=
  [lane_name prefix lane "_uid"; lane_name prefix lane "_pc"; lane_name prefix lane "_instr"].
Definition required (schema : string) : list string :=
  ["schema"] ++ hex_fields schema ++ dec_fields schema
  ++ mjoin ((λ '(_, _, prefix), mjoin (lane_columns prefix <$> zrange 0 3))
              <$> stages_for_schema schema).

Definition subset (names fieldnames : list string) : bool :=
  bool_decide (Forall (λ name, name ∈ fieldnames) names).

(** The loops that fill a row. *)
Definition read_field (raw : Csv.Row) (base : Z) (row : Row) (field : string) : result Row :=
  v ← int_column raw field base; Ok (put field v row).
Definition read_optional (raw : Csv.Row) (fieldnames : list string) (base : Z) (row : Row)
    (field : string) : result Row :=
  if bool_decide (field ∈ fieldnames) then read_field raw base row field
  else Ok (put field 0 row).
Definition zero_fields (fields present : list string) (row : Row) : Row :=
  foldl (λ row field, put field 0 row) row (filter (λ field, field ∉ present) fields).

(** Checks one lane of one stage and enters it in the row; the identity of a
    UID is fixed by its first appearance from the dispatch queue on. *)
Abbreviation Identities := (gmap Z (Z * Z)).

Definition tracked (prefix : string) : bool :=
  bool_decide (prefix ∈ ["q"; "i"; "c"; "r"]).

Definition read_lane (raw : Csv.Row) (line_number : Z) (prefix : string) (mask : Z)
    (s : Row * Identities) (lane : Z) : result (Row * Identities) :=
  let '(row, identities) := s in
  uid ← int_column raw (lane_name prefix lane "_uid") 16;
  pc ← int_column raw (lane_name prefix lane "_pc") 16;
  instr ← int_column raw (lane_name prefix lane "_instr") 16;
  let row := put (lane_name prefix lane "_instr") instr
               (put (lane_name prefix lane "_pc") pc
                  (put (lane_name prefix lane "_uid") uid row)) in
  if negb (bit mask lane) then Ok (row, identities) else
  raise (ValueError ("line " +:+ str_int line_number +:+ ": valid " +:+ prefix
                     +:+ str_int lane +:+ " has UID zero")) when uid =? 0;;
  if negb (tracked prefix) then Ok (row, identities) else
  let old := default (pc, instr) (identities !! uid) in
  raise (ValueError ("line " +:+ str_int line_number +:+ ": UID " +:+ hex_int uid
                     +:+ " changed identity")) when negb (bool_decide (old = (pc, instr)));;
  Ok (row, <[uid := old]> identities).

Definition read_stage (raw : Csv.Row) (line_number : Z) (s : Row * Identities)
    (stage : string * string * string) : result (Row * Identities) :=
  let '(_, mask_field, prefix) := stage in
  foldM (read_lane raw line_number prefix (get (s.1) mask_field)) s (zrange 0 3).

(** One turn of the loop over the rows. *)
Definition read_row (schema : string) (fieldnames : list string)
    (s : list Row * Identities) (numbered : Z * Csv.Row) : result (list Row * Identities) :=
  let '(rows, identities) := s in
  let '(line_number, raw) := numbered in
  row ← foldM (read_field raw 16) {| schema := schema; values := ∅ |} (hex_fields schema);
  row ← foldM (read_field raw 10) row (dec_fields schema);
  let row := put "data_fields_present" (Z.b2z (subset V2_OPTIONAL_HEX_FIELDS fieldnames)) row in
  let row := put "window_fields_present" (Z.b2z (subset V2_OPTIONAL_DEC_FIELDS fieldnames)) row in
  row ← foldM (read_optional raw fieldnames 16) row V2_OPTIONAL_HEX_FIELDS;
  row ← foldM (read_optional raw fieldnames 10) row V2_OPTIONAL_DEC_FIELDS;
  let row := zero_fields V2_HEX_FIELDS (hex_fields schema) row in
  let row := zero_fields V2_DEC_FIELDS (dec_fields schema) row in
  let row := if ends_with "v1" schema then put "block_lane" 3 row else row in
  s ← foldM (read_stage raw line_number) (row, identities) (stages_for_schema schema);
  Ok (rows ++ [s.1], s.2).

(** The one schema of the rows. *)
Definition the_schema (raw_rows : list Csv.Row) : result string :=
  all ← mapR (λ raw, column raw "schema") raw_rows;
  match remove_dups all with
  | [Some schema] =>
      raise (ValueError ("unsupported schema " +:+ repr schema))
        when negb (bool_decide (schema ∈ SCHEMAS));;
      Ok schema
  | [None] => Err (ValueError "unsupported schema None")
  | schemas =>
      names ← mapR (λ s, match s with
                         | Some s => Ok s
                         | None => Err (TypeError "'<' not supported")
                         end) schemas;
      Err (ValueError ("trace mixes schemas: " +:+ join ", " (sort_strings names)))
  end.

Definition load (t : Table) : result (list Row) :=
  match fieldnames t with
  | None => Err (ValueError "trace has no CSV header")
  | Some fieldnames =>
      raise (ValueError "trace contains no cycle rows") when bool_decide (rows t = []);;
      schema ← the_schema (rows t);
      let missing := missing_columns (required schema) t in
      raise (ValueError ("trace is missing columns: " +:+ join ", " missing))
        when negb (bool_decide (missing = []));;
      s ← foldM (read_row schema fieldnames) ([], ∅)
            ((λ '(n, raw), (n + 2, raw)) <$> enumerate (rows t));
      Ok (s.1)
  end.

(** ** Fields of a row *)

Fixpoint pos_bits (p : positive) : Z :=
  match p with xH => 1 | xO p => pos_bits p | xI p => 1 + pos_bits p end.
(** [value.bit_count()]: the ones of the magnitude. *)
Definition popcount (value : Z) : Z :=
  match value with Z0 => 0 | Zpos p | Zneg p => pos_bits p end.

Definition lane_value (row : Row) (field : string) (lane : Z) : Z :=
  Z.land (Z.shiftr (get row field) (lane * 5)) 0x1F.
Definition candidate_pipe (row : Row) (lane : Z) : Z :=
  Z.land (Z.shiftr (get row "candidate_pipe") (lane * 2)) 0x3.

Definition short_pc (pc : Z) : string := hex_pad 4 (Z.land pc 0xffff).

Definition stage_text (row : Row) (mask_field prefix : string) : string :=
  let mask := get row mask_field in
  let values :=
    (λ lane, hex_int (get row (lane_name prefix lane "_uid")) +:+ "@"
             +:+ short_pc (get row (lane_name prefix lane "_pc")))
      <$> filter (λ lane, bit mask lane = true) (zrange 0 3) in
  if bool_decide (values = []) then "-" else join "/" values.

(** [s.upper()] *)
Definition upper_char (c : Ascii.ascii) : Ascii.ascii :=
  if (97 <=? code c) && (code c <=? 122) then char_of (code c - 32) else c.
Definition upper (s : string) : string := of_chars (upper_char <$> chars s).

Definition reason_name (reason : Z) : string :=
  upper (default ("reason_" +:+ str_int reason) (d_get reason BLOCK_REASONS)).

Definition block_details (row : Row) (lane : Z) (name : string) : list string :=
  (if bit (get row "raw_rs1") lane
   then ["rs1=x" +:+ str_int (lane_value row "candidate_rs1" lane)] else [])
  ++ (if bit (get row "raw_rs2") lane
      then ["rs2=x" +:+ str_int (lane_value row "candidate_rs2" lane)] else [])
  ++ (if String.prefix "WAW" name
      then ["rd=x" +:+ str_int (lane_value row "candidate_rd" lane)] else []).

Definition in_lanes (lane : Z) : bool := (0 <=? lane) && (lane <? 3).   (* in range(3) *)

Definition block_text (row : Row) : option string :=
  if negb (is_v2 (schema row)) then None else
  let reason := get row "block_reason" in
  if reason =? 0 then None else
  let lane := get row "block_lane" in
  let name := reason_name reason in
  if negb (in_lanes lane) then Some ("BLOCK=" +:+ name +:+ "@Q?") else
  let uid := get row (lane_name "q" lane "_uid") in
  let pc := get row (lane_name "q" lane "_pc") in
  let pipe := default "?" (d_get (candidate_pipe row lane) PIPE_NAMES) in
  let details := block_details row lane name in
  let suffix := if bool_decide (details = []) then ""
                else "(" +:+ join "," details +:+ ")" in
  Some ("BLOCK=" +:+ name +:+ "@Q" +:+ str_int lane +:+ ":" +:+ hex_int uid +:+ "@"
        +:+ short_pc pc +:+ "/" +:+ pipe +:+ suffix).

Definition label_if (b : bool) (label : string) : list string := if b then [label] else [].

Definition writeback_label (row : Row) (lane : Z) : list string :=
  let rd := Z.land (Z.shiftr (get row "retire_gpr_rd") (lane * 5)) 0x1f in
  let data := Z.land (Z.shiftr (get row "retire_gpr_data") (lane * 64)) (Z.shiftl 1 64 - 1) in
  label_if (bit (get row "retire_gpr_write") lane)
    ("WB" +:+ str_int lane +:+ "=x" +:+ str_int rd +:+ ":" +:+ hex_int data).

Definition data_labels (row : Row) : list string :=
  let tag := str_int (get row "mem_req_tag") in
  let addr := hex_int (get row "mem_req_addr") in
  label_if (test row "mem_req_valid" && test row "mem_req_ready")
    (if test row "mem_write"
     then "MEMW[t" +:+ tag +:+ "]@" +:+ addr +:+ "=" +:+ hex_int (get row "mem_req_wdata")
          +:+ "/" +:+ hex_pad 2 (get row "mem_req_wstrb")
     else "MEMR[t" +:+ tag +:+ "]@" +:+ addr)
  ++ label_if (test row "mem_resp_valid" && test row "mem_resp_ready")
       ("MEMRESP[t" +:+ str_int (get row "mem_resp_tag") +:+ "]="
        +:+ hex_int (get row "mem_resp_rdata"))
  ++ mjoin (writeback_label row <$> zrange 0 3).

Definition stall_labels (row : Row) : string :=
  let labels :=
    match block_text row with Some block => [block] | None => [] end
    ++ label_if (test row "raw") ("RAW=" +:+ hex_int (get row "raw"))
    ++ label_if (test row "waw") ("WAW=" +:+ hex_int (get row "waw"))
    ++ label_if (test row "read_port") ("RPORT=" +:+ hex_int (get row "read_port"))
    ++ label_if (test row "barrier") "BARRIER"
    ++ label_if (test row "bp_fetch_stall" || test row "bp_decode_stall") "BPSTALL"
    ++ label_if (test row "redirect") "REDIRECT"
    ++ label_if (test row "fetch_req_valid" && negb (test row "fetch_req_ready")) "IF_REQ_WAIT"
    ++ label_if (test row "mem_req_valid" && negb (test row "mem_req_ready")) "LSU_REQ_WAIT"
    ++ label_if (test row "lsu_order_block") "LSU_ORDER"
    ++ label_if (test row "dispatch_q" && negb (test row "issue_valid")) "NOISSUE"
    ++ (if test row "data_fields_present" then data_labels row else []) in
  if bool_decide (labels = []) then "-" else join "+" labels.

(** ** The summary *)

Abbreviation Counter := (gmap string Z).
Definition count_of (counts : Counter) (name : string) : Z := default 0 (counts !! name).

(** [counts[name] += n] *)
Definition count (counts : Counter) (increment : string * Z) : Counter :=
  let '(name, n) := increment in <[name := count_of counts name + n]> counts.

Definition flag (name : string) (b : bool) : string * Z := (name, Z.b2z b).

(** The exclusive reason why fetch has nothing, in a v2 trace. *)
Definition empty_reason (row : Row) : string :=
  if test row "control_flush" || test row "control_redirect" then "frontend_control"
  else if test row "bp_fetch_stall" then "frontend_bp_stall"
  else if negb (test row "fetch_consume_hit")
          && (test row "fetch_pending" || test row "fetch_bus_q") then "frontend_refill_wait"
  else if negb (test row "fetch_consume_hit") then "frontend_no_line"
  else "frontend_other_empty".

Definition base_increments (row : Row) : list (string * Z) :=
  let dispatch_q := test row "dispatch_q" in
  [flag "frontend_empty" (negb (test row "fetch_valid"));
   flag "frontend_held" (test row "fetch_valid" && negb (test row "fetch_fire"));
   flag "dispatch_empty" (negb dispatch_q);
   flag "queued_no_issue" (dispatch_q && negb (test row "issue_valid"));
   flag "queued_raw" (dispatch_q && test row "raw");
   flag "queued_waw" (dispatch_q && test row "waw");
   flag "queued_read_port" (dispatch_q && test row "read_port");
   flag "queued_barrier" (dispatch_q && test row "barrier");
   flag "retire_wait" (test row "retire_q" && negb (test row "retire_valid"));
   flag "bp_stall" (test row "bp_fetch_stall" || test row "bp_decode_stall");
   flag "redirect" (test row "redirect");
   flag "if_request_wait" (test row "fetch_req_valid" && negb (test row "fetch_req_ready"))].

Definition window_increments (row : Row) : list (string * Z) :=
  [flag "window_live" (test row "window_unissued");
   flag "window_full" (16 <=? get row "dispatch_q");
   flag "window_no_eligible" (test row "window_unissued" && negb (test row "window_eligible"));
   flag "window_raw_blocked" (test row "window_raw_block");
   flag "window_hard_blocked" (test row "window_hard_block");
   flag "window_mem_order_blocked" (test row "window_mem_order_block")].

Definition v2_increments (row : Row) : list (string * Z) :=
  let head_waits := test row "retire_q" && negb (bit (get row "queue_retire_valid") 0) in
  [flag "retire_head_incomplete" head_waits;
   flag "completed_behind_head" (head_waits && test row "completed_entries");
   flag "lsu_pipe_full"
     ((get row "block_reason" =? 11) && in_lanes (get row "block_lane")
      && (candidate_pipe row (get row "block_lane") =? 2));
   flag "lsu_request_wait" (test row "mem_req_valid" && negb (test row "mem_req_ready"));
   flag "lsu_outstanding" (test row "lsu_sent");
   flag "lsu_order_block" (test row "lsu_order_block")]
  ++ (if test row "window_fields_present" then window_increments row else [])
  ++ (if negb (test row "fetch_valid") then [(empty_reason row, 1)] else []).

Definition increments (schema : string) (row : Row) : list (string * Z) :=
  base_increments row ++ (if is_v2 schema then v2_increments row else []).

Definition count_row (schema : string) (counts : Counter) (row : Row) : Counter :=
  foldl count counts (increments schema row).
Definition count_rows (schema : string) (rows : list Row) : Counter :=
  foldl (count_row schema) ∅ rows.

Definition count_reason (counts : gmap Z Z) (row : Row) : gmap Z Z :=
  let reason := get row "block_reason" in
  <[reason := default 0 (counts !! reason) + 1]> counts.
Definition count_reasons (schema : string) (rows : list Row) : gmap Z Z :=
  if is_v2 schema then foldl count_reason ∅ rows else ∅.

Definition pad_int (w n : Z) : string := pad_left w (str_int n).       (* f"{n:wd}" *)
Definition left_int (w n : Z) : string := pad_right w (str_int n).     (* f"{n:<wd}" *)

(** Divisions by the number of rows, which is positive by the time they are
    evaluated ([rows[0]] comes first). *)
Definition share (n cycles : Z) : string := pad_left 7 (percent 2 (div_or_zero n cycles)).

Definition stage_line (rows : list Row) (stage : string * string * string) : string :=
  let '(name, mask_field, _) := stage in
  let cycles := zlen rows in
  let active := zcount (λ row, test row mask_field) rows in
  let slots := zsum (λ row, popcount (get row mask_field)) rows in
  "  " +:+ pad_right 5 name +:+ " " +:+ pad_int 5 active +:+ "/" +:+ left_int 5 cycles +:+ " "
  +:+ pad_int 7 slots +:+ "/" +:+ left_int 7 (cycles * 3) +:+ " " +:+ share slots (cycles * 3).

Definition reason_line (cycles blocked : Z) (reason_counts : gmap Z Z) (reason : Z) : string :=
  let count := default 0 (reason_counts !! reason) in
  "    " +:+ pad_right 20 (default "" (d_get reason BLOCK_REASONS)) +:+ " " +:+ pad_int 6 count
  +:+ "  " +:+ share count cycles +:+ " cycles  " +:+ share count blocked +:+ " blocked".

Definition count_line (cycles : Z) (counts : Counter) (name : string) : string :=
  "    " +:+ pad_right 24 name +:+ " " +:+ pad_int 6 (count_of counts name) +:+ "  "
  +:+ share (count_of counts name) cycles.

Definition average_line (rows : list Row) (name : string) : string :=
  let total := zsum (λ row, get row name) rows in
  "    avg_" +:+ pad_right 20 name +:+ " "
  +:+ pad_left 7 (fixed 3 (div_or_zero total (zlen rows))).

Definition HEAD_NAMES : list string := ["retire_head_incomplete"; "completed_behind_head"].
Definition LSU_NAMES : list string :=
  ["lsu_pipe_full"; "lsu_request_wait"; "lsu_outstanding"; "lsu_order_block"].
Definition EMPTY_NAMES : list string :=
  ["frontend_control"; "frontend_bp_stall"; "frontend_refill_wait"; "frontend_no_line";
   "frontend_other_empty"].
Definition WINDOW_NAMES : list string :=
  ["window_live"; "window_full"; "window_no_eligible"; "window_raw_blocked";
   "window_hard_blocked"; "window_mem_order_blocked"].
Definition AVERAGE_NAMES : list string :=
  ["window_unissued"; "window_operand_ready"; "window_eligible"; "window_selected";
   "window_issued"].
Definition OBSERVATION_NAMES : list string :=
  ["frontend_empty"; "frontend_held"; "dispatch_empty"; "queued_no_issue"; "queued_raw";
   "queued_waw"; "queued_read_port"; "queued_barrier"; "retire_wait"; "bp_stall"; "redirect";
   "if_request_wait"].

Definition v2_lines (rows : list Row) (first : Row) (counts : Counter)
    (reason_counts : gmap Z Z) : list string :=
  let cycles := zlen rows in
  let blocked := cycles - default 0 (reason_counts !! 0) in
  ["  first_nonissued_candidate (exclusive; hazards take precedence):"]
  ++ (reason_line cycles blocked reason_counts <$> zrange 1 14)
  ++ ["  retirement_head:"] ++ (count_line cycles counts <$> HEAD_NAMES)
  ++ ["  lsu:"] ++ (count_line cycles counts <$> LSU_NAMES)
  ++ ["  frontend_empty (exclusive):"] ++ (count_line cycles counts <$> EMPTY_NAMES)
  ++ (if test first "window_fields_present"
      then ["  issue_window:"] ++ (count_line cycles counts <$> WINDOW_NAMES)
           ++ (average_line rows <$> AVERAGE_NAMES)
      else []).


Definition summary (rows : list Row) : result string :=
  let cycles := zlen rows in
  first ← get_item rows 0;
  let schema := schema first in
  let retired := zsum (λ row, get row "retire_count") rows in
  let counts := count_rows schema rows in
  let reason_counts := count_reasons schema rows in
  Ok (join newline
        (["SUMMARY"; "  schema=" +:+ schema;
          "  cycles=" +:+ str_int cycles +:+ " retired=" +:+ str_int retired +:+ " IPC="
          +:+ fixed 4 (div_or_zero retired cycles);
          "  stage  active_cycles  occupied_slots  slot_utilization"]
         ++ (stage_line rows <$> stages_for_schema schema)
         ++ (if is_v2 schema then v2_lines rows first counts reason_counts else [])
         ++ ["  observations (overlapping, not causal attribution):"]
         ++ (count_line cycles counts <$> OBSERVATION_NAMES))).

(** ** The anchor and the window *)

(** The index of the first row that satisfies a test. *)
Fixpoint first_row (p : Row → bool) (index : Z) (rows : list Row) : option Z :=
  match rows with
  | [] => None
  | row :: rows => if p row then Some index else first_row p (index + 1) rows
  end.

Definition at_cycle (cycle : Z) (row : Row) : bool := cycle <=? get row "cycle".
Definition holds_uid (uid : Z) (row : Row) : bool :=
  existsb (λ '(_, mask_field, prefix),
    existsb (λ lane, bit (get row mask_field) lane
                     && (get row (lane_name prefix lane "_uid") =? uid)) (zrange 0 3))
    (stages_for_schema (schema row)).
Definition blocked_by (reason : Z) (row : Row) : bool := get row "block_reason" =? reason.
Definition retires_pc (pc : Z) (row : Row) : bool :=
  existsb (λ lane, bit (get row "retire_valid") lane
                   && (get row (lane_name "r" lane "_pc") =? pc)) (zrange 0 3).

(** [next(key for key, value in BLOCK_REASONS.items() if value == name)] *)
Definition reason_key (name : string) : result Z :=
  match filter (λ kv, kv.2 = name) BLOCK_REASONS with
  | (key, _) :: _ => Ok key
  | [] => Err StopIteration
  end.

Definition search (p : Row → bool) (rows : list Row) (missing : string) : result Z :=
  match first_row p 0 rows with
  | Some index => Ok index
  | None => Err (ValueError missing)
  end.

Definition find_anchor (rows : list Row) (pc uid cycle : option Z) (block_reason : option string)
    : result Z :=
  match cycle, uid, block_reason, pc with
  | Some cycle, _, _, _ =>
      search (at_cycle cycle) rows ("cycle " +:+ str_int cycle +:+ " does not appear in trace")
  | None, Some uid, _, _ =>
      search (holds_uid uid) rows ("UID 0x" +:+ hex_int uid +:+ " does not appear in trace")
  | None, None, Some name, _ =>
      reason ← reason_key name;
      search (blocked_by reason) rows
        ("block reason " +:+ repr name +:+ " does not appear in trace")
  | None, None, None, Some pc =>
      search (retires_pc pc) rows
        ("retired PC 0x" +:+ hex_int pc +:+ " does not appear in trace")
  | None, None, None, None => Ok 0
  end.

(** [f"{s:17.17s}"] *)
Definition cell17 (s : string) : string := pad_right 17 (of_chars (take 17 (chars s))).

Definition window_line (stages : list (string * string * string)) (row : Row) : string :=
  let fields := (λ '(_, mask_field, prefix), stage_text row mask_field prefix) <$> stages in
  "  " +:+ pad_int 5 (get row "cycle") +:+ " | " +:+ join " | " (cell17 <$> fields) +:+ " | "
  +:+ str_int (get row "dispatch_q") +:+ "/" +:+ str_int (get row "retire_q") +:+ "   | "
  +:+ stall_labels row.

Definition window (rows : list Row) (start count : Z) : result string :=
  first ← get_item rows 0;
  let stages := stages_for_schema (schema first) in
  let stage_headers := join " | " ((λ '(name, _, _), pad_right 17 name) <$> stages) in
  Ok (join newline
        ([""; "PIPELINE WINDOW"; "  cyc | " +:+ stage_headers +:+ " | dq/rq | stalls"]
         ++ (window_line stages <$> slice rows start (start + count)))).

Definition parse_hex (value : string) : result Z := int_text 16 value.

Record Args := {
  around_pc : option Z; around_uid : option Z; start_cycle : option Z;
  block_reason : option string; before : Z; row_count : Z }.

(** The report that [main] writes or prints. *)
Definition main (args : Args) (t : Table) : result string :=
  rows ← load t;
  anchor ← find_anchor rows (around_pc args) (around_uid args) (start_cycle args)
             (block_reason args);
  let start := Z.max 0 (anchor - before args) in
  s ← summary rows;
  w ← window rows start (row_count args);
  Ok (s +:+ newline +:+ w +:+ newline).

(** ** Loading *)

Definition present (row : Row) (name : string) : Prop := is_Some (values row !! name).

Lemma present_put row n v name : present row name ∨ name = n → present (put n v row) name.
Proof.
  unfold present, put. simpl. intros [H| ->]; [|by rewrite lookup_insert_eq].
  destruct (decide (n = name)) as [->|]; [by rewrite lookup_insert_eq|].
  by rewrite lookup_insert_ne.
Qed.

(** A loop that puts one value under each of some names. *)
Lemma fields_loop (f : Row → string → result Row) names row row' :
  (∀ r n r', f r n = Ok r' → ∃ v, r' = put n v r) → foldM f row names = Ok row' →
  schema row' = schema row ∧ ∀ name, present row name ∨ name ∈ names → present row' name.
Proof.
  intros Hf. revert row. induction names as [|n names IH]; intros row H.
  - simpl in H. injection H as <-. split; [done|]. intros name [?|?%elem_of_nil]; done.
  - simpl in H. apply bind_Ok in H as (r1 & H1 & H). destruct (Hf _ _ _ H1) as [v ->].
    apply IH in H as [Hs Hp]. split; [done|]. intros name Hname. apply Hp.
    rewrite elem_of_cons in Hname.
    destruct Hname as [?|[?|?]]; [left; apply present_put; by left|left; apply present_put; by right|by right].
Qed.

Lemma zero_fields_spec fields had row :
  schema (zero_fields fields had row) = schema row ∧
  ∀ name, present row name ∨ (name ∈ fields ∧ name ∉ had) →
    present (zero_fields fields had row) name.
Proof.
  unfold zero_fields.
  assert (∀ name, name ∈ filter (λ field, field ∉ had) fields ↔ name ∈ fields ∧ name ∉ had) as Hin.
  { intros name. rewrite list_elem_of_filter. tauto. }
  setoid_rewrite <-Hin. generalize (filter (λ field, field ∉ had) fields) as l. clear.
  intros l. revert row. induction l as [|n l IH]; intros row; simpl.
  - split; [done|]. intros name [?|?%elem_of_nil]; done.
  - destruct (IH (put n 0 row)) as [Hs Hp]. split; [done|]. intros name Hname. apply Hp.
    rewrite elem_of_cons in Hname.
    destruct Hname as [?|[?|?]]; [left; apply present_put; by left|left; apply present_put; by right|by right].
Qed.

Lemma read_field_put raw base r n r' : read_field raw base r n = Ok r' → ∃ v, r' = put n v r.
Proof. unfold read_field. intros (v & _ & [= <-])%bind_Ok. by exists v. Qed.
Lemma read_optional_put raw fieldnames base r n r' :
  read_optional raw fieldnames base r n = Ok r' → ∃ v, r' = put n v r.
Proof.
  unfold read_optional. case_bool_decide; [apply read_field_put|intros [= <-]; by exists 0].
Qed.

(** *** Lanes *)

Definition steps (schema : string) : list (string * string * Z) :=
  mjoin ((λ '(_, mask_field, prefix), (λ lane, (mask_field, prefix, lane)) <$> zrange 0 3)
           <$> stages_for_schema schema).
Definition columns_of (step : string * string * Z) : list string :=
  let '(_, prefix, lane) := step in lane_columns prefix lane.
Definition all_columns (schema : string) : list string := mjoin (columns_of <$> steps schema).

Definition steps_test (l : list (string * string * Z)) : bool :=
  bool_decide (NoDup (mjoin (columns_of <$> l))) &&
  forallb (λ '(m, _, _), bool_decide (m ∉ mjoin (columns_of <$> l))) l.

Lemma steps_checked schema :
  NoDup (all_columns schema) ∧
  ∀ m p lane, (m, p, lane) ∈ steps schema → m ∉ all_columns schema.
Proof.
  assert (steps_test (steps schema) = true) as H.
  { unfold steps, stages_for_schema. destruct (is_v2 schema); by vm_compute. }
  unfold steps_test in H. apply andb_true_iff in H as [H1%bool_decide_eq_true H2].
  split; [done|]. intros m p lane Hin. rewrite forallb_forall in H2.
  apply list_elem_of_In, H2 in Hin. by apply bool_decide_eq_true in Hin.
Qed.

Definition enter_lane (prefix : string) (lane uid pc instr : Z) (row : Row) : Row :=
  put (lane_name prefix lane "_instr") instr
    (put (lane_name prefix lane "_pc") pc (put (lane_name prefix lane "_uid") uid row)).

Lemma read_lane_cases raw line p mask row ids lane row' ids' :
  read_lane raw line p mask (row, ids) lane = Ok (row', ids') →
  ∃ uid pc instr, row' = enter_lane p lane uid pc instr row ∧ ids ⊆ ids' ∧
    (bit mask lane = true → uid ≠ 0 ∧
       (tracked p = true → ids' !! uid = Some (pc, instr))).
Proof.
  unfold read_lane. intros (uid & _ & (pc & _ & (instr & _ & H)%bind_Ok)%bind_Ok)%bind_Ok.
  exists uid, pc, instr. fold (enter_lane p lane uid pc instr row) in H.
  destruct (bit mask lane); cbn [negb] in H; [|by injection H as <- <-].
  ok_step H. destruct (tracked p); cbn [negb] in H.
  - ok_step H. apply negb_false_iff, bool_decide_eq_true in Heqb0.
    injection H as <- <-. rewrite Heqb0. split; [done|]. split.
    + destruct (ids !! uid) as [old|] eqn:Hold; simpl in Heqb0; subst.
      * by rewrite insert_id.
      * by apply insert_subseteq.
    + intros _. split; [by apply Z.eqb_neq|]. intros _. by rewrite lookup_insert_eq.
  - injection H as <- <-. split; [done|]. split; [done|]. intros _.
    split; [by apply Z.eqb_neq|done].
Qed.

Lemma lookup_enter_other p lane uid pc instr row name :
  name ∉ lane_columns p lane → values (enter_lane p lane uid pc instr row) !! name = values row !! name.
Proof.
  unfold lane_columns, enter_lane, put. intros H. simpl.
  rewrite !lookup_insert_ne; [done|set_solver..].
Qed.

Lemma get_enter p lane uid pc instr row :
  NoDup (lane_columns p lane) →
  let row' := enter_lane p lane uid pc instr row in
  values row' !! lane_name p lane "_uid" = Some uid ∧
  values row' !! lane_name p lane "_pc" = Some pc ∧
  values row' !! lane_name p lane "_instr" = Some instr.
Proof.
  unfold lane_columns, enter_lane, put. intros H. simpl.
  apply NoDup_cons in H as [H1 H]. apply NoDup_cons in H as [H2 _].
  split; [|split].
  - rewrite lookup_insert_ne by set_solver. rewrite lookup_insert_ne by set_solver.
    apply lookup_insert_eq.
  - rewrite lookup_insert_ne by set_solver. apply lookup_insert_eq.
  - apply lookup_insert_eq.
Qed.

(** What the checks established about one lane. *)
Definition lane_ok (row : Row) (ids : Identities) (step : string * string * Z) : Prop :=
  let '(m, p, lane) := step in
  (∀ name, name ∈ lane_columns p lane → present row name) ∧
  (bit (get row m) lane = true →
   get row (lane_name p lane "_uid") ≠ 0 ∧
   (tracked p = true → ids !! get row (lane_name p lane "_uid") =
      Some (get row (lane_name p lane "_pc"), get row (lane_name p lane "_instr")))).

Lemma lane_ok_step sch raw line row ids row' ids' m p lane done rest :
  steps sch = done ++ (m, p, lane) :: rest →
  Forall (lane_ok row ids) done →
  read_lane raw line p (get row m) (row, ids) lane = Ok (row', ids') →
  Forall (lane_ok row' ids') (done ++ [(m, p, lane)]) ∧ schema row' = schema row ∧
  ids ⊆ ids' ∧ (∀ name, name ∉ all_columns sch → values row' !! name = values row !! name).
Proof.
  intros Hs Hd H. destruct (steps_checked sch) as [Hnd Hm].
  destruct (read_lane_cases _ _ _ _ _ _ _ _ _ H) as (uid & pc & instr & -> & Hids & Hok).
  unfold all_columns in *. rewrite Hs in Hnd, Hm.
  rewrite fmap_app, join_app, fmap_cons, join_cons in Hnd.
  apply NoDup_app in Hnd as (_ & Hdis & Hnd). apply NoDup_app in Hnd as (Hcol & _ & _).
  change (columns_of (m, p, lane)) with (lane_columns p lane) in Hcol.
  assert (∀ name, name ∉ mjoin (columns_of <$> steps sch) → name ∉ lane_columns p lane) as Hout.
  { intros name Hn Hin. apply Hn. rewrite Hs, fmap_app, join_app, fmap_cons, join_cons.
    apply elem_of_app. right. apply elem_of_app. by left. }
  assert (∀ m' p' l', (m', p', l') ∈ steps sch → get (enter_lane p lane uid pc instr row) m' = get row m') as Hmask.
  { intros m' p' l' Hin. unfold get. rewrite lookup_enter_other; [done|].
    apply Hout. rewrite Hs. apply (Hm m' p' l'). by rewrite <-Hs. }
  split; [|split; [done|split; [done|]]].
  2: { intros name Hn. apply lookup_enter_other. by apply Hout. }
  apply Forall_app. split.
  - apply Forall_forall. intros [[m' p'] l'] Hin. rewrite Forall_forall in Hd.
    specialize (Hd _ Hin) as [Hp' Hv'].
    assert (∀ name, name ∈ lane_columns p' l' →
      values (enter_lane p lane uid pc instr row) !! name = values row !! name) as Hsame.
    { intros name Hn. apply lookup_enter_other. intros Hn'. apply (Hdis name).
      - apply list_elem_of_join. exists (lane_columns p' l'). split; [done|].
        by apply (list_elem_of_fmap_2 columns_of _ (m', p', l')).
      - apply elem_of_app. by left. }
    split; [intros name Hn; unfold present; rewrite Hsame by done; by apply Hp'|].
    rewrite (Hmask m' p' l') by (rewrite Hs; set_solver). intros Hb.
    unfold get. rewrite !Hsame by (unfold lane_columns; set_solver).
    destruct (Hv' Hb) as [H0 Ht]. split; [exact H0|]. intros Htr.
    eapply lookup_weaken; [by apply Ht|done].
  - apply Forall_cons. split; [|by apply Forall_nil]. destruct (get_enter p lane uid pc instr row Hcol) as (E1 & E2 & E3).
    split.
    + intros name Hn. unfold present, lane_columns in *.
      repeat (apply elem_of_cons in Hn as [->|Hn]); [eauto..|by apply elem_of_nil in Hn].
    + rewrite (Hmask m p lane) by (rewrite Hs; set_solver). intros Hb.
      unfold get. rewrite E1, E2, E3. simpl. by apply Hok.
Qed.

Definition stage_steps (stage : string * string * string) : list (string * string * Z) :=
  let '(_, mask_field, prefix) := stage in
  (λ lane, (mask_field, prefix, lane)) <$> zrange 0 3.

(** The state of the lane loops, over the lanes done so far. *)
Definition lanes_inv (sch : string) (row0 : Row) (ids0 : Identities)
    (done : list (string * string * Z)) (s : Row * Identities) : Prop :=
  Forall (lane_ok (s.1) (s.2)) done ∧ schema (s.1) = schema row0 ∧ ids0 ⊆ s.2 ∧
  ∀ name, name ∉ all_columns sch → values (s.1) !! name = values row0 !! name.

Lemma read_lanes_inv sch raw line row0 ids0 mask m p lanes done rest s s' :
  steps sch = done ++ ((λ lane, (m, p, lane)) <$> lanes) ++ rest →
  mask = get row0 m → m ∉ all_columns sch →
  lanes_inv sch row0 ids0 done s → foldM (read_lane raw line p mask) s lanes = Ok s' →
  lanes_inv sch row0 ids0 (done ++ ((λ lane, (m, p, lane)) <$> lanes)) s'.
Proof.
  intros Hs -> Hm. revert done s Hs. induction lanes as [|lane lanes IH]; intros don s Hs Hinv H.
  - simpl in *. injection H as <-. by rewrite app_nil_r.
  - simpl in H. apply bind_Ok in H as (s1 & H1 & H).
    destruct s as [row ids], s1 as [row1 ids1]. destruct Hinv as (Hd & Hsch & Hsub & Hout).
    simpl in Hd, Hsch, Hsub, Hout.
    assert (get row0 m = get row m) as Hg by (unfold get; by rewrite Hout).
    rewrite Hg in H1. rewrite fmap_cons in Hs. simpl in Hs.
    destruct (lane_ok_step _ _ _ _ _ _ _ _ _ _ _ _ Hs Hd H1) as (Hd1 & Hsch1 & Hsub1 & Hout1).
    rewrite fmap_cons. change (?x :: ?l) with ([x] ++ l). rewrite app_assoc.
    apply (IH _ (row1, ids1)); [by rewrite <-app_assoc| |done].
    split; [done|]. simpl. split; [by rewrite Hsch1|]. split; [by etrans|].
    intros name Hn. by rewrite Hout1, Hout.
Qed.

Lemma read_stages_inv sch raw line row0 ids0 s' :
  foldM (read_stage raw line) (row0, ids0) (stages_for_schema sch) = Ok s' →
  lanes_inv sch row0 ids0 (steps sch) s'.
Proof.
  assert (steps sch = mjoin (stage_steps <$> stages_for_schema sch)) as Hs.
  { reflexivity. }
  destruct (steps_checked sch) as [_ Hm]. rewrite Hs.
  cut (∀ todo don s, steps sch = don ++ mjoin (stage_steps <$> todo) →
    lanes_inv sch row0 ids0 don s → foldM (read_stage raw line) s todo = Ok s' →
    lanes_inv sch row0 ids0 (don ++ mjoin (stage_steps <$> todo)) s').
  { intros Hgen H. apply (Hgen _ [] (row0, ids0)); [done| |done].
    split; [by apply Forall_nil|]. done. }
  induction todo as [|[[n m] p] todo IH]; intros don s Hd Hinv H.
  - simpl in *. injection H as <-. by rewrite app_nil_r.
  - rewrite fmap_cons, join_cons in *. simpl in H. apply bind_Ok in H as (s1 & H1 & H).
    assert (m ∉ all_columns sch) as Hmm.
    { apply (Hm m p 0). rewrite Hd. apply elem_of_app. right. apply elem_of_app. left. set_solver. }
    rewrite app_assoc. apply (IH _ s1); [by rewrite <-app_assoc| |done].
    eapply read_lanes_inv; [exact Hd| |done|exact Hinv|exact H1].
    unfold get. destruct Hinv as (_ & _ & _ & Hout). by rewrite Hout.
Qed.

(** *** Rows *)

(** The names under which the report reads a row. *)
Definition report_fields (schema : string) : list string :=
  BASE_HEX_FIELDS ++ BASE_DEC_FIELDS ++ V2_HEX_FIELDS ++ V2_DEC_FIELDS
  ++ V2_OPTIONAL_HEX_FIELDS ++ V2_OPTIONAL_DEC_FIELDS
  ++ ["data_fields_present"; "window_fields_present"] ++ all_columns schema.

Definition row_ok (sch : string) (ids : Identities) (row : Row) : Prop :=
  schema row = sch ∧ Forall (present row) (report_fields sch) ∧ Forall (lane_ok row ids) (steps sch).

Lemma lane_ok_mono row ids ids' step : ids ⊆ ids' → lane_ok row ids step → lane_ok row ids' step.
Proof.
  destruct step as [[m p] lane]. intros Hsub [Hp Hv]. split; [done|]. intros Hb.
  destruct (Hv Hb) as [H0 Ht]. split; [done|]. intros Htr. eapply lookup_weaken; [by apply Ht|done].
Qed.

Lemma fields_present sch names row :
  (∀ name, name ∈ BASE_HEX_FIELDS ∨ name ∈ BASE_DEC_FIELDS ∨ name ∈ V2_HEX_FIELDS ∨
     name ∈ V2_DEC_FIELDS ∨ name ∈ V2_OPTIONAL_HEX_FIELDS ∨ name ∈ V2_OPTIONAL_DEC_FIELDS ∨
     name = "data_fields_present" ∨ name = "window_fields_present" → present row name) →
  names = all_columns sch → Forall (present row) names → Forall (present row) (report_fields sch).
Proof.
  intros H -> Hc. unfold report_fields.
  repeat (apply Forall_app; split); [..|done].
  all: try (apply Forall_forall; intros name Hn; apply H; tauto).
  all: repeat constructor; apply H; tauto.
Qed.

Lemma read_row_ok sch fieldnames rows ids line raw rows' ids' :
  read_row sch fieldnames (rows, ids) (line, raw) = Ok (rows', ids') →
  ids ⊆ ids' ∧ ∃ row, rows' = rows ++ [row] ∧ row_ok sch ids' row.
Proof.
  unfold read_row. intros H.
  apply bind_Ok in H as (r1 & H1 & H). apply bind_Ok in H as (r2 & H2 & H).
  apply bind_Ok in H as (r3 & H3 & H). apply bind_Ok in H as (r4 & H4 & H).
  apply bind_Ok in H as ([row idsx] & H5 & H). simpl in H. injection H as <- <-.
  apply fields_loop in H1 as [S1 P1]; [|apply read_field_put].
  apply fields_loop in H2 as [S2 P2]; [|apply read_field_put].
  apply fields_loop in H3 as [S3 P3]; [|apply read_optional_put].
  apply fields_loop in H4 as [S4 P4]; [|apply read_optional_put].
  set (r5 := zero_fields V2_HEX_FIELDS (hex_fields sch) r4) in H5.
  destruct (zero_fields_spec V2_HEX_FIELDS (hex_fields sch) r4) as [S5 P5]. fold r5 in S5, P5.
  set (r6 := zero_fields V2_DEC_FIELDS (dec_fields sch) r5) in H5.
  destruct (zero_fields_spec V2_DEC_FIELDS (dec_fields sch) r5) as [S6 P6]. fold r6 in S6, P6.
  set (r7 := if ends_with "v1" sch then put "block_lane" 3 r6 else r6) in H5.
  assert (schema r7 = schema r6 ∧ ∀ name, present r6 name → present r7 name) as [S7 P7].
  { unfold r7. destruct (ends_with "v1" sch); [|done]. split; [done|].
    intros name ?. apply present_put. by left. }
  apply read_stages_inv in H5 as (Hl & Hs & Hsub & Hout). simpl in *.
  split; [done|]. exists row. split; [done|].
  split; [by rewrite Hs, S7, S6, S5, S4, S3; simpl; rewrite S2, S1|]. split; [|done].
  apply (fields_present sch (all_columns sch)); [|done|].
  - intros name Hn. destruct (decide (name ∈ all_columns sch)) as [Hin|Hin].
    + apply list_elem_of_join in Hin as (l & Hin & (st & -> & Hst)%list_elem_of_fmap).
      rewrite Forall_forall in Hl. specialize (Hl st Hst). destruct st as [[m p] lane].
      by apply Hl.
    + unfold present. rewrite Hout by done. apply P7, P6.
      destruct (decide (name ∈ V2_DEC_FIELDS ∧ name ∉ dec_fields sch)); [by right|left].
      apply P5. destruct (decide (name ∈ V2_HEX_FIELDS ∧ name ∉ hex_fields sch)); [by right|left].
      apply P4. destruct (decide (name ∈ V2_OPTIONAL_DEC_FIELDS)); [by right|left].
      apply P3. destruct (decide (name ∈ V2_OPTIONAL_HEX_FIELDS)); [by right|left].
      destruct (decide (name = "window_fields_present")); [apply present_put; by right|].
      apply present_put. left.
      destruct (decide (name = "data_fields_present")); [apply present_put; by right|].
      apply present_put. left.
      apply P2. destruct (decide (name ∈ dec_fields sch)) as [|Hdec]; [by right|left].
      apply P1. right. destruct (decide (name ∈ hex_fields sch)) as [|Hhex]; [done|exfalso].
      assert (name ∉ BASE_HEX_FIELDS ∧ name ∉ BASE_DEC_FIELDS) as [? ?]; [|tauto].
      split; intros ?; [apply Hhex|apply Hdec]; unfold hex_fields, dec_fields;
        apply elem_of_app; by left.
  - apply Forall_forall. intros name (l & Hin & (st & -> & Hst)%list_elem_of_fmap)%list_elem_of_join.
    rewrite Forall_forall in Hl. specialize (Hl st Hst). destruct st as [[m p] lane]. by apply Hl.
Qed.

Lemma read_rows_ok sch fieldnames numbered rows ids :
  foldM (read_row sch fieldnames) ([], ∅) numbered = Ok (rows, ids) →
  length rows = length numbered ∧ Forall (row_ok sch ids) rows.
Proof.
  intros H.
  apply (foldM_inv (λ done s, length (s.1) = length done ∧ Forall (row_ok sch (s.2)) (s.1))) in H;
    [exact H|split; [done|by apply Forall_nil]|].
  intros don [line raw] [rows1 ids1] [rows2 ids2] [Hl Hok] H1 _.
  apply read_row_ok in H1 as (Hsub & row & -> & Hrow). simpl in *. split.
  - rewrite !length_app. simpl. lia.
  - apply Forall_app. split; [|by apply Forall_singleton].
    eapply Forall_impl; [exact Hok|]. intros r (? & ? & Hlanes). split; [done|]. split; [done|].
    eapply Forall_impl; [exact Hlanes|]. intros st. by apply lane_ok_mono.
Qed.

Lemma the_schema_known raws s : the_schema raws = Ok s → s ∈ SCHEMAS.
Proof.
  unfold the_schema. intros (all & _ & H)%bind_Ok.
  destruct (remove_dups all) as [|[s'|] [|? ?]]; try done;
    try (apply bind_Ok in H as (? & _ & H); done).
  ok_step H. injection H as <-. by apply negb_false_iff, bool_decide_eq_true in Heqb.
Qed.

(** Lane [lane] of the stage with columns [mask_field] and [prefix] holds an
    instruction in this row. *)
Definition holds (row : Row) (mask_field prefix : string) (lane : Z) : Prop :=
  (∃ name, (name, mask_field, prefix) ∈ stages_for_schema (schema row)) ∧ 0 ≤ lane < 3 ∧
  bit (get row mask_field) lane = true.

Lemma holds_step row m p lane : holds row m p lane → (m, p, lane) ∈ steps (schema row).
Proof.
  intros ((n & Hin) & Hl & _). unfold steps. apply list_elem_of_join.
  exists ((λ lane, (m, p, lane)) <$> zrange 0 3). split.
  - apply list_elem_of_fmap_2. by apply elem_of_zrange.
  - by apply (list_elem_of_fmap_2 (λ '(_, mask_field, prefix),
      (λ lane, (mask_field, prefix, lane)) <$> zrange 0 3) _ (n, m, p)).
Qed.

(** C36: an accepted trace is consistent: one supported schema for all rows, one row per
    record, a value under every name the report reads, no instruction with UID zero, and
    from the dispatch queue on a UID always stands for the same PC and instruction. *)
Theorem load_sound t trace :
  load t = Ok trace →
  length trace = length (rows t) ∧ trace ≠ [] ∧
  (∃ sch, sch ∈ SCHEMAS ∧ ∀ row, row ∈ trace → schema row = sch ∧ Forall (present row) (report_fields sch)) ∧
  (∀ row m p lane, row ∈ trace → holds row m p lane → get row (lane_name p lane "_uid") ≠ 0) ∧
  (∀ row1 row2 m1 p1 lane1 m2 p2 lane2, row1 ∈ trace → row2 ∈ trace →
     holds row1 m1 p1 lane1 → holds row2 m2 p2 lane2 → tracked p1 = true → tracked p2 = true →
     get row1 (lane_name p1 lane1 "_uid") = get row2 (lane_name p2 lane2 "_uid") →
     get row1 (lane_name p1 lane1 "_pc") = get row2 (lane_name p2 lane2 "_pc") ∧
     get row1 (lane_name p1 lane1 "_instr") = get row2 (lane_name p2 lane2 "_instr")).
Proof.
  unfold load. destruct (fieldnames t) as [fieldnames|]; [|done]. intros H.
  ok_step H. apply bool_decide_eq_false in Heqb.
  apply bind_Ok in H as (sch & Hsch%the_schema_known & H).
  ok_step H. apply bind_Ok in H as ([rows' ids] & H & Hr). simpl in Hr. injection Hr as ->.
  apply read_rows_ok in H as [Hl Hok]. rewrite length_fmap, length_enumerate in Hl.
  rewrite Forall_forall in Hok.
  assert (∀ row m p lane, row ∈ trace → holds row m p lane → lane_ok row ids (m, p, lane)) as Hlane.
  { intros row m p lane Hin Hh. destruct (Hok row Hin) as (Hs & _ & Hlanes).
    apply holds_step in Hh. rewrite Hs in Hh. rewrite Forall_forall in Hlanes. by apply Hlanes. }
  split; [done|]. split; [intros ->; by destruct (rows t)|]. split; [|split].
  - exists sch. split; [done|]. intros row Hin. destruct (Hok row Hin) as (? & ? & _). done.
  - intros row m p lane Hin Hh. apply (Hlane row m p lane Hin Hh). apply Hh.
  - intros row1 row2 m1 p1 lane1 m2 p2 lane2 Hin1 Hin2 Hh1 Hh2 Ht1 Ht2 Hu.
    destruct (Hlane _ _ _ _ Hin1 Hh1) as [_ H1]. destruct (Hlane _ _ _ _ Hin2 Hh2) as [_ H2].
    destruct H1 as [_ H1]; [apply Hh1|]. destruct H2 as [_ H2]; [apply Hh2|].
    specialize (H1 Ht1). specialize (H2 Ht2). rewrite Hu, H2 in H1. by injection H1 as -> ->.
Qed.

(** ** Counting *)

Definition amount (name : string) (increment : string * Z) : Z :=
  if String.eqb (increment.1) name then increment.2 else 0.

Lemma count_of_fold name incs counts :
  count_of (foldl count counts incs) name = count_of counts name + zsum (amount name) incs.
Proof.
  revert counts. induction incs as [|[n k] incs IH]; intros counts; [simpl; lia|].
  simpl foldl. rewrite IH, zsum_cons. unfold amount at 2, count_of, count. simpl.
  destruct (String.eqb_spec n name) as [->|Hne].
  - rewrite lookup_insert_eq. simpl. unfold count_of. lia.
  - rewrite lookup_insert_ne by done. lia.
Qed.

Lemma count_of_rows schema name rows :
  count_of (count_rows schema rows) name =
  zsum (λ row, zsum (amount name) (increments schema row)) rows.
Proof.
  unfold count_rows.
  cut (∀ counts, count_of (foldl (count_row schema) counts rows) name =
    count_of counts name + zsum (λ row, zsum (amount name) (increments schema row)) rows).
  { intros ->. unfold count_of. by rewrite lookup_empty. }
  induction rows as [|row rows IH]; intros counts; [simpl; lia|].
  simpl foldl. rewrite IH, zsum_cons. unfold count_row. rewrite count_of_fold. lia.
Qed.

Lemma count_reason_spec rows counts reason :
  default 0 (foldl count_reason counts rows !! reason) =
  default 0 (counts !! reason) + zcount (λ row, get row "block_reason" =? reason) rows.
Proof.
  revert counts. induction rows as [|row rows IH]; intros counts; [unfold zcount; simpl; lia|].
  simpl foldl. rewrite IH. unfold zcount. rewrite zsum_cons. unfold count_reason.
  destruct (Z.eqb_spec (get row "block_reason") reason) as [->|Hne].
  - rewrite lookup_insert_eq. simpl. lia.
  - rewrite lookup_insert_ne by done. simpl. lia.
Qed.

(** The increments of one row under a name of the report. *)
Lemma frontend_empty_row schema row :
  zsum (amount "frontend_empty") (increments schema row) = Z.b2z (negb (test row "fetch_valid")).
Proof.
  unfold increments, v2_increments, base_increments, window_increments, empty_reason.
  destruct (is_v2 schema); [|by rewrite !zsum_app; cbn; lia].
  rewrite !zsum_app. destruct (test row "window_fields_present"), (test row "fetch_valid");
    cbn; try lia; repeat case_goal; cbn; lia.
Qed.

Lemma empty_names_row schema row :
  is_v2 schema = true →
  zsum (λ name, zsum (amount name) (increments schema row)) EMPTY_NAMES =
  Z.b2z (negb (test row "fetch_valid")).
Proof.
  intros Hv. unfold increments, v2_increments, base_increments, window_increments, empty_reason.
  rewrite Hv. unfold EMPTY_NAMES. rewrite !zsum_cons.
  rewrite !zsum_app. destruct (test row "window_fields_present"), (test row "fetch_valid");
    cbn; try lia; repeat case_goal; cbn; lia.
Qed.

Lemma zsum_swap {A B} (f : A → B → Z) l1 l2 :
  zsum (λ x, zsum (f x) l2) l1 = zsum (λ y, zsum (λ x, f x y) l1) l2.
Proof.
  induction l1 as [|x l1 IH].
  - induction l2 as [|y l2 IH]; [done|]. rewrite zsum_cons. simpl in *. lia.
  - rewrite zsum_cons, IH, <-zsum_add. done.
Qed.

Lemma zcount_b2z {A} (p : A → bool) l : zsum (λ x, Z.b2z (p x)) l = zcount p l.
Proof. done. Qed.

(** One row adds at most one to an observation. *)
Lemma observation_row schema row name :
  name ∈ OBSERVATION_NAMES → 0 ≤ zsum (amount name) (increments schema row) ≤ 1.
Proof.
  intros Hn. unfold increments. rewrite zsum_app.
  assert (zsum (amount name) (if is_v2 schema then v2_increments row else []) = 0) as ->.
  { destruct (is_v2 schema); [|done]. unfold v2_increments, window_increments, empty_reason.
    rewrite !zsum_app. unfold OBSERVATION_NAMES in Hn.
    repeat (apply elem_of_cons in Hn as [->|Hn]); try by apply elem_of_nil in Hn.
    all: destruct (test row "window_fields_present"), (negb (test row "fetch_valid")); try done;
      repeat case_goal; done. }
  unfold OBSERVATION_NAMES in Hn.
  repeat (apply elem_of_cons in Hn as [->|Hn]); try by apply elem_of_nil in Hn.
  all: cbn; match goal with |- context [Z.b2z ?b] => destruct b end; cbn; lia.
Qed.

(** C37: the summary's exclusive tables partition the cycles they claim to explain: the
    five reasons for an empty front end add up to the cycles without a fetch, and the
    reasons of the first blocked candidate to the cycles with one (the cycles that name
    a reason beyond the printed table being the only rest).  Every other observation
    counts at most all cycles. *)
Theorem summary_partitions rows schema :
  is_v2 schema = true →
  let counts := count_rows schema rows in
  let reasons := count_reasons schema rows in
  let empty := zcount (λ row, negb (test row "fetch_valid")) rows in
  count_of counts "frontend_empty" = empty ∧
  zsum (count_of counts) EMPTY_NAMES = empty ∧
  zlen rows - default 0 (reasons !! 0) = zcount (λ row, negb (get row "block_reason" =? 0)) rows ∧
  zlen rows - default 0 (reasons !! 0) =
    zsum (λ reason, default 0 (reasons !! reason)) (zrange 1 14) +
    zcount (λ row, (get row "block_reason" <? 0) || (14 <=? get row "block_reason")) rows ∧
  (∀ name, name ∈ OBSERVATION_NAMES → 0 ≤ count_of counts name ≤ zlen rows).
Proof.
  intros Hv counts reasons empty.
  assert (∀ reason, default 0 (reasons !! reason) =
    zcount (λ row, get row "block_reason" =? reason) rows) as Hr.
  { intros reason. unfold reasons, count_reasons. rewrite Hv, count_reason_spec.
    by rewrite lookup_empty. }
  split; [|split; [|split; [|split]]].
  - unfold counts. rewrite count_of_rows. apply zsum_ext. intros row _.
    apply frontend_empty_row.
  - unfold counts. erewrite zsum_ext by (intros; apply count_of_rows).
    rewrite zsum_swap. apply zsum_ext. intros row _. by apply empty_names_row.
  - rewrite Hr. unfold zcount, zlen. clear. induction rows as [|row rows IH]; [done|].
    rewrite !zsum_cons. simpl length. destruct (get row "block_reason" =? 0); simpl Z.b2z; lia.
  - rewrite Hr. erewrite (zsum_ext _ _ (zrange 1 14)) by (intros; apply Hr).
    unfold zcount at 2. rewrite zsum_swap. unfold zcount, zlen. clear.
    induction rows as [|row rows IH]; [done|]. rewrite !zsum_cons. simpl length.
    set (v := get row "block_reason") in *.
    assert (zsum (λ x, Z.b2z (v =? x)) (zrange 1 14) = Z.b2z ((1 <=? v) && (v <? 14))) as ->.
    { destruct ((1 <=? v) && (v <? 14)) eqn:E; b2p.
      - apply (zrange_check (λ v, zsum (λ x, Z.b2z (v =? x)) (zrange 1 14) =? 1) 1 14 v);
          [by vm_compute|lia|apply Z.eqb_eq].
      - transitivity (zsum (λ _ : Z, 0) (zrange 1 14)); [|done].
        apply zsum_ext. intros x Hx%elem_of_zrange. destruct (Z.eqb_spec v x); [|done].
        subst. simpl in *. lia. }
    destruct (Z.eqb_spec v 0), (Z.leb_spec 1 v), (Z.ltb_spec v 14), (Z.ltb_spec v 0),
      (Z.leb_spec 14 v); simpl Z.b2z; simpl andb; simpl orb; try lia.
  - intros name Hn. unfold counts. rewrite count_of_rows.
    pose proof (λ row, observation_row schema row name Hn) as H1.
    clear -H1. unfold zlen. induction rows as [|row rows IH]; [done|]. rewrite zsum_cons.
    specialize (H1 row). simpl length. lia.
Qed.

(** ** Anchors *)

Lemma first_row_spec p k rows :
  match first_row p k rows with
  | Some i => ∃ row, k ≤ i ∧ rows !! Z.to_nat (i - k) = Some row ∧ p row = true ∧
      ∀ (j : nat) row', Z.of_nat j < i - k → rows !! j = Some row' → p row' = false
  | None => ∀ row, row ∈ rows → p row = false
  end.
Proof.
  revert k. induction rows as [|row rows IH]; intros k; simpl; [by intros ? ?%elem_of_nil|].
  destruct (p row) eqn:Hp.
  - exists row. rewrite Z.sub_diag. split; [lia|]. split; [done|]. split; [done|]. lia.
  - specialize (IH (k + 1)). destruct (first_row p (k + 1) rows) as [i|].
    + destruct IH as (r & Hk & Hr & Hpr & Hj). exists r. split; [lia|].
      replace (Z.to_nat (i - k)) with (S (Z.to_nat (i - (k + 1)))) by lia.
      split; [done|]. split; [done|]. intros [|j] row' Hlt Hrow; [by injection Hrow as <-|].
      apply (Hj j); [lia|done].
    + intros r [->|Hr]%elem_of_cons; auto.
Qed.

(** What each of the mutually exclusive options asks of the anchor row. *)
Definition anchor (pc uid cycle : option Z) (block_reason : option string) (row : Row) : Prop :=
  match cycle, uid, block_reason, pc with
  | Some cycle, _, _, _ => cycle ≤ get row "cycle"
  | None, Some uid, _, _ =>
      ∃ name mask_field prefix lane, (name, mask_field, prefix) ∈ stages_for_schema (schema row) ∧
        0 ≤ lane < 3 ∧ bit (get row mask_field) lane = true ∧
        get row (lane_name prefix lane "_uid") = uid
  | None, None, Some name, _ => d_get (get row "block_reason") BLOCK_REASONS = Some name
  | None, None, None, Some pc =>
      ∃ lane, 0 ≤ lane < 3 ∧ bit (get row "retire_valid") lane = true ∧
        get row (lane_name "r" lane "_pc") = pc
  | None, None, None, None => True
  end.

Lemma existsb_lane (p : Z → bool) :
  existsb p (zrange 0 3) = true ↔ ∃ lane, 0 ≤ lane < 3 ∧ p lane = true.
Proof.
  rewrite existsb_exists. split; intros (x & Hx & Hp); exists x; split; try done.
  - by apply elem_of_zrange, list_elem_of_In.
  - by apply list_elem_of_In, elem_of_zrange.
Qed.

Lemma holds_uid_spec uid row : holds_uid uid row = true ↔ anchor None (Some uid) None None row.
Proof.
  unfold holds_uid, anchor. rewrite existsb_exists. split.
  - intros ([[n m] p] & Hin & (lane & Hl & [Hb Hu]%andb_true_iff)%existsb_lane).
    exists n, m, p, lane. rewrite list_elem_of_In. apply Z.eqb_eq in Hu. auto.
  - intros (n & m & p & lane & Hin & Hl & Hb & Hu). exists (n, m, p).
    split; [by apply list_elem_of_In|]. apply existsb_lane. exists lane. split; [done|].
    by rewrite Hb, (proj2 (Z.eqb_eq _ _) Hu).
Qed.

Lemma retires_pc_spec pc row : retires_pc pc row = true ↔ anchor (Some pc) None None None row.
Proof.
  unfold retires_pc, anchor. rewrite existsb_lane.
  split; intros (lane & Hl & H); exists lane; split; try done.
  - apply andb_true_iff in H as [? ?%Z.eqb_eq]. done.
  - destruct H as [-> ->]. by rewrite Z.eqb_refl.
Qed.

(** The names of the reasons are distinct. *)
Lemma reasons_injective k k' name :
  (k, name) ∈ BLOCK_REASONS → (k', name) ∈ BLOCK_REASONS → k = k'.
Proof.
  assert (NoDup ((λ kv, (kv.2, kv.1)) <$> BLOCK_REASONS).*1) as Hn
    by (by repeat (apply NoDup_cons; split; [set_solver|]); apply NoDup_nil_2).
  intros H1 H2. apply Some_inj. transitivity (d_get name ((λ kv, (kv.2, kv.1)) <$> BLOCK_REASONS));
    [symmetry|]; apply d_elem_get; try done.
  - by apply (list_elem_of_fmap_2 (λ kv : Z * string, (kv.2, kv.1)) _ (k, name)).
  - by apply (list_elem_of_fmap_2 (λ kv : Z * string, (kv.2, kv.1)) _ (k', name)).
Qed.

Lemma reason_key_spec name :
  match reason_key name with
  | Ok key => ∀ reason, d_get reason BLOCK_REASONS = Some name ↔ reason = key
  | Err e => e = StopIteration ∧ ∀ reason, d_get reason BLOCK_REASONS ≠ Some name
  end.
Proof.
  unfold reason_key.
  assert (∀ reason, d_get reason BLOCK_REASONS = Some name ↔
    (reason, name) ∈ filter (λ kv, kv.2 = name) BLOCK_REASONS) as H.
  { intros reason. rewrite list_elem_of_filter. split.
    - intros Hg%d_get_elem. done.
    - intros [_ Hin]. apply d_elem_get; [|done]. by repeat (apply NoDup_cons; split; [set_solver|]); apply NoDup_nil_2. }
  destruct (filter _ BLOCK_REASONS) as [|[key n] rest] eqn:Hf.
  - split; [done|]. intros reason Hg%H. set_solver.
  - intros reason. rewrite H.
    assert (n = name) as -> by (assert ((key, n) ∈ filter (λ kv, kv.2 = name) BLOCK_REASONS) as Hin
      by (rewrite Hf; set_solver); by apply list_elem_of_filter in Hin as [? _]).
    assert (∀ k, (k, name) ∈ filter (λ kv, kv.2 = name) BLOCK_REASONS → k = key) as Hu.
    { intros k [_ Hk]%list_elem_of_filter.
      assert ((key, name) ∈ BLOCK_REASONS) as Hkey
        by (eapply list_elem_of_filter with (P := λ kv, kv.2 = name); rewrite Hf; set_solver).
      exact (reasons_injective k key name Hk Hkey). }
    rewrite <-Hf. split; [apply Hu|]. intros ->. rewrite Hf. set_solver.
Qed.

Lemma search_spec p (P : Row → Prop) rows msg :
  (∀ row, p row = true ↔ P row) →
  match search p rows msg with
  | Ok i => ∃ row, 0 ≤ i ∧ rows !! Z.to_nat i = Some row ∧ P row ∧
      ∀ (j : nat) row', Z.of_nat j < i → rows !! j = Some row' → ¬ P row'
  | Err e => e = ValueError msg ∧ ∀ row, row ∈ rows → ¬ P row
  end.
Proof.
  intros HP. unfold search. pose proof (first_row_spec p 0 rows) as H.
  destruct (first_row p 0 rows) as [i|].
  - destruct H as (row & Hi & Hr & Hp & Hj). rewrite Z.sub_0_r in *. exists row.
    split; [done|]. split; [done|]. split; [by apply HP|].
    intros j row' Hlt Hr'. rewrite <-HP. by rewrite (Hj j row').
  - split; [done|]. intros row Hr. rewrite <-HP. by rewrite H.
Qed.

(** find_anchor returns the first row that answers the request (cycle, UID in any
    stage, block reason, or retired PC, in this priority) and fails exactly when no row
    does; without a request it returns row zero. *)
Theorem find_anchor_first rows pc uid cycle block_reason :
  match find_anchor rows pc uid cycle block_reason with
  | Ok i =>
      (i = 0 ∧ pc = None ∧ uid = None ∧ cycle = None ∧ block_reason = None) ∨
      ∃ row, 0 ≤ i ∧ rows !! Z.to_nat i = Some row ∧ anchor pc uid cycle block_reason row ∧
        ∀ (j : nat) row', Z.of_nat j < i → rows !! j = Some row' →
          ¬ anchor pc uid cycle block_reason row'
  | Err _ => ∀ row, row ∈ rows → ¬ anchor pc uid cycle block_reason row
  end.
Proof.
  unfold find_anchor. destruct cycle as [cycle|]; [|destruct uid as [uid|];
    [|destruct block_reason as [name|]; [|destruct pc as [pc|]; [|by left]]]].
  - match goal with |- context [search ?p ?r ?m] =>
      pose proof (search_spec p (anchor pc uid (Some cycle) block_reason) r m) as H end.
    destruct (search _ _ _); [right; apply H|apply H]; intros row; apply Z.leb_le.
  - match goal with |- context [search ?p ?r ?m] =>
      pose proof (search_spec p (anchor pc (Some uid) None block_reason) r m) as H end.
    destruct (search _ _ _); [right; apply H|apply H]; intros row; apply holds_uid_spec.
  - pose proof (reason_key_spec name) as Hk. destruct (reason_key name) as [key|e]; cbn [mbind result_bind].
    2: { intros row _. apply Hk. }
    match goal with |- context [search ?p ?r ?m] =>
      pose proof (search_spec p (anchor pc None None (Some name)) r m) as H end.
    destruct (search _ _ _); [right; apply H|apply H]; intros row;
      unfold anchor; rewrite Hk; apply Z.eqb_eq.
  - match goal with |- context [search ?p ?r ?m] =>
      pose proof (search_spec p (anchor (Some pc) None None None) r m) as H end.
    destruct (search _ _ _); [right; apply H|apply H]; intros row; apply retires_pc_spec.
Qed.

(** ** A concrete trace *)

Definition sample_schema : string := "openrv64-3p-cycle-v2".

(** One instruction in the queue and issued in the first row, retired in the second;
    the front end is empty in both. *)
Definition sample_cells (cycle : Z) (stages : list (string * string)) (name : string) : string :=
  if bool_decide (name = "schema") then sample_schema
  else if bool_decide (name = "cycle") then str_int cycle
  else if bool_decide (name ∈ stages.*1) then "1"
  else if bool_decide (name ∈ (λ s, lane_name (s.2) 0 "_uid") <$> stages) then "a"
  else if bool_decide (name ∈ (λ s, lane_name (s.2) 0 "_pc") <$> stages) then "80"
  else "0".
Definition sample_table : Table :=
  dict_reader
    [required sample_schema;
     sample_cells 7 [("queue_valid", "q"); ("issue_valid", "i")] <$> required sample_schema;
     sample_cells 8 [("retire_valid", "r")] <$> required sample_schema].
Definition sample_trace : list Row := match load sample_table with Ok l => l | Err _ => [] end.

Lemma sample_loads : load sample_table = Ok sample_trace.
Proof.
  assert (is_Ok (load sample_table) = true) as H by (vm_compute; reflexivity).
  unfold sample_trace. by destruct (load sample_table).
Qed.

Example sample_anchors :
  find_anchor sample_trace (Some 0x80) None None None = Ok 1 ∧
  find_anchor sample_trace None (Some 10) None None = Ok 0 ∧
  find_anchor sample_trace None None (Some 9) None =
    Err (ValueError "cycle 9 does not appear in trace").
Proof. vm_compute. repeat split; reflexivity. Qed.

Lemma load_sound_witness :
  load sample_table = Ok sample_trace ∧ length sample_trace = length (rows sample_table) ∧
  sample_trace ≠ [].
Proof.
  split; [exact sample_loads|].
  destruct (load_sound sample_table sample_trace sample_loads) as (H1 & H2 & _). split; [exact H1|exact H2].
Defined.

Lemma summary_partitions_witness :
  is_v2 sample_schema = true ∧
  zsum (count_of (count_rows sample_schema sample_trace)) EMPTY_NAMES = 2.
Proof.
  assert (is_v2 sample_schema = true) as H by (vm_compute; reflexivity).
  split; [exact H|].
  destruct (summary_partitions sample_trace sample_schema H) as (_ & H2 & _).
  rewrite H2. vm_compute. reflexivity.
Defined.
