(* ===== verification/ParallelMap.v ===== *)
(** * Parallel technology mapping

    [synth/core/parallel_map.py]: the reading of the retained hierarchy, the
    Yosys script of a worker, the collection of the workers' results in their
    order of completion, and the recursive areas of the merged report.  The
    parsing of RTLIL lines is shared with the area summary. *)

From stdpp Require Import base numbers list strings gmap sorting relations.
From Stdlib Require Import ZArith Lia Ascii.
From S2P Require Import Prelude PyText PyDict PyJson.
From S2P Require Argparse.

Open Scope Z_scope.

(** ** Numbers

    The areas are floats in the code; the structure of the computation is
    stated for any type with these operations ([PyFloat]'s doubles, or exact
    numbers where an identity holds only without rounding). *)
Class Num (R : Type) := {
  zero : R;
  add : R → R → R;
  sub : R → R → R;
  lt : R → R → bool;
  summed : list R → R; (* sum(l) *)
  hundredth : R (* 0.01 *) }.

(** The statistics of a module; [fields] is the whole object of the report. *)
Record Stats (R : Type) := {
  area : option R; sequential_area : option R; num_cells_by_type : list (string * Z);
  fields : list (string * json) }.
Arguments area {R} _.
Arguments sequential_area {R} _.
Arguments num_cells_by_type {R} _.
Arguments fields {R} _.

(** ** Lines of an RTLIL dump

    The regular expressions of the tools all have one shape: a fixed number of
    blanks, a keyword, and blank-separated words up to the end of the line. *)

Fixpoint after_blanks (n : nat) (s : list ascii) : option (list ascii) :=
  match n, s with
  | O, _ => Some s
  | S n, c :: s => if blank c then after_blanks n s else None
  | S _, [] => None
  end.
(** The words after [^\s{indent}keyword\s+]. *)
Definition match_words (indent : nat) (keyword line : string) : option (list string) :=
  match after_blanks indent (chars line) with
  | Some s =>
      match after_prefix (chars keyword) s with
      | Some (c :: s) => if blank c then Some (words s) else None
      | _ => None
      end
  | None => None
  end.

Definition match_module (line : string) : option string :=           (* MODULE_RE *)
  match match_words 0 "module" line with Some [name] => Some name | _ => None end.
Definition match_cell (line : string) : option (string * string) :=  (* CELL_RE *)
  match match_words 2 "cell" line with Some [kind; name] => Some (kind, name) | _ => None end.

Definition MAX_JOBS : Z := 32.

Definition backslash : ascii := char_of 92.
Definition canonical (name : string) : string :=
  match chars name with
  | c :: s => if bool_decide (c = backslash) then of_chars s else name
  | [] => name
  end.

Definition quote_character (c : ascii) : list ascii :=
  if bool_decide (c = backslash) || bool_decide (c = char_of 34) then [backslash; c] else [c].
Definition yosys_quote (value : string) : string :=
  of_chars ([char_of 34] ++ mjoin (quote_character <$> chars value) ++ [char_of 34]).

(** [children[current_module].append(child)] *)
Definition add_child {A} (module : string) (child : A) (children : list (string * list A))
    : list (string * list A) :=
  d_set module (default [] (d_get module children) ++ [child]) children.

(** [load_hierarchy]: the current module and the children so far. *)
Definition hierarchy_line (s : option string * list (string * list string)) (line : string)
    : result (option string * list (string * list string)) :=
  let '(current_module, children) := s in
  match match_module line with
  | Some name => Ok (Some (canonical name), children)
  | None =>
      match match_cell line with
      | Some (kind, _) =>
          match current_module with
          | None => Err (ValueError "kept cell appears outside a module")
          | Some module => Ok (current_module, add_child module (canonical kind) children)
          end
      | None => Ok s
      end
  end.
Definition load_hierarchy (lines : list string) : result (list (string * list string)) :=
  s ← foldM hierarchy_line (None, []) lines; Ok (s.2).

(** [re.findall(r"openrv64_[A-Za-z0-9_]+", name)]: [skip] characters belong to
    the match that has just been taken. *)
Definition word_char (c : ascii) : bool :=
  match digit_value c with Some _ => true | None => bool_decide (c = "_"%char) end.
Fixpoint word_run (s : list ascii) : list ascii :=
  match s with
  | c :: s => if word_char c then c :: word_run s else []
  | [] => []
  end.
Fixpoint find_names (skip : nat) (s : list ascii) : list string :=
  match s with
  | [] => []
  | _ :: s' =>
      match skip with
      | S skip => find_names skip s'
      | O =>
          match after_prefix (chars "openrv64_") s with
          | Some rest =>
              let run := word_run rest in
              if bool_decide (run = []) then find_names 0 s'
              else of_chars (chars "openrv64_" ++ run)
                   :: find_names (length (chars "openrv64_" ++ run) - 1) s'
          | None => find_names 0 s'
          end
      end
  end.
Definition openrv64_names (name : string) : list string := find_names 0 (chars name).

Definition worker_stem (index : Z) (module : string) : string :=
  let label := default "module" (last (openrv64_names (canonical module))) in
  format_int 10 2 index +:+ "-" +:+ label.

Example worker_stem_example :
  worker_stem 3 "\$paramod\openrv64_fetch_3w\W=s32'1" = "03-openrv64_fetch_3w" ∧
  match_cell "  cell \openrv64_alu \u_alu " = Some ("\openrv64_alu", "\u_alu") ∧
  match_cell "   cell a b" = None ∧ match_module "module \top" = Some "\top" ∧
  match_module "modules x" = None.
Proof. repeat split; vm_compute; reflexivity. Qed.

Section map.
Context {R : Type} `{Num R}.

Abbreviation Modules := (list (string * Stats R)).

(** ** Workers *)

Record Args := {
  checkpoint : string; liberty : string; constraint : string; worker_dir : string;
  requested_jobs : Z; reuse_workers : bool; fast : bool; abc_script : option string }.

(** The files and the tool: the modules of a worker's report that is already
    there, and what running Yosys on a script leaves (its exit code and the
    modules of the report); reading a report may fail. *)
Record Tools := {
  stat_file : string → option (result Modules);
  run_yosys : string → Z * result Modules }.

Definition worker_script (args : Args) (stat_path module : string) : string :=
  let abc_mode :=
    match abc_script args with
    | Some script => "-script " +:+ yosys_quote script +:+ " "
    | None => if fast args then "-fast " else ""
    end in
  join (of_chars [char_of 10])
    ["read_rtlil " +:+ yosys_quote (checkpoint args);
     "abc " +:+ abc_mode +:+ "-liberty " +:+ yosys_quote (liberty args) +:+ " -constr "
     +:+ yosys_quote (constraint args) +:+ " " +:+ module;
     "clean -purge";
     "tee -o " +:+ yosys_quote stat_path +:+ " stat -liberty " +:+ yosys_quote (liberty args)
     +:+ " -json " +:+ module;
     "check " +:+ module;
     ""].

(** [{canonical(name): stats for name, stats in modules.items()}] *)
Definition by_canonical_name (modules : Modules) : Modules :=
  foldl (λ d '(name, stats), d_set (canonical name) stats d) [] modules.

(** [str(worker_dir / name)] *)
Definition worker_file (args : Args) (name : string) : string :=
  Argparse.path_text (worker_dir args +:+ "/" +:+ name).

Definition run_worker (tools : Tools) (args : Args) (index : Z) (module : string)
    : result (string * Stats R) :=
  let stem := worker_stem index module in
  let stat_path := worker_file args (stem +:+ ".json") in
  let log_path := worker_file args (stem +:+ ".log") in
  let key := canonical module in
  match (if reuse_workers args then stat_file tools stat_path else None) with
  | Some modules =>
      modules ← modules;
      match d_get key (by_canonical_name modules) with
      | Some stats => Ok (key, stats)
      | None => Err (ValueError ("reused worker stat omitted selected module " +:+ module))
      end
  | None =>
      let '(returncode, modules) := run_yosys tools (worker_script args stat_path module) in
      raise (RuntimeError ("Yosys worker failed for " +:+ module +:+ " (see "
                           +:+ log_path +:+ ")")) when negb (returncode =? 0);;
      modules ← modules;
      match d_get key (by_canonical_name modules) with
      | Some stats => Ok (key, stats)
      | None => Err (ValueError ("worker stat omitted selected module " +:+ module))
      end
  end.

(** ** Recursive areas *)

Record Accumulator := {
  recursive_area : gmap string R; recursive_seq : gmap string R; visiting : gset string }.
Definition accumulator_init : Accumulator :=
  {| recursive_area := ∅; recursive_seq := ∅; visiting := ∅ |}.

Definition children_of {A} (hierarchy : list (string * list A)) (module : string) : list A :=
  default [] (d_get module hierarchy).

Definition item {A} (d : gmap string A) (k : string) : result A :=
  match d !! k with Some v => Ok v | None => Err (KeyError k) end.

(** The nested function [accumulate].  The fuel bounds the nesting; the number
    of modules plus one is enough (lemma [accumulate_spec]). *)
Fixpoint accumulate (hierarchy : list (string * list string)) (direct : gmap string (Stats R))
    (fuel : nat) (s : Accumulator) (module : string) : result (Accumulator * (R * R)) :=
  match fuel with
  | O => Err (RuntimeError "maximum recursion depth exceeded")
  | S fuel =>
      match recursive_area s !! module with
      | Some area => seq ← item (recursive_seq s) module; Ok (s, (area, seq))
      | None =>
          raise (ValueError ("cycle in retained hierarchy at " +:+ module))
            when bool_decide (module ∈ visiting s);;
          let s := {| recursive_area := recursive_area s; recursive_seq := recursive_seq s;
                      visiting := {[module]} ∪ visiting s |} in
          stats ← item direct module;
          r ← foldM (λ '(s, (area, sequential)) child,
                 r ← accumulate hierarchy direct fuel s child;
                 let '(s, (child_area, child_seq)) := r in
                 Ok (s, (add area child_area, add sequential child_seq)))
               (s, (default zero (area stats), default zero (sequential_area stats)))
               (children_of hierarchy module);
          let '(s, (area, sequential)) := r in
          Ok ({| recursive_area := <[module := area]> (recursive_area s);
                 recursive_seq := <[module := sequential]> (recursive_seq s);
                 visiting := visiting s ∖ {[module]} |}, (area, sequential))
      end
  end.

Definition accumulate_all (hierarchy : list (string * list string))
    (direct : gmap string (Stats R)) (modules : list string) : result Accumulator :=
  foldM (λ s module, r ← accumulate hierarchy direct (S (length modules)) s module; Ok (r.1))
    accumulator_init modules.

(** ** The whole run *)

(** [{canonical(name): name for name in pre_data["modules"]}] *)
Definition original_names (pre_modules : list string) : gmap string string :=
  foldl (λ d name, <[canonical name := name]> d) ∅ pre_modules.
Definition module_list (pre_modules : list string) : list string :=
  sort_strings (map_to_list (original_names pre_modules)).*1.

Definition missing_children (hierarchy : list (string * list string))
    (names : gmap string string) : list string :=
  sort_strings (filter (λ child, names !! child = None) (mjoin hierarchy.*2)).

Definition submit (tools : Tools) (args : Args) (names : gmap string string)
    (direct : gmap string (Stats R)) (task : Z * string) : result (gmap string (Stats R)) :=
  let '(index, module) := task in
  name ← item names module;
  r ← run_worker tools args index name;
  Ok (<[r.1 := r.2]> direct).

Definition merge_module (names : gmap string string) (direct : gmap string (Stats R))
    (s : Accumulator) (module : string) : result (string * Stats R) :=
  stats ← item direct module;
  area ← item (recursive_area s) module;
  seq ← item (recursive_seq s) module;
  name ← item names module;
  Ok (name, {| area := Some area; sequential_area := Some seq;
               num_cells_by_type := num_cells_by_type stats; fields := fields stats |}).

(** [main] up to the workers: the original names of the modules, by canonical
    name, and the hierarchy. *)
Definition prepare (args : Args) (pre_modules hierarchy_lines : list string)
    : result (gmap string string * list (string * list string)) :=
  raise (ExitWith "--fast and --abc-script are mutually exclusive")
    when fast args && bool_decide (abc_script args ≠ None);;
  raise (ExitWith "--jobs must be at least one") when requested_jobs args <? 1;;
  let names := original_names pre_modules in
  hierarchy ← load_hierarchy hierarchy_lines;
  let missing := missing_children hierarchy names in
  raise (ValueError ("hierarchy references modules absent from pre-ABC stat: "
                     +:+ join ", " missing)) when negb (bool_decide (missing = []));;
  Ok (names, hierarchy).

(** [min(jobs, len(modules))], and the executor that refuses to have no worker. *)
Definition worker_count (args : Args) (pre_modules : list string) : Z :=
  Z.min (Z.min (requested_jobs args) MAX_JOBS) (zlen (module_list pre_modules)).
Definition executor (args : Args) (pre_modules : list string) : result unit :=
  raise (ValueError "max_workers must be greater than 0") when worker_count args pre_modules <=? 0;;
  Ok tt.

(** [main], with the module names of the pre-mapping report, the lines of the
    hierarchy dump and the order in which the workers complete. *)
Definition main (tools : Tools) (args : Args) (pre_modules hierarchy_lines : list string)
    (completed : list (Z * string)) : result Modules :=
  '(names, hierarchy) ← prepare args pre_modules hierarchy_lines;
  _ ← executor args pre_modules;
  let modules := module_list pre_modules in
  direct ← foldM (submit tools args names) ∅ completed;
  s ← accumulate_all hierarchy direct modules;
  mapR (merge_module names direct s) modules.
End map.

(** ** Correctness of the recursive areas *)

Section accumulate.
Context {R : Type} `{Num R}.
Variables (hierarchy : list (string * list string)) (direct : gmap string (Stats R))
  (modules : list string).

(** [y] is instantiated in [x]. *)
Definition edge (x y : string) : Prop := y ∈ children_of hierarchy x.

(** Every module has been mapped and its children are modules. *)
Definition closed : Prop :=
  ∀ x, x ∈ modules → is_Some (direct !! x) ∧ ∀ y, edge x y → y ∈ modules.

(** A module's own amount, with those of its children added in order. *)
Definition total (own : R) (amounts : gmap string R) (module : string) : R :=
  foldl add own ((λ c, default zero (amounts !! c)) <$> children_of hierarchy module).

Definition settled (s : Accumulator) (m : string) : Prop :=
  (∃ stats, direct !! m = Some stats ∧
     recursive_area s !! m = Some (total (default zero (area stats)) (recursive_area s) m) ∧
     recursive_seq s !! m =
       Some (total (default zero (sequential_area stats)) (recursive_seq s) m)) ∧
  (∀ c, edge m c → is_Some (recursive_area s !! c) ∧ is_Some (recursive_seq s !! c)) ∧
  Acc (flip edge) m.

Record AccInv (s : Accumulator) : Prop := {
  acc_settled : ∀ m, is_Some (recursive_area s !! m) → settled s m;
  acc_domain : ∀ m, recursive_area s !! m = None → recursive_seq s !! m = None;
  acc_fresh : ∀ m, m ∈ visiting s → recursive_area s !! m = None }.

Lemma total_ext own a1 a2 m :
  (∀ c, edge m c → a1 !! c = a2 !! c) → total own a1 m = total own a2 m.
Proof.
  intros Hc. unfold total. f_equal. apply list_fmap_ext. intros i c Hi.
  by rewrite (Hc c) by by apply list_elem_of_lookup_2 in Hi.
Qed.

Lemma acc_seq s m : AccInv s → is_Some (recursive_area s !! m) → is_Some (recursive_seq s !! m).
Proof. intros HI Hm. destruct (acc_settled _ HI _ Hm) as [(st & _ & _ & ->) _]. by eexists. Qed.

Definition cycle_error (x : string) : exn :=
  ValueError ("cycle in retained hierarchy at " +:+ x).
Definition cyclic (e : exn) : Prop := ∃ x, x ∈ modules ∧ tc edge x x ∧ e = cycle_error x.

Definition grows (s s' : Accumulator (R:=R)) : Prop :=
  visiting s' = visiting s ∧ recursive_area s ⊆ recursive_area s' ∧
  recursive_seq s ⊆ recursive_seq s'.

(** What a call promises from state [s]. *)
Definition accumulated (s : Accumulator) (m : string) (r : result (Accumulator * (R * R)))
    : Prop :=
  match r with
  | Ok (s', (a, q)) => AccInv s' ∧ grows s s' ∧ recursive_area s' !! m = Some a ∧
      recursive_seq s' !! m = Some q
  | Err e => cyclic e
  end.

Definition child_step (fuel : nat)
    : Accumulator * (R * R) → string → result (Accumulator * (R * R)) :=
  λ '(s, (area, sequential)) child,
  r ← accumulate hierarchy direct fuel s child;
  let '(s, (child_area, child_seq)) := r in
  Ok (s, (add area child_area, add sequential child_seq)).

Lemma child_step_unfold fuel s a q child :
  child_step fuel (s, (a, q)) child =
  (r ← accumulate hierarchy direct fuel s child;
   let '(s, (child_area, child_seq)) := r in
   Ok (s, (add a child_area, add q child_seq))).
Proof. done. Qed.

(** The loop over the children, given the promise for each. *)
Lemma children_loop fuel cs s a q :
  AccInv s →
  (∀ c s', c ∈ cs → AccInv s' → visiting s' = visiting s →
     accumulated s' c (accumulate hierarchy direct fuel s' c)) →
  match foldM (child_step fuel) (s, (a, q)) cs with
  | Ok (s', (a', q')) => AccInv s' ∧ grows s s' ∧
      (∀ c, c ∈ cs → is_Some (recursive_area s' !! c)) ∧
      a' = foldl add a ((λ c, default zero (recursive_area s' !! c)) <$> cs) ∧
      q' = foldl add q ((λ c, default zero (recursive_seq s' !! c)) <$> cs)
  | Err e => cyclic e
  end.
Proof.
  revert s a q. induction cs as [|c cs IH]; intros s a q HI Hc.
  - simpl. split; [done|]. split; [done|]. split; [set_solver|done].
  - cbn [foldM]. pose proof (Hc c s ltac:(set_solver) HI eq_refl) as H1.
    rewrite child_step_unfold. unfold accumulated in H1.
    destruct (accumulate hierarchy direct fuel s c) as [[s1 [a1 q1]]|e]; [|exact H1].
    destruct H1 as (HI1 & (Hv1 & Ha1 & Hq1) & Hca & Hcq). cbn [mbind result_bind].
    specialize (IH s1 (add a a1) (add q q1) HI1).
    destruct (foldM (child_step fuel) _ cs) as [[s2 [a2 q2]]|e].
    + destruct IH as (HI2 & (Hv2 & Ha2 & Hq2) & Hd & -> & ->).
      { intros c' s' Hin HI' Hv'. apply Hc; [set_solver|done|by rewrite Hv']. }
      split; [done|]. split; [split; [congruence|split; by etrans]|].
      rewrite !fmap_cons. simpl.
      rewrite (lookup_weaken _ _ _ _ Hca Ha2), (lookup_weaken _ _ _ _ Hcq Hq2). simpl.
      split; [|done]. intros c' [->|Hin]%elem_of_cons; [|by apply Hd].
      by rewrite (lookup_weaken _ _ _ _ Hca Ha2).
    + apply IH. intros c' s' Hin HI' Hv'. apply Hc; [set_solver|done|by rewrite Hv'].
Qed.

(** Recording a module once its children are. *)
Lemma record_settled s m stats a q :
  AccInv s → m ∈ visiting s → direct !! m = Some stats →
  (∀ c, edge m c → is_Some (recursive_area s !! c)) →
  a = total (default zero (area stats)) (recursive_area s) m →
  q = total (default zero (sequential_area stats)) (recursive_seq s) m →
  AccInv {| recursive_area := <[m := a]> (recursive_area s);
            recursive_seq := <[m := q]> (recursive_seq s);
            visiting := visiting s ∖ {[m]} |}.
Proof.
  intros HI Hm Hst Hch -> ->. pose proof (acc_fresh _ HI _ Hm) as Hfresh.
  assert (∀ c, is_Some (recursive_area s !! c) → c ≠ m) as Hne by (intros c [? ?] ->; congruence).
  split; simpl.
  - intros x Hx. destruct (decide (x = m)) as [->|Hxm].
    + split; [|split]; simpl.
      * exists stats. split; [done|]. rewrite !lookup_insert_eq. split; f_equal; apply total_ext;
          intros c Hc; rewrite lookup_insert_ne; try done; by apply not_eq_sym, Hne, Hch.
      * intros c Hc. pose proof (Hne c (Hch c Hc)). rewrite !lookup_insert_ne by done.
        split; [by apply Hch|]. by apply acc_seq, Hch.
      * constructor. intros c Hc. by apply (acc_settled _ HI), Hch.
    + rewrite lookup_insert_ne in Hx by done.
      destruct (acc_settled _ HI _ Hx) as ((st & H1 & H2 & H3) & H4 & H5).
      split; [|split; [|done]]; simpl.
      * exists st. split; [done|]. rewrite !lookup_insert_ne by done. rewrite H2, H3.
        split; f_equal; apply total_ext; intros c Hc; rewrite lookup_insert_ne; try done;
          by apply not_eq_sym, Hne, (H4 c).
      * intros c Hc. rewrite !lookup_insert_ne by by apply not_eq_sym, Hne, (H4 c). by apply H4.
  - intros x Hx. destruct (decide (x = m)) as [->|Hxm]; [by rewrite lookup_insert_eq in Hx|].
    rewrite lookup_insert_ne in Hx |- * by done. by apply (acc_domain _ HI).
  - intros x Hx. rewrite lookup_insert_ne by set_solver. apply (acc_fresh _ HI). set_solver.
Qed.

Lemma path_bound (p l : list string) : NoDup p → p ⊆ l → (length p ≤ length l)%nat.
Proof. intros Hp Hl. by apply submseteq_length, NoDup_submseteq. Qed.

(** The nested calls follow a path [path] of modules under expansion. *)
Lemma accumulate_spec fuel s m path :
  closed → AccInv s → visiting s = list_to_set path → NoDup path → path ⊆ modules →
  m ∈ modules → (∀ x, x ∈ path → tc edge x m) → (length modules < fuel + length path)%nat →
  accumulated s m (accumulate hierarchy direct fuel s m).
Proof.
  intros Hcl. revert s m path.
  induction fuel as [|fuel IH]; intros s m path HI Hv Hnd Hsub Hm Hpath Hfuel.
  { pose proof (path_bound _ _ Hnd Hsub). lia. }
  cbn [accumulate]. destruct (recursive_area s !! m) as [a|] eqn:Ha.
  { destruct (acc_seq s m HI) as [q Hq]; [by eexists|].
    unfold item. rewrite Hq. simpl. done. }
  case_bool_decide as Hvis.
  { exists m. split; [done|]. split; [|done]. apply Hpath. rewrite Hv in Hvis.
    by apply elem_of_list_to_set in Hvis. }
  destruct (Hcl m Hm) as [[stats Hst] Hch]. unfold item. rewrite Hst. cbn [mbind result_bind].
  set (s1 := {| recursive_area := recursive_area s; recursive_seq := recursive_seq s;
                visiting := {[m]} ∪ visiting s |}).
  assert (AccInv s1) as HI1.
  { split; simpl; [apply (acc_settled _ HI)|apply (acc_domain _ HI)|]. intros x [->%elem_of_singleton|Hx]%elem_of_union;
      [done|by apply (acc_fresh _ HI)]. }
  assert (∀ c s', c ∈ children_of hierarchy m → AccInv s' → visiting s' = visiting s1 →
    accumulated s' c (accumulate hierarchy direct fuel s' c)) as Hchild.
  { intros c s' Hc HI' Hv'. apply (IH s' c (m :: path)).
    - done.
    - rewrite Hv'. simpl. by rewrite Hv.
    - apply NoDup_cons. split; [|done]. intros Hin. apply Hvis. rewrite Hv.
      by apply elem_of_list_to_set.
    - set_solver.
    - by apply Hch.
    - intros x [->|Hx]%elem_of_cons; [by apply tc_once|]. eapply tc_r; [by apply Hpath|done].
    - simpl. lia. }
  pose proof (children_loop fuel (children_of hierarchy m) s1 (default zero (area stats))
    (default zero (sequential_area stats)) HI1) as Hloop.
  match goal with |- context [foldM ?f (s1, _) _] => change f with (child_step fuel) end.
  destruct (foldM (child_step fuel) _ _) as [[s2 [a2 q2]]|e].
  2: { by apply Hloop. }
  destruct Hloop as (HI2 & (Hv2 & Ha2 & Hq2) & Hd & -> & ->); [done|].
  cbn [mbind result_bind accumulated].
  assert (m ∈ visiting s2) as Hm2 by (rewrite Hv2; set_solver).
  pose proof (acc_fresh _ HI2 _ Hm2) as Hfresh. pose proof (acc_domain _ HI2 _ Hfresh) as Hfresh'.
  split; [by apply (record_settled s2 m stats)|]. split; [|by simpl; rewrite !lookup_insert_eq].
  split; [|split]; simpl.
  - rewrite Hv2. simpl. set_solver.
  - etrans; [exact Ha2|]. by apply insert_subseteq.
  - etrans; [exact Hq2|]. by apply insert_subseteq.
Qed.

Lemma acc_acyclic m : Acc (flip edge) m → ¬ tc edge m m.
Proof.
  induction 1 as [m _ IH]. intros Hm. inversion Hm as [? ? Hy|? y ? Hy Hrest]; subst.
  - by apply (IH m).
  - apply (IH y Hy). by eapply tc_r.
Qed.

(** What a run of [accumulate] over the modules leaves. *)
(** A property of the workers' amounts that sums keep is one of all amounts. *)
Definition amounts_in (P : R → Prop) (s : Accumulator) : Prop :=
  map_Forall (λ _, P) (recursive_area s) ∧ map_Forall (λ _, P) (recursive_seq s).
Lemma accumulate_keeps (P : R → Prop) :
  (∀ x y, P x → P y → P (add x y)) →
  (∀ m stats, direct !! m = Some stats →
     P (default zero (area stats)) ∧ P (default zero (sequential_area stats))) →
  ∀ fuel s m s' a q, amounts_in P s → accumulate hierarchy direct fuel s m = Ok (s', (a, q)) →
    amounts_in P s' ∧ P a ∧ P q.
Proof.
  intros Hadd Hown. induction fuel as [|fuel IH]; intros s m s' a q [Ha Hq] Hr; [done|]. cbn [accumulate] in Hr.
  destruct (recursive_area s !! m) as [x|] eqn:Em.
  { apply bind_Ok in Hr as (y & Ey & Hr). unfold item in Ey. destruct (recursive_seq s !! m) as [z|] eqn:Ez; [|done].
    injection Ey as ->. injection Hr as <- <- <-. split; [done|]. split; [by eapply Ha|by eapply Hq]. }
  apply guard_Ok in Hr as [_ Hr]. apply bind_Ok in Hr as (stats & Es & Hr).
  unfold item in Es. destruct (direct !! m) as [own|] eqn:Eo; [|done]. injection Es as ->.
  destruct (Hown _ _ Eo) as [H0 H1]. apply bind_Ok in Hr as ([s1 [a1 q1]] & Hf & Hr). injection Hr as <- <- <-.
  assert (amounts_in P s1 ∧ P a1 ∧ P q1) as ([Ha1 Hq1] & ? & ?).
  { revert Hf. apply (foldM_inv (λ _ '(s, (a, q)), amounts_in P s ∧ P a ∧ P q)); [done|].
    intros don child [s2 [a2 q2]] [s3 [a3 q3]] (Hs2 & Ha2 & Hq2) Hx _.
    apply bind_Ok in Hx as ([s4 [a4 q4]] & Hc & Hx). injection Hx as <- <- <-.
    apply IH in Hc as (? & ? & ?); [|done]. split; [done|]. split; by apply Hadd. }
  split; [|done]. split; by apply map_Forall_insert_2.
Qed.
Lemma accumulate_all_keeps (P : R → Prop) s :
  (∀ x y, P x → P y → P (add x y)) →
  (∀ m stats, direct !! m = Some stats →
     P (default zero (area stats)) ∧ P (default zero (sequential_area stats))) →
  accumulate_all hierarchy direct modules = Ok s → amounts_in P s.
Proof.
  intros Hadd Hown. unfold accumulate_all. apply (foldM_inv (λ _, amounts_in P)); [split; apply map_Forall_empty|].
  intros don m s1 s2 Hs Hr _. apply bind_Ok in Hr as ([s3 [a q]] & Hr & Hx). injection Hx as <-.
  by eapply accumulate_keeps in Hr as [? _].
Qed.

Lemma accumulate_all_spec :
  closed →
  match accumulate_all hierarchy direct modules with
  | Ok s => ∀ m, m ∈ modules → settled s m ∧ ¬ tc edge m m
  | Err e => cyclic e
  end.
Proof.
  intros Hcl. unfold accumulate_all.
  cut (∀ todo s, todo ⊆ modules → AccInv s → visiting s = ∅ →
    match foldM (λ s module, r ← accumulate hierarchy direct (S (length modules)) s module; Ok (r.1))
            s todo with
    | Ok s' => AccInv s' ∧ recursive_area s ⊆ recursive_area s' ∧
        ∀ m, m ∈ todo → is_Some (recursive_area s' !! m)
    | Err e => cyclic e
    end).
  { intros Hgen. specialize (Hgen modules accumulator_init).
    destruct (foldM _ accumulator_init modules) as [s|e].
    - destruct Hgen as (HI & _ & Hd); [done| |done|].
      { split; simpl; [intros m [? ?]; done|done|set_solver]. }
      intros m Hm. pose proof (acc_settled _ HI m (Hd m Hm)) as Hs. split; [done|].
      apply acc_acyclic, Hs.
    - apply Hgen; [done| |done]. split; simpl; [intros m [? ?]; done|done|set_solver]. }
  induction todo as [|m todo IH]; intros s Hsub HI Hv.
  - split; [done|]. split; [done|set_solver].
  - cbn [foldM].
    pose proof (accumulate_spec (S (length modules)) s m [] Hcl HI) as Hm.
    unfold accumulated in Hm.
    destruct (accumulate _ _ _ s m) as [[s1 [a q]]|e].
    + destruct Hm as (HI1 & (Hv1 & Ha1 & _) & Hma & _);
        [by rewrite Hv|apply NoDup_nil_2|set_solver|set_solver|set_solver|simpl; lia|].
      cbn [mbind result_bind fst].
      specialize (IH s1 ltac:(set_solver) HI1 ltac:(congruence)).
      destruct (foldM _ s1 todo) as [s2|e]; [|done].
      destruct IH as (HI2 & Ha2 & Hd). split; [done|]. split; [by etrans|].
      intros x [->|Hx]%elem_of_cons; [|by apply Hd]. rewrite (lookup_weaken _ _ _ _ Hma Ha2).
      by eexists.
    + apply Hm; [by rewrite Hv|apply NoDup_nil_2|set_solver|set_solver|set_solver|simpl; lia].
Qed.

(** C11: the recursive areas of the merged report.  When every module has been mapped,
    accumulate fails exactly on a hierarchy with a cycle, naming a module on one; otherwise
    every module's area (and sequential area) is its own plus those of its children in
    instantiation order.  The nesting bound is never reached. *)
Theorem accumulate_correct :
  closed →
  match accumulate_all hierarchy direct modules with
  | Ok s => ∀ m, m ∈ modules → settled s m ∧ ¬ tc edge m m
  | Err e => cyclic e
  end.
Proof. apply accumulate_all_spec. Qed.
End accumulate.

(** ** Independence of the order of completion *)

Section order.
Context {R : Type} `{Num R}.
Variables (tools : Tools (R:=R)) (args : Args).

Lemma original_names_spec pre m n :
  original_names pre !! m = Some n → canonical n = m ∧ n ∈ pre.
Proof.
  unfold original_names.
  cut (∀ d : gmap string string, (∀ m n, d !! m = Some n → canonical n = m ∧ n ∈ pre) →
    ∀ l, l ⊆ pre → foldl (λ d name, <[canonical name := name]> d) d l !! m = Some n →
    canonical n = m ∧ n ∈ pre).
  { intros Hgen. apply (Hgen ∅); [|done]. intros ? ? Hx. by rewrite lookup_empty in Hx. }
  intros d Hd l. revert d Hd. induction l as [|x l IH]; intros d Hd Hl; [by apply Hd|].
  simpl. apply IH; [|set_solver]. intros m' n'. rewrite lookup_insert_Some.
  intros [[<- <-]|[_ ?]]; [split; [done|set_solver]|by apply Hd].
Qed.

Lemma run_worker_key index module key stats :
  run_worker tools args index module = Ok (key, stats) → key = canonical module.
Proof.
  unfold run_worker. destruct (if reuse_workers args then _ else None) as [ms|].
  - intros (m & _ & Hx)%bind_Ok. destruct (d_get _ _); [by injection Hx as <- _|done].
  - destruct (run_yosys _ _) as [code ms]. intros Hx. ok_step Hx. apply bind_Ok in Hx as (m & _ & Hx).
    destruct (d_get _ _); [by injection Hx as <- _|done].
Qed.

Definition task_result (names : gmap string string) (task : Z * string)
    : result (string * Stats R) :=
  name ← item names (task.2); run_worker tools args (task.1) name.

Lemma task_result_key pre task key stats :
  task_result (original_names pre) task = Ok (key, stats) → key = task.2.
Proof.
  unfold task_result, item. destruct (original_names pre !! task.2) as [n|] eqn:Hn; [|done].
  cbn [mbind result_bind]. intros ->%run_worker_key. by apply original_names_spec in Hn as [? _].
Qed.

Lemma submit_tasks pre tasks direct :
  NoDup tasks.*2 → foldM (submit tools args (original_names pre)) ∅ tasks = Ok direct →
  (∀ t, t ∈ tasks → is_Ok (task_result (original_names pre) t) = true) ∧
  ∀ k v, direct !! k = Some v ↔
    ∃ t, t ∈ tasks ∧ task_result (original_names pre) t = Ok (k, v).
Proof.
  intros Hnd. apply (foldM_inv (λ done d,
    (∀ t, t ∈ done → is_Ok (task_result (original_names pre) t) = true) ∧
    ∀ k v, d !! k = Some v ↔ ∃ t, t ∈ done ∧ task_result (original_names pre) t = Ok (k, v))).
  { split; [set_solver|]. intros k v. rewrite lookup_empty. split; [done|]. set_solver. }
  intros don [i m] d1 d2 [Hok Hd] Hs Hpre.
  assert (∃ r, task_result (original_names pre) (i, m) = Ok r ∧ d2 = <[r.1 := r.2]> d1) as ([k v] & Hr & ->).
  { unfold submit in Hs. apply bind_Ok in Hs as (n & Hn & (r & Hr & [= <-])%bind_Ok).
    exists r. split; [|done]. unfold task_result. simpl. by rewrite Hn. }
  pose proof (task_result_key _ _ _ _ Hr) as Hk. simpl in Hk. subst k. simpl.
  assert (∀ t v', t ∈ don → task_result (original_names pre) t ≠ Ok (m, v')) as Hnew.
  { intros t v' Ht Hx. apply task_result_key in Hx. destruct Hpre as [rest Hpre].
    rewrite Hpre, !fmap_app in Hnd. apply NoDup_app in Hnd as [Hnd _].
    apply NoDup_app in Hnd as (_ & Hnd & _). apply (Hnd m); [|set_solver].
    rewrite Hx. by apply (list_elem_of_fmap_2 snd). }
  split.
  - intros t [Ht|Ht%list_elem_of_singleton]%elem_of_app; [by apply Hok|]. by rewrite Ht, Hr.
  - intros k v'. rewrite lookup_insert_Some, Hd. split.
    + intros [[<- <-]|[_ (t & Ht & Hx)]]; [exists (i, m)|exists t]; set_solver.
    + intros (t & [Ht|Ht%list_elem_of_singleton]%elem_of_app & Hx).
      * right. split; [|by exists t]. intros <-. by apply (Hnew t v').
      * subst t. left. rewrite Hr in Hx. by injection Hx as -> ->.
Qed.

Lemma submit_total pre tasks d :
  (∀ t, t ∈ tasks → is_Ok (task_result (original_names pre) t) = true) →
  ∃ direct, foldM (submit tools args (original_names pre)) d tasks = Ok direct.
Proof.
  revert d. induction tasks as [|[i m] tasks IH]; intros d Hok; [by exists d|].
  specialize (Hok (i, m)) as Hx. unfold task_result in Hx. cbn [foldM submit]. simpl in Hx.
  destruct (item (original_names pre) m) as [n|]; [|by specialize (Hx ltac:(set_solver))].
  cbn [mbind result_bind] in *.
  destruct (run_worker tools args i n) as [r|]; [|by specialize (Hx ltac:(set_solver))].
  cbn [mbind result_bind]. apply IH. set_solver.
Qed.

Lemma module_list_NoDup pre : NoDup (module_list pre).
Proof.
  unfold module_list, sort_strings. rewrite merge_sort_Permutation. apply NoDup_fst_map_to_list.
Qed.

Lemma enumerate_snd {A} (l : list A) : (enumerate l).*2 = l.
Proof.
  apply list_eq. intros i. rewrite list_lookup_fmap, lookup_enumerate. by destruct (l !! i).
Qed.

(** C12: the merged report does not depend on the order in which the concurrent workers
    complete: from the same modules, workers and hierarchy, any order gives the same
    report, and none fails unless all do. *)
Theorem completion_order_irrelevant pre_modules lines completed1 completed2 :
  completed1 ≡ₚ enumerate (module_list pre_modules) →
  completed2 ≡ₚ enumerate (module_list pre_modules) →
  main tools args pre_modules lines completed1 = main tools args pre_modules lines completed2 ∨
  (is_Ok (main tools args pre_modules lines completed1) = false ∧
   is_Ok (main tools args pre_modules lines completed2) = false).
Proof.
  intros H1 H2. unfold main.
  destruct (prepare args pre_modules lines) as [[names hierarchy]|] eqn:Hprep; [|by left].
  assert (names = original_names pre_modules) as ->.
  { unfold prepare in Hprep. ok_inv Hprep. congruence. }
  cbn [mbind result_bind].
  destruct (executor args pre_modules) as [[]|]; [cbn [mbind result_bind]|by left].
  assert (∀ c, c ≡ₚ enumerate (module_list pre_modules) → NoDup c.*2) as Hnd.
  { intros c Hc. rewrite Hc, enumerate_snd. apply module_list_NoDup. }
  assert (∀ c1 c2 d1, c1 ≡ₚ enumerate (module_list pre_modules) → c2 ≡ₚ c1 →
    foldM (submit tools args (original_names pre_modules)) ∅ c1 = Ok d1 →
    foldM (submit tools args (original_names pre_modules)) ∅ c2 = Ok d1) as Hsame.
  { intros c1 c2 d1 Hc1 Hc Hd1. destruct (submit_tasks _ _ _ (Hnd c1 Hc1) Hd1) as [Hok1 Hd1'].
    destruct (submit_total pre_modules c2 ∅) as [d2 Hd2]; [by setoid_rewrite Hc|].
    rewrite Hd2. f_equal.
    destruct (submit_tasks _ _ _ (Hnd c2 (Permutation_trans Hc Hc1)) Hd2) as [_ Hd2'].
    apply map_eq. intros k. apply option_eq. intros v. rewrite Hd1', Hd2'. by setoid_rewrite Hc. }
  assert (completed2 ≡ₚ completed1) as H21 by (by rewrite H1, H2).
  destruct (foldM _ ∅ completed1) as [d1|e1] eqn:E1.
  - rewrite (Hsame _ _ _ H1 H21 E1). by left.
  - destruct (foldM _ ∅ completed2) as [d2|e2] eqn:E2; [|by right].
    rewrite (Hsame completed2 completed1 d2) in E1; [done|done| |done]. by symmetry.
Qed.
End order.

(** ** A small hierarchy *)

#[export] Instance Z_Num : Num Z :=
  {| zero := 0; add := Z.add; sub := Z.sub; lt := Z.ltb; summed := foldl Z.add 0; hundredth := 0 |}.

Definition sample_hierarchy : list string :=
  ["module \top"; "  cell \alu \u_a"; "  cell \alu \u_b"; "module \alu"; "  cell \add \u"].
Definition sample_tools : Tools (R:=Z) :=
  {| stat_file := λ _, None;
     run_yosys := λ _, (0, Ok [("\top", {| area := Some 100; sequential_area := None; num_cells_by_type := []; fields := [] |});
       ("\alu", {| area := Some 10; sequential_area := Some 4; num_cells_by_type := []; fields := [] |});
       ("\add", {| area := Some 1; sequential_area := Some 1; num_cells_by_type := []; fields := [] |})]) |}.
Definition sample_args : Args :=
  {| checkpoint := "c"; liberty := "l"; constraint := "k"; worker_dir := "w";
     requested_jobs := 4; reuse_workers := false; fast := true; abc_script := None |}.

Example sample_main :
  match main sample_tools sample_args ["\top"; "\alu"; "\add"] sample_hierarchy
          [(2, "top"); (0, "add"); (1, "alu")] with
  | Ok merged => (λ m, (m.1, area (m.2), sequential_area (m.2))) <$> merged =
      [("\add", Some 1, Some 1); ("\alu", Some 11, Some 5); ("\top", Some 122, Some 10)]
  | Err _ => False
  end.
Proof. vm_compute. reflexivity. Qed.

Definition sample_direct : gmap string (Stats Z) :=
  <["top" := {| area := Some 100; sequential_area := None; num_cells_by_type := []; fields := [] |}]>
    (<["alu" := {| area := Some 10; sequential_area := None; num_cells_by_type := []; fields := [] |}]> ∅).
Definition sample_edges : list (string * list string) := [("top", ["alu"; "alu"])].

Lemma sample_closed : closed sample_edges sample_direct ["alu"; "top"].
Proof.
  intros x Hx. repeat (apply elem_of_cons in Hx as [->|Hx]); [| |by apply elem_of_nil in Hx].
  - split; [eexists; vm_compute; reflexivity|]. intros y Hy. by apply elem_of_nil in Hy.
  - split; [eexists; vm_compute; reflexivity|]. unfold edge. intros y Hy. vm_compute in Hy. set_solver.
Qed.

Example sample_area :
  match accumulate_all sample_edges sample_direct ["alu"; "top"] with
  | Ok s => recursive_area s !! "top" = Some 120
  | Err _ => False
  end.
Proof. vm_compute. reflexivity. Qed.

Lemma accumulate_correct_witness :
  closed sample_edges sample_direct ["alu"; "top"] ∧
  match accumulate_all sample_edges sample_direct ["alu"; "top"] with
  | Ok s => recursive_area s !! "top" = Some 120 ∧ settled sample_edges sample_direct s "top"
  | Err _ => False
  end.
Proof.
  split; [exact sample_closed|]. pose proof sample_area as Ha.
  pose proof (accumulate_correct sample_edges sample_direct ["alu"; "top"] sample_closed) as Hc.
  destruct (accumulate_all sample_edges sample_direct ["alu"; "top"]) as [s|e]; [|exact Ha].
  split; [exact Ha|]. apply Hc. apply elem_of_cons. right. by apply list_elem_of_singleton.
Defined.

Lemma completion_order_irrelevant_witness :
  main sample_tools sample_args ["\b"; "\top"] [] [(1, "top"); (0, "b")] =
    main sample_tools sample_args ["\b"; "\top"] [] [(0, "b"); (1, "top")] ∨
  (is_Ok (main sample_tools sample_args ["\b"; "\top"] [] [(1, "top"); (0, "b")]) = false ∧
   is_Ok (main sample_tools sample_args ["\b"; "\top"] [] [(0, "b"); (1, "top")]) = false).
Proof.
  apply (completion_order_irrelevant sample_tools sample_args).
  - change (enumerate (module_list ["\b"; "\top"])) with [(0, "b"); (1, "top")].
    apply Permutation_swap.
  - change (enumerate (module_list ["\b"; "\top"])) with [(0, "b"); (1, "top")]. reflexivity.
Defined.
