(* ===== verification/AreaReport.v ===== *)
(** * Functional area summary

    [synth/core/summarize_resources.py]: classification of the retained modules,
    inferred memories, the walk over the retained hierarchy that attributes
    every module's direct area to a category, and the report; and
    [synth/nangate45/summarize-core-4pf.py], the summary of one mapped core.

    The parsed JSON reports and the lines of the text dumps are inputs.  Sums of
    floats are left-to-right sums. *)

From stdpp Require Import base numbers list strings gmap sorting relations.
From Stdlib Require Import ZArith Lia Ascii SpecFloat.
From S2P Require Import Prelude PyText PyFloat PyDict ParallelMap.

Open Scope Z_scope.

Definition SKY130_PREFIX : string := "sky130_fd_sc_hd__".

Definition base_module (name : string) : string :=
  let name := canonical name in default name (last (openrv64_names name)).

Definition CATEGORIES : list (string * (string * string)) :=
  [("openrv64_rv64_top_3p",
    ("Frontend/core control",
     "PC/redirect control, packet construction, and top-level frontend glue"));
   ("openrv64_backend_3p",
    ("Backend control/forwarding",
     "allocation, full-forwarding fabric, branch control, and backend glue"));
   ("openrv64_fetch_3w",
    ("Fetch/line buffers", "three-wide fetch, line slots, replay, and predecode metadata"));
   ("openrv64_exec_bp",
    ("Branch predictor", "32x3-bit bimodal table, four-update queue, and eight-entry RAS"));
   ("openrv64_prefix_addsub", ("Branch predictor", "direct branch-target adder"));
   ("openrv64_decode_top", ("Decode", "three complete RV64 decode lanes"));
   ("openrv64_rv64i_csrs",
    ("CSR/PMP", "privileged CSRs, interrupt state, counters, and PMP"));
   ("openrv64_except_vector",
    ("Trap/redirect vector", "trap, return, restart, and reset target selection"));
   ("openrv64_core_bus",
    ("Memory-system routing/AXI", "core-bus wrapper and external interface selection"));
   ("openrv64_core_mtl",
    ("Memory transaction layer",
     "translation queues, TLB/PTW, PMP clearance, barriers, and cache transaction control"));
   ("openrv64_core_icx_bus",
    ("ICX transport", "physical L1I/L1D/PTW command arbitration and response routing"));
   ("openrv64_l1d_icx",
    ("L1D control/tags",
     "16 KiB four-way L1D control, tags, fill/store buffers, prefetcher, and ICX client; data SRAM excluded"));
   ("openrv64_l1i_icx",
    ("L1I control/tags",
     "16 KiB four-way L1I control, tags, fill buffers, prefetch state, and ICX client; data SRAM excluded"));
   ("openrv64_bus_tlb", ("I/D TLBs", "two 16-entry translation lookaside buffers"));
   ("openrv64_bus_tlb_l2",
    ("Shared L2 TLB", "shared 256-entry, four-way second-level translation lookaside buffer"));
   ("openrv64_bus_ptw",
    ("Page-table walker", "shared page-table walker, PTE cache, and ICX client"));
   ("openrv64_dispatch_3p",
    ("Dispatch/hazards",
     "six-entry dispatch queue, dependency map, issue selection, and barriers"));
   ("openrv64_dispatch",
    ("Dispatch/hazards",
     "six-entry dispatch queue, dependency map, issue selection, and barriers"));
   ("openrv64_rv64i_gpr_3p",
    ("Integer register file", "32x64 GPRs with six reads and three writes"));
   ("openrv64_exec_pipe_ex0", ("EX0 integer/M", "RV64I ALU and iterative RV64M execution"));
   ("openrv64_exec_pipe_ex1",
    ("EX1 integer/branch",
     "RV64I ALU, conditional branch unit, system-CSR execution, and exceptions"));
   ("openrv64_exec_pipe_mem",
    ("LSU/MEM pipes",
     "two pipelined load/store queues with MEM0 atomics, posted-store state, and store-load forwarding"));
   ("openrv64_retire_queue_3p",
    ("Retirement", "eight-entry retirement ordering and completion control"));
   ("openrv64_retire_records_3p",
    ("Retirement", "canonical slot-indexed allocation and completion records"));
   ("openrv64_retire_3p",
    ("Retirement", "in-order prefix retirement and architectural side effects"))].

Definition category_for (module : string) : result (string * string) :=
  let base := base_module module in
  match d_get base CATEGORIES with
  | Some category => Ok category
  | None => Err (ValueError ("unclassified kept module: " +:+ module +:+ " (base " +:+ base +:+ ")"))
  end.

(** [sum(count for cell_type, count in cells if canonical(cell_type).startswith(prefix))] *)
Definition mapped_cells {R} (stats : Stats R) : Z :=
  zsum snd (filter (λ tc, String.prefix SKY130_PREFIX (canonical (tc.1)) = true)
              (num_cells_by_type stats)).

(** ** The retained hierarchy, with instance names *)

Definition kept_line (s : option string * list (string * list (string * string))) (line : string)
    : result (option string * list (string * list (string * string))) :=
  let '(current_module, children) := s in
  match match_module line with
  | Some name => Ok (Some (canonical name), children)
  | None =>
      match match_cell line with
      | Some (kind, name) =>
          match current_module with
          | None => Err (ValueError "kept cell appears outside a module")
          | Some module =>
              Ok (current_module, add_child module (canonical kind, canonical name) children)
          end
      | None => Ok s
      end
  end.
Definition kept_hierarchy (lines : list string)
    : result (list (string * list (string * string))) :=
  s ← foldM kept_line (None, []) lines; Ok (s.2).

(** ** Inferred memories *)

(** A record under construction: the fields read so far, and their keys in the order
    in which they were first set. *)
Record Partial := {
  p_module : string; p_name : string; p_width : option Z; p_size : option Z;
  p_read_ports : option Z; p_write_ports : option Z; p_read_clock_enable : option string;
  p_keys : list string }.
Definition add_key (key : string) (keys : list string) : list string :=
  if bool_decide (key ∈ keys) then keys else keys ++ [key].

Record Memory := {
  m_module : string; m_name : string; width : Z; size : Z; read_ports : Z; write_ports : Z;
  read_clock_enable : string; m_keys : list string; bits : Z; group : string }.

(** The keys in the order of a dump that gives the parameters in this order. *)
Definition MEMORY_KEYS : list string := ["width"; "size"; "read_ports"; "write_ports"; "read_clock_enable"].

Definition new_memory (module name : string) : Partial :=
  {| p_module := module; p_name := name; p_width := None; p_size := None;
     p_read_ports := None; p_write_ports := None; p_read_clock_enable := None; p_keys := [] |}.

Definition memory_group (module name : string) (write_ports : Z) : string :=
  let name := lower name in
  let module := lower module in
  if contains "tag_overlay_mem" name && contains "openrv64_l1d_icx" module
  then "L1D request overlay"
  else if contains "u_l1i" name then "L1I data"
  else if contains "u_l1d" name then "L1D data"
  else if write_ports =? 0 then "Other inferred ROM"
  else "Other inferred memory".

Definition missing_field {A} (name : string) (v : option A) : list string :=
  match v with Some _ => [] | None => [name] end.

Definition finish_memory (current : option Partial) (memories : list Memory)
    : result (list Memory) :=
  match current with
  | None => Ok memories
  | Some p =>
      match p_width p, p_size p, p_read_ports p, p_write_ports p, p_read_clock_enable p with
      | Some w, Some s, Some r, Some wp, Some clk =>
          Ok (memories ++
                [{| m_module := p_module p; m_name := p_name p; width := w; size := s;
                    read_ports := r; write_ports := wp; read_clock_enable := clk;
                    m_keys := p_keys p; bits := w * s; group := memory_group (p_module p) (p_name p) wp |}])
      | _, _, _, _, _ =>
          Err (ValueError ("incomplete $mem_v2 record " +:+ p_name p +:+ ": missing "
            +:+ join ", " (missing_field "width" (p_width p) ++ missing_field "size" (p_size p)
                           ++ missing_field "read_ports" (p_read_ports p)
                           ++ missing_field "write_ports" (p_write_ports p)
                           ++ missing_field "read_clock_enable" (p_read_clock_enable p))))
      end
  end.

Definition match_memory_cell (line : string) : option string :=      (* MEMORY_CELL_RE *)
  match match_words 2 "cell" line with
  | Some [kind; name] => if bool_decide (kind = "$mem_v2") then Some name else None
  | _ => None
  end.

Definition all_digits (s : string) : bool :=
  negb (bool_decide (s = "")) &&
  forallb (λ c, (48 <=? code c) && (code c <=? 57)) (chars s).

Definition decimal (s : string) : Z := default 0 (py_int 10 s).

(** MEMORY_PARAMETER_RE: the updated record. *)
Definition match_parameter (line : string) (p : Partial) : option Partial :=
  match match_words 4 "parameter" line with
  | Some [name; value] =>
      if negb (all_digits value) then None else
      let v := Some (decimal value) in
      if bool_decide (name = "\WIDTH") then
        Some {| p_module := p_module p; p_name := p_name p; p_width := v; p_size := p_size p;
                p_read_ports := p_read_ports p; p_write_ports := p_write_ports p;
                p_read_clock_enable := p_read_clock_enable p;
                p_keys := add_key "width" (p_keys p) |}
      else if bool_decide (name = "\SIZE") then
        Some {| p_module := p_module p; p_name := p_name p; p_width := p_width p; p_size := v;
                p_read_ports := p_read_ports p; p_write_ports := p_write_ports p;
                p_read_clock_enable := p_read_clock_enable p;
                p_keys := add_key "size" (p_keys p) |}
      else if bool_decide (name = "\RD_PORTS") then
        Some {| p_module := p_module p; p_name := p_name p; p_width := p_width p;
                p_size := p_size p; p_read_ports := v; p_write_ports := p_write_ports p;
                p_read_clock_enable := p_read_clock_enable p;
                p_keys := add_key "read_ports" (p_keys p) |}
      else if bool_decide (name = "\WR_PORTS") then
        Some {| p_module := p_module p; p_name := p_name p; p_width := p_width p;
                p_size := p_size p; p_read_ports := p_read_ports p; p_write_ports := v;
                p_read_clock_enable := p_read_clock_enable p;
                p_keys := add_key "write_ports" (p_keys p) |}
      else None
  | _ => None
  end.

(** MEMORY_READ_CLOCK_RE: the bits of a sized binary constant. *)
Fixpoint after_quote (seen : bool) (s : list ascii) : option (list ascii) :=
  match s with
  | [] => None
  | c :: s =>
      if (48 <=? code c) && (code c <=? 57) then after_quote true s
      else if bool_decide (c = char_of 39) && seen then Some s else None
  end.
Definition match_read_clock (line : string) (p : Partial) : option Partial :=
  match match_words 4 "parameter" line with
  | Some [name; value] =>
      match after_quote false (chars value) with
      | Some digits =>
          if bool_decide (name = "\RD_CLK_ENABLE") && negb (bool_decide (digits = []))
             && forallb (λ c, bool_decide (c = "0"%char ∨ c = "1"%char)) digits
          then Some {| p_module := p_module p; p_name := p_name p; p_width := p_width p;
                       p_size := p_size p; p_read_ports := p_read_ports p;
                       p_write_ports := p_write_ports p;
                       p_read_clock_enable := Some (of_chars digits);
                p_keys := add_key "read_clock_enable" (p_keys p) |}
          else None
      | None => None
      end
  | _ => None
  end.

Record Scan := {
  memories : list Memory; current_module : option string; current_memory : option Partial }.

(** One turn of the loop over the lines. *)
Definition scan_line (s : Scan) (line : string) : result Scan :=
  match match_module line with
  | Some name =>
      ms ← finish_memory (current_memory s) (memories s);
      Ok {| memories := ms; current_module := Some (canonical name); current_memory := None |}
  | None =>
  match match_memory_cell line with
  | Some name =>
      ms ← finish_memory (current_memory s) (memories s);
      match current_module s with
      | None => Err (ValueError "$mem_v2 cell appears outside a module")
      | Some module =>
          Ok {| memories := ms; current_module := current_module s;
                current_memory := Some (new_memory module (canonical name)) |}
      end
  | None =>
  match current_memory s with
  | None => Ok s
  | Some p =>
      let p' := match match_parameter line p with
                | Some p' => p'
                | None => default p (match_read_clock line p)
                end in
      Ok {| memories := memories s; current_module := current_module s;
            current_memory := Some p' |}
  end end end.

Definition inferred_memories (lines : list string) : result (list Memory) :=
  s ← foldM scan_line {| memories := []; current_module := None; current_memory := None |} lines;
  finish_memory (current_memory s) (memories s).

Example inferred_memories_example :
  inferred_memories
    ["module \openrv64_l1i_icx"; "  cell $mem_v2 \u_L1I.data"; "    parameter \WIDTH 64";
     "    parameter \SIZE 512"; "    parameter \RD_PORTS 1"; "    parameter \WR_PORTS 1";
     "    parameter \RD_CLK_ENABLE 1'1"] =
  Ok [{| m_module := "openrv64_l1i_icx"; m_name := "u_L1I.data"; width := 64; size := 512;
         read_ports := 1; write_ports := 1; read_clock_enable := "1"; m_keys := MEMORY_KEYS; bits := 32768;
         group := "L1I data" |}].
Proof. vm_compute. reflexivity. Qed.

(** ** Checks of the inferred memories *)

Abbreviation Shape := (Z * Z * Z * Z * string)%type.
Definition shape (m : Memory) : Shape :=
  (size m, width m, read_ports m, write_ports m, read_clock_enable m).

Definition EXPECTED_CACHE_GEOMETRY : list (string * (Z * Z)) :=
  [("L1I data", (4, 16 * 1024 * 8)); ("L1D data", (32, 16 * 1024 * 8))].

Definition total_bits (ms : list Memory) : Z := zsum bits ms.
Definition in_group (name : string) (ms : list Memory) : list Memory :=
  filter (λ m, group m = name) ms.
Definition cache_memories (ms : list Memory) : list Memory :=
  filter (λ m, group m = "L1I data" ∨ group m = "L1D data") ms.

Definition check_cache_group (ms : list Memory) (u : unit) (expected : string * (Z * Z))
    : result unit :=
  let '(group_name, (expected_banks, expected_bits)) := expected in
  let group_memories := in_group group_name (cache_memories ms) in
  let group_bits := total_bits group_memories in
  raise (ValueError (group_name +:+ " RAM inference changed: " +:+ str_int (zlen group_memories)
           +:+ " banks/" +:+ str_int group_bits +:+ " bits, expected " +:+ str_int expected_banks
           +:+ " banks/" +:+ str_int expected_bits +:+ " bits"))
    when negb (zlen group_memories =? expected_banks) || negb (group_bits =? expected_bits);;
  raise (ValueError (group_name +:+ " must remain synchronous one-read/one-write SRAM"))
    when existsb (λ m, negb (read_ports m =? 1) || negb (write_ports m =? 1)
                       || negb (String.eqb (read_clock_enable m) "1")) group_memories;;
  Ok tt.

(** The order of the shape tuples. *)
Definition shape_leb (a b : Shape) : bool :=
  let '(s1, w1, r1, p1, c1) := a in
  let '(s2, w2, r2, p2, c2) := b in
  if negb (s1 =? s2) then s1 <? s2 else if negb (w1 =? w2) then w1 <? w2
  else if negb (r1 =? r2) then r1 <? r2 else if negb (p1 =? p2) then p1 <? p2
  else String.leb c1 c2.
Definition shape_le (a b : Shape) : Prop := shape_leb a b = true.
#[export] Instance shape_le_dec a b : Decision (shape_le a b).
Proof. apply bool_eq_dec. Defined.
Definition sort_shapes (l : list Shape) : list Shape := merge_sort shape_le l.

Definition shape_text (s : Shape) : string :=
  let '(s, w, r, p, c) := s in
  "(" +:+ str_int s +:+ ", " +:+ str_int w +:+ ", " +:+ str_int r +:+ ", " +:+ str_int p
  +:+ ", " +:+ repr c +:+ ")".

Definition check_overlay (ms : list Memory) : result unit :=
  let overlay_memories := in_group "L1D request overlay" ms in
  if bool_decide (overlay_memories = []) then Ok tt else
  let overlay_shapes := remove_dups (shape <$> overlay_memories) in
  raise (ValueError ("L1D request overlay RAM inference changed: "
           +:+ str_int (zlen overlay_memories) +:+ " memories with shapes ["
           +:+ join ", " (shape_text <$> sort_shapes overlay_shapes)
           +:+ "], expected one synchronous 8x576 1R/1W memory"))
    when negb (zlen overlay_memories =? 1)
         || negb (bool_decide (overlay_shapes = [(8, 576, 1, 1, "1")]));;
  Ok tt.

Definition check_memories (ms : list Memory) : result unit :=
  u ← foldM (check_cache_group ms) tt EXPECTED_CACHE_GEOMETRY; check_overlay ms.

Record Group := { g_instances : Z; g_bits : Z; g_shapes : list (Shape * Z) }.

Definition add_memory (groups : list (string * Group)) (m : Memory) : list (string * Group) :=
  let g := default {| g_instances := 0; g_bits := 0; g_shapes := [] |} (d_get (group m) groups) in
  d_set (group m)
    {| g_instances := g_instances g + 1; g_bits := g_bits g + bits m;
       g_shapes := d_set (shape m) (default 0 (d_get (shape m) (g_shapes g)) + 1) (g_shapes g) |}
    groups.
Definition memory_groups (ms : list Memory) : list (string * Group) := foldl add_memory [] ms.

(** ** The walk over the hierarchy *)

Section walk.
Context {R : Type} `{Num R}.

Definition max_zero (x : R) : R := if lt zero x then x else zero.     (* max(0.0, x) *)
Definition sum (l : list R) : R := summed l.

Record Categories := {
  category_area : list (string * R); category_seq : list (string * R);
  category_cells : list (string * Z); descriptions : list (string * list string);
  instances : list (string * list string) }.
Definition no_categories : Categories :=
  {| category_area := []; category_seq := []; category_cells := []; descriptions := [];
     instances := [] |}.

Variables (partition : list (string * Stats R))
  (hierarchy : list (string * list (string * string))) (top : string).

Definition partition_item (module : string) : result (Stats R) :=
  match d_get module partition with Some stats => Ok stats | None => Err (KeyError module) end.

(** [d[k] += v] on a [defaultdict]. *)
Definition bump (k : string) (v : R) (d : list (string * R)) : list (string * R) :=
  d_set k (add (default zero (d_get k d)) v) d.

(** The totals of a category after one instance. *)
Definition attribute (category description instance : string) (area seq : R) (cells : Z)
    (s : Categories) : Categories :=
  let ds := default [] (d_get category (descriptions s)) in
  {| category_area := bump category (max_zero area) (category_area s);
     category_seq := bump category (max_zero seq) (category_seq s);
     category_cells :=
       d_set category (default 0 (d_get category (category_cells s)) + cells) (category_cells s);
     descriptions :=
       d_set category (if bool_decide (description ∈ ds) then ds else ds ++ [description])
         (descriptions s);
     instances :=
       d_set category (default [] (d_get category (instances s)) ++ [instance]) (instances s) |}.

Definition category_of (module : string) : result (string * string) :=
  if bool_decide (module = top)
  then Ok ("AXI wrapper/glue", "fixed 3P AXI boundary and external tie-offs")
  else category_for module.

(** A module's own area: what it reports less what its children report. *)
Definition direct_amounts (module : string) : result (R * R) :=
  stats ← partition_item module;
  let children := children_of hierarchy module in
  areas ← mapR (λ c, st ← partition_item (c.1); Ok (default zero (area st))) children;
  seqs ← mapR (λ c, st ← partition_item (c.1); Ok (default zero (sequential_area st))) children;
  Ok (sub (default zero (area stats)) (sum areas),
      sub (default zero (sequential_area stats)) (sum seqs)).

Definition visit (s : Categories) (module instance : string) : result Categories :=
  raise (ValueError ("kept module " +:+ module +:+ " missing from stat report"))
    when bool_decide (d_get module partition = None);;
  stats ← partition_item module;
  r ← direct_amounts module;
  let '(direct_area, direct_seq) := r in
  raise (ValueError ("negative direct area while expanding " +:+ module))
    when lt direct_area (sub zero hundredth) || lt direct_seq (sub zero hundredth);;
  c ← category_of module;
  Ok (attribute (c.1) (c.2) instance direct_area direct_seq (mapped_cells stats) s).

(** The fuel bounds the depth of the instance tree. *)
Fixpoint walk (fuel : nat) (s : Categories) (module instance : string) : result Categories :=
  match fuel with
  | O => Err (RuntimeError "maximum recursion depth exceeded")
  | S fuel =>
      s ← visit s module instance;
      foldM (λ s c, walk fuel s (c.1) (instance +:+ "/" +:+ c.2)) s (children_of hierarchy module)
  end.

Definition walk_top : result Categories :=
  walk (S (length partition)) no_categories top top.
End walk.

(** ** Totals *)

#[export] Instance double_Num : Num double :=
  {| zero := S754_zero false; ParallelMap.add := fadd; ParallelMap.sub := fsub;
     ParallelMap.lt := flt; summed := float_sum; hundredth := div_or_zero 1 100 |}.

Definition fabs (x : double) : double := SFabs x.
Definition HUNDRED : double := to_float 100.

Record BlockRow := {
  block : string; area_um2 : double; percent_of_total : double; sequential_area_um2 : double;
  row_cells : Z; row_instances : Z; description : string }.

(** [rows.sort(key=area, reverse=True)]: stable. *)
Fixpoint insert_row (x : BlockRow) (l : list BlockRow) : list BlockRow :=
  match l with
  | [] => [x]
  | y :: l' => if flt (area_um2 x) (area_um2 y) then y :: insert_row x l' else x :: l
  end.
Definition sort_rows (l : list BlockRow) : list BlockRow := foldr insert_row [] l.

Definition block_row (s : Categories (R:=double)) (partition_total : double)
    (ca : string * double) : BlockRow :=
  let '(category, area) := ca in
  {| block := category; area_um2 := area;
     percent_of_total := fdiv (fmul HUNDRED area) partition_total;
     sequential_area_um2 := default zero (d_get category (category_seq s));
     row_cells := default 0 (d_get category (category_cells s));
     row_instances := zlen (default [] (d_get category (instances s)));
     description := join "; " (default [] (d_get category (descriptions s))) |}.

(** Thousands separators, [f"{n:,}"] and [f"{x:,.{digits}f}"]. *)
Fixpoint group3 (n : nat) (s : list ascii) : list ascii :=
  match s with
  | [] => []
  | c :: s =>
      c :: (if bool_decide (s ≠ []) && (Nat.modulo (length s) 3 =? 0)%nat
            then ","%char :: group3 n s else group3 n s)
  end.
Definition group_digits (s : list ascii) : list ascii :=
  match s with
  | c :: s' => if bool_decide (c = "-"%char) then c :: group3 0 s' else group3 0 s
  | [] => []
  end.
Fixpoint split_point (s : list ascii) : list ascii * list ascii :=
  match s with
  | [] => ([], [])
  | c :: s' => if bool_decide (c = "."%char) then ([], s)
               else let '(whole, frac) := split_point s' in (c :: whole, frac)
  end.
Definition comma_text (s : string) : string :=
  let '(whole, frac) := split_point (chars s) in of_chars (group_digits whole ++ frac).
Definition comma_int (n : Z) : string := comma_text (str_int n).
Definition comma_fixed (digits : Z) (x : double) : string := comma_text (fixed digits x).

Example comma_examples :
  comma_int 1234567 = "1,234,567" ∧ comma_int (-999) = "-999" ∧ comma_int 0 = "0" ∧
  comma_fixed 1 (div_or_zero 123456 10) = "12,345.6".
Proof. repeat split; vm_compute; reflexivity. Qed.

(** The cross-check against a flat map: totals, or why there are none. *)
Record Flat := {
  flat_total : option double; flat_cells : option Z; hierarchy_delta : option double;
  flat_failure : option string }.
Definition no_flat (failure : option string) : Flat :=
  {| flat_total := None; flat_cells := None; hierarchy_delta := None; flat_failure := failure |}.

Definition TOP : string := "openrv64_top_3p".

Definition generic_cells {R} (stats : Stats R) : list (string * Z) :=
  foldl (λ d '(cell_type, count), d_set (canonical cell_type) count d) []
    (filter (λ tc, String.prefix SKY130_PREFIX (canonical (tc.1)) = false ∧
                   canonical (tc.1) ≠ "$mem_v2") (num_cells_by_type stats)).

Definition cross_check (partition_total : double)
    (flat_stat : option (list (string * Stats double))) : Flat :=
  match flat_stat with
  | None => no_flat None
  | Some modules =>
      match d_get TOP (by_canonical_name modules) with
      | None => no_flat (Some "top module is absent from the flat stat report")
      | Some flat_stats =>
          let generic := generic_cells flat_stats in
          if negb (bool_decide (generic = [])) then
            no_flat (Some (comma_int (zsum snd generic) +:+ " cells remain unmapped ("
                           +:+ join ", " (take 4 (sort_strings generic.*1)) +:+ ")"))
          else
            let total := default zero (area flat_stats) in
            if negb (flt zero total) then no_flat (Some "reported flat area is zero")
            else {| flat_total := Some total; flat_cells := Some (mapped_cells flat_stats);
                    hierarchy_delta :=
                      Some (fmul HUNDRED (fsub (fdiv partition_total total) (to_float 1)));
                    flat_failure := None |}
      end
  end.

Record Summary := {
  s_rows : list BlockRow; s_memories : list Memory; s_categories : Categories (R:=double);
  partition_total : double; seq_total : double; s_flat : Flat }.

(** The computation of [main]: the parsed stat report, the lines of the
    hierarchy and memory dumps, and the optional flat report. *)
Definition summarize (modules : list (string * Stats double)) (hierarchy_lines memory_lines : list string)
    (flat_stat : option (list (string * Stats double))) : result Summary :=
  let partition := by_canonical_name modules in
  raise (ValueError "openrv64_top_3p missing from partitioned Yosys stat report")
    when bool_decide (d_get TOP partition = None);;
  hierarchy ← kept_hierarchy hierarchy_lines;
  ms ← inferred_memories memory_lines;
  _ ← check_memories ms;
  s ← walk_top partition hierarchy TOP;
  let partition_total := sum (category_area s).*2 in
  raise (ValueError "partitioned area is zero") when negb (flt zero partition_total);;
  top_stats ← partition_item partition TOP;
  let reported_total := default zero (area top_stats) in
  raise (ValueError "exclusive categories total differs from the reported total")
    when flt (div_or_zero 1 10) (fabs (fsub partition_total reported_total));;
  Ok {| s_rows := sort_rows (block_row s partition_total <$> category_area s); s_memories := ms;
        s_categories := s; partition_total := partition_total;
        seq_total := sum (category_seq s).*2; s_flat := cross_check partition_total flat_stat |}.

(** ** The report *)

Definition NL : string := of_chars [char_of 10].
Definition kib (bits : Z) : string :=
  fixed 1 (fdiv (div_or_zero bits 8) (to_float 1024)).

Definition table_row (row : BlockRow) : string :=
  "| " +:+ block row +:+ " | " +:+ comma_fixed 0 (area_um2 row) +:+ " | "
  +:+ fixed 2 (percent_of_total row) +:+ "% | " +:+ comma_fixed 0 (sequential_area_um2 row)
  +:+ " | " +:+ comma_int (row_cells row) +:+ " |".

Definition REPORT_GROUPS : list string :=
  ["L1I data"; "L1D data"; "L1D request overlay"; "Other inferred memory"; "Other inferred ROM"].

Definition group_shape_text (sc : Shape * Z) : string :=
  let '((s, w, r, p, clk), n) := sc in
  str_int n +:+ "x " +:+ str_int s +:+ "x" +:+ str_int w +:+ " " +:+ str_int r +:+ "R/"
  +:+ str_int p +:+ "W " +:+ (if String.eqb clk "1" then "sync" else "async").

Definition group_row (groups : list (string * Group)) (name : string) : list string :=
  match d_get name groups with
  | None => []
  | Some g =>
      let sorted := sort_shapes (g_shapes g).*1 in
      let shapes := join ", "
        ((λ s, group_shape_text (s, default 0 (d_get s (g_shapes g)))) <$> sorted) in
      ["| " +:+ name +:+ " | " +:+ str_int (g_instances g) +:+ " | " +:+ shapes +:+ " | "
       +:+ kib (g_bits g) +:+ " KiB |"]
  end.

Definition flat_paragraph (f : Flat) : string :=
  match flat_total f with
  | Some total =>
      "The fully flattened core maps to **" +:+ comma_fixed 0 total +:+ " um^2** and **"
      +:+ comma_int (default 0 (flat_cells f)) +:+ " cells**. The category-boundary map is **"
      +:+ fixed 2 (default zero (hierarchy_delta f))
      +:+ "% larger** because ABC cannot optimize across the retained reporting boundaries."
      +:+ NL
  | None =>
      "No valid fully flattened standard-cell total is reported. The default ABC "
      +:+ "global flow on the 105 MiB BLIF was impractically slow; the fast flow failed "
      +:+ "in buffer sizing; and the custom mapping attempt was rejected because "
      +:+ default "the optional flat flow was not run" (flat_failure f)
      +:+ ". **Do not use the incomplete 704,408 um^2 flop-only value.** "
      +:+ "The percentage table is normalized to the normal-flow partitioned map." +:+ NL
  end.

Definition INTRO : list string :=
  ["# OpenRV64 3P Sky130 functional area" +:+ NL;
   "## Result" +:+ NL;
   "Exclusive functional categories from a Sky130 HD standard-cell logic "
   +:+ "map. Inferred SRAM is reported separately because no SRAM Liberty/LEF "
   +:+ "macro library is present. Percentages use the partitioned standard-cell "
   +:+ "total and sum to 100%." +:+ NL;
   "| Functional block | Area (um^2) | Size | Seq. area | Cells |";
   "|---|---:|---:|---:|---:|"].
Definition CONFIGURATION : list string :=
  ["## Configuration" +:+ NL;
   "- `openrv64_top_3p`, three-wide decode with EX0/EX1/MEM0/MEM1 issue, 256-bit AXI.";
   "- RV64IM+A; eight-entry retirement buffer; posted stores.";
   "- Full forwarding and relaxed tagged hazards/WAW.";
   "- Normal branch issue/resolution (`FREE_BRANCHES=0`); free branches are an oracle-only experiment.";
   "- 32-entry, 3-bit bimodal predictor; four-entry update queue; RAS depth 8.";
   "- 16 KiB four-way L1I and 16 KiB four-way L1D enabled; data arrays "
   +:+ "preserved as inferred synchronous SRAM.";
   "- Issue-window experiment, trace-only hardware, FPU, SoC peripherals, and "
   +:+ "the 16 MiB testbench RAM excluded." +:+ NL;
   "## Block boundaries" +:+ NL].
Definition LIMITS : list string :=
  [NL +:+ "## Interpretation limits" +:+ NL;
   "This is Yosys/ABC standard-cell mapping at the "
   +:+ "`sky130_fd_sc_hd__tt_025C_1v80` corner. Cache data arrays remain inferred "
   +:+ "`$mem_v2` cells rather than being expanded to flops. Their area, timing, "
   +:+ "routing, and macro halos are unknown until an SRAM macro library and mapping "
   +:+ "are selected. Other inferred structures that do not fit the SRAM contract "
   +:+ "still map to flops and logic. The result contains no placement, routing, "
   +:+ "clock tree, physical-only cells, power grid, or macro halos. Treat the "
   +:+ "percentages as standard-cell logic composition, not whole-core die area." +:+ NL].

(** The lines of resources.md. *)
Definition report (s : Summary) : list string :=
  let cache := cache_memories (s_memories s) in
  let cache_bits := total_bits cache in
  let cells := zsum snd (category_cells (s_categories s)) in
  INTRO ++ (table_row <$> s_rows s)
  ++ ["| **Partitioned total** | **" +:+ comma_fixed 0 (partition_total s) +:+ "** | **100.00%** | **"
      +:+ comma_fixed 0 (seq_total s) +:+ "** | **" +:+ comma_int cells +:+ "** |" +:+ NL;
      "## Inferred SRAM" +:+ NL;
      "The map preserves **" +:+ str_int (zlen cache)
      +:+ " synchronous cache SRAM banks** totaling **" +:+ comma_int cache_bits +:+ " bits ("
      +:+ kib cache_bits +:+ " KiB)**. Their physical area is "
      +:+ "not included in the standard-cell total. Small inferred ROMs are listed separately."
      +:+ NL;
      "| Storage | Banks | Shape | Capacity |";
      "|---|---:|---|---:|"]
  ++ mjoin (group_row (memory_groups (s_memories s)) <$> REPORT_GROUPS)
  ++ [""; "## Flat-map cross-check" +:+ NL; flat_paragraph (s_flat s)]
  ++ CONFIGURATION
  ++ ((λ row, "- **" +:+ block row +:+ ":** " +:+ description row +:+ ".") <$> s_rows s)
  ++ LIMITS.

(** What [main] prints. *)
Definition console (s : Summary) : list string :=
  let cache := cache_memories (s_memories s) in
  let cache_bits := total_bits cache in
  ["partitioned area: " +:+ comma_fixed 1 (partition_total s) +:+ " um^2"]
  ++ match flat_total (s_flat s) with
     | Some total =>
         ["flat area:        " +:+ comma_fixed 1 total +:+ " um^2";
          "boundary delta:   " +:+ fixed 2 (default zero (hierarchy_delta (s_flat s))) +:+ "%"]
     | None => ["flat area:        unavailable ("
                +:+ default "not run" (flat_failure (s_flat s)) +:+ ")"]
     end
  ++ ["cache SRAM:        " +:+ str_int (zlen cache) +:+ " banks, " +:+ comma_int cache_bits
      +:+ " bits (" +:+ kib cache_bits +:+ " KiB)"]
  ++ ((λ row, pad_right 28 (block row) +:+ " " +:+ pad_left 6 (fixed 2 (percent_of_total row))
              +:+ "%  " +:+ pad_left 12 (comma_fixed 1 (area_um2 row)) +:+ " um^2") <$> s_rows s).

(** ** The Nangate45 summary of one core *)

Module Core4pf.
Definition TOP : string := "openrv64_top_4pf".

(** The numbers of [result]; a worker's log contributes its last reported delay
    with its name, the logs being sorted by name. *)
Record Result := {
  variant : string; registered_issue_select : bool; area_um2 : double;
  sequential_area_um2 : double; mapped_library_cells : Z; retained_modules : Z;
  worst_partition_delay_ps : option double; worst_partition_log : option string }.

Definition library_count {R} (library_cells : list string) (stats : Stats R) : Z :=
  zsum snd (filter (λ tc, canonical (tc.1) ∈ library_cells) (num_cells_by_type stats)).

(** [max(delays, default=(None, None))]: tuples, compared by delay, then name. *)
Definition later (a b : double * string) : bool :=
  flt (a.1) (b.1) || (negb (flt (b.1) (a.1)) && negb (String.leb (b.2) (a.2))).
Definition max_delay (best : option (double * string)) (d : double * string)
    : option (double * string) :=
  match best with None => Some d | Some b => if later b d then Some d else Some b end.

Definition log_delay (log : string * list double) : list (double * string) :=
  let '(name, matches) := log in
  match last matches with Some d => [(d, name)] | None => [] end.

Definition summarize (variant : string) (register_issue_select : Z)
    (stat : list (string * Stats double)) (library_cells : list string)
    (logs : list (string * list double)) : result Result :=
  let modules := by_canonical_name stat in
  match d_get TOP modules with
  | None => Err (ValueError (TOP +:+ " missing from mapped stat report"))
  | Some top =>
      let worst := foldl max_delay None (mjoin (log_delay <$> logs)) in
      Ok {| variant := variant;
            registered_issue_select := negb (register_issue_select =? 0);
            area_um2 := default zero (area top);
            sequential_area_um2 := default zero (sequential_area top);
            mapped_library_cells := zsum (λ m, library_count library_cells (m.2)) modules;
            retained_modules := zlen modules;
            worst_partition_delay_ps := fst <$> worst;
            worst_partition_log := snd <$> worst |}
  end.

Definition delay_text (r : Result) : string :=
  match worst_partition_delay_ps r with
  | None => "unavailable"
  | Some d => comma_fixed 2 d +:+ " ps"
  end.

Definition report (r : Result) : list string :=
  ["# Cacheless 4PF Nangate45 map: " +:+ variant r;
   "";
   "- Standard-cell area: " +:+ comma_fixed 3 (area_um2 r) +:+ " um^2";
   "- Sequential-cell area: " +:+ comma_fixed 3 (sequential_area_um2 r) +:+ " um^2";
   "- Mapped library cells: " +:+ comma_int (mapped_library_cells r);
   "- Worst retained-partition unbuffered ABC delay: " +:+ delay_text r;
   "- ABC recipe: `strash; dretime; strash; &get -n; &nf; &put` "
   +:+ "(no buffer/upsize/downsize)";
   "";
   "The area is recursive across retained reporting partitions. L1I and L1D "
   +:+ "are disabled in both variants. The timing number is not a flattened "
   +:+ "whole-core STA result: paths crossing a retained hierarchy boundary are "
   +:+ "not represented by one ABC delay. It is also unbuffered and unsized, so "
   +:+ "it must not be converted into a core frequency.";
   ""].

Definition console (r : Result) : string :=
  variant r +:+ ": area=" +:+ fixed 3 (area_um2 r) +:+ " um^2 seq="
  +:+ fixed 3 (sequential_area_um2 r) +:+ " um^2 cells=" +:+ str_int (mapped_library_cells r)
  +:+ " worst_partition_delay=" +:+ delay_text r.
End Core4pf.

(** ** The walk accounts for every instance *)

(** Exact numbers: the laws that hold without rounding. *)
Class ExactNum (R : Type) `{Num R} : Prop := {
  num_add_comm : ∀ a b : R, add a b = add b a;
  num_add_assoc : ∀ a b c : R, add a (add b c) = add (add a b) c;
  num_zero_add : ∀ a : R, add zero a = a;
  num_sub_add : ∀ a b : R, add (sub a b) b = a;
  num_lt_zero : ∀ a : R, lt a zero = false → lt zero a = false → a = zero;
  num_summed : ∀ l : list R, summed l = foldl add zero l }.

#[export] Instance Z_ExactNum : ExactNum Z.
Proof. split; simpl; (lia || done). Qed.

Section exact.
Context {R : Type} `{ExactNum R}.

(** What clipping at zero adds. *)
Definition clip (x : R) : R := sub (max_zero x) x.

Lemma max_zero_clip x : max_zero x = add x (clip x).
Proof. unfold clip. by rewrite num_add_comm, num_sub_add. Qed.

Lemma clip_nonneg x : lt x zero = false → clip x = zero.
Proof.
  intros Hx. assert (max_zero x = x) as Hm.
  { unfold max_zero. destruct (lt zero x) eqn:Hz; [done|]. symmetry. by apply num_lt_zero. }
  unfold clip. rewrite Hm.
  transitivity (add (add (sub x x) x) (sub zero x)).
  - by rewrite <-num_add_assoc, (num_add_comm x), num_sub_add, num_add_comm, num_zero_add.
  - by rewrite num_sub_add, num_add_comm, num_sub_add.
Qed.

Lemma sum_nil : sum [] = (zero : R).
Proof. exact (num_summed []). Qed.
Lemma sum_cons x l : sum (x :: l) = add x (sum l).
Proof.
  unfold sum. rewrite !num_summed. simpl. rewrite num_zero_add.
  assert (∀ l a b, foldl add (add a b) l = add a (foldl add b l)) as Hf.
  { clear l. induction l as [|y l IH]; intros a b; [done|]. simpl. by rewrite <-num_add_assoc, IH. }
  by rewrite <-Hf, (num_add_comm x), num_zero_add.
Qed.

Lemma sum_app l1 l2 : sum (l1 ++ l2) = add (sum l1) (sum l2).
Proof.
  induction l1 as [|x l1 IH]; [by rewrite sum_nil, num_zero_add|].
  by rewrite <-app_comm_cons, !sum_cons, IH, num_add_assoc.
Qed.

Lemma sum_bump k v d : sum (bump k v d).*2 = add v (sum d.*2).
Proof.
  unfold bump. destruct (d_get k d) as [v0|] eqn:Hk; simpl.
  - destruct (d_set_old k (add v0 v) v0 d Hk) as (d1 & d2 & -> & ->).
    rewrite !fmap_app, !fmap_cons, !sum_app, !sum_cons. simpl.
    rewrite (num_add_comm v0 v), <-(num_add_assoc v v0).
    by rewrite (num_add_assoc (sum d1.*2) v), (num_add_comm (sum d1.*2) v), <-num_add_assoc.
  - rewrite d_set_new by done. rewrite fmap_app, sum_app. simpl.
    rewrite sum_cons, (num_add_comm (add zero v)). rewrite sum_nil.
    rewrite !num_zero_add. apply num_add_comm.
Qed.
End exact.

Section accounting.
Context {R : Type} `{ExactNum R}.
Variables (partition : list (string * Stats R))
  (hierarchy : list (string * list (string * string))) (top : string).

(** The instances under [instance], itself first. *)
Fixpoint visits (fuel : nat) (module instance : string) : list (string * string) :=
  match fuel with
  | O => []
  | S fuel =>
      (module, instance)
      :: mjoin ((λ c, visits fuel (c.1) (instance +:+ "/" +:+ c.2)) <$> children_of hierarchy module)
  end.

(** What a module reports, and what is its own of it. *)
Definition reported (f : Stats R → option R) (module : string) : R :=
  match d_get module partition with Some st => default zero (f st) | None => zero end.
Definition direct_of (f : Stats R → option R) (module : string) : R :=
  sub (reported f module) (sum ((λ c, reported f (c.1)) <$> children_of hierarchy module)).
Definition cells_of (module : string) : Z :=
  match d_get module partition with Some st => mapped_cells st | None => 0 end.

Abbreviation charged f vs := (sum ((λ v, max_zero (direct_of f (v.1))) <$> vs)).
Abbreviation clipped f vs := (sum ((λ v, clip (direct_of f (v.1))) <$> vs)).

(** The totals of [s'] are those of [s] and the instances [vs]. *)
Record accounts (s s' : Categories (R:=R)) (vs : list (string * string)) : Prop := {
  acc_area : sum (category_area s').*2 = add (charged area vs) (sum (category_area s).*2);
  acc_seqs : sum (category_seq s').*2 = add (charged sequential_area vs) (sum (category_seq s).*2);
  acc_cells : zsum snd (category_cells s') = zsum (λ v, cells_of (v.1)) vs + zsum snd (category_cells s);
  acc_instances : mjoin (instances s').*2 ≡ₚ vs.*2 ++ mjoin (instances s).*2;
  acc_kept : ∀ c i, i ∈ default [] (d_get c (instances s)) → i ∈ default [] (d_get c (instances s'));
  acc_placed : ∀ m i, (m, i) ∈ vs → ∃ cd, category_of top m = Ok cd ∧
    i ∈ default [] (d_get (cd.1) (instances s')) }.

Lemma accounts_nil s : accounts s s [].
Proof.
  split; [..|done|set_solver]; try done;
    rewrite fmap_nil, sum_nil; by rewrite num_zero_add.
Qed.

Lemma accounts_app s1 s2 s3 vs1 vs2 :
  accounts s1 s2 vs1 → accounts s2 s3 vs2 → accounts s1 s3 (vs1 ++ vs2).
Proof.
  intros A B. split.
  - by rewrite (acc_area _ _ _ B), (acc_area _ _ _ A), fmap_app, sum_app, num_add_assoc,
      (num_add_comm (charged area vs2)).
  - by rewrite (acc_seqs _ _ _ B), (acc_seqs _ _ _ A), fmap_app, sum_app, num_add_assoc,
      (num_add_comm (charged sequential_area vs2)).
  - rewrite (acc_cells _ _ _ B), (acc_cells _ _ _ A), zsum_app. lia.
  - rewrite (acc_instances _ _ _ B), (acc_instances _ _ _ A), fmap_app. solve_Permutation.
  - intros c i Hi. by apply (acc_kept _ _ _ B), (acc_kept _ _ _ A).
  - intros m i [Hin|Hin]%elem_of_app; [|by apply (acc_placed _ _ _ B)].
    destruct (acc_placed _ _ _ A m i Hin) as (cd & Hc & Hi). exists cd. split; [done|].
    by apply (acc_kept _ _ _ B).
Qed.

Lemma partition_item_Ok m st : partition_item partition m = Ok st → d_get m partition = Some st.
Proof. unfold partition_item. destruct (d_get m partition); [by intros [= ->]|done]. Qed.

Lemma reported_children f cs amounts :
  mapR (λ c : string * string, st ← partition_item partition (c.1); Ok (default zero (f st))) cs = Ok amounts →
  amounts = (λ c, reported f (c.1)) <$> cs.
Proof.
  intros Hm%mapR_Ok. induction Hm as [|c x cs amounts Hx _ IH]; [done|].
  rewrite fmap_cons, IH. f_equal. apply bind_Ok in Hx as (st & Hst & [= <-]).
  unfold reported. by rewrite (partition_item_Ok _ _ Hst).
Qed.

Lemma direct_amounts_Ok m a q :
  direct_amounts partition hierarchy m = Ok (a, q) →
  a = direct_of area m ∧ q = direct_of sequential_area m.
Proof.
  unfold direct_amounts, direct_of, reported. intros (st & Hst & Hx)%bind_Ok.
  rewrite (partition_item_Ok _ _ Hst).
  apply bind_Ok in Hx as (areas & Ha & Hx). apply bind_Ok in Hx as (seqs & Hq & Hx).
  apply reported_children in Ha, Hq. injection Hx as <- <-. by rewrite Ha, Hq.
Qed.

Lemma zsum_snd_set k (v : Z) (d : list (string * Z)) :
  zsum snd (d_set k (default 0 (d_get k d) + v) d) = v + zsum snd d.
Proof.
  change (zsum snd) with (d_sum (K:=string) (λ n : Z, n)). rewrite d_sum_set.
  destruct (d_get k d); simpl; lia.
Qed.

Lemma instances_set k i (d : list (string * list string)) :
  mjoin (d_set k (default [] (d_get k d) ++ [i]) d).*2 ≡ₚ i :: mjoin d.*2.
Proof.
  destruct (d_get k d) as [l|] eqn:Hk; simpl.
  - destruct (d_set_old k (l ++ [i]) l d Hk) as (d1 & d2 & -> & ->).
    rewrite !fmap_app, !fmap_cons, !join_app, !join_cons. solve_Permutation.
  - rewrite d_set_new by done. rewrite fmap_app, join_app. simpl.
    by rewrite Permutation_app_comm.
Qed.

Lemma visit_accounts s m i s' :
  visit partition hierarchy top s m i = Ok s' → accounts s s' [(m, i)].
Proof.
  unfold visit. intros Hx. ok_step Hx.
  apply bind_Ok in Hx as (st & Hst & Hx). apply bind_Ok in Hx as ([a q] & Hd & Hx).
  apply direct_amounts_Ok in Hd as [-> ->]. ok_step Hx.
  apply bind_Ok in Hx as (cd & Hc & Hx). injection Hx as <-.
  assert (∀ x : R, sum [x] = x) as Hone.
  { intros x. rewrite sum_cons, num_add_comm, sum_nil. apply num_zero_add. }
  split; simpl; rewrite ?Hone.
  - apply sum_bump.
  - apply sum_bump.
  - rewrite zsum_snd_set. unfold cells_of. rewrite (partition_item_Ok _ _ Hst). lia.
  - apply instances_set.
  - intros c j Hj. rewrite d_get_set. case_decide; [subst|done]. simpl. set_solver.
  - intros m' i' [= -> ->]%list_elem_of_singleton. exists cd. split; [done|].
    rewrite d_get_set_eq. simpl. set_solver.
Qed.

(** The recursion over the children, for any promise that composes. *)
Lemma walk_accounts fuel s m i s' :
  walk partition hierarchy top fuel s m i = Ok s' → accounts s s' (visits fuel m i).
Proof.
  revert s m i s'. induction fuel as [|fuel IH]; intros s m i s' Hx; [done|].
  cbn [walk visits] in *. apply bind_Ok in Hx as (s1 & H1 & Hx).
  apply visit_accounts in H1. change (?x :: ?l) with ([x] ++ l).
  eapply accounts_app; [exact H1|]. clear H1. revert s1 Hx.
  induction (children_of hierarchy m) as [|c cs IHc]; intros s1 Hx.
  - injection Hx as <-. apply accounts_nil.
  - cbn [foldM] in Hx. apply bind_Ok in Hx as (s2 & H2 & Hx).
    rewrite fmap_cons, join_cons. eapply accounts_app; [by apply IH|by apply IHc].
Qed.

(** A finished walk has reached every instance. *)
Lemma walk_explores fuel s m i s' :
  walk partition hierarchy top fuel s m i = Ok s' →
  (m, i) ∈ visits fuel m i ∧
  ∀ m' i' c, (m', i') ∈ visits fuel m i → c ∈ children_of hierarchy m' →
    (c.1, i' +:+ "/" +:+ c.2) ∈ visits fuel m i.
Proof.
  revert s m i s'. induction fuel as [|fuel IH]; intros s m i s' Hx; [done|].
  cbn [walk visits] in *. apply bind_Ok in Hx as (s1 & _ & Hx).
  split; [set_solver|].
  assert (∀ c, c ∈ children_of hierarchy m → ∃ s2 s3,
    walk partition hierarchy top fuel s2 (c.1) (i +:+ "/" +:+ c.2) = Ok s3) as Hc.
  { revert s1 Hx. induction (children_of hierarchy m) as [|c cs IHc]; intros s1 Hx; [set_solver|].
    cbn [foldM] in Hx. apply bind_Ok in Hx as (s2 & H2 & Hx).
    intros c' [->|Hin]%elem_of_cons; [by exists s1, s2|by apply (IHc s2)]. }
  intros m' i' c [[= -> ->]|Hin]%elem_of_cons Hcm.
  - apply elem_of_cons. right. apply list_elem_of_join.
    exists (visits fuel (c.1) (i +:+ "/" +:+ c.2)). split.
    + destruct (Hc c Hcm) as (s2 & s3 & Hw). by apply (IH s2 _ _ s3).
    + by apply (list_elem_of_fmap_2 (λ c, visits fuel (c.1) (i +:+ "/" +:+ c.2))).
  - apply list_elem_of_join in Hin as (l & Hin & (c0 & -> & Hc0)%list_elem_of_fmap).
    apply elem_of_cons. right. apply list_elem_of_join.
    exists (visits fuel (c0.1) (i +:+ "/" +:+ c0.2)). split.
    + destruct (Hc c0 Hc0) as (s2 & s3 & Hw). by apply (IH s2 _ _ s3 Hw) with (m' := m').
    + by apply (list_elem_of_fmap_2 (λ c, visits fuel (c.1) (i +:+ "/" +:+ c.2))).
Qed.

(** The direct amounts telescope to the report of the root. *)
Lemma walk_telescopes f fuel s m i s' :
  walk partition hierarchy top fuel s m i = Ok s' →
  charged f (visits fuel m i) = add (reported f m) (clipped f (visits fuel m i)).
Proof.
  revert s m i s'. induction fuel as [|fuel IH]; intros s m i s' Hx; [done|].
  cbn [walk visits] in *. apply bind_Ok in Hx as (s1 & _ & Hx).
  rewrite !fmap_cons, !sum_cons. cbn [fst].
  assert (charged f (mjoin ((λ c, visits fuel (c.1) (i +:+ "/" +:+ c.2)) <$> children_of hierarchy m)) =
    add (sum ((λ c, reported f (c.1)) <$> children_of hierarchy m))
      (clipped f (mjoin ((λ c, visits fuel (c.1) (i +:+ "/" +:+ c.2)) <$> children_of hierarchy m)))) as ->.
  { revert s1 Hx. induction (children_of hierarchy m) as [|c cs IHc]; intros s1 Hx.
    - simpl. rewrite sum_nil. by rewrite num_zero_add.
    - cbn [foldM] in Hx. apply bind_Ok in Hx as (s2 & H2 & Hx).
      rewrite !fmap_cons, !join_cons, !fmap_app, !sum_app, sum_cons.
      rewrite (IH _ _ _ _ H2), (IHc s2 Hx). cbn [fst].
      set (A := reported f (c.1)). set (B := clipped f _). set (C := sum _). set (D := clipped f _).
      rewrite <-(num_add_assoc A B), (num_add_assoc B C), (num_add_comm B C).
      by rewrite <-!num_add_assoc. }
  rewrite max_zero_clip. set (K := sum ((λ c, reported f (c.1)) <$> _)).
  assert (add (direct_of f m) K = reported f m) as Hd by apply num_sub_add.
  rewrite <-Hd. set (X := direct_of f m). set (Y := clip _). set (Z := clipped f _).
  by rewrite <-(num_add_assoc X Y), (num_add_assoc Y K), (num_add_comm Y K), <-!num_add_assoc.
Qed.
End accounting.

(** C15: in exact arithmetic the categories account for the whole retained hierarchy.  A
    walk that returns has visited every instance below the top once and put it in its
    module's category; the categories' cells are those of the visited instances, and their
    areas add up to the area the top reports, plus only what clipping at zero added (nothing
    when no module reports less than its children). *)
Theorem walk_exact {R} `{ExactNum R} partition hierarchy top s :
  walk_top (R:=R) partition hierarchy top = Ok s →
  let vs := visits hierarchy (S (length partition)) top top in
  (∀ f s_sum, (f, s_sum) = (area, sum (category_area s).*2) ∨
              (f, s_sum) = (sequential_area, sum (category_seq s).*2) →
     s_sum = add (reported partition f top)
               (sum ((λ v, clip (direct_of partition hierarchy f (v.1))) <$> vs)) ∧
     ((∀ v, v ∈ vs → lt (direct_of partition hierarchy f (v.1)) zero = false) →
        s_sum = reported partition f top)) ∧
  zsum snd (category_cells s) = zsum (λ v, cells_of partition (v.1)) vs ∧
  mjoin (instances s).*2 ≡ₚ vs.*2 ∧
  (∀ m i, (m, i) ∈ vs → ∃ cd, category_of top m = Ok cd ∧ i ∈ default [] (d_get (cd.1) (instances s))) ∧
  (top, top) ∈ vs ∧
  (∀ m i c, (m, i) ∈ vs → c ∈ children_of hierarchy m → (c.1, i +:+ "/" +:+ c.2) ∈ vs).
Proof.
  intros Hw vs. unfold walk_top in Hw. pose proof (walk_accounts _ _ _ _ _ _ _ _ Hw) as A.
  pose proof (walk_explores _ _ _ _ _ _ _ _ Hw) as [Hroot Hkids].
  assert (∀ x : R, add x (sum (@nil R)) = x) as Hnil.
  { intros x. rewrite sum_nil, num_add_comm. apply num_zero_add. }
  split; [|split; [|split; [|split; [|done]]]].
  - assert (∀ f s_sum, s_sum = sum ((λ v, max_zero (direct_of partition hierarchy f (v.1))) <$> vs) →
      s_sum = add (reported partition f top)
               (sum ((λ v, clip (direct_of partition hierarchy f (v.1))) <$> vs)) ∧
      ((∀ v, v ∈ vs → lt (direct_of partition hierarchy f (v.1)) zero = false) →
        s_sum = reported partition f top)) as Hf.
    { intros f s_sum ->. pose proof (walk_telescopes _ _ _ f _ _ _ _ _ Hw) as Ht.
      fold vs in Ht. split; [exact Ht|]. intros Hpos. rewrite Ht.
      assert (sum ((λ v, clip (direct_of partition hierarchy f (v.1))) <$> vs) = zero) as ->;
        [|rewrite num_add_comm; apply num_zero_add].
      clear -Hpos H H0. induction vs as [|v vs IH]; [exact sum_nil|].
      rewrite fmap_cons, sum_cons, IH by set_solver. rewrite clip_nonneg by set_solver.
      apply num_zero_add. }
    intros f s_sum [[= -> ->]|[= -> ->]]; apply Hf.
    + rewrite (acc_area _ _ _ _ _ _ A). apply Hnil.
    + rewrite (acc_seqs _ _ _ _ _ _ A). apply Hnil.
  - rewrite (acc_cells _ _ _ _ _ _ A). simpl. lia.
  - rewrite (acc_instances _ _ _ _ _ _ A). simpl. by rewrite app_nil_r.
  - apply (acc_placed _ _ _ _ _ _ A).
Qed.

(** ** Termination of the walk *)

Section terminates.
Context {R : Type} `{Num R}.
Variables (partition : list (string * Stats R))
  (hierarchy : list (string * list (string * string))) (top : string).

Definition kid (x y : string) : Prop := ∃ i, (y, i) ∈ children_of hierarchy x.

Definition too_deep : exn := RuntimeError "maximum recursion depth exceeded".

Lemma mapR_Err {A B} (f : A → result B) l e :
  mapR f l = Err e → ∃ x, x ∈ l ∧ f x = Err e.
Proof.
  induction l as [|x l IH]; [done|]. simpl. intros Hx.
  destruct (f x) as [y|e'] eqn:Hf; simpl in Hx.
  - destruct (mapR f l); [done|]. destruct IH as (z & Hz & Hfz); [exact Hx|].
    exists z. split; [set_solver|done].
  - injection Hx as ->. exists x. split; [set_solver|done].
Qed.

Lemma partition_item_error m : partition_item partition m ≠ Err too_deep.
Proof. unfold partition_item. by destruct (d_get m partition). Qed.

Lemma visit_error s m i : visit partition hierarchy top s m i ≠ Err too_deep.
Proof.
  assert (∀ f : Stats R → option R, mapR (λ c : string * string,
    st ← partition_item partition (c.1); Ok (default zero (f st))) (children_of hierarchy m) ≠ Err too_deep) as Hc.
  { intros f ([c j] & _ & Hx)%mapR_Err. simpl in Hx.
    destruct (partition_item partition c) eqn:Hp; simpl in Hx; [done|].
    injection Hx as ->. by apply partition_item_error in Hp. }
  unfold visit, direct_amounts. case_bool_decide; [done|].
  pose proof (partition_item_error m) as Hm.
  destruct (partition_item partition m) as [st|e]; [|by simpl; congruence].
  cbn [mbind result_bind].
  pose proof (Hc area) as H1. destruct (mapR _ (children_of hierarchy m)) as [l1|e]; [|by simpl; congruence].
  cbn [mbind result_bind].
  pose proof (Hc sequential_area) as H2.
  destruct (mapR (λ c, _ ← _; Ok (default zero (sequential_area _))) _) as [l2|e]; [|by simpl; congruence].
  cbn [mbind result_bind]. case_goal; [done|].
  unfold category_of, category_for. case_bool_decide; [done|].
  by destruct (d_get _ CATEGORIES).
Qed.

Lemma visit_member s m i s' :
  visit partition hierarchy top s m i = Ok s' → m ∈ partition.*1.
Proof.
  unfold visit. intros Hx. ok_step Hx. apply bool_decide_eq_false in Heqb.
  destruct (decide (m ∈ partition.*1)) as [|Hm]; [done|]. by apply d_get_None in Hm.
Qed.

Lemma walk_depth fuel s m i path :
  (∀ x, ¬ tc kid x x) → NoDup path → path ⊆ partition.*1 → (∀ x, x ∈ path → tc kid x m) →
  (length partition < fuel + length path)%nat →
  walk partition hierarchy top fuel s m i ≠ Err too_deep.
Proof.
  intros Hac. revert s m i path.
  induction fuel as [|fuel IH]; intros s m i path Hnd Hsub Hpath Hf.
  { pose proof (path_bound _ _ Hnd Hsub) as Hb. rewrite length_fmap in Hb. lia. }
  cbn [walk]. pose proof (visit_error s m i) as Hv.
  destruct (visit partition hierarchy top s m i) as [s1|e] eqn:Hvis; [|by simpl; congruence].
  apply visit_member in Hvis. cbn [mbind result_bind].
  assert (m ∉ path) as Hm by (intros Hin; apply (Hac m), Hpath, Hin).
  assert (∀ c, c ∈ children_of hierarchy m → ∀ s2,
    walk partition hierarchy top fuel s2 (c.1) (i +:+ "/" +:+ c.2) ≠ Err too_deep) as Hc.
  { intros [c j] Hc s2. apply (IH s2 c _ (m :: path)).
    - by apply NoDup_cons.
    - set_solver.
    - assert (kid m c) as Hk by (by exists j).
      intros x [->|Hx]%elem_of_cons; [by apply tc_once|]. eapply tc_r; [by apply Hpath|done].
    - simpl. lia. }
  clear Hv. revert s1. induction (children_of hierarchy m) as [|c cs IHc]; intros s1; [done|].
  cbn [foldM]. pose proof (Hc c ltac:(set_solver) s1) as Hw.
  destruct (walk _ _ _ _ _ _ _) as [s2|e]; [|by simpl; congruence].
  cbn [mbind result_bind]. apply IHc. set_solver.
Qed.
End terminates.

(** The walk terminates on every hierarchy without a cycle: its recursion is bounded
    by the number of modules, so the depth limit is never the reason for a failure. *)
Theorem walk_terminates {R} `{Num R} partition hierarchy top :
  (∀ m, ¬ tc (kid hierarchy) m m) →
  walk_top (R:=R) partition hierarchy top ≠ Err (RuntimeError "maximum recursion depth exceeded").
Proof.
  intros Hac. unfold walk_top. apply (walk_depth _ _ _ _ _ _ _ []); [done|apply NoDup_nil_2|..].
  - set_solver.
  - set_solver.
  - simpl. lia.
Qed.

(** ** Memories survive the dump *)

Definition word_ok (w : string) : Prop :=
  chars w ≠ [] ∧ Forall (λ c, blank c = false) (chars w).

Lemma words_go_run cur s rest :
  Forall (λ c, blank c = false) s → words_go cur (s ++ rest) = words_go (cur ++ s) rest.
Proof.
  intros Hs. revert cur. induction Hs as [|c s Hc Hs IH]; intros cur; [by rewrite app_nil_r|].
  simpl. by rewrite Hc, IH, <-app_assoc.
Qed.

Lemma words_one w : word_ok w → words_go [] (chars w) = [w].
Proof.
  intros [Hne Hw]. rewrite <-(app_nil_r (chars w)), words_go_run, app_nil_l by done. simpl.
  rewrite bool_decide_eq_false_2 by done. by rewrite of_chars_chars.
Qed.

Lemma str_int_chars n :
  0 ≤ n → chars (str_int n) ≠ [] ∧ Forall (λ c, (48 <=? code c) && (code c <=? 57) = true) (chars (str_int n)).
Proof.
  intros Hn. unfold str_int, format_int. rewrite chars_of_chars.
  destruct (Z.ltb_spec n 0); [lia|]. rewrite Z.abs_eq by done.
  destruct (digits_spec 10 n) as (Hne & Hds & _); [lia|done|].
  assert (Z.to_nat (0 - zlen (digit_char <$> digits 10 n) - zlen (@nil ascii)) = 0%nat) as ->.
  { pose proof (zlen_nonneg (digit_char <$> digits 10 n)). change (zlen (@nil ascii)) with 0. lia. }
  simpl. split; [by destruct (digits 10 n)|]. apply Forall_fmap. eapply Forall_impl; [exact Hds|].
  intros d Hd. simpl.
  by apply (zrange_check (λ d, (48 <=? code (digit_char d)) && (code (digit_char d) <=? 57)) 0 10 d).
Qed.

Lemma digit_not_blank c : (48 <=? code c) && (code c <=? 57) = true → blank c = false.
Proof.
  intros Hc. unfold blank.
  assert (Ascii.is_space c = false) as ->; [|b2p; destruct (Z.leb_spec 28 (code c)), (Z.leb_spec (code c) 31); simpl; lia].
  destruct c as [[] [] [] [] [] [] [] []]; vm_compute in Hc; try discriminate Hc; reflexivity.
Qed.

Lemma str_int_word n : 0 ≤ n → word_ok (str_int n).
Proof.
  intros Hn. destruct (str_int_chars n Hn) as [Hne Hd]. split; [done|].
  eapply Forall_impl; [exact Hd|]. apply digit_not_blank.
Qed.

Lemma all_digits_str n : 0 ≤ n → all_digits (str_int n) = true.
Proof.
  intros Hn. destruct (str_int_chars n Hn) as [Hne Hd]. unfold all_digits.
  rewrite bool_decide_eq_false_2 by (intros He; by rewrite He in Hne). simpl.
  apply forallb_forall. intros c Hc. rewrite Forall_forall in Hd. by apply Hd, list_elem_of_In.
Qed.

Lemma decimal_str n : 0 ≤ n → decimal (str_int n) = n.
Proof. intros Hn. unfold decimal. by rewrite str_int_int. Qed.

(** The line of a parameter, as Yosys dumps it. *)
Definition parameter_line (name value : string) : string :=
  "    parameter \" +:+ name +:+ " " +:+ value.
Definition clock_value (clk : string) : string := str_int (zlen (chars clk)) +:+ "'" +:+ clk.
Definition memory_lines (m : Memory) : list string :=
  ["  cell $mem_v2 \" +:+ m_name m;
   parameter_line "WIDTH" (str_int (width m)); parameter_line "SIZE" (str_int (size m));
   parameter_line "RD_PORTS" (str_int (read_ports m));
   parameter_line "WR_PORTS" (str_int (write_ports m));
   parameter_line "RD_CLK_ENABLE" (clock_value (read_clock_enable m))].
Definition module_lines (entry : string * list Memory) : list string :=
  ("module \" +:+ entry.1) :: mjoin (memory_lines <$> entry.2).

Definition memory_ok (module : string) (m : Memory) : Prop :=
  m_module m = module ∧ word_ok (m_name m) ∧ 0 ≤ width m ∧ 0 ≤ size m ∧ 0 ≤ read_ports m ∧
  0 ≤ write_ports m ∧ chars (read_clock_enable m) ≠ [] ∧
  Forall (λ c, c = "0"%char ∨ c = "1"%char) (chars (read_clock_enable m)) ∧
  m_keys m = MEMORY_KEYS ∧
  bits m = width m * size m ∧ group m = memory_group module (m_name m) (write_ports m).

Definition partial_of (m : Memory) : Partial :=
  {| p_module := m_module m; p_name := m_name m; p_width := Some (width m);
     p_size := Some (size m); p_read_ports := Some (read_ports m);
     p_write_ports := Some (write_ports m); p_read_clock_enable := Some (read_clock_enable m);
     p_keys := m_keys m |}.

Lemma canonical_backslash s : canonical ("\" +:+ s) = s.
Proof. unfold canonical. simpl. apply of_chars_chars. Qed.

Lemma backslash_word w : word_ok w → word_ok ("\" +:+ w).
Proof. intros [_ Hw]. split; [done|]. simpl. by apply Forall_cons. Qed.

(** The parameters a memory record is read from. *)
Definition PARAMETERS : list string := ["WIDTH"; "SIZE"; "RD_PORTS"; "WR_PORTS"; "RD_CLK_ENABLE"].

Lemma parameter_words name value :
  name ∈ PARAMETERS → word_ok value →
  match_words 4 "parameter" (parameter_line name value) = Some ["\" +:+ name; value] ∧
  match_module (parameter_line name value) = None ∧
  match_memory_cell (parameter_line name value) = None.
Proof.
  intros Hn Hv. rewrite <-(words_one value Hv). unfold PARAMETERS in Hn.
  repeat (apply elem_of_cons in Hn as [->|Hn]); try by apply elem_of_nil in Hn.
  all: split; [reflexivity|split; reflexivity].
Qed.

Lemma cell_words name :
  word_ok name →
  match_module ("  cell $mem_v2 \" +:+ name) = None ∧
  match_memory_cell ("  cell $mem_v2 \" +:+ name) = Some ("\" +:+ name).
Proof.
  intros Hn. split; [reflexivity|].
  assert (match_words 2 "cell" ("  cell $mem_v2 \" +:+ name) =
    Some ("$mem_v2" :: words_go [] (chars ("\" +:+ name)))) as Hw by reflexivity.
  unfold match_memory_cell. rewrite Hw, words_one by by apply backslash_word. done.
Qed.

Lemma module_words name : word_ok name → match_module ("module \" +:+ name) = Some ("\" +:+ name).
Proof.
  intros Hn. assert (match_words 0 "module" ("module \" +:+ name) =
    Some (words_go [] (chars ("\" +:+ name)))) as Hw by reflexivity.
  unfold match_module. by rewrite Hw, words_one by by apply backslash_word.
Qed.

Lemma after_quote_value s rest seen :
  Forall (λ c, (48 <=? code c) && (code c <=? 57) = true) s → s ≠ [] ∨ seen = true →
  after_quote seen (s ++ char_of 39 :: rest) = Some rest.
Proof.
  intros Hs. revert seen. induction Hs as [|c s Hc Hs IH]; intros seen Hne.
  - destruct Hne as [?| ->]; [done|]. reflexivity.
  - simpl. rewrite Hc. apply IH. by right.
Qed.

Lemma clock_chars clk : chars (clock_value clk) = chars (str_int (zlen (chars clk))) ++ char_of 39 :: chars clk.
Proof. unfold clock_value. by rewrite !chars_app. Qed.

Lemma bits_not_blank clk :
  Forall (λ c, c = "0"%char ∨ c = "1"%char) (chars clk) → word_ok (clock_value clk).
Proof.
  intros Hc. split.
  - rewrite clock_chars. by destruct (chars (str_int _)).
  - rewrite clock_chars. destruct (str_int_word (zlen (chars clk))) as [_ Hw]; [apply zlen_nonneg|].
    apply Forall_app. split; [done|]. apply Forall_cons. split; [reflexivity|].
    eapply Forall_impl; [exact Hc|]. by intros c [-> | ->].
Qed.

Definition number_fields (name : string) (v : Z) (p : Partial) : option Partial :=
  match_parameter (parameter_line name (str_int v)) p.

Lemma parameter_step name v p p' ms module :
  name ∈ ["WIDTH"; "SIZE"; "RD_PORTS"; "WR_PORTS"] → 0 ≤ v → number_fields name v p = Some p' →
  scan_line {| memories := ms; current_module := Some module; current_memory := Some p |}
    (parameter_line name (str_int v)) =
  Ok {| memories := ms; current_module := Some module; current_memory := Some p' |}.
Proof.
  intros Hn Hv Hp. destruct (parameter_words name (str_int v)) as (_ & Hm & Hc);
    [unfold PARAMETERS; set_solver|by apply str_int_word|].
  unfold scan_line. rewrite Hm, Hc. cbn [current_memory memories current_module].
  unfold number_fields in Hp. by rewrite Hp.
Qed.

Lemma number_fields_spec name v p :
  name ∈ PARAMETERS → 0 ≤ v →
  number_fields name v p =
    (if bool_decide ("\" +:+ name = "\WIDTH") then
       Some {| p_module := p_module p; p_name := p_name p; p_width := Some v; p_size := p_size p;
               p_read_ports := p_read_ports p; p_write_ports := p_write_ports p;
               p_read_clock_enable := p_read_clock_enable p;
                p_keys := add_key "width" (p_keys p) |}
     else if bool_decide ("\" +:+ name = "\SIZE") then
       Some {| p_module := p_module p; p_name := p_name p; p_width := p_width p; p_size := Some v;
               p_read_ports := p_read_ports p; p_write_ports := p_write_ports p;
               p_read_clock_enable := p_read_clock_enable p;
                p_keys := add_key "size" (p_keys p) |}
     else if bool_decide ("\" +:+ name = "\RD_PORTS") then
       Some {| p_module := p_module p; p_name := p_name p; p_width := p_width p;
               p_size := p_size p; p_read_ports := Some v; p_write_ports := p_write_ports p;
               p_read_clock_enable := p_read_clock_enable p;
                p_keys := add_key "read_ports" (p_keys p) |}
     else if bool_decide ("\" +:+ name = "\WR_PORTS") then
       Some {| p_module := p_module p; p_name := p_name p; p_width := p_width p;
               p_size := p_size p; p_read_ports := p_read_ports p; p_write_ports := Some v;
               p_read_clock_enable := p_read_clock_enable p;
                p_keys := add_key "write_ports" (p_keys p) |}
     else None).
Proof.
  intros Hn Hv. unfold number_fields, match_parameter.
  destruct (parameter_words name (str_int v) Hn (str_int_word v Hv)) as (-> & _).
  by rewrite all_digits_str, decimal_str by done.
Qed.

Lemma clock_step clk p ms module :
  chars clk ≠ [] → Forall (λ c, c = "0"%char ∨ c = "1"%char) (chars clk) →
  scan_line {| memories := ms; current_module := Some module; current_memory := Some p |}
    (parameter_line "RD_CLK_ENABLE" (clock_value clk)) =
  Ok {| memories := ms; current_module := Some module;
        current_memory := Some {| p_module := p_module p; p_name := p_name p;
          p_width := p_width p; p_size := p_size p; p_read_ports := p_read_ports p;
          p_write_ports := p_write_ports p; p_read_clock_enable := Some clk;
                p_keys := add_key "read_clock_enable" (p_keys p) |} |}.
Proof.
  intros Hne Hc. destruct (parameter_words "RD_CLK_ENABLE" (clock_value clk)) as (Hw & Hm & Hmc);
    [unfold PARAMETERS; set_solver|by apply bits_not_blank|].
  unfold scan_line. rewrite Hm, Hmc. cbn [current_memory memories current_module].
  assert (match_parameter (parameter_line "RD_CLK_ENABLE" (clock_value clk)) p = None) as ->.
  { unfold match_parameter. rewrite Hw. by destruct (negb _). }
  unfold match_read_clock. rewrite Hw, clock_chars, after_quote_value.
  2: by apply str_int_chars, zlen_nonneg.
  2: left; by apply str_int_chars, zlen_nonneg.
  rewrite (bool_decide_eq_true_2 ("\" +:+ "RD_CLK_ENABLE" = _)) by reflexivity.
  rewrite (bool_decide_eq_false_2 (chars clk = [])) by done. cbn [andb negb].
  assert (forallb (λ c, bool_decide (c = "0"%char ∨ c = "1"%char)) (chars clk) = true) as ->.
  { apply forallb_forall. intros c Hin. apply bool_decide_eq_true_2.
    rewrite Forall_forall in Hc. by apply Hc, list_elem_of_In. }
  cbn [default from_option id]. by rewrite of_chars_chars.
Qed.

Lemma finish_partial m ms module :
  memory_ok module m → finish_memory (Some (partial_of m)) ms = Ok (ms ++ [m]).
Proof.
  intros (<- & _ & _ & _ & _ & _ & _ & _ & _ & Hb & Hg). simpl. rewrite <-Hb, <-Hg.
  by destruct m.
Qed.

Lemma scan_cell name ms ms' module pending :
  word_ok name → finish_memory pending ms = Ok ms' →
  scan_line {| memories := ms; current_module := Some module; current_memory := pending |}
    ("  cell $mem_v2 \" +:+ name) =
  Ok {| memories := ms'; current_module := Some module;
        current_memory := Some (new_memory module name) |}.
Proof.
  intros Hn Hf. unfold scan_line. destruct (cell_words name Hn) as [-> ->].
  cbn [memories current_module current_memory]. rewrite Hf. cbn [mbind result_bind].
  by rewrite canonical_backslash.
Qed.

Lemma scan_module name ms ms' module pending :
  word_ok name → finish_memory pending ms = Ok ms' →
  scan_line {| memories := ms; current_module := module; current_memory := pending |}
    ("module \" +:+ name) =
  Ok {| memories := ms'; current_module := Some name; current_memory := None |}.
Proof.
  intros Hn Hf. unfold scan_line. rewrite module_words by done.
  cbn [memories current_memory]. rewrite Hf. cbn [mbind result_bind].
  by rewrite canonical_backslash.
Qed.

(** Reading the lines of one memory leaves it as the record under
    construction, after the one before has been finished. *)
Lemma scan_memory m module ms ms' pending :
  memory_ok module m → finish_memory pending ms = Ok ms' →
  foldM scan_line {| memories := ms; current_module := Some module; current_memory := pending |}
    (memory_lines m) =
  Ok {| memories := ms'; current_module := Some module; current_memory := Some (partial_of m) |}.
Proof.
  intros (Hmod & Hname & Hw & Hs & Hr & Hp & Hne & Hclk & Hkeys & _ & _) Hfin.
  unfold memory_lines. cbn [foldM].
  rewrite (scan_cell _ ms ms') by done. cbn [mbind result_bind].
  do 4 (erewrite parameter_step; [|set_solver|done|
    rewrite number_fields_spec by (done || (unfold PARAMETERS; set_solver)); reflexivity];
    cbn [mbind result_bind p_module p_name p_width p_size p_read_ports p_write_ports
         p_read_clock_enable p_keys new_memory]).
  rewrite clock_step by done. cbn [mbind result_bind]. unfold partial_of. by rewrite Hmod, Hkeys.
Qed.

Lemma scan_memories l module ms ms' pending :
  Forall (memory_ok module) l → finish_memory pending ms = Ok ms' →
  ∃ ms2 pending2,
    foldM scan_line {| memories := ms; current_module := Some module; current_memory := pending |}
      (mjoin (memory_lines <$> l)) =
    Ok {| memories := ms2; current_module := Some module; current_memory := pending2 |} ∧
    finish_memory pending2 ms2 = Ok (ms' ++ l).
Proof.
  intros Hl. revert ms ms' pending. induction Hl as [|m l Hm Hl IH]; intros ms ms' pending Hfin.
  - exists ms, pending. by rewrite app_nil_r.
  - rewrite fmap_cons, join_cons, foldM_app, (scan_memory m module ms ms') by done.
    cbn [mbind result_bind].
    destruct (IH ms' (ms' ++ [m]) (Some (partial_of m)) (finish_partial m ms' module Hm))
      as (ms2 & p2 & H1 & H2).
    exists ms2, p2. split; [exact H1|]. by rewrite H2, <-app_assoc.
Qed.

(** Inferred_memories reads back every dump of memories: from the lines of any
    modules with any complete records (word-like names, natural parameters, a clock-enable
    constant) it returns exactly those memories, in order, with bits and group computed. *)
Theorem memories_roundtrip (entries : list (string * list Memory)) :
  Forall (λ e, word_ok (e.1) ∧ Forall (memory_ok (e.1)) (e.2)) entries →
  inferred_memories (mjoin (module_lines <$> entries)) = Ok (mjoin entries.*2).
Proof.
  intros He. unfold inferred_memories.
  cut (∀ ms ms' module pending, finish_memory pending ms = Ok ms' → ∃ s,
    foldM scan_line {| memories := ms; current_module := module; current_memory := pending |}
      (mjoin (module_lines <$> entries)) = Ok s ∧
    finish_memory (current_memory s) (memories s) = Ok (ms' ++ mjoin entries.*2)).
  { intros Hgen. destruct (Hgen [] [] None None eq_refl) as (s & -> & Hs). exact Hs. }
  induction He as [|[name l] entries [Hn Hl] _ IH]; intros ms ms' module pending Hfin.
  - eexists. split; [reflexivity|]. simpl. by rewrite app_nil_r.
  - rewrite !fmap_cons, !join_cons, foldM_app.
    change (module_lines (name, l)) with (("module \" +:+ name) :: mjoin (memory_lines <$> l)).
    cbn [fst snd] in *. cbn [foldM]. rewrite (scan_module name ms ms') by done. cbn [mbind result_bind].
    destruct (scan_memories l name ms' ms' None Hl eq_refl) as (ms2 & p2 & -> & H2).
    cbn [mbind result_bind].
    destruct (IH ms2 (ms' ++ l) (Some name) p2 H2) as (s & Hs1 & Hs2).
    exists s. split; [exact Hs1|]. by rewrite Hs2, <-app_assoc.
Qed.

(** ** A small core *)

Definition stats_of (a : Z) (cells : list (string * Z)) : Stats Z :=
  {| area := Some a; sequential_area := Some 0; num_cells_by_type := cells; fields := [] |}.
Definition sample_partition : list (string * Stats Z) :=
  [("top", stats_of 100 []); ("openrv64_fetch_3w", stats_of 30 [("\sky130_fd_sc_hd__inv_1", 7)]);
   ("openrv64_bus_tlb", stats_of 8 [("sky130_fd_sc_hd__dfxtp_1", 2); ("$mem_v2", 1)])].
Definition sample_kids : list (string * list (string * string)) :=
  [("top", [("openrv64_fetch_3w", "u_fetch")]);
   ("openrv64_fetch_3w", [("openrv64_bus_tlb", "u_itlb"); ("openrv64_bus_tlb", "u_dtlb")])].
Definition sample_walk : Categories (R:=Z) :=
  match walk_top sample_partition sample_kids "top" with Ok s => s | Err _ => no_categories end.

Example sample_categories :
  category_area sample_walk = [("AXI wrapper/glue", 70); ("Fetch/line buffers", 14); ("I/D TLBs", 16)] ∧
  instances sample_walk =
    [("AXI wrapper/glue", ["top"]); ("Fetch/line buffers", ["top/u_fetch"]);
     ("I/D TLBs", ["top/u_fetch/u_itlb"; "top/u_fetch/u_dtlb"])].
Proof. split; vm_compute; reflexivity. Qed.

Lemma walk_exact_witness :
  walk_top sample_partition sample_kids "top" = Ok sample_walk ∧
  zsum snd (category_cells sample_walk) = 11 ∧ sum (category_area sample_walk).*2 = 100.
Proof.
  assert (walk_top sample_partition sample_kids "top" = Ok sample_walk) as Hw
    by (vm_compute; reflexivity).
  destruct (walk_exact sample_partition sample_kids "top" sample_walk Hw) as (Hsum & Hcells & _).
  split; [exact Hw|]. split; [rewrite Hcells; vm_compute; reflexivity|].
  destruct (Hsum area _ (or_introl eq_refl)) as [Heq _]. rewrite Heq. vm_compute. reflexivity.
Defined.

Lemma sample_acyclic : ∀ m, ¬ tc (kid sample_kids) m m.
Proof.
  assert (∀ x y, kid sample_kids x y →
    (x = "top" ∧ y = "openrv64_fetch_3w") ∨ (x = "openrv64_fetch_3w" ∧ y = "openrv64_bus_tlb")) as Hk.
  { intros x y [i Hi]. unfold children_of, sample_kids in Hi. simpl in Hi.
    destruct (decide (x = "top")) as [->|]; [left; set_solver|].
    destruct (decide (x = "openrv64_fetch_3w")) as [->|]; [right; set_solver|].
    simpl in Hi. by apply elem_of_nil in Hi. }
  assert (∀ x y, tc (kid sample_kids) x y →
    (x = "top" ∧ y ≠ "top") ∨ (x = "openrv64_fetch_3w" ∧ y = "openrv64_bus_tlb")) as Ht.
  { induction 1 as [x y Hxy|x y z Hxy _ IH]; apply Hk in Hxy; naive_solver. }
  intros m Hm. apply Ht in Hm. naive_solver.
Qed.

Lemma walk_terminates_witness :
  (∀ m, ¬ tc (kid sample_kids) m m) ∧
  walk_top sample_partition sample_kids "top" ≠ Err (RuntimeError "maximum recursion depth exceeded").
Proof.
  split; [exact sample_acyclic|].
  exact (walk_terminates sample_partition sample_kids "top" sample_acyclic).
Defined.

Definition sample_memory : Memory :=
  {| m_module := "openrv64_l1d_icx"; m_name := "tag_overlay_mem"; width := 576; size := 8;
     read_ports := 1; write_ports := 1; read_clock_enable := "1"; m_keys := MEMORY_KEYS; bits := 4608;
     group := "L1D request overlay" |}.
Lemma sample_entries_ok :
  Forall (λ e, word_ok (e.1) ∧ Forall (memory_ok (e.1)) (e.2)) [("openrv64_l1d_icx", [sample_memory])].
Proof.
  apply Forall_singleton. split; [split; [done|by repeat constructor]|].
  apply Forall_singleton. unfold memory_ok. simpl.
  split; [done|]. split; [split; [done|by repeat constructor]|].
  do 4 (split; [lia|]). split; [done|]. split; [|split; [done|split; [done|vm_compute; reflexivity]]].
  apply Forall_singleton. by right.
Qed.

Lemma memories_roundtrip_witness :
  Forall (λ e, word_ok (e.1) ∧ Forall (memory_ok (e.1)) (e.2)) [("openrv64_l1d_icx", [sample_memory])] ∧
  inferred_memories (module_lines ("openrv64_l1d_icx", [sample_memory])) = Ok [sample_memory].
Proof.
  split; [exact sample_entries_ok|].
  exact (memories_roundtrip [("openrv64_l1d_icx", [sample_memory])] sample_entries_ok).
Defined.
