(* ===== verification/ElfSymbols.v ===== *)
(** * ELF function symbols

    [tools/elf_symbols.py]: the symbol tables read from the output of nm, and
    the symbolization of program counters. *)

From stdpp Require Import base numbers list strings sorting.
From Stdlib Require Import ZArith Lia Ascii.
From S2P Require Import Prelude PyText PyDict PySearch.

Open Scope Z_scope.

Record ElfImage := { image_name : string; image_path : string }.
Record FunctionSymbol := { address : Z; name : string }.
Record SymbolizedPc := { image : string; function : string; base : Z; offset : Z }.

Definition text (self : SymbolizedPc) : string :=
  image self +:+ ":" +:+ function self +:+ "+0x" +:+ hex_int (offset self)
  +:+ "@0x" +:+ hex_pad 16 (base self).

Record SymbolTable := {
  table_image : ElfImage; symbols : list FunctionSymbol; addresses : list Z }.

(** [SymbolTable(image, symbols)] *)
Definition make_table (image : ElfImage) (symbols : list FunctionSymbol) : result SymbolTable :=
  raise (ValueError ("ELF has no function symbols: " +:+ image_path image))
    when bool_decide (length symbols = O);;
  Ok {| table_image := image; symbols := symbols; addresses := address <$> symbols |}.

Definition lookup (self : SymbolTable) (pc : Z) : option SymbolizedPc :=
  match bisect_right (addresses self) pc with
  | O => None
  | S position =>
      match symbols self !! position with
      | None => None
      | Some symbol =>
          let found := Some {| image := image_name (table_image self); function := name symbol;
                               base := address symbol; offset := pc - address symbol |} in
          match symbols self !! S position with
          | Some next => if address next <=? pc then None else found
          | None => if 1024 * 1024 <? pc - address symbol then None else found
          end
      end
  end.

Definition parse_elf_image (value : string) : result ElfImage :=
  match split_at "="%char (chars value) with
  | None => Err (ArgumentTypeError "ELF must be named as IMAGE=PATH")
  | Some (name, path) =>
      raise (ArgumentTypeError "ELF image name must not be empty") when bool_decide (name = []);;
      raise (ArgumentTypeError "ELF path must not be empty") when bool_decide (path = []);;
      Ok {| image_name := of_chars name; image_path := of_chars path |}
  end.

(** One line of nm; lines that are no function symbols are skipped. *)
Definition symbol_line (line : string) : list FunctionSymbol :=
  match split_max 2 (chars line) with
  | [address; kind; name] =>
      if negb (contains kind "tTwW") then [] else
      match py_int 16 address with
      | Some address => [{| address := address; name := name |}]
      | None => []
      end
  | _ => []
  end.

(** [{symbol.address: symbol for symbol in symbols}] *)
Definition by_address (symbols : list FunctionSymbol) : list (Z * FunctionSymbol) :=
  foldl (λ d symbol, d_set (address symbol) symbol d) [] symbols.

(** [nm] runs the tool on a command line and gives the lines of its output. *)
Definition load_symbol_table (run : list string → result (list string)) (image : ElfImage)
    (nm : string) : result SymbolTable :=
  lines ← run [nm; "-n"; "--defined-only"; image_path image];
  let latest := by_address (mjoin (symbol_line <$> lines)) in
  make_table image (omap (λ a, d_get a latest) (sorted_set latest.*1)).

Definition load_symbol_tables (run : list string → result (list string))
    (images : list ElfImage) (nm : string) : result (list SymbolTable) :=
  mapR (λ image, load_symbol_table run image nm) images.

(** [min(candidates, key=offset)]: the first of the smallest. *)
Fixpoint min_offset (best : SymbolizedPc) (l : list SymbolizedPc) : SymbolizedPc :=
  match l with
  | [] => best
  | c :: l => min_offset (if offset c <? offset best then c else best) l
  end.
Definition symbolize (tables : list SymbolTable) (pc : Z) : option SymbolizedPc :=
  match omap (λ table, lookup table pc) tables with
  | [] => None
  | c :: l => Some (min_offset c l)
  end.

(** ** Correctness *)

(** What a loaded table is: its addresses strictly increase. *)
Definition table_ok (t : SymbolTable) : Prop :=
  symbols t ≠ [] ∧ addresses t = address <$> symbols t ∧
  StronglySorted Z.lt (addresses t).

Lemma by_address_spec l :
  NoDup (by_address l).*1 ∧
  (∀ a, a ∈ (by_address l).*1 ↔ ∃ s, s ∈ l ∧ address s = a) ∧
  (∀ a s, d_get a (by_address l) = Some s ↔ last (filter (λ s, address s = a) l) = Some s).
Proof.
  unfold by_address. induction l as [|s l IH] using rev_ind; simpl.
  { split; [apply NoDup_nil_2|]. split; [|done]. set_solver. }
  rewrite foldl_app. simpl. destruct IH as (Hn & Hk & Hg). split; [by apply d_set_NoDup|]. split.
  - intros a. rewrite d_set_keys. case_decide as Hin.
    + rewrite Hk. split; [intros (x & ? & ?); exists x; set_solver|].
      intros (x & [Hx|Hx%list_elem_of_singleton]%elem_of_app & <-); [by exists x|].
      subst x. by apply Hk.
    + rewrite elem_of_app, Hk, list_elem_of_singleton. split.
      * intros [(x & ? & ?)| ->]; [exists x|exists s]; set_solver.
      * intros (x & [Hx|Hx%list_elem_of_singleton]%elem_of_app & <-); [left; by exists x|].
        subst x. by right.
  - intros a x. rewrite d_get_set, filter_app.
    destruct (decide (address s = a)) as [<-|Hne].
    + rewrite decide_True by done. rewrite filter_cons_True, filter_nil by done.
      by rewrite last_snoc.
    + rewrite decide_False by done. rewrite filter_cons_False by done.
      rewrite filter_nil, app_nil_r. apply Hg.
Qed.

Lemma omap_addresses l (ks : list Z) :
  (∀ k, k ∈ ks → ∃ s, d_get k (by_address l) = Some s) →
  address <$> omap (λ a, d_get a (by_address l)) ks = ks.
Proof.
  induction ks as [|k ks IH]; intros Hk; [done|].
  destruct (Hk k) as [s Hs]; [set_solver|]. simpl. rewrite Hs. simpl.
  f_equal; [|apply IH; set_solver].
  apply by_address_spec in Hs. rewrite last_Some in Hs. destruct Hs as [l' Hl'].
  assert (s ∈ filter (λ s, address s = k) l) as Hin by (rewrite Hl'; set_solver).
  by apply list_elem_of_filter in Hin as [? _].
Qed.

(** The table of an image: one symbol per address, the last nm printed. *)
Lemma load_symbol_table_ok run image nm t :
  load_symbol_table run image nm = Ok t →
  table_ok t ∧ table_image t = image ∧
  ∃ lines, run [nm; "-n"; "--defined-only"; image_path image] = Ok lines ∧
    ∀ s, s ∈ symbols t ↔
      last (filter (λ x, address x = address s) (mjoin (symbol_line <$> lines))) = Some s.
Proof.
  unfold load_symbol_table, make_table. intros (lines & Hrun & H)%bind_Ok.
  set (l := mjoin (symbol_line <$> lines)) in *. ok_step H. injection H as <-.
  apply bool_decide_eq_false in Heqb.
  destruct (by_address_spec l) as (Hn & Hk & Hg).
  assert (∀ k, k ∈ sorted_set (by_address l).*1 → ∃ s, d_get k (by_address l) = Some s) as Hall.
  { intros k Hin. rewrite elem_of_sorted_set in Hin. destruct (d_get k (by_address l)) eqn:E; [by eexists|].
    apply d_get_None in E. by destruct (E Hin). }
  split; [|split; [done|]].
  - split; [cbn [symbols]; intros Hnil; by rewrite Hnil in Heqb|]. split; [done|].
    cbn [addresses]. rewrite omap_addresses by done. apply sorted_set_lt.
  - exists lines. split; [done|]. intros s. cbn [symbols].
    rewrite list_elem_of_omap. split.
    + intros (a & Ha & Hs). apply Hg in Hs as Hs'.
      assert (address s = a) as <-; [|by apply Hg].
      rewrite last_Some in Hs'. destruct Hs' as [l' Hl'].
      assert (s ∈ filter (λ s, address s = a) l) as Hin by (rewrite Hl'; set_solver).
      by apply list_elem_of_filter in Hin as [? _].
    + intros Hs. exists (address s). split; [|by apply Hg].
      apply elem_of_sorted_set, Hk. rewrite last_Some in Hs. destruct Hs as [l' Hl'].
      exists s. split; [|done]. assert (s ∈ filter (λ x, address x = address s) l) as Hin
        by (unfold l; rewrite Hl'; set_solver). by apply list_elem_of_filter in Hin as [_ ?].
Qed.

(** The symbol a program counter belongs to: the greatest address not above it,
    within one MiB when no symbol follows. *)
Definition belongs (t : SymbolTable) (pc : Z) (s : FunctionSymbol) : Prop :=
  s ∈ symbols t ∧ address s ≤ pc ∧
  (∀ s', s' ∈ symbols t → address s' ≤ pc → address s' ≤ address s) ∧
  ((∀ s', s' ∈ symbols t → address s' ≤ address s) → pc - address s ≤ 2 ^ 20).

Lemma lt_le_sorted l : StronglySorted Z.lt l → StronglySorted Z.le l.
Proof.
  induction 1 as [|x l Hl IH Hx]; constructor; [done|]. eapply Forall_impl; [exact Hx|]. simpl. lia.
Qed.

Lemma sorted_lt_lookup l (i j : nat) u v :
  StronglySorted Z.lt l → (i < j)%nat → l !! i = Some u → l !! j = Some v → u < v.
Proof.
  intros Hs. revert i j. induction Hs as [|x l Hl IH Hx]; intros i j Hij Hu Hv; [done|].
  destruct i as [|i], j as [|j]; try lia.
  - injection Hu as ->. rewrite Forall_lookup in Hx. by apply (Hx j).
  - by apply (IH i j); try lia.
Qed.

Lemma lookup_correct t pc :
  table_ok t →
  match lookup t pc with
  | Some r => ∃ s, belongs t pc s ∧ r = {| image := image_name (table_image t); function := name s;
                                           base := address s; offset := pc - address s |}
  | None => ∀ s, ¬ belongs t pc s
  end.
Proof.
  intros (Hne & Ha & Hs). unfold lookup. rewrite Ha in Hs |- *.
  destruct (bisect_right_spec (address <$> symbols t) pc (lt_le_sorted _ Hs)) as (Hp & Hlo & Hhi).
  set (p := bisect_right _ pc) in *. rewrite length_fmap in Hp.
  assert (∀ i s, symbols t !! i = Some s → (address <$> symbols t) !! i = Some (address s)) as Hlk
    by (intros i s Hi; by rewrite list_lookup_fmap, Hi).
  destruct p as [|p].
  { intros s (Hin & Hle & _). apply list_elem_of_lookup in Hin as [i Hi].
    pose proof (Hhi i _ ltac:(lia) (Hlk i s Hi)). lia. }
  destruct (lookup_lt_is_Some_2 (symbols t) p) as [s Hsp]; [lia|]. rewrite Hsp.
  assert (address s ≤ pc) as Hle by (apply (Hlo p); [lia|by apply Hlk]).
  assert (∀ s', s' ∈ symbols t → address s' ≤ pc → address s' ≤ address s) as Hmax.
  { intros s' [i Hi]%list_elem_of_lookup Hle'. destruct (decide (i ≤ p)%nat).
    - by apply (sorted_lookup _ (lt_le_sorted _ Hs) i p); [done|apply Hlk|apply Hlk].
    - pose proof (Hhi i _ ltac:(lia) (Hlk i s' Hi)). lia. }
  destruct (symbols t !! S p) as [s1|] eqn:Hs1.
  - pose proof (Hhi (S p) _ ltac:(lia) (Hlk _ _ Hs1)). destruct (Z.leb_spec (address s1) pc); [lia|].
    exists s. split; [|done]. split; [by apply list_elem_of_lookup_2 in Hsp|]. split; [done|].
    split; [done|]. intros Hall. pose proof (Hall s1 (list_elem_of_lookup_2 _ _ _ Hs1)).
    pose proof (sorted_lt_lookup _ p (S p) _ _ Hs ltac:(lia) (Hlk _ _ Hsp) (Hlk _ _ Hs1)). lia.
  - assert (∀ s', s' ∈ symbols t → address s' ≤ address s) as Hlast.
    { intros s' [i Hi]%list_elem_of_lookup. apply lookup_ge_None in Hs1.
      pose proof (lookup_lt_Some _ _ _ Hi).
      by apply (sorted_lookup _ (lt_le_sorted _ Hs) i p); [lia|apply Hlk|apply Hlk]. }
    destruct (Z.ltb_spec (1024 * 1024) (pc - address s)).
    + intros s' (Hin & Hle' & Hmax' & Hfar).
      assert (address s' = address s) as Heq.
      { pose proof (Hmax' s (list_elem_of_lookup_2 _ _ _ Hsp) Hle). pose proof (Hlast s' Hin). lia. }
      rewrite Heq in Hfar. specialize (Hfar Hlast). lia.
    + exists s. split; [|done]. split; [by apply list_elem_of_lookup_2 in Hsp|]. split; [done|].
      split; [done|]. intros _. lia.
Qed.

Lemma min_offset_spec best l :
  min_offset best l ∈ best :: l ∧ ∀ r, r ∈ best :: l → offset (min_offset best l) ≤ offset r.
Proof.
  revert best. induction l as [|c l IH]; intros best; simpl.
  - split; [set_solver|]. intros r ->%list_elem_of_singleton. lia.
  - destruct (Z.ltb_spec (offset c) (offset best)).
    + destruct (IH c) as [Hin Hmin]. split; [set_solver|].
      intros r [->|Hr]%elem_of_cons; [|by apply Hmin].
      pose proof (Hmin c ltac:(set_solver)). lia.
    + destruct (IH best) as [Hin Hmin]. split; [set_solver|].
      intros r [->|[->|Hr]%elem_of_cons]%elem_of_cons; [apply Hmin; set_solver| |apply Hmin; set_solver].
      pose proof (Hmin best ltac:(set_solver)). lia.
Qed.

(** C31: symbolize names a program counter by the loaded tables.  It answers exactly when
    the counter belongs to a symbol of some table (the greatest address not above it, and
    at most 1 MiB past the last symbol), with that symbol's name, address and offset, and
    no other table's symbol is nearer. *)
Theorem symbolize_correct run images nm tables pc :
  load_symbol_tables run images nm = Ok tables →
  match symbolize tables pc with
  | Some r =>
      (∃ t s, t ∈ tables ∧ belongs t pc s ∧ base r = address s ∧ function r = name s ∧
         image r = image_name (table_image t) ∧ offset r = pc - address s) ∧
      (∀ t s, t ∈ tables → belongs t pc s → offset r ≤ pc - address s)
  | None => ∀ t s, t ∈ tables → ¬ belongs t pc s
  end.
Proof.
  intros Hload%mapR_Ok.
  assert (∀ t, t ∈ tables → table_ok t) as Hok.
  { intros t Ht. apply list_elem_of_lookup in Ht as [i Hi].
    destruct (Forall2_lookup_r _ _ _ _ _ Hload Hi) as (img & _ & Hl).
    by apply load_symbol_table_ok in Hl as [? _]. }
  assert (∀ r, r ∈ omap (λ table, lookup table pc) tables ↔ ∃ t, t ∈ tables ∧ lookup t pc = Some r) as Hin
    by (intros r; apply list_elem_of_omap).
  unfold symbolize. destruct (omap (λ table, lookup table pc) tables) as [|c l] eqn:Ho.
  - intros t s Ht Hb. pose proof (lookup_correct t pc (Hok t Ht)) as Hl.
    destruct (lookup t pc) as [r|] eqn:Hr; [|by apply (Hl s)].
    assert (r ∈ []) as Hnil by (apply Hin; eauto). by apply elem_of_nil in Hnil.
  - destruct (min_offset_spec c l) as [Hmem Hmin]. set (r := min_offset c l) in *. split.
    + apply Hin in Hmem as (t & Ht & Hr). pose proof (lookup_correct t pc (Hok t Ht)) as Hl.
      rewrite Hr in Hl. destruct Hl as (s & Hb & ->). exists t, s. done.
    + intros t s Ht Hb. pose proof (lookup_correct t pc (Hok t Ht)) as Hl.
      destruct (lookup t pc) as [r'|] eqn:Hr; [|by destruct (Hl s)].
      assert (offset r ≤ offset r') as Hle by (apply Hmin, Hin; eauto).
      destruct Hl as (s' & Hb' & ->). simpl in Hle.
      destruct Hb as (Hs & Hle1 & Hmax & _), Hb' as (Hs' & Hle2 & Hmax' & _).
      pose proof (Hmax' s Hs Hle1). lia.
Qed.

(** A listing with an alias, a data symbol and a malformed line. *)
Definition sample_nm (command : list string) : result (list string) :=
  Ok ["0000000080000000 t local_start"; "0000000080000000 T _start"; "0000000080000040 T main";
      "0000000080001000 D data"; "                 U undefined"].
Definition sample_image : ElfImage := {| image_name := "fw"; image_path := "fw.elf" |}.
Definition sample_tables : list SymbolTable :=
  match load_symbol_tables sample_nm [sample_image] "nm" with Ok t => t | Err _ => [] end.

Example sample_symbolize :
  text <$> symbolize sample_tables 0x80000044 = Some "fw:main+0x4@0x0000000080000040" ∧
  function <$> symbolize sample_tables 0x80000000 = Some "_start" ∧
  symbolize sample_tables 0x7fffffff = None ∧ symbolize sample_tables 0x80100041 = None ∧
  parse_elf_image "fw=a=b" = Ok {| image_name := "fw"; image_path := "a=b" |}.
Proof. vm_compute. repeat split; reflexivity. Qed.

Lemma symbolize_correct_witness :
  load_symbol_tables sample_nm [sample_image] "nm" = Ok sample_tables ∧
  match symbolize sample_tables 0x80000044 with
  | Some r => ∃ t s, t ∈ sample_tables ∧ belongs t 0x80000044 s ∧ base r = address s ∧
      function r = name s ∧ image r = image_name (table_image t) ∧ offset r = 0x80000044 - address s
  | None => False
  end.
Proof.
  assert (load_symbol_tables sample_nm [sample_image] "nm" = Ok sample_tables) as H
    by (vm_compute; reflexivity).
  split; [exact H|].
  pose proof (symbolize_correct sample_nm [sample_image] "nm" sample_tables 0x80000044 H) as Hs.
  assert (is_Some (symbolize sample_tables 0x80000044)) as [r Hr] by (eexists; vm_compute; reflexivity).
  rewrite Hr in Hs |- *. exact (proj1 Hs).
Defined.
