(* ===== verification/KernelExtract.v ===== *)
(** * Extraction of a linked kernel function

    [tools/extract-riscv-kernel-function.py]: the ELF64 section and symbol
    reader, the application of boot-time alternatives, the decoding of direct
    jumps, and the binary and assembly files of the extracted function.

    The input file is its bytes; the two outputs are the bytes of the binary
    and the lines of the assembly. *)

From stdpp Require Import base numbers list strings gmap.
From Stdlib Require Import ZArith Lia Ascii Btauto.
From S2P Require Import Prelude PyText Bytes.

Open Scope Z_scope.

Definition ELF_HEADER : list code_t :=
  [Cs 16; CU 2; CU 2; CU 4; CU 8; CU 8; CU 8; CU 4; CU 2; CU 2; CU 2; CU 2; CU 2; CU 2].
Definition SECTION_HEADER : list code_t :=
  [CU 4; CU 4; CU 8; CU 8; CU 8; CU 8; CU 4; CU 4; CU 8; CU 8].
Definition SYMBOL : list code_t := [CU 4; CU 1; CU 1; CU 2; CU 8; CU 8].
Definition ALT_ENTRY : list code_t := [CI 4; CI 4; CU 2; CU 2; CU 4].

(** The bytes before the first zero: [None] when [find] gives -1. *)
Fixpoint before_zero (data : list Z) : option (list Z) :=
  match data with
  | [] => None
  | b :: data => if b =? 0 then Some [] else cons b <$> before_zero data
  end.

Definition c_string (data : list Z) (offset : Z) : result string :=
  match before_zero (drop (Z.to_nat offset) data) with
  | None => Err (ValueError "unterminated ELF string")
  | Some text =>
      match decode_ascii text with
      | Some s => Ok s
      | None => Err (ValueError "ordinal not in range(128)")
      end
  end.

Definition sign_extend (value bits : Z) : Z :=
  let sign := Z.shiftl 1 (bits - 1) in Z.lxor value sign - sign.

Definition jal_target (address instruction : Z) : option Z :=
  if negb (Z.land instruction 0x7f =? 0x6f) then None else
  let immediate := Z.lor 0 (Z.shiftl (Z.land (Z.shiftr instruction 31) 0x1) 20) in
  let immediate := Z.lor immediate (Z.shiftl (Z.land (Z.shiftr instruction 21) 0x3ff) 1) in
  let immediate := Z.lor immediate (Z.shiftl (Z.land (Z.shiftr instruction 20) 0x1) 11) in
  let immediate := Z.lor immediate (Z.shiftl (Z.land (Z.shiftr instruction 12) 0xff) 12) in
  Some (address + sign_extend immediate 21).

(** ** The ELF file *)

Record ElfSection := {
  sec_index : Z; sec_name : string; sec_type : Z; sec_flags : Z; sec_address : Z;
  sec_offset : Z; sec_size : Z; sec_link : Z; sec_entry_size : Z }.
Record Symbol := { sym_value : Z; sym_size : Z; sym_section_index : Z }.
Record Elf := {
  data : list Z; sections : list ElfSection;
  section_by_name : gmap string ElfSection; symbols : gmap string (list Symbol) }.

(** One entry of [self.sections]: [raw] are the unpacked header fields. *)
Definition named_section (strings : list Z) (e : Z * list field) : result ElfSection :=
  match e.2 with
  | [FZ name; FZ type; FZ flags; FZ address; FZ offset; FZ size; FZ link; _; _; FZ entry_size] =>
      name ← c_string strings name;
      Ok {| sec_index := e.1; sec_name := name; sec_type := type; sec_flags := flags;
            sec_address := address; sec_offset := offset; sec_size := size; sec_link := link;
            sec_entry_size := entry_size |}
  | _ => Err (StructError "unpack")
  end.

(** [string_header[4]] and [string_header[5]] *)
Definition string_bounds (header : list field) : result (Z * Z) :=
  match header with
  | [_; _; _; _; FZ offset; FZ size; _; _; _; _] => Ok (offset, size)
  | _ => Err (StructError "unpack")
  end.

Definition by_name (sections : list ElfSection) : gmap string ElfSection :=
  foldl (λ d s, <[sec_name s := s]> d) ∅ sections.

Definition read_symbol (blob strings : list Z) (symtab : ElfSection)
    (found : gmap string (list Symbol)) (offset : Z) : result (gmap string (list Symbol)) :=
  raw ← unpack_from SYMBOL blob (sec_offset symtab + offset);
  match raw with
  | [FZ name; _; _; FZ section_index; FZ value; FZ size] =>
      name ← c_string strings name;
      if String.eqb name "" then Ok found
      else Ok (<[name := default [] (found !! name) ++
                         [{| sym_value := value; sym_size := size;
                             sym_section_index := section_index |}]]> found)
  | _ => Err (StructError "unpack")
  end.

Definition read_symbols (blob : list Z) (sections : list ElfSection)
    (names : gmap string ElfSection) : result (gmap string (list Symbol)) :=
  match names !! ".symtab" with
  | None => Err (KeyError ".symtab")
  | Some symtab =>
      strings_header ← get_item sections (sec_link symtab);
      let strings := slice blob (sec_offset strings_header)
                       (sec_offset strings_header + sec_size strings_header) in
      let entry_size := if sec_entry_size symtab =? 0 then calcsize SYMBOL
                        else sec_entry_size symtab in
      raise (ValueError "unexpected ELF64 symbol size") when negb (entry_size =? calcsize SYMBOL);;
      foldM (read_symbol blob strings symtab) ∅ (range_step 0 (sec_size symtab) entry_size)
  end.

(** [Elf(path)] on the bytes of the file. *)
Definition open_elf (blob : list Z) : result Elf :=
  header ← unpack_from ELF_HEADER blob 0;
  match header with
  | [FB ident; _; _; _; _; _; FZ section_offset; _; _; _; _; FZ section_size; FZ section_count;
     FZ string_index] =>
      raise (ValueError "expected a little-endian ELF64 image")
        when negb (bool_decide (slice ident 0 4 = 0x7F :: bytes_of "ELF"))
          || negb (bool_decide (ident !! 4%nat = Some 2))
          || negb (bool_decide (ident !! 5%nat = Some 1));;
      raise (ValueError "unexpected ELF64 section-header size")
        when negb (section_size =? calcsize SECTION_HEADER);;
      raw_sections ← mapR (λ index, unpack_from SECTION_HEADER blob (section_offset + index * section_size))
                       (zrange 0 section_count);
      string_header ← get_item raw_sections string_index;
      '(string_offset, string_size) ← string_bounds string_header;
      let strings := slice blob string_offset (string_offset + string_size) in
      sections ← mapR (named_section strings) (enumerate raw_sections);
      symbols ← read_symbols blob sections (by_name sections);
      Ok {| data := blob; sections := sections; section_by_name := by_name sections;
            symbols := symbols |}
  | _ => Err (StructError "unpack")
  end.

(** [matches.sort(key=lambda s: (s["size"] == 0, -s["size"]))] followed by
    [matches[0]]: the first symbol with the least key. *)
Definition key_lt (a b : Symbol) : bool :=
  match sym_size a =? 0, sym_size b =? 0 with
  | false, true => true
  | true, false => false
  | _, _ => - sym_size a <? - sym_size b
  end.
Fixpoint first_least (best : Symbol) (l : list Symbol) : Symbol :=
  match l with
  | [] => best
  | s :: l => first_least (if key_lt s best then s else best) l
  end.

Definition symbol (elf : Elf) (name : string) : result Symbol :=
  match filter (λ s, sym_section_index s ≠ 0) (default [] (symbols elf !! name)) with
  | [] => Err (ValueError ("defined symbol not found: " +:+ name))
  | s :: l => Ok (first_least s l)
  end.

Fixpoint bytes_in (sections : list ElfSection) (blob : list Z) (address size : Z) : result (list Z) :=
  match sections with
  | [] => Err (ValueError ("address range is not file-backed: 0x" +:+ hex_int address +:+ "+" +:+ str_int size))
  | s :: sections =>
      let start := sec_address s in
      if negb (sec_type s =? 8) && (start <=? address) && (address + size <=? start + sec_size s)
      then let offset := sec_offset s + address - start in Ok (slice blob offset (offset + size))
      else bytes_in sections blob address size
  end.
Definition bytes_at (elf : Elf) (address size : Z) : result (list Z) :=
  bytes_in (sections elf) (data elf) address size.

(** ** Alternatives *)

(** One entry; the state is the function's bytes and the count. *)
Definition apply_entry (elf : Elf) (section : ElfSection) (function_address : Z)
    (s : list Z * Z) (offset : Z) : result (list Z * Z) :=
  let '(function_data, count) := s in
  let entry_address := sec_address section + offset in
  raw ← unpack_from ALT_ENTRY (data elf) (sec_offset section + offset);
  match raw with
  | [FZ old_offset; FZ alt_offset; _; FZ alt_len; _] =>
      let old_address := entry_address + old_offset in
      let alt_address := entry_address + 4 + alt_offset in
      let function_offset := old_address - function_address in
      if (0 <=? function_offset) && (function_offset + alt_len <=? zlen function_data)
      then replacement ← bytes_at elf alt_address alt_len;
           Ok (slice_assign function_data function_offset (function_offset + alt_len) replacement,
               count + 1)
      else Ok (function_data, count)
  | _ => Err (StructError "unpack")
  end.

Definition apply_alternatives (elf : Elf) (function_address : Z) (function_data : list Z)
    : result (list Z * Z) :=
  match section_by_name elf !! ".alternative" with
  | None => Ok (function_data, 0)
  | Some section =>
      raise (ValueError "malformed .alternative section")
        when negb (sec_size section mod calcsize ALT_ENTRY =? 0);;
      foldM (apply_entry elf section function_address) (function_data, 0)
        (range_step 0 (sec_size section) (calcsize ALT_ENTRY))
  end.

(** ** The extracted function *)

(** [range(0, len(function_data) - 3, 4)] with the jumps to redirected
    symbols. *)
Definition redirect_at (function_data : list Z) (function_address : Z)
    (redirect_targets : gmap Z string) (offset : Z) : list (Z * string) :=
  let instruction := from_le (slice function_data offset (offset + 4)) in
  match jal_target (function_address + offset) instruction with
  | None => []
  | Some target_address =>
      match redirect_targets !! target_address with
      | Some target => [(offset, target)]
      | None => []
      end
  end.
Definition find_redirects (function_data : list Z) (function_address : Z)
    (redirect_targets : gmap Z string) : list (Z * string) :=
  mjoin (redirect_at function_data function_address redirect_targets <$>
         range_step 0 (zlen function_data - 3) 4).

(** [--redirect SOURCE=TARGET] *)
Definition add_redirect (elf : Elf) (targets : gmap Z string) (redirect : string)
    : result (gmap Z string) :=
  match split_at "="%char (chars redirect) with
  | None => Err (ValueError ("invalid redirect: " +:+ redirect))
  | Some (source, target) =>
      s ← symbol elf (of_chars source);
      Ok (<[sym_value s := of_chars target]> targets)
  end.
Definition read_redirects (elf : Elf) (redirect : list string) : result (gmap Z string) :=
  foldM (add_redirect elf) ∅ redirect.

(** The body of the emitted function: pieces of the binary and calls. *)
Inductive item := Incbin (first count : Z) | Call (target : string).

Definition item_line (binary : string) (i : item) : string :=
  match i with
  | Incbin first count => ".incbin " +:+ quote +:+ binary +:+ quote +:+ ", " +:+ str_int first
                          +:+ ", " +:+ str_int count
  | Call target => "jal ra, " +:+ target
  end.

(** The loop over the redirects from [cursor], and the part after it. *)
Fixpoint body_from (cursor function_size : Z) (redirects : list (Z * string)) : list item :=
  match redirects with
  | [] => if cursor <? function_size then [Incbin cursor (function_size - cursor)] else []
  | (offset, target) :: redirects =>
      (if cursor <? offset then [Incbin cursor (offset - cursor)] else []) ++
      Call target :: body_from (offset + 4) function_size redirects
  end.

(** [str(path).replace("\\", "\\\\").replace(QUOTE, "\\" QUOTE)] *)
Definition escape_path (path : string) : string :=
  of_chars (mjoin ((λ c, if bool_decide (c = char_of 92) || bool_decide (c = double_quote_char)
                         then [char_of 92; c] else [c]) <$> chars path)).

Definition write_assembly (binary_path output_symbol : string) (function_size : Z)
    (redirects : list (Z * string)) : list string :=
  let binary := escape_path binary_path in
  ["/* Generated by tools/extract-riscv-kernel-function.py. */";
   ".section .text." +:+ output_symbol +:+ ", " +:+ quote +:+ "ax" +:+ quote +:+ ", @progbits";
   ".option norvc";
   ".option norelax";
   ".balign 64";
   ".globl " +:+ output_symbol;
   ".type " +:+ output_symbol +:+ ", @function";
   output_symbol +:+ ":"]
  ++ (item_line binary <$> body_from 0 function_size redirects)
  ++ [".size " +:+ output_symbol +:+ ", .-" +:+ output_symbol; ""].

Record Args := {
  arg_symbol : string; output_symbol : string; output_bin : string;
  apply_alternatives_flag : bool; redirect : list string }.

Record Output := {
  binary_bytes : list Z; assembly : list string; redirects : list (Z * string); console : string }.

(** [main]: [vmlinux] are the bytes of the input, [output_bin] the resolved path
    of the binary. *)
Definition main (args : Args) (vmlinux : list Z) : result Output :=
  elf ← open_elf vmlinux;
  function ← symbol elf (arg_symbol args);
  raise (ValueError ("symbol has no size: " +:+ arg_symbol args)) when sym_size function =? 0;;
  let function_address := sym_value function in
  function_data ← bytes_at elf function_address (sym_size function);
  '(function_data, alternative_count) ←
    (if apply_alternatives_flag args then apply_alternatives elf function_address function_data
     else Ok (function_data, 0));
  redirect_targets ← read_redirects elf (redirect args);
  let redirects := find_redirects function_data function_address redirect_targets in
  Ok {| binary_bytes := function_data;
        assembly := write_assembly (output_bin args) (output_symbol args) (zlen function_data) redirects;
        redirects := redirects;
        console := "symbol=" +:+ arg_symbol args +:+ " size=" +:+ str_int (zlen function_data)
          +:+ " alternatives=" +:+ str_int alternative_count
          +:+ " redirects=" +:+ str_int (zlen redirects) |}.

(** ** Decoding of direct jumps *)

(** The J-type encoding of the RISC-V manual: [jal rd, offset]. *)
Definition jal_word (rd offset : Z) : Z :=
  let u := offset mod 2 ^ 21 in
  (u / 2 ^ 20) * 2 ^ 31 + ((u / 2) mod 2 ^ 10) * 2 ^ 21 + ((u / 2 ^ 11) mod 2) * 2 ^ 20
  + ((u / 2 ^ 12) mod 2 ^ 8) * 2 ^ 12 + rd * 2 ^ 7 + 0x6f.

Definition jal_offset (offset : Z) : Prop := offset mod 2 = 0 ∧ - 2 ^ 20 ≤ offset < 2 ^ 20.

Lemma land_field x k m : 0 ≤ k → 0 ≤ m → Z.land (Z.shiftr x k) (Z.ones m) = (x / 2 ^ k) mod 2 ^ m.
Proof. intros. by rewrite Z.land_ones, Z.shiftr_div_pow2. Qed.

Lemma lxor_top w k : 0 ≤ k → 0 ≤ w < 2 ^ k → Z.lxor w (2 ^ k) = w + 2 ^ k.
Proof.
  intros Hk Hw. rewrite <-Z.add_nocarry_lxor; [lia|]. apply Z.bits_inj'. intros i Hi.
  rewrite Z.land_spec, Z.bits_0, Z.pow2_bits_eqb by lia.
  destruct (Z.eqb_spec k i) as [->|]; [|apply andb_false_r].
  rewrite andb_true_r. destruct (decide (w = 0)) as [->|]; [apply Z.bits_0|].
  apply Z.bits_above_log2; [lia|]. apply Z.log2_lt_pow2; lia.
Qed.

Lemma sign_extend_spec value bits :
  0 < bits → 0 ≤ value < 2 ^ bits →
  sign_extend value bits = if value <? 2 ^ (bits - 1) then value else value - 2 ^ bits.
Proof.
  intros Hb Hv. unfold sign_extend. rewrite Z.shiftl_1_l.
  assert (2 ^ bits = 2 * 2 ^ (bits - 1)) as H2
    by (rewrite <-Z.pow_succ_r by lia; f_equal; lia).
  destruct (Z.ltb_spec value (2 ^ (bits - 1))).
  - rewrite lxor_top by lia. lia.
  - assert (Z.lxor value (2 ^ (bits - 1)) = value - 2 ^ (bits - 1)) as ->; [|lia].
    replace value with ((value - 2 ^ (bits - 1)) + 2 ^ (bits - 1)) at 1 by lia.
    rewrite <-lxor_top by lia. rewrite Z.lxor_assoc, Z.lxor_nilpotent. apply Z.lxor_0_r.
Qed.

(** The four fields [jal_target] assembles, as a sum. *)
Lemma jal_immediate x :
  Z.lor (Z.lor (Z.lor (Z.lor 0 (Z.shiftl (Z.land (Z.shiftr x 31) 0x1) 20))
    (Z.shiftl (Z.land (Z.shiftr x 21) 0x3ff) 1))
    (Z.shiftl (Z.land (Z.shiftr x 20) 0x1) 11))
    (Z.shiftl (Z.land (Z.shiftr x 12) 0xff) 12)
  = ((x / 2 ^ 31) mod 2) * 2 ^ 20 + (((x / 2 ^ 12) mod 2 ^ 8) * 2 ^ 12
    + (((x / 2 ^ 20) mod 2) * 2 ^ 11 + ((x / 2 ^ 21) mod 2 ^ 10) * 2)).
Proof.
  change 0x3ff with (Z.ones 10). change 0xff with (Z.ones 8).
  change (Z.land (Z.shiftr x 31) 1) with (Z.land (Z.shiftr x 31) (Z.ones 1)).
  change (Z.land (Z.shiftr x 20) 1) with (Z.land (Z.shiftr x 20) (Z.ones 1)).
  rewrite !land_field by lia. change (2 ^ 1) with 2.
  pose proof (Z.mod_pos_bound (x / 2 ^ 31) 2 ltac:(lia)).
  pose proof (Z.mod_pos_bound (x / 2 ^ 20) 2 ltac:(lia)).
  pose proof (Z.mod_pos_bound (x / 2 ^ 12) (2 ^ 8) ltac:(lia)).
  pose proof (Z.mod_pos_bound (x / 2 ^ 21) (2 ^ 10) ltac:(lia)).
  set (a := (x / 2 ^ 31) mod 2) in *. set (b := (x / 2 ^ 20) mod 2) in *.
  set (c := (x / 2 ^ 12) mod 2 ^ 8) in *. set (d := (x / 2 ^ 21) mod 2 ^ 10) in *.
  transitivity (Z.lor (Z.shiftl a 20) (Z.lor (Z.shiftl c 12) (Z.lor (Z.shiftl b 11) (Z.shiftl d 1)))).
  { rewrite Z.lor_0_l. apply Z.bits_inj'. intros i _. rewrite !Z.lor_spec. btauto. }
  rewrite (Z.shiftl_mul_pow2 d 1) by lia. change (2 ^ 1) with 2.
  rewrite (lor_shiftl_add b (d * 2) 11) by lia.
  rewrite (lor_shiftl_add c _ 12) by lia. rewrite (lor_shiftl_add a _ 20) by lia. done.
Qed.

Lemma jal_fields x :
  let v := ((x / 2 ^ 31) mod 2) * 2 ^ 20 + (((x / 2 ^ 12) mod 2 ^ 8) * 2 ^ 12
           + (((x / 2 ^ 20) mod 2) * 2 ^ 11 + ((x / 2 ^ 21) mod 2 ^ 10) * 2)) in
  0 ≤ v < 2 ^ 21 ∧ ∃ k, v = 2 * k.
Proof.
  pose proof (Z.mod_pos_bound (x / 2 ^ 31) 2 ltac:(lia)).
  pose proof (Z.mod_pos_bound (x / 2 ^ 20) 2 ltac:(lia)).
  pose proof (Z.mod_pos_bound (x / 2 ^ 12) (2 ^ 8) ltac:(lia)).
  pose proof (Z.mod_pos_bound (x / 2 ^ 21) (2 ^ 10) ltac:(lia)).
  cbv zeta. split; [lia|].
  exists (((x / 2 ^ 31) mod 2) * 2 ^ 19 + ((x / 2 ^ 12) mod 2 ^ 8) * 2 ^ 11
     + ((x / 2 ^ 20) mod 2) * 2 ^ 10 + (x / 2 ^ 21) mod 2 ^ 10). lia.
Qed.

Lemma jal_target_Some address x t :
  0 ≤ x < 2 ^ 32 → jal_target address x = Some t →
  ∃ rd offset, x = jal_word rd offset ∧ 0 ≤ rd < 32 ∧ jal_offset offset ∧ t = address + offset.
Proof.
  intros Hx. unfold jal_target. cbv zeta. rewrite jal_immediate.
  destruct (Z.eqb_spec (Z.land x 0x7f) 0x6f) as [Ho|]; [|done]. intros [= <-].
  change 0x7f with (Z.ones 7) in Ho. rewrite Z.land_ones in Ho by lia.
  pose proof (jal_fields x) as Hf. set (v := _ + _) in *.
  assert (v mod 2 = 0) as Hv2 by (destruct Hf as [_ [k ->]]; by rewrite Z.mul_comm, Z.mod_mul).
  destruct Hf as [Hv _].
  exists ((x / 2 ^ 7) mod 32), (sign_extend v 21).
  rewrite sign_extend_spec by lia. change (2 ^ (21 - 1)) with (2 ^ 20).
  assert ((if v <? 2 ^ 20 then v else v - 2 ^ 21) mod 2 ^ 21 = v) as Hm.
  { destruct (v <? 2 ^ 20); Z.div_mod_to_equations; lia. }
  split; [|split; [|split]].
  - unfold jal_word. cbv zeta. rewrite Hm. unfold v. clear -Hx Ho. Z.div_mod_to_equations. lia.
  - Z.div_mod_to_equations; lia.
  - unfold jal_offset. destruct (Z.ltb_spec v (2 ^ 20)); Z.div_mod_to_equations; lia.
  - done.
Qed.

(** The fields of an encoded offset determine it. *)
Lemma jal_word_fields rd offset :
  jal_offset offset →
  ∃ a b c d, 0 ≤ a < 2 ∧ 0 ≤ b < 2 ∧ 0 ≤ c < 2 ^ 8 ∧ 0 ≤ d < 2 ^ 10 ∧
    offset mod 2 ^ 21 = a * 2 ^ 20 + c * 2 ^ 12 + b * 2 ^ 11 + d * 2 ∧
    jal_word rd offset = a * 2 ^ 31 + d * 2 ^ 21 + b * 2 ^ 20 + c * 2 ^ 12 + rd * 2 ^ 7 + 0x6f.
Proof.
  intros [He Hr]. assert ((offset mod 2 ^ 21) mod 2 = 0) as Hu.
  { rewrite Z.mod_mod_divide; [done|]. by exists (2 ^ 20). }
  pose proof (Z.mod_pos_bound offset (2 ^ 21) ltac:(lia)) as Hb. unfold jal_word. cbv zeta.
  set (u := offset mod 2 ^ 21) in *. clearbody u.
  exists (u / 2 ^ 20), ((u / 2 ^ 11) mod 2), ((u / 2 ^ 12) mod 2 ^ 8), ((u / 2) mod 2 ^ 10).
  split_and!; try reflexivity; clear -Hu Hb; Z.div_mod_to_equations; lia.
Qed.

Lemma jal_word_target address rd offset :
  0 ≤ rd < 32 → jal_offset offset →
  0 ≤ jal_word rd offset < 2 ^ 32 ∧ jal_target address (jal_word rd offset) = Some (address + offset).
Proof.
  intros Hrd Ho. destruct (jal_word_fields rd offset Ho) as (a & b & c & d & Ha & Hb & Hc & Hd & Hu & Hw).
  assert (0 ≤ jal_word rd offset < 2 ^ 32) as Hx by (rewrite Hw; lia). split; [done|].
  destruct (jal_target address (jal_word rd offset)) as [t|] eqn:Ht.
  - apply jal_target_Some in Ht as (rd' & o' & Hx' & Hrd' & Ho' & ->); [|done].
    destruct (jal_word_fields rd' o' Ho') as (a' & b' & c' & d' & Ha' & Hb' & Hc' & Hd' & Hu' & Hw').
    assert (offset mod 2 ^ 21 = o' mod 2 ^ 21) as Hm by lia.
    destruct Ho as [_ Ho], Ho' as [_ Ho']. do 2 f_equal.
    clear -Hm Ho Ho'. Z.div_mod_to_equations. lia.
  - exfalso. unfold jal_target in Ht. destruct (Z.eqb_spec (Z.land (jal_word rd offset) 0x7f) 0x6f) as [|Hn];
      [done|]. apply Hn. change 0x7f with (Z.ones 7). rewrite Z.land_ones, Hw by lia.
    replace (_ + _) with (0x6f + (a * 2 ^ 24 + d * 2 ^ 14 + b * 2 ^ 13 + c * 2 ^ 5 + rd) * 2 ^ 7) by lia.
    rewrite Z.mod_add by lia. done.
Qed.

(** C39: jal_target decodes exactly the direct jumps.  A 32-bit instruction it answers for
    is the J-type encoding of some jal rd, offset with an even offset in [-2^20, 2^20), and
    the answer is address + offset; it answers for every such encoding; and it gives None
    exactly when the opcode is not JAL. *)
Theorem jal_target_bounds address instruction :
  0 ≤ instruction < 2 ^ 32 →
  (∀ t, jal_target address instruction = Some t ↔
     ∃ rd offset, 0 ≤ rd < 32 ∧ jal_offset offset ∧ instruction = jal_word rd offset ∧
                  t = address + offset) ∧
  (jal_target address instruction = None ↔ instruction mod 2 ^ 7 ≠ 0x6f).
Proof.
  intros Hi. split.
  - intros t. split.
    + intros Ht%jal_target_Some; [|done]. naive_solver.
    + intros (rd & offset & Hrd & Ho & -> & ->). by apply jal_word_target.
  - unfold jal_target. change 0x7f with (Z.ones 7). rewrite Z.land_ones by lia.
    destruct (Z.eqb_spec (instruction mod 2 ^ 7) 0x6f) as [->|]; simpl; [|done].
    split; [done|intros H; by destruct H].
Qed.

Lemma jal_target_bounds_witness :
  0 ≤ 0xffdff06f < 2 ^ 32 ∧
  ∃ rd offset, 0 ≤ rd < 32 ∧ jal_offset offset ∧ 0xffdff06f = jal_word rd offset ∧
    0x80000ffc = 0x80001000 + offset.
Proof.
  assert (0 ≤ 0xffdff06f < 2 ^ 32) as Hi by lia. split; [exact Hi|].
  apply (proj1 (jal_target_bounds 0x80001000 0xffdff06f Hi)). vm_compute. reflexivity.
Defined.

(** ** The emitted function *)

(** What assembling the body of the function gives: pieces of the binary, and at
    each call the four bytes [encode position target] the assembler and the
    linker make of it. *)
Section assembling.
Variables (bin : list Z) (encode : Z → string → list Z).

Fixpoint assembled (position : Z) (items : list item) : list Z :=
  match items with
  | [] => []
  | Incbin first count :: items => slice bin first (first + count) ++ assembled (position + count) items
  | Call target :: items => encode position target ++ assembled (position + 4) items
  end.

(** The binary with the redirected instructions replaced. *)
Definition patched (redirects : list (Z * string)) : list Z :=
  foldr (λ r b, slice_assign b r.1 (r.1 + 4) (encode r.1 r.2)) bin redirects.

Hypothesis encode_size : ∀ position target, zlen (encode position target) = 4.

(** Redirects in the order of their offsets, within the function. *)
Fixpoint tiled (cursor : Z) (redirects : list (Z * string)) : Prop :=
  match redirects with
  | [] => cursor ≤ zlen bin
  | r :: redirects => cursor ≤ r.1 ∧ r.1 + 4 ≤ zlen bin ∧ tiled (r.1 + 4) redirects
  end.

Lemma tiled_le cursor reds : tiled cursor reds → cursor ≤ zlen bin.
Proof. destruct reds; simpl; lia. Qed.

Lemma patched_length cursor reds : 0 ≤ cursor → tiled cursor reds → zlen (patched reds) = zlen bin.
Proof.
  revert cursor. induction reds as [|[o t] reds IH]; intros cursor Hc Ht; [done|].
  destruct Ht as (Hco & Ho & Ht). unfold patched. simpl. fold (patched reds). simpl in *.
  apply IH in Ht; [|lia]. rewrite zlen_slice_assign; rewrite ?encode_size; lia.
Qed.

Lemma slice_tail {A} (l : list A) a b :
  0 ≤ a ≤ b → b ≤ zlen l → slice l a b ++ drop (Z.to_nat b) l = drop (Z.to_nat a) l.
Proof.
  intros Ha Hb. rewrite slice_inside by done.
  rewrite <-(take_drop (Z.to_nat (b - a)) (drop (Z.to_nat a) l)) at 2. f_equal.
  rewrite drop_drop. f_equal. lia.
Qed.

Lemma patched_tail cursor reds a :
  0 ≤ a ≤ cursor → tiled cursor reds →
  slice (patched reds) a cursor = slice bin a cursor.
Proof.
  intros Ha Ht. pose proof (tiled_le _ _ Ht).
  revert cursor Ha Ht H. induction reds as [|[o t] reds IH]; intros cursor Ha Ht Hc; [done|].
  destruct Ht as (Hco & Ho & Ht). unfold patched. simpl. fold (patched reds). simpl in *.
  assert (zlen (patched reds) = zlen bin) as Hl by (by apply (patched_length (o + 4)); [lia|]).
  rewrite slice_slice_assign_ne; rewrite ?encode_size; try lia.
  apply (slice_ext (patched reds) bin); try lia. intros i Hi.
  assert (slice (patched reds) a (o + 4) = slice bin a (o + 4)) as He by (apply IH; try done; lia).
  apply (f_equal (λ l, l !! Z.to_nat (i - a))) in He.
  rewrite !lookup_slice_inside, !decide_True in He by lia.
  by replace (a + Z.of_nat (Z.to_nat (i - a))) with i in He by lia.
Qed.

Lemma assembled_body cursor reds :
  0 ≤ cursor → tiled cursor reds →
  assembled cursor (body_from cursor (zlen bin) reds) = drop (Z.to_nat cursor) (patched reds).
Proof.
  revert cursor. induction reds as [|[o t] reds IH]; intros cursor Hc Ht; simpl in *.
  - destruct (Z.ltb_spec cursor (zlen bin)); simpl.
    + rewrite app_nil_r. replace (cursor + (zlen bin - cursor)) with (zlen bin) by lia.
      rewrite slice_inside by lia. apply take_ge. rewrite length_drop. unfold zlen. lia.
    + rewrite drop_ge; [done|]. unfold patched, zlen in *. simpl. lia.
  - destruct Ht as (Hco & Ho & Ht). pose proof (patched_length (o + 4) reds ltac:(lia) Ht) as Hl.
    assert (patched ((o, t) :: reds) = slice_assign (patched reds) o (o + 4) (encode o t)) as Hp by done.
    assert (encode o t ++ drop (Z.to_nat (o + 4)) (patched reds) = drop (Z.to_nat o) (patched ((o, t) :: reds))) as Hcall.
    { rewrite Hp, slice_assign_inside by (rewrite ?Hl; lia).
      rewrite drop_app_ge by (rewrite length_take; unfold zlen in *; lia).
      replace (Z.to_nat o - _)%nat with 0%nat by (rewrite length_take; unfold zlen in *; lia). done. }
    pose proof (patched_length cursor ((o, t) :: reds) Hc (conj Hco (conj Ho Ht))) as Hl'.
    assert (tiled o ((o, t) :: reds)) as Hto by (split; [done|by split]).
    pose proof (patched_tail o ((o, t) :: reds) cursor ltac:(lia) Hto) as Hpre.
    destruct (Z.ltb_spec cursor o); cbn [app assembled].
    + replace (cursor + (o - cursor)) with o by lia. rewrite IH by (lia || done). rewrite Hcall, <-Hpre.
      apply slice_tail; [lia|]. rewrite <-Hp, Hl'. lia.
    + assert (cursor = o) as -> by lia. rewrite IH by (lia || done). done.
Qed.
End assembling.

(** ** The redirects found *)

Lemma redirect_at_cases bin address targets o :
  redirect_at bin address targets o = [] ∨ ∃ t, redirect_at bin address targets o = [(o, t)].
Proof.
  unfold redirect_at. destruct (jal_target _ _) as [a|]; [|by left].
  destruct (targets !! a); [right; by eexists|by left].
Qed.

Lemma elem_of_redirect_at bin address targets o o' t :
  (o', t) ∈ redirect_at bin address targets o ↔
  o' = o ∧ ∃ a, jal_target (address + o) (from_le (slice bin o (o + 4))) = Some a ∧ targets !! a = Some t.
Proof.
  unfold redirect_at. destruct (jal_target _ _) as [a|]; [destruct (targets !! a) as [t'|] eqn:E|].
  - rewrite list_elem_of_singleton. naive_solver.
  - rewrite elem_of_nil. naive_solver.
  - rewrite elem_of_nil. naive_solver.
Qed.

Lemma words_of_range n : 0 ≤ n → range_step 0 (n - 3) 4 = (λ k, 0 + k * 4) <$> zrange 0 (n / 4).
Proof. intros Hn. unfold range_step. do 2 f_equal. f_equal. lia. Qed.

Lemma tiled_words bin address targets k m :
  0 ≤ k ≤ m → m * 4 ≤ zlen bin →
  tiled bin (k * 4) (mjoin (redirect_at bin address targets <$> ((λ k, 0 + k * 4) <$> zrange k m))).
Proof.
  intros Hk Hm. remember (Z.to_nat (m - k)) as n eqn:Hn. revert k Hk Hn.
  induction n as [|n IH]; intros k Hk Hn.
  - rewrite zrange_empty by lia. simpl. lia.
  - rewrite zrange_cons by lia. rewrite !fmap_cons, join_cons.
    specialize (IH (k + 1) ltac:(lia) ltac:(lia)).
    destruct (redirect_at_cases bin address targets (0 + k * 4)) as [-> | [t ->]]; cbn [app].
    + destruct (mjoin _) as [|r rs]; simpl in *; [lia|]. destruct IH as (? & ? & ?). split; [lia|done].
    + simpl. split; [lia|]. split; [lia|].
      replace (0 + k * 4 + 4) with ((k + 1) * 4) by lia. exact IH.
Qed.

Lemma find_redirects_spec bin address targets :
  tiled bin 0 (find_redirects bin address targets) ∧
  ∀ o t, (o, t) ∈ find_redirects bin address targets ↔
    0 ≤ o ∧ o mod 4 = 0 ∧ o + 4 ≤ zlen bin ∧
    ∃ a, jal_target (address + o) (from_le (slice bin o (o + 4))) = Some a ∧ targets !! a = Some t.
Proof.
  unfold find_redirects. rewrite words_of_range by auto with py.
  assert (0 ≤ zlen bin) by auto with py. split.
  - apply (tiled_words bin address targets 0 (zlen bin / 4)); Z.div_mod_to_equations; lia.
  - intros o t. rewrite list_elem_of_join. split.
    + intros (l & Hin & (o' & -> & (k & -> & Hk%elem_of_zrange)%list_elem_of_fmap)%list_elem_of_fmap).
      apply elem_of_redirect_at in Hin as [-> Ha].
      split_and!; [lia| | |exact Ha]; Z.div_mod_to_equations; lia.
    + intros (Ho & Hm & Hl & Ha). eexists. split; [by apply elem_of_redirect_at; split|].
      apply list_elem_of_fmap_2, list_elem_of_fmap. exists (o / 4). rewrite elem_of_zrange.
      Z.div_mod_to_equations; lia.
Qed.

(** A [--redirect] option resolves to the address of its source and its target. *)
Definition resolves (elf : Elf) (option : string) (r : Z * string) : Prop :=
  ∃ source target s, split_at "="%char (chars option) = Some (source, target) ∧
    symbol elf (of_chars source) = Ok s ∧ r = (sym_value s, of_chars target).

Lemma read_redirects_spec elf options targets :
  read_redirects elf options = Ok targets →
  ∃ rs, Forall2 (resolves elf) options rs ∧
    ∀ a t, targets !! a = Some t ↔ last (filter (λ r, r.1 = a) rs) = Some (a, t).
Proof.
  unfold read_redirects. intros H.
  apply (foldM_inv (λ done targets, ∃ rs, Forall2 (resolves elf) done rs ∧
    ∀ a t, targets !! a = Some t ↔ last (filter (λ r, r.1 = a) rs) = Some (a, t))) in H; [done| |].
  - exists []. split; [constructor|]. intros a t. by rewrite lookup_empty.
  - intros don x s1 s2 (rs & Hr & Hs) Hx _. unfold add_redirect in Hx.
    destruct (split_at _ _) as [[source target]|] eqn:Hsp; [|discriminate].
    apply bind_Ok in Hx as (s & Hsym & Hx). injection Hx as <-.
    exists (rs ++ [(sym_value s, of_chars target)]). split.
    { apply Forall2_app; [done|]. apply Forall2_cons. split; [|constructor]. by exists source, target, s. }
    intros a t. rewrite filter_app. destruct (decide (sym_value s = a)) as [<-|Hne].
    + rewrite lookup_insert_eq, filter_cons_True, filter_nil, last_snoc by done. naive_solver.
    + rewrite lookup_insert_ne, filter_cons_False, filter_nil, app_nil_r by done. apply Hs.
Qed.

(** ** The alternatives applied *)

(** Every section that occupies the file lies inside it. *)
Definition file_backed (elf : Elf) : Prop :=
  ∀ s, s ∈ sections elf → sec_type s ≠ 8 →
    0 ≤ sec_offset s ∧ sec_offset s + sec_size s ≤ zlen (data elf).

(** A decoded entry: where the original instructions are, where their
    replacement is, and how long both are. *)
Record alternative := { alt_old : Z; alt_new : Z; alt_len : Z }.

Definition entry_at (elf : Elf) (section : ElfSection) (offset : Z) (e : alternative) : Prop :=
  ∃ old new vendor len patch,
    unpack_from ALT_ENTRY (data elf) (sec_offset section + offset)
      = Ok [FZ old; FZ new; vendor; FZ len; patch] ∧
    e = {| alt_old := sec_address section + offset + old;
           alt_new := sec_address section + offset + 4 + new; alt_len := len |}.

(** [e] lies in a function of [size] bytes at [address] ([inside]) and rewrites
    its byte [x] ([rewrites]). *)
Definition inside (address size : Z) (e : alternative) : bool :=
  (0 <=? alt_old e - address) && (alt_old e - address + alt_len e <=? size).
Definition rewrites (address size x : Z) (e : alternative) : bool :=
  inside address size e && (alt_old e - address <=? x) && (x <? alt_old e - address + alt_len e).

Lemma bytes_at_length elf address size bs :
  file_backed elf → 0 ≤ size → bytes_at elf address size = Ok bs → zlen bs = size.
Proof.
  intros Hf Hs. unfold bytes_at. unfold file_backed in Hf.
  induction (sections elf) as [|s l IH]; simpl; [done|].
  destruct (_ && _ && _) eqn:Hb; [|apply IH; intros; apply Hf; [by right|done]].
  intros [= <-]. b2p. destruct (Hf s); [by left|done|].
  rewrite zlen_slice_inside; lia.
Qed.

Lemma unpack_alt_len elf offset old new vendor len patch :
  bytes_ok (data elf) →
  unpack_from ALT_ENTRY (data elf) offset = Ok [FZ old; FZ new; vendor; FZ len; patch] → 0 ≤ len.
Proof.
  intros Hb H. unfold unpack_from in H. ok_step H. apply Ok_inj in H. simpl in H.
  injection H as _ _ _ <- _.
  by apply from_le_bound, Forall_take, Forall_drop, Forall_drop, Forall_drop, slice_bytes_ok.
Qed.

(** After the loop: the length of the function is kept, the entries inside it are
    counted, and every byte is the one of the last entry that rewrites it. *)
Section alternatives.
Variables (elf : Elf) (address : Z) (original : list Z).
Let size := zlen original.

Definition byte_of (entries : list alternative) (function_data : list Z) (x : Z) : Prop :=
  match last (filter (λ e, rewrites address size x e = true) entries) with
  | None => function_data !! Z.to_nat x = original !! Z.to_nat x
  | Some e => ∃ new, bytes_at elf (alt_new e) (alt_len e) = Ok new ∧
      function_data !! Z.to_nat x = new !! Z.to_nat (x - (alt_old e - address))
  end.

Definition applied (entries : list alternative) (s : list Z * Z) : Prop :=
  zlen s.1 = size ∧ s.2 = zlen (filter (λ e, inside address size e = true) entries) ∧
  ∀ x, 0 ≤ x < size → byte_of entries s.1 x.

Hypothesis backed : file_backed elf.
Hypothesis data_ok : bytes_ok (data elf).

Lemma apply_entry_spec section entries s offset s' :
  applied entries s → apply_entry elf section address s offset = Ok s' →
  ∃ e, entry_at elf section offset e ∧ applied (entries ++ [e]) s'.
Proof.
  destruct s as [fd n]. intros (Hl & Hn & Hb) H. simpl in Hl, Hn, Hb. unfold apply_entry in H.
  apply bind_Ok in H as (raw & Hraw & H).
  destruct raw as [|[|old] [|[|new] [|vendor [|[|len] [|patch [|]]]]]]; try discriminate H.
  set (e := {| alt_old := sec_address section + offset + old;
               alt_new := sec_address section + offset + 4 + new; alt_len := len |}).
  exists e. split; [by eexists _, _, _, _, _|].
  pose proof (unpack_alt_len _ _ _ _ _ _ _ data_ok Hraw) as Hlen.
  rewrite Hl in H. change ((0 <=? _) && _) with (inside address size e) in H.
  unfold applied, byte_of. rewrite filter_app.
  destruct (inside address size e) eqn:Hin.
  - apply bind_Ok in H as (bs & Hbs & H). injection H as <-.
    pose proof (bytes_at_length _ _ _ _ backed Hlen Hbs) as Hbl.
    pose proof Hin as Hin'. unfold inside in Hin'. b2p. cbn [alt_old alt_len e] in *.
    split; [|split].
    + simpl. rewrite zlen_slice_assign; lia.
    + simpl. rewrite filter_cons_True, filter_nil, zlen_snoc by done. lia.
    + intros x Hx. rewrite filter_app. cbn [fst]. rewrite lookup_slice_assign by lia.
      destruct (rewrites address size x e) eqn:Hr.
      * rewrite filter_cons_True, filter_nil, last_snoc by done. exists bs.
        unfold rewrites in Hr. b2p. cbn [alt_old alt_len e] in *. rewrite decide_True by lia. done.
      * rewrite filter_cons_False, filter_nil, app_nil_r by congruence. rewrite decide_False; [by apply Hb|].
        intros Hx2. unfold rewrites in Hr. rewrite Hin in Hr. cbn [alt_old alt_len e andb] in Hr.
        apply andb_false_iff in Hr as [Hr|Hr]; b2p; lia.
  - injection H as <-. split; [done|]. split.
    + simpl. by rewrite filter_cons_False, filter_nil, app_nil_r by congruence.
    + intros x Hx. rewrite filter_app, filter_cons_False, filter_nil, app_nil_r; [by apply Hb|].
      unfold rewrites. by rewrite Hin.
Qed.

Lemma apply_alternatives_spec s :
  apply_alternatives elf address original = Ok s →
  match section_by_name elf !! ".alternative" with
  | None => s = (original, 0)
  | Some section => ∃ entries,
      Forall2 (entry_at elf section) (range_step 0 (sec_size section) (calcsize ALT_ENTRY)) entries ∧
      applied entries s
  end.
Proof.
  unfold apply_alternatives. destruct (section_by_name elf !! ".alternative") as [section|]; [|by intros [= <-]].
  intros H. ok_step H.
  apply (foldM_inv (λ offsets s, ∃ entries, Forall2 (entry_at elf section) offsets entries ∧ applied entries s))
    in H; [done| |].
  - exists []. split; [constructor|]. split; [done|]. split; [done|]. intros x Hx. done.
  - intros don offset s1 s2 (entries & Hf & Ha) Hx _.
    destruct (apply_entry_spec _ _ _ _ _ Ha Hx) as (e & He & Ha'). exists (entries ++ [e]).
    split; [|done]. apply Forall2_app; [done|]. by repeat constructor.
Qed.
End alternatives.

(** ** Correctness *)

Lemma open_elf_data vmlinux elf : open_elf vmlinux = Ok elf → data elf = vmlinux.
Proof.
  unfold open_elf. intros (header & _ & H)%bind_Ok.
  repeat first [ok_step H | case_match; try discriminate H]. by subst elf.
Qed.

(** C26: A successful run extracts the function.  Without --apply-alternatives the binary is
    the bytes of the symbol in the file; with it, and every section inside the file, it has
    the same length and each byte is that of the last alternative inside the function that
    rewrites it.  The redirected offsets are exactly the word-aligned direct jumps of the
    binary whose target is the address of a --redirect source, with the target of the last
    such option.  The emitted body, assembled with any four-byte encoding of the calls, is
    the binary with exactly those instructions replaced. *)
Theorem extract_faithful args vmlinux encode out :
  bytes_ok vmlinux → (∀ position target, zlen (encode position target) = 4) →
  main args vmlinux = Ok out →
  ∃ elf function code rs,
    open_elf vmlinux = Ok elf ∧ symbol elf (arg_symbol args) = Ok function ∧
    bytes_at elf (sym_value function) (sym_size function) = Ok code ∧
    Forall2 (resolves elf) (redirect args) rs ∧
    (if apply_alternatives_flag args then
       file_backed elf →
       match section_by_name elf !! ".alternative" with
       | None => binary_bytes out = code
       | Some section => ∃ entries n,
           Forall2 (entry_at elf section) (range_step 0 (sec_size section) (calcsize ALT_ENTRY)) entries ∧
           applied elf (sym_value function) code entries (binary_bytes out, n)
       end
     else binary_bytes out = code) ∧
    (∀ o t, (o, t) ∈ redirects out ↔
       0 ≤ o ∧ o mod 4 = 0 ∧ o + 4 ≤ zlen (binary_bytes out) ∧
       ∃ a, jal_target (sym_value function + o) (from_le (slice (binary_bytes out) o (o + 4))) = Some a ∧
            last (filter (λ r, r.1 = a) rs) = Some (a, t)) ∧
    assembly out = write_assembly (output_bin args) (output_symbol args)
                     (zlen (binary_bytes out)) (redirects out) ∧
    assembled (binary_bytes out) encode 0 (body_from 0 (zlen (binary_bytes out)) (redirects out))
      = patched (binary_bytes out) encode (redirects out).
Proof.
  intros Hv He H. unfold main in H.
  apply bind_Ok in H as (elf & Helf & H). apply bind_Ok in H as (function & Hf & H). ok_step H.
  apply bind_Ok in H as (code & Hc & H). apply bind_Ok in H as ([bin n] & Hbin & H).
  apply bind_Ok in H as (targets & Ht & H). injection H as <-. cbn [binary_bytes redirects assembly].
  destruct (read_redirects_spec _ _ _ Ht) as (rs & Hrs & Hlast).
  destruct (find_redirects_spec bin (sym_value function) targets) as [Htile Hmem].
  exists elf, function, code, rs. split_and!; try done.
  - destruct (apply_alternatives_flag args); [|by injection Hbin as <- _].
    intros Hb. apply apply_alternatives_spec in Hbin; [|done|by rewrite (open_elf_data _ _ Helf)].
    case_match; [|by injection Hbin as -> _].
    destruct Hbin as (entries & ? & ?). by exists entries, n.
  - intros o t. rewrite Hmem. setoid_rewrite Hlast. done.
  - rewrite assembled_body; [|done|done|exact Htile]. done.
Qed.

(** A small image: a function of three instructions at 0x1000 that jumps to the
    symbol at 0x2000 twice. *)
Definition sample_header : list Z :=
  (0x7F :: bytes_of "ELF") ++ [2; 1] ++ zero_bytes 10 ++ zero_bytes 24 ++ le_bytes 8 64
  ++ zero_bytes 10 ++ le_bytes 2 64 ++ le_bytes 2 5 ++ le_bytes 2 4.
Definition sample_section (name type address offset size link entry_size : Z) : list Z :=
  le_bytes 4 name ++ le_bytes 4 type ++ zero_bytes 8 ++ le_bytes 8 address ++ le_bytes 8 offset
  ++ le_bytes 8 size ++ le_bytes 4 link ++ zero_bytes 12 ++ le_bytes 8 entry_size.
Definition sample_code : list Z :=
  le_bytes 4 (jal_word 1 0x1000) ++ le_bytes 4 0x13 ++ le_bytes 4 (jal_word 0 0xff8).
Definition sample_symbol (name value size : Z) : list Z :=
  le_bytes 4 name ++ zero_bytes 2 ++ le_bytes 2 1 ++ le_bytes 8 value ++ le_bytes 8 size.
Definition sample_names : list Z :=
  0 :: bytes_of ".text" ++ [0] ++ bytes_of ".symtab" ++ [0] ++ bytes_of "f" ++ [0] ++ bytes_of "g" ++ [0].
Definition sample_image : list Z :=
  sample_header ++ sample_section 0 0 0 0 0 0 0 ++ sample_section 1 1 0x1000 384 12 0 0
  ++ sample_section 7 2 0 396 48 3 24 ++ sample_section 0 3 0 444 19 0 0
  ++ sample_section 0 3 0 444 19 0 0
  ++ sample_code ++ sample_symbol 15 0x1000 12 ++ sample_symbol 17 0x2000 4 ++ sample_names.
Definition sample_args : Args :=
  {| arg_symbol := "f"; output_symbol := "bench_f"; output_bin := "/tmp/f.bin";
     apply_alternatives_flag := true; redirect := ["g=memcpy"] |}.

Definition sample_output : Output :=
  match main sample_args sample_image with
  | Ok out => out
  | Err _ => {| binary_bytes := []; assembly := []; redirects := []; console := "" |}
  end.

(** The second jump does not link ([jal x0]), and becomes a linking call. *)
Example sample_extract :
  main sample_args sample_image = Ok sample_output ∧
  binary_bytes sample_output = sample_code ∧
  redirects sample_output = [(0, "memcpy"); (8, "memcpy")] ∧
  (item_line "b" <$> body_from 0 12 (redirects sample_output)) =
    ["jal ra, memcpy"; ".incbin " +:+ quote +:+ "b" +:+ quote +:+ ", 4, 4"; "jal ra, memcpy"] ∧
  console sample_output = "symbol=f size=12 alternatives=0 redirects=2".
Proof. vm_compute. repeat split; reflexivity. Qed.

Lemma extract_faithful_witness :
  main sample_args sample_image = Ok sample_output ∧
  assembled (binary_bytes sample_output) (λ _ _, [0; 0; 0; 0]) 0
    (body_from 0 (zlen (binary_bytes sample_output)) (redirects sample_output))
  = patched (binary_bytes sample_output) (λ _ _, [0; 0; 0; 0]) (redirects sample_output).
Proof.
  assert (bytes_ok sample_image) as Hb by (apply bytes_ok_test; vm_compute; reflexivity).
  pose proof (proj1 sample_extract) as Hm. split; [exact Hm|].
  destruct (extract_faithful sample_args sample_image (λ _ _, [0; 0; 0; 0]) sample_output Hb
    (λ _ _, eq_refl) Hm) as (elf & function & code & rs & _ & _ & _ & _ & _ & _ & _ & H).
  exact H.
Defined.
