(* ===== verification/BootSignposts.v ===== *)
(** * Linux boot milestones

    [tools/linux_boot_signposts.py]: extraction of comparable boot milestones
    from the log of a simulated boot.  A milestone is exact when the testbench
    printed a record for it; otherwise it is bracketed by the progress records
    before and after its line. *)

From stdpp Require Import base numbers list strings gmap sorting.
From Stdlib Require Import ZArith Lia Ascii.
From S2P Require Import Prelude PyText PyFloat PyDict PySearch PyRegex.

Open Scope Z_scope.

Definition PROGRESS_RE : regex :=
  lit "OpenSBI progress cycles=" +>+ Group "cycles" (many is_digit)
  +>+ lit " instret=" +>+ Group "instret" (many is_digit)
  +>+ lazy_any +>+ lit " pc=" +>+ Group "pc" (many is_hex).

Definition name_char (c : ascii) : bool := is_char "-" c || is_lower c || is_digit c.
Definition EXACT_RE : regex :=
  lit "PERF " +>+ Alt (lit "SIGNPOST") (lit "MILESTONE")
  +>+ lit " name=" +>+ Group "name" (many name_char)
  +>+ lit " cycles=" +>+ Group "cycles" (many is_digit)
  +>+ lit " instret=" +>+ Group "instret" (many is_digit)
  +>+ Opt (lazy_any +>+ lit " pc=" +>+ Group "pc" (many is_hex)).

Record Marker := { marker_name : string; description : string; pattern : regex }.

Definition mark (name description : string) (pattern : regex) : Marker :=
  {| marker_name := name; description := description; pattern := pattern |}.

Definition MARKERS : list Marker :=
  [ mark "opensbi" "OpenSBI banner" (lit "OpenSBI v" +>+ Chr is_digit);
    mark "linux" "Linux banner" (lit "Linux version " +>+ many (λ c, negb (blank c)));
    mark "memory" "kernel memory accounting"
      (lit "Memory: " +>+ many is_digit +>+ lit "K/" +>+ many is_digit +>+ lit "K available");
    mark "devtmpfs" "devtmpfs initialized" (lit "devtmpfs: initialized");
    mark "plic" "PLIC initialized"
      (lit "riscv-plic: " +>+ greedy_any +>+ lit " mapped " +>+ many is_digit +>+ lit " interrupts");
    mark "uart" "8250 console initialized"
      (lit "serial: ttyS0 " +>+ greedy_any +>+ lit " is a 16550A");
    mark "initmem" "kernel init memory freed" (lit "Freeing unused kernel image");
    mark "init" "PID 1 started" (lit "Run /init as init process");
    mark "bash" "Bash prompt" (lit "openrv64# ") ].

Record Progress := { line : Z; cycles : Z; instret : Z; pc : Z }.

Record Signpost := {
  log : string; marker : Marker; sp_line : Z;
  exact_cycles : option Z; exact_instret : option Z; exact_pc : option Z;
  lower : option Progress; upper : option Progress }.

Definition format_cycles (cycles : Z) : string :=
  if cycles mod 1000000 =? 0 then str_int (cycles / 1000000) +:+ "M"
  else
    let value := fixed 3 (div_or_zero cycles 1000000) in
    of_chars (rstrip_char "."%char (rstrip_char "0"%char (chars value))) +:+ "M".

Definition cycle_text (self : Signpost) : string :=
  match exact_cycles self with
  | Some c => format_cycles c
  | None =>
      match lower self, upper self with
      | Some l, Some u =>
          if cycles l =? cycles u then format_cycles (cycles l)
          else format_cycles (cycles l) +:+ ".." +:+ format_cycles (cycles u)
      | Some l, None => ">=" +:+ format_cycles (cycles l)
      | None, Some u => "<=" +:+ format_cycles (cycles u)
      | None, None => "unknown"
      end
  end.

Definition instret_text (self : Signpost) : string :=
  match exact_instret self with
  | Some i => str_int i
  | None =>
      match lower self, upper self with
      | Some l, Some u =>
          if instret l =? instret u then str_int (instret l)
          else str_int (instret l) +:+ ".." +:+ str_int (instret u)
      | Some l, None => ">=" +:+ str_int (instret l)
      | None, Some u => "<=" +:+ str_int (instret u)
      | None, None => "unknown"
      end
  end.

(** [int(match.group(name), base)] *)
Definition int_group (base : Z) (name : string) (m : captures) : result Z :=
  match group name m with
  | None => Err (TypeError "int() argument must be a string")
  | Some text =>
      match py_int base text with
      | Some v => Ok v
      | None => Err (ValueError "invalid literal for int()")
      end
  end.

(** [match.group(name)] of a group that takes part in every match. *)
Definition text_group (name : string) (m : captures) : result string :=
  match group name m with Some text => Ok text | None => Err (TypeError name) end.

(** The value of [exact]: line, cycles, instret and the optional pc. *)
Record Exact := { ex_line : Z; ex_cycles : Z; ex_instret : Z; ex_pc : option Z }.

Definition read_progress (line_number : Z) (m : captures) : result Progress :=
  cycles ← int_group 10 "cycles" m;
  instret ← int_group 10 "instret" m;
  pc ← int_group 16 "pc" m;
  Ok {| line := line_number; cycles := cycles; instret := instret; pc := pc |}.

Definition read_exact (line_number : Z) (m : captures) : result (string * Exact) :=
  name ← text_group "name" m;
  cycles ← int_group 10 "cycles" m;
  instret ← int_group 10 "instret" m;
  pc ← (match group "pc" m with
        | Some _ => pc ← int_group 16 "pc" m; Ok (Some pc)
        | None => Ok None
        end);
  Ok (name, {| ex_line := line_number; ex_cycles := cycles; ex_instret := instret; ex_pc := pc |}).

(** [exact.setdefault(name, ...)] *)
Definition keep_first (d : gmap string Exact) (e : string * Exact) : gmap string Exact :=
  match d !! e.1 with Some _ => d | None => <[e.1 := e.2]> d end.

Record Scan := { progress : list Progress; exact : gmap string Exact }.

(** The body of the loop over the lines. *)
Definition scan_line (s : Scan) (numbered : Z * list ascii) : result Scan :=
  let '(line_number, line) := numbered in
  ps ← mapR (read_progress line_number) (finditer PROGRESS_RE line);
  es ← mapR (read_exact line_number) (finditer EXACT_RE line);
  Ok {| progress := progress s ++ ps; exact := foldl keep_first (exact s) es |}.

(** The first line the marker's pattern is found in. *)
Fixpoint first_line (pattern : regex) (lines : list (Z * list ascii)) : option Z :=
  match lines with
  | [] => None
  | (number, line) :: lines =>
      match search pattern line with
      | Some _ => Some number
      | None => first_line pattern lines
      end
  end.

(** [exact.get(name) or exact.get("linux-" + name)] *)
Definition exact_entry (exact : gmap string Exact) (name : string) : option Exact :=
  match exact !! name with
  | Some e => Some e
  | None => exact !! ("linux-" +:+ name)
  end.

(** One turn of the loop over [MARKERS]. *)
Definition find_marker (path : string) (lines : list (Z * list ascii)) (progress : list Progress)
    (exact : gmap string Exact) (marker : Marker) : list Signpost :=
  let entry := exact_entry exact (marker_name marker) in
  let marker_line := match first_line (pattern marker) lines, entry with
                     | Some n, _ => Some n
                     | None, Some e => Some (ex_line e)
                     | None, None => None
                     end in
  match marker_line with
  | None => []
  | Some marker_line =>
      let position := bisect_right (line <$> progress) marker_line in
      [{| log := path; marker := marker; sp_line := marker_line;
          exact_cycles := ex_cycles <$> entry; exact_instret := ex_instret <$> entry;
          exact_pc := (e ← entry; ex_pc e);
          lower := match position with O => None | S p => progress !! p end;
          upper := progress !! position |}]
  end.

Definition scan (lines : list (Z * list ascii)) : result Scan :=
  foldM scan_line {| progress := []; exact := ∅ |} lines.

Definition extract (path : string) (text : string) : result (list Signpost) :=
  let lines := numbered (splitlines text) in
  s ← scan lines;
  let progress := sort_by line (progress s) in
  Ok (mjoin (find_marker path lines progress (exact s) <$> MARKERS)).

(** ** Reports *)

Definition markdown_row (s : Signpost) : string :=
  "| " +:+ description (marker s) +:+ " | " +:+ cycle_text s +:+ " | " +:+ instret_text s
  +:+ " | " +:+ str_int (sp_line s) +:+ " |".

Definition render_markdown (groups : list (string * list Signpost)) : list string :=
  mjoin ((λ '(path, signposts),
    ["### `" +:+ path +:+ "`"; "";
     "| Signpost | Cycles | Instructions retired | Log line |"; "|---|---:|---:|---:|"]
    ++ (markdown_row <$> signposts)
    ++ (if bool_decide (length signposts = 0%nat)
        then ["| No recognized signposts | unknown | unknown | - |"] else [])
    ++ [""]) <$> groups).

Definition tab : string := of_chars [char_of 9].

Definition render_tsv (groups : list (string * list Signpost)) : list string :=
  join tab ["log"; "name"; "description"; "cycles"; "instret"; "line"]
  :: mjoin ((λ '(path, signposts),
       (λ s, join tab [path; marker_name (marker s); description (marker s); cycle_text s;
                       instret_text s; str_int (sp_line s)]) <$> signposts) <$> groups).

(** [main]: the exit status, the lines of standard output and those of standard
    error.  [read path] is the text of the file, [None] when it is no file. *)
Definition main (read : string → option string) (logs : list string) (markdown : bool)
    : result (Z * list string * list string) :=
  match filter (λ path, read path = None) logs with
  | [] =>
      groups ← mapR (λ path, found ← extract path (default "" (read path)); Ok (path, found)) logs;
      Ok (0, if markdown then render_markdown groups else render_tsv groups, [])
  | missing => Ok (2, [], (λ path, "error: log does not exist: " +:+ path) <$> missing)
  end.

(** ** Reading the records *)

Definition to_option {A} (r : result A) : option A := match r with Ok a => Some a | Err _ => None end.

Lemma mapR_option {A B} (f : A → result B) xs :
  (∀ x, x ∈ xs → is_Ok (f x) = true) → mapR f xs = Ok (omap (to_option ∘ f) xs).
Proof.
  induction xs as [|x xs IH]; intros H; [done|]. simpl.
  pose proof (H x ltac:(set_solver)) as Hx. unfold compose. destruct (f x) as [y|]; [|done]. simpl.
  rewrite IH by set_solver. done.
Qed.

Ltac match_parts H :=
  repeat match type of H with
  | matches (Seq _ _) _ _ _ _ =>
      let Hm := fresh "Hm" in apply matches_seq in H as (? & ? & Hm & H); match_parts Hm
  | matches (lit _) _ _ _ _ => apply matches_lit in H as [? ->]
  | matches lazy_any _ _ _ _ => apply matches_rep in H as [-> _]
  | matches (Group _ _) _ _ _ _ =>
      apply matches_group in H as (? & ? & ? & ? & ->)
  end.

(** Every match of [PROGRESS_RE] is read. *)
Lemma read_progress_total n l m :
  m ∈ finditer PROGRESS_RE l →
  ∃ p, read_progress n m = Ok p ∧ line p = n ∧ 0 ≤ cycles p ∧ 0 ≤ instret p ∧ 0 ≤ pc p.
Proof.
  intros (here & rest & H)%find_all_match. unfold PROGRESS_RE in H. match_parts H.
  unfold read_progress, int_group. cbn [group String.eqb Ascii.eqb Bool.eqb].
  edestruct (int_of_class 10 is_digit x2) as (c & -> & Hc); [by left|done|done|].
  edestruct (int_of_class 10 is_digit x5) as (i & -> & Hi); [by left|done|done|].
  edestruct (int_of_class 16 is_hex x7) as (a & -> & Ha); [by right|done|done|].
  eexists. split; [reflexivity|]. done.
Qed.

Lemma read_exact_total n l m :
  m ∈ finditer EXACT_RE l →
  ∃ e, read_exact n m = Ok e ∧ ex_line e.2 = n ∧ 0 ≤ ex_cycles e.2 ∧ 0 ≤ ex_instret e.2.
Proof.
  intros (here & rest & H)%find_all_match. unfold EXACT_RE in H. match_parts H.
  assert (x1 = []) as ->.
  { inversion Hm as [| | | | |? ? ? ? ? ? Hl|? ? ? ? ? ? Hl| | |]; subst; by apply matches_lit in Hl as [_ ->]. }
  match_parts Hm0. match_parts Hm1. match_parts Hm2. match_parts Hm3. match_parts Hm4. match_parts Hm5.
  unfold read_exact, text_group, int_group.
  inversion H as [| | | | | | |? ? ? ? ? Hp| |]; subst; [match_parts Hp|].
  all: cbn [group String.eqb Ascii.eqb Bool.eqb mbind result_bind].
  all: edestruct (int_of_class 10 is_digit) as (c & -> & Hc); [by left|done|done|].
  all: edestruct (int_of_class 10 is_digit) as (i & -> & Hi); [by left|done|done|].
  - edestruct (int_of_class 16 is_hex) as (a & -> & Ha); [by right|done|done|].
    eexists. split; [reflexivity|]. done.
  - eexists. split; [reflexivity|]. done.
Qed.

(** The records of a log, in the order they appear. *)
Definition progress_on (nl : Z * list ascii) : list Progress :=
  omap (to_option ∘ read_progress nl.1) (finditer PROGRESS_RE nl.2).
Definition exact_on (nl : Z * list ascii) : list (string * Exact) :=
  omap (to_option ∘ read_exact nl.1) (finditer EXACT_RE nl.2).
Definition progress_records (lines : list (Z * list ascii)) : list Progress :=
  mjoin (progress_on <$> lines).
Definition exact_records (lines : list (Z * list ascii)) : list (string * Exact) :=
  mjoin (exact_on <$> lines).

(** The first exact record of a name. *)
Definition first_exact (records : list (string * Exact)) (name : string) : option Exact :=
  snd <$> head (filter (λ e, e.1 = name) records).

Lemma elem_of_progress_on nl p :
  p ∈ progress_on nl → line p = nl.1 ∧ 0 ≤ cycles p ∧ 0 ≤ instret p ∧ 0 ≤ pc p.
Proof.
  unfold progress_on. intros (m & Hm & Hp)%list_elem_of_omap.
  destruct (read_progress_total nl.1 nl.2 m Hm) as (p' & Hr & Hf).
  unfold compose in Hp. rewrite Hr in Hp. injection Hp as <-. done.
Qed.

Lemma elem_of_exact_on nl e :
  e ∈ exact_on nl → ex_line e.2 = nl.1 ∧ 0 ≤ ex_cycles e.2 ∧ 0 ≤ ex_instret e.2.
Proof.
  unfold exact_on. intros (m & Hm & Hp)%list_elem_of_omap.
  destruct (read_exact_total nl.1 nl.2 m Hm) as (p' & Hr & Hf).
  unfold compose in Hp. rewrite Hr in Hp. injection Hp as <-. done.
Qed.

Lemma scan_line_total s nl :
  scan_line s nl = Ok {| progress := progress s ++ progress_on nl;
                         exact := foldl keep_first (exact s) (exact_on nl) |}.
Proof.
  destruct nl as [n l]. unfold scan_line.
  rewrite (mapR_option (read_progress n)), (mapR_option (read_exact n)); [done| |].
  - intros m Hm. by destruct (read_exact_total n l m Hm) as (? & -> & _).
  - intros m Hm. by destruct (read_progress_total n l m Hm) as (? & -> & _).
Qed.

Lemma keep_first_lookup records d name :
  foldl keep_first d records !! name =
    match d !! name with Some e => Some e | None => first_exact records name end.
Proof.
  revert d. induction records as [|[n e] records IH]; intros d; simpl; [by destruct (d !! name)|].
  rewrite IH. unfold keep_first, first_exact. simpl. destruct (decide (n = name)) as [->|Hn].
  - rewrite filter_cons_True by done. destruct (d !! name) eqn:E; [by rewrite E|].
    by rewrite lookup_insert_eq.
  - rewrite filter_cons_False by done. destruct (d !! n); [done|]. by rewrite lookup_insert_ne.
Qed.

Lemma scan_spec lines :
  ∃ s, scan lines = Ok s ∧ progress s = progress_records lines ∧
       ∀ name, exact s !! name = first_exact (exact_records lines) name.
Proof.
  unfold scan. cut (∀ s0, ∃ s, foldM scan_line s0 lines = Ok s ∧
    progress s = progress s0 ++ progress_records lines ∧
    exact s = foldl keep_first (exact s0) (exact_records lines)).
  { intros H. destruct (H {| progress := []; exact := ∅ |}) as (s & Hs & Hp & He).
    exists s. split_and!; [done|done|]. intros name. rewrite He, keep_first_lookup. cbn [exact]. by rewrite lookup_empty. }
  induction lines as [|nl lines IH]; intros s0; cbn [foldM].
  - exists s0. split_and!; [done|by rewrite app_nil_r|done].
  - rewrite scan_line_total. cbn [mbind result_bind].
    destruct (IH {| progress := progress s0 ++ progress_on nl;
                    exact := foldl keep_first (exact s0) (exact_on nl) |}) as (s & Hs & Hp & He).
    exists s. split; [done|]. rewrite Hp, He. unfold progress_records, exact_records.
    rewrite !fmap_cons, !join_cons, foldl_app. cbn [progress exact]. by rewrite <-app_assoc.
Qed.

(** Records of lines in order are in order of their lines. *)
Definition in_order (lines : list (Z * list ascii)) : Prop := Pairwise (λ a b, a.1 < b.1) lines.

Lemma numbered_in_order ls : in_order (numbered ls).
Proof.
  unfold in_order, numbered. apply Pairwise_lookup_2.
  intros i j [a la] [b lb] Hij Ha Hb.
  apply lookup_zip_Some in Ha as [Ha _]. apply lookup_zip_Some in Hb as [Hb _].
  rewrite lookup_zrange in Ha, Hb. repeat case_decide; simplify_eq/=; lia.
Qed.

Lemma progress_in_order lines :
  in_order lines → Pairwise (λ a b, line a ≤ line b) (progress_records lines).
Proof.
  unfold in_order, progress_records. induction lines as [|nl lines IH]; [done|]. intros [Hnl Hl].
  rewrite fmap_cons, join_cons. apply Pairwise_app. split_and!; [|by apply IH|].
  - assert (∀ p, p ∈ progress_on nl → line p = nl.1) as Hp by (by intros p [? _]%elem_of_progress_on).
    induction (progress_on nl) as [|p ps IHp]; simpl; [done|]. split.
    + apply Forall_forall. intros q Hq. rewrite (Hp p), (Hp q); [done|by right|by left].
    + apply IHp. intros q Hq. apply Hp. by right.
  - intros p q [Hp _]%elem_of_progress_on (qs & Hq & (nl' & -> & Hin)%list_elem_of_fmap)%list_elem_of_join.
    apply elem_of_progress_on in Hq as [Hq _]. rewrite Forall_forall in Hnl. specialize (Hnl nl' Hin). lia.
Qed.

(** ** The specification of extract *)

(** The exact record of a marker, and the line the marker is placed at: the first
    its pattern is found in, or else that of its exact record. *)
Definition marker_entry (lines : list (Z * list ascii)) (m : Marker) : option Exact :=
  match first_exact (exact_records lines) (marker_name m) with
  | Some e => Some e
  | None => first_exact (exact_records lines) ("linux-" +:+ marker_name m)
  end.
Definition marker_line (lines : list (Z * list ascii)) (m : Marker) : option Z :=
  match first_line (pattern m) lines with
  | Some n => Some n
  | None => ex_line <$> marker_entry lines m
  end.

(** The milestone of a marker, from the records of the log: the bracket is the
    last progress record up to its line and the first one after it. *)
Definition reference (path : string) (lines : list (Z * list ascii)) (m : Marker) : option Signpost :=
  let records := progress_records lines in
  let entry := marker_entry lines m in
  n ← marker_line lines m;
  Some {| log := path; marker := m; sp_line := n;
          exact_cycles := ex_cycles <$> entry; exact_instret := ex_instret <$> entry;
          exact_pc := (e ← entry; ex_pc e);
          lower := last (filter (λ p, line p ≤ n) records);
          upper := head (filter (λ p, n < line p) records) |}.

(** A bisected list. *)
Lemma filter_bisect (ps : list Progress) n :
  Pairwise (λ a b, line a ≤ line b) ps →
  let p := bisect_right (line <$> ps) n in
  filter (λ p, line p ≤ n) ps = take p ps ∧ filter (λ p, n < line p) ps = drop p ps.
Proof.
  intros Hs p. assert (StronglySorted Z.le (line <$> ps)) as Hsort
    by (by apply Pairwise_StronglySorted, Pairwise_fmap).
  destruct (bisect_right_spec (line <$> ps) n Hsort) as (Hp & Hlo & Hhi). fold p in Hp, Hlo, Hhi.
  assert (Forall (λ q, line q ≤ n) (take p ps)) as Ht.
  { apply Forall_lookup. intros i q Hi. pose proof (lookup_lt_Some _ _ _ Hi) as Hl. rewrite length_take in Hl.
    rewrite lookup_take_lt in Hi by lia. apply (Hlo i); [lia|]. by rewrite list_lookup_fmap, Hi. }
  assert (Forall (λ q, n < line q) (drop p ps)) as Hd.
  { apply Forall_lookup. intros i q Hi. rewrite lookup_drop in Hi.
    apply (Hhi (p + i)%nat); [lia|]. by rewrite list_lookup_fmap, Hi. }
  clearbody p. clear -Ht Hd. rewrite <-(take_drop p ps) at 1 3. rewrite !filter_app. split.
  - rewrite (filter_all _ (take p ps)), (filter_none _ (drop p ps)), app_nil_r; try done.
    eapply Forall_impl; [exact Hd|]. simpl. lia.
  - rewrite (filter_none _ (take p ps)), (filter_all _ (drop p ps)); try done.
    eapply Forall_impl; [exact Ht|]. simpl. lia.
Qed.

Lemma extract_brackets_spec path text :
  extract path text = Ok (omap (reference path (numbered (splitlines text))) MARKERS).
Proof.
  unfold extract. set (lines := numbered (splitlines text)).
  destruct (scan_spec lines) as (s & Hs & Hp & He). rewrite Hs. cbn [mbind result_bind].
  pose proof (progress_in_order lines (numbered_in_order _)) as Hord. rewrite <-Hp in Hord.
  rewrite sort_by_id by done. f_equal.
  induction MARKERS as [|m ms IH]; [done|]. rewrite fmap_cons, join_cons, IH. cbn [omap list_omap].
  unfold find_marker, reference, marker_line, marker_entry, exact_entry. rewrite !He, <-Hp.
  set (entry := match first_exact _ _ with Some e => Some e | None => _ end).
  assert (match first_line (pattern m) lines, entry with
          | Some n, _ => Some n | None, Some e => Some (ex_line e) | None, None => None end
          = match first_line (pattern m) lines with Some n => Some n | None => ex_line <$> entry end)
    as -> by (by destruct (first_line _ _), entry).
  destruct (match first_line _ _ with Some n => Some n | None => _ end) as [n|]; [|done].
  destruct (filter_bisect (progress s) n Hord) as [Hlo Hhi].
  pose proof (bisect_right_spec (line <$> progress s) n) as Hb.
  cbn [mbind option_bind app]. rewrite Hlo, Hhi, head_drop. do 3 f_equal.
  destruct (bisect_right _ n) as [|p]; [done|]. rewrite last_take_S; [done|].
  destruct Hb as [Hb _]; [by apply Pairwise_StronglySorted, Pairwise_fmap|].
  rewrite length_fmap in Hb. lia.
Qed.

(** C30: extract never fails, and gives exactly the milestones of the specification, in the
    order of the markers: each at the first line its pattern is found in (or at its exact
    record), with the first exact record of its name, bracketed by the last progress record
    not after that line and the first one after it. *)
Theorem extract_brackets path text :
  extract path text = Ok (omap (reference path (numbered (splitlines text))) MARKERS).
Proof. apply extract_brackets_spec. Qed.


(** A log with an exact record, a bracketed banner and a prompt after the last
    progress record. *)
Definition sample_log : string :=
  join newline
    ["OpenSBI v1.2";
     "OpenSBI progress cycles=1000000 instret=400000 x pc=80000000 priv=3";
     "[ 0.0] Linux version 6.6 (gcc)";
     "OpenSBI progress cycles=1250000 instret=500000 pc=ffffffff80001234";
     "PERF SIGNPOST name=linux-init cycles=1300001 instret=520000 pc=80000010";
     "Run /init as init process";
     "openrv64# "].

Definition sample_signposts : list Signpost := default [] (to_option (extract "a.log" sample_log)).

Example sample_texts :
  (λ s, (marker_name (marker s), sp_line s, cycle_text s, instret_text s)) <$> sample_signposts =
  [("opensbi", 1, "<=1M", "<=400000"); ("linux", 3, "1M..1.25M", "400000..500000");
   ("init", 6, "1.3M", "520000"); ("bash", 7, ">=1.25M", ">=500000")].
Proof. vm_compute. reflexivity. Qed.
