(* ===== verification/BootWatch.v ===== *)
(** * Live annotation of a boot log

    [tools/linux_boot_watch.py]: the simulator's stream is passed through, and
    each progress or exact record in it is followed by an annotation with the
    function of the recorded program counter; the same records become rows of a
    CSV file.  [watch] is what the program prints and writes for a whole stream;
    the program itself is in [SessionPrograms].  Built from the symbol tables and the record expressions of
    [ElfSymbols] and [BootSignposts]. *)

From stdpp Require Import base numbers list strings.
From Stdlib Require Import ZArith Lia Ascii.
From S2P Require Import Prelude PyText PySearch PyRegex BootSignposts ElfSymbols.

Open Scope Z_scope.

Record Options := { configuration : string; annotations_only : bool; changes_only : bool }.

(** An entry of [records]: kind, signpost, cycles, instret and pc. *)
Record Entry := { is_sample : bool; signpost : string; cycles : Z; instret : Z; pc : Z }.

Definition sample_entry (m : captures) : result Entry :=
  cycles ← int_group 10 "cycles" m;
  instret ← int_group 10 "instret" m;
  pc ← int_group 16 "pc" m;
  Ok {| is_sample := true; signpost := ""; cycles := cycles; instret := instret; pc := pc |}.

Definition signpost_entry (m : captures) : result (list Entry) :=
  match group "pc" m with
  | None => Ok []
  | Some _ =>
      name ← text_group "name" m;
      cycles ← int_group 10 "cycles" m;
      instret ← int_group 10 "instret" m;
      pc ← int_group 16 "pc" m;
      Ok [{| is_sample := false; signpost := name; cycles := cycles; instret := instret; pc := pc |}]
  end.

Definition line_records (line : string) : result (list Entry) :=
  samples ← mapR sample_entry (finditer PROGRESS_RE (chars line));
  signposts ← mapR signpost_entry (finditer EXACT_RE (chars line));
  Ok (samples ++ mjoin signposts).

Definition record_name (e : Entry) : string := if is_sample e then "SAMPLE" else "SIGNPOST".

(** The text of an annotation. *)
Definition annotation (o : Options) (e : Entry) (symbol : option SymbolizedPc) : string :=
  "FUNCTION " +:+ record_name e +:+ " configuration=" +:+ configuration o
  +:+ " cycles=" +:+ str_int (cycles e) +:+ " instret=" +:+ str_int (instret e)
  +:+ " pc=0x" +:+ hex_pad 16 (pc e)
  +:+ " symbol=" +:+ (match symbol with Some s => text s | None => "unmapped" end)
  +:+ (if String.eqb (signpost e) "" then "" else " signpost=" +:+ signpost e).

Definition csv_header : list string :=
  ["configuration"; "record"; "signpost"; "cycles"; "instret"; "pc"; "image"; "function";
   "function_base"; "offset"].

Definition csv_row (o : Options) (e : Entry) (symbol : option SymbolizedPc) : list string :=
  [configuration o; PyText.lower (record_name e); signpost e; str_int (cycles e); str_int (instret e);
   "0x" +:+ hex_pad 16 (pc e)]
  ++ match symbol with
     | Some s => [image s; function s; "0x" +:+ hex_pad 16 (base s); "0x" +:+ hex_int (offset s)]
     | None => ["unmapped"; "unmapped"; ""; ""]
     end.

Definition current_function (symbol : option SymbolizedPc) : string * string :=
  match symbol with Some s => (image s, function s) | None => ("unmapped", "unmapped") end.

(** The texts printed and the rows written, and [previous_function]. *)
Record Watch := {
  stdout : list string; rows : list (list string); previous_function : option (string * string) }.

Definition handle_record (o : Options) (tables : list SymbolTable) (w : Watch) (e : Entry) : Watch :=
  let symbol := symbolize tables (pc e) in
  let current := current_function symbol in
  if is_sample e && changes_only o && bool_decide (Some current = previous_function w) then w
  else {| stdout := stdout w ++ [annotation o e symbol +:+ newline]; rows := rows w ++ [csv_row o e symbol];
          previous_function := if is_sample e then Some current else previous_function w |}.

(** [if not args.annotations_only: sys.stdout.write(line)] *)
Definition passed (o : Options) (w : Watch) (line : string) : Watch :=
  if annotations_only o then w
  else {| stdout := stdout w ++ [line]; rows := rows w; previous_function := previous_function w |}.

Definition handle_line (o : Options) (tables : list SymbolTable) (w : Watch) (line : string)
    : result Watch :=
  records ← line_records line;
  Ok (foldl (handle_record o tables) (passed o w line) records).

(** The stream is the list of its lines. *)
Definition watch (o : Options) (tables : list SymbolTable) (lines : list string) : result Watch :=
  foldM (handle_line o tables)
    {| stdout := []; rows := [csv_header]; previous_function := None |} lines.

(** ** The stream is preserved *)

(** Every record the expressions find is read. *)
Lemma line_records_total line : ∃ records, line_records line = Ok records.
Proof.
  unfold line_records.
  destruct (mapR_exists sample_entry (finditer PROGRESS_RE (chars line))) as [samples ->].
  { intros m Hm. destruct (read_progress_total 0 _ m Hm) as (p & Hp & _). unfold read_progress in Hp.
    unfold sample_entry. repeat (apply bind_Ok in Hp as (? & -> & Hp); cbn [mbind result_bind]). eauto. }
  destruct (mapR_exists signpost_entry (finditer EXACT_RE (chars line))) as [signposts ->].
  { intros m Hm. destruct (read_exact_total 0 _ m Hm) as (e & He & _). unfold read_exact in He.
    unfold signpost_entry. destruct (group "pc" m); [|eauto].
    do 3 (apply bind_Ok in He as (? & -> & He); cbn [mbind result_bind]).
    apply bind_Ok in He as (? & (? & -> & _)%bind_Ok & _). cbn [mbind result_bind]. eauto. }
  cbn [mbind result_bind]. eauto.
Qed.

(** A printed line that is an annotation of the stream. *)
Definition is_annotation (o : Options) (l : string) : Prop := ∃ e symbol, l = annotation o e symbol +:+ newline.

Lemma handle_records_stdout o tables records w :
  ∃ added, stdout (foldl (handle_record o tables) w records) = stdout w ++ added ∧
           Forall (is_annotation o) added ∧
           length (rows (foldl (handle_record o tables) w records)) = (length (rows w) + length added)%nat.
Proof.
  revert w. induction records as [|e records IH]; intros w; simpl.
  - exists []. rewrite app_nil_r. split_and!; [done|done|simpl; lia].
  - destruct (IH (handle_record o tables w e)) as (added & -> & Hf & ->). unfold handle_record.
    destruct (_ && _); [by exists added|]. cbn [stdout rows]. eexists. rewrite <-app_assoc.
    split_and!; [done|constructor; [by eexists _, _|done]|rewrite length_app; simpl; lia].
Qed.

Lemma handle_line_total o tables w line :
  ∃ records, handle_line o tables w line = Ok (foldl (handle_record o tables) (passed o w line) records).
Proof. unfold handle_line. destruct (line_records_total line) as [records ->]. by exists records. Qed.

(** watch never fails; it passes every line of the stream through, unchanged and in
    order, with nothing but annotations between them, and with --annotations-only it prints
    nothing but annotations; the CSV file has its header and one row per annotation. *)
Theorem stream_preserved o tables lines :
  ∃ w added, watch o tables lines = Ok w ∧ length added = length lines ∧
    Forall (Forall (is_annotation o)) added ∧
    stdout w = mjoin (zip_with (λ line annotations,
                 if annotations_only o then annotations else line :: annotations) lines added) ∧
    length (rows w) = S (length (mjoin added)).
Proof.
  unfold watch. cut (∀ w0, ∃ w added, foldM (handle_line o tables) w0 lines = Ok w ∧
    length added = length lines ∧ Forall (Forall (is_annotation o)) added ∧
    stdout w = stdout w0 ++ mjoin (zip_with (λ line annotations,
                 if annotations_only o then annotations else line :: annotations) lines added) ∧
    length (rows w) = (length (rows w0) + length (mjoin added))%nat).
  { intros H. destruct (H {| stdout := []; rows := [csv_header]; previous_function := None |})
      as (w & added & ?). by exists w, added. }
  induction lines as [|line lines IH]; intros w0; cbn [foldM].
  { exists w0, []. simpl. rewrite app_nil_r. split_and!; [done..|lia]. }
  destruct (handle_line_total o tables w0 line) as [records ->]. cbn [mbind result_bind].
  set (w1 := passed o w0 line).
  destruct (handle_records_stdout o tables records w1) as (new & Hnew & Hf & Hrows).
  destruct (IH (foldl (handle_record o tables) w1 records)) as (w & added & Hw & Hl & Ha & Hs & Hr).
  exists w, (new :: added). split_and!; [done|simpl; lia|by constructor| |].
  - rewrite Hs, Hnew. cbn [zip_with]. rewrite join_cons. unfold w1, passed.
    destruct (annotations_only o); cbn [stdout]; by rewrite <-!app_assoc.
  - rewrite Hr, Hrows, join_cons, length_app. unfold w1, passed. destruct (annotations_only o); simpl; lia.
Qed.
