(* ===== verification/BootWorkbook.v ===== *)
(** * The look of the boot comparison workbook

    The second half of [write_xlsx] of [tools/linux_boot_report.py]: what it sets on
    the sheets it has filled.  Rows and columns count from 1; a sheet is its rows, and
    its [Look] what the cells, the columns and the charts were given.  The names of
    columns and the extent of a sheet are [openpyxl]'s. *)

From stdpp Require Import base numbers list strings gmap.
From Stdlib Require Import ZArith Lia.
From S2P Require Import Prelude PyText.

Open Scope Z_scope.

(** ** Cells *)

Abbreviation cell_at := (Z * Z)%type.

(** The cells of an area, row by row and column by column. *)
Definition by_rows (rows columns : list Z) : list cell_at := r ← rows; c ← columns; [(r, c)].
Definition by_columns (rows columns : list Z) : list cell_at := c ← columns; r ← rows; [(r, c)].

Lemma elem_of_by_rows rows columns r c : (r, c) ∈ by_rows rows columns ↔ r ∈ rows ∧ c ∈ columns.
Proof. unfold by_rows. set_solver. Qed.
Lemma elem_of_by_columns rows columns r c :
  (r, c) ∈ by_columns rows columns ↔ r ∈ rows ∧ c ∈ columns.
Proof. unfold by_columns. set_solver. Qed.

(** [for cell in cells: cell.attribute = f(cell)] *)
Definition put_each {A} (f : cell_at → A) (cells : list cell_at) (m : gmap cell_at A) : gmap cell_at A :=
  foldl (λ m cell, <[cell := f cell]> m) m cells.

Lemma put_each_lookup {A} (f : cell_at → A) cells m c :
  put_each f cells m !! c = if decide (c ∈ cells) then Some (f c) else m !! c.
Proof.
  unfold put_each. revert m. induction cells as [|x l IH]; intros m; simpl; [done|].
  rewrite IH. destruct (decide (c ∈ l)) as [Hc|Hc].
  - by destruct (decide (c ∈ x :: l)) as [|Hn]; [|destruct Hn; right].
  - destruct (decide (c = x)) as [->|Hx].
    + rewrite lookup_insert_eq. by destruct (decide (x ∈ x :: l)) as [|Hn]; [|destruct Hn; left].
    + rewrite lookup_insert_ne by done. by destruct (decide (c ∈ x :: l)) as [[|]%elem_of_cons|].
Qed.

(** ** Looks *)

Record Font := { size : option Z; bold : bool; color : string }.

(** [ColorScaleRule] from the least value to the greatest. *)
Record Scale := {
  start_color : string; mid_type : string; mid_value : Z; mid_color : string; end_color : string }.

(** [Reference] on the sheet the chart is on. *)
Record Reference := { min_col : Z; max_col : option Z; min_row : Z; max_row : Z }.
(** A line chart with the names of its series in their first row. *)
Record Chart := {
  title : string; y_title : string; x_title : string; data : list Reference;
  categories : Reference; height : Z; width : Z }.

Record Look := {
  freeze_panes : option string; auto_filter : option string;
  fills : gmap cell_at string; fonts : gmap cell_at Font; horizontal : gmap cell_at string;
  number_formats : gmap cell_at string; scales : list (string * Scale);
  widths : gmap string Z; charts : list (string * Chart) }.

Record Sheet (A : Type) := { rows : list (list A); look : Look }.
Arguments rows {A}.
Arguments look {A}.

Definition plain : Look :=
  {| freeze_panes := None; auto_filter := None; fills := ∅; fonts := ∅; horizontal := ∅;
     number_formats := ∅; scales := []; widths := ∅; charts := [] |}.

Definition DARK_FILL : string := "1F4E78".
Definition LIGHT_FILL : string := "D9EAF7".

Definition RISING : string * Z → Scale := λ '(kind, value),
  {| start_color := "F8696B"; mid_type := kind; mid_value := value; mid_color := "FFEB84";
     end_color := "63BE7B" |}.
Definition FALLING : Scale :=
  {| start_color := "F8696B"; mid_type := "num"; mid_value := 0; mid_color := "63BE7B";
     end_color := "F8696B" |}.

Section looks.
Context {A : Type}.
(** [openpyxl.utils.get_column_letter] and [sheet.dimensions]. *)
Context (letter : Z → string) (dimensions : list (list A) → string).

Definition row_count (rows : list (list A)) : Z := zlen rows.
Definition column_count (rows : list (list A)) : Z := foldr Z.max 0 (zlen <$> rows).

(** The rows below the header. *)
Definition body (rows : list (list A)) : list Z := zrange 2 (row_count rows + 1).
Definition row_cells (rows : list (list A)) (r : Z) : list cell_at :=
  by_rows [r] (zrange 1 (column_count rows + 1)).

(** A sheet whose first row is a header. *)
Definition table (rows : list (list A)) : Look :=
  {| freeze_panes := Some "A2"; auto_filter := Some (dimensions rows);
     fills := put_each (λ _, LIGHT_FILL) (r ← filter (λ r, r `mod` 2 = 0) (body rows); row_cells rows r)
                (put_each (λ _, DARK_FILL) (row_cells rows 1) ∅);
     fonts := put_each (λ _, {| size := None; bold := true; color := "FFFFFF" |}) (row_cells rows 1) ∅;
     horizontal := put_each (λ _, "center") (row_cells rows 1) ∅;
     number_formats := ∅; scales := []; widths := ∅; charts := [] |}.

Definition with_formats (f : cell_at → string) (cells : list cell_at) (l : Look) : Look :=
  {| freeze_panes := freeze_panes l; auto_filter := auto_filter l; fills := fills l; fonts := fonts l;
     horizontal := horizontal l; number_formats := put_each f cells (number_formats l);
     scales := scales l; widths := widths l; charts := charts l |}.
Definition with_scales (new : list (string * Scale)) (l : Look) : Look :=
  {| freeze_panes := freeze_panes l; auto_filter := auto_filter l; fills := fills l; fonts := fonts l;
     horizontal := horizontal l; number_formats := number_formats l; scales := scales l ++ new;
     widths := widths l; charts := charts l |}.
Definition with_charts (new : list (string * Chart)) (l : Look) : Look :=
  {| freeze_panes := freeze_panes l; auto_filter := auto_filter l; fills := fills l; fonts := fonts l;
     horizontal := horizontal l; number_formats := number_formats l; scales := scales l;
     widths := widths l; charts := charts l ++ new |}.
(** [for index, width in enumerate(column_widths, start=1)] *)
Definition with_widths (new : list Z) (l : Look) : Look :=
  {| freeze_panes := freeze_panes l; auto_filter := auto_filter l; fills := fills l; fonts := fonts l;
     horizontal := horizontal l; number_formats := number_formats l; scales := scales l;
     widths := foldl (λ m '(i, w), <[letter (i + 1) := w]> m) (widths l) (enumerate new);
     charts := charts l |}.

(** ** The sheets *)

Definition read_me_look : Look :=
  let l := with_widths [34; 105] plain in
  {| freeze_panes := Some "A11"; auto_filter := auto_filter l; fills := fills l;
     fonts := <[(1, 1) := {| size := Some 16; bold := true; color := DARK_FILL |}]> (fonts l);
     horizontal := horizontal l; number_formats := number_formats l; scales := scales l;
     widths := widths l; charts := charts l |}.

Definition outcomes_look (rows : list (list A)) : Look :=
  with_widths [24; 24; 18; 20; 18; 18; 14; 14; 20; 24; 24; 24; 20; 44; 85] (table rows).

Definition milestone_format (c : cell_at) : string := if c.2 =? 12 then "0.000" else "#,##0.0".
Definition milestones_look (rows : list (list A)) : Look :=
  with_widths [24; 18; 28; 16; 16; 16; 14; 16; 16; 16; 14; 18; 18; 20; 42; 20; 42; 70; 12]
    (with_formats milestone_format (by_columns (body rows) (zrange 4 13)) (table rows)).

Definition functions_look (rows : list (list A)) : Look :=
  with_widths [24; 18; 20; 14; 38; 20; 20; 12; 18; 38; 70; 12] (table rows).

(** [row[:4]] and [row[4:]] of the cells from column 4 *)
Definition interval_format (c : cell_at) : string := if c.2 - 4 <? 4 then "#,##0" else "0.000".
Definition intervals_look (rows : list (list A)) : Look :=
  let l := with_formats interval_format (by_rows (body rows) (zrange 4 10)) (table rows) in
  let l := if 2 <=? row_count rows
           then with_scales [("H2:I" +:+ str_int (row_count rows), RISING ("percentile", 50))] l else l in
  with_widths [24; 16; 16; 18; 18; 18; 18; 12; 12] l.

Definition comparison_format (c : cell_at) : string :=
  if decide ((c.2 - 3) `mod` 4 ∈ [2; 3]) then "0.0%" else "#,##0".
Definition area (rows : list (list A)) (column : Z) : string :=
  letter column +:+ "2:" +:+ letter column +:+ str_int (row_count rows).
Definition comparison_scales (rows : list (list A)) (configurations : Z) : list (string * Scale) :=
  index ← zrange 0 configurations;
  [(area rows (5 + index * 4), RISING ("num", 0)); (area rows (6 + index * 4), FALLING)].
Definition line_chart (rows : list (list A)) (title y_title : string) (columns : list Z) : Chart :=
  {| title := title; y_title := y_title; x_title := "Milestone";
     data := (λ c, {| min_col := c; max_col := Some c; min_row := 1; max_row := row_count rows |}) <$> columns;
     categories := {| min_col := 1; max_col := None; min_row := 2; max_row := row_count rows |};
     height := 9; width := 18 |}.
Definition comparison_charts (rows : list (list A)) (configurations : Z) : list (string * Chart) :=
  let columns first := (λ index, first + index * 4) <$> zrange 0 configurations in
  [("A13", line_chart rows "Boot milestone cycles by configuration" "Cycles" (columns 3));
   ("J13", line_chart rows "Retired instructions at boot milestones" "Instructions retired" (columns 4))].
Definition comparison_look (rows : list (list A)) (configurations : Z) : Look :=
  let l := with_formats comparison_format
             (by_columns (body rows) (zrange 3 (column_count rows + 1))) (table rows) in
  let l := if 2 <=? row_count rows then with_scales (comparison_scales rows configurations) l else l in
  let l := with_widths ((λ column, if column =? 2 then 28 else 22) <$> zrange 1 (column_count rows + 1)) l in
  if (0 <? configurations) && (1 <? row_count rows)
  then with_charts (comparison_charts rows configurations) l else l.
End looks.
