(* ===== verification/BootReport.v ===== *)
(** * Comparison of Linux boot logs

    [tools/linux_boot_report.py]: the milestones of several runs
    ([collect]), the functions their progress samples fall in, the outcome of
    each run with its longest stretch without retirement, the intervals between
    milestones, and the rows of the CSV file and of the workbook's sheets.

    Logs are given as texts; a sheet is the list of its rows with the look of
    [BootWorkbook].  [workbook_presented] says that formats, colours and charts are
    those of the columns they are put on. *)

From stdpp Require Import base numbers list strings gmap.
From Stdlib Require Import ZArith Lia Ascii.
From S2P Require Import Prelude PyText PyFloat PyDict PySearch PyRegex BootSignposts ElfSymbols.
From S2P Require BootWorkbook.

Open Scope Z_scope.

(** A run: its configuration, the path of its log and the text of the log. *)
Record RunLog := { configuration : string; path : string; log_text : string }.

Definition parse_run (value : string) : result (string * string) :=
  match split_at "="%char (chars value) with
  | None => Err (ArgumentTypeError "--run must be CONFIGURATION=LOG")
  | Some (configuration, path) =>
      raise (ArgumentTypeError "configuration name must not be empty")
        when bool_decide (configuration = []);;
      raise (ArgumentTypeError "log path must not be empty") when bool_decide (path = []);;
      Ok (of_chars configuration, of_chars path)
  end.

(** ** Measurements *)

Record Measurement := { m_configuration : string; signpost : Signpost }.

Section measurement.
Variable self : Measurement.
Let s := signpost self.

Definition cycle_low : option Z :=
  match exact_cycles s with Some c => Some c | None => cycles <$> lower s end.
Definition cycle_high : option Z :=
  match exact_cycles s with Some c => Some c | None => cycles <$> upper s end.
Definition instret_low : option Z :=
  match exact_instret s with Some i => Some i | None => instret <$> lower s end.
Definition instret_high : option Z :=
  match exact_instret s with Some i => Some i | None => instret <$> upper s end.

(** [estimate(low, high)] *)
Definition estimate (low high : option Z) : option double :=
  match low, high with
  | Some low, Some high => Some (div_or_zero (low + high) 2)
  | _, _ => None
  end.
Definition cycle_estimate : option double := estimate cycle_low cycle_high.
Definition instret_estimate : option double := estimate instret_low instret_high.

Definition precision : string :=
  match exact_cycles s with
  | Some _ => "exact"
  | None =>
      match cycle_low, cycle_high with
      | Some _, Some _ => "bracketed"
      | Some _, None => "lower bound only"
      | None, Some _ => "upper bound only"
      | None, None => "unknown"
      end
  end.

Definition pc_low : option Z := match exact_pc s with Some p => Some p | None => pc <$> lower s end.
Definition pc_high : option Z := match exact_pc s with Some p => Some p | None => pc <$> upper s end.
End measurement.

(** ** Collection of the milestones *)

Definition MAXSIZE : Z := 2 ^ 63 - 1.

(** [value or sys.maxsize] *)
Definition or_maxsize (v : option Z) : Z :=
  match v with Some v => if v =? 0 then MAXSIZE else v | None => MAXSIZE end.

(** Whether a later measurement of the same milestone replaces the previous one. *)
Definition replaces (previous measurement : Measurement) : bool :=
  match exact_cycles (signpost previous), exact_cycles (signpost measurement) with
  | None, Some _ => true
  | None, None => or_maxsize (cycle_low measurement) <? or_maxsize (cycle_low previous)
  | Some _, _ => false
  end.

Definition key_of (m : Measurement) : string * string :=
  (m_configuration m, marker_name (marker (signpost m))).

Definition collect_one (configuration : string) (by_key : list ((string * string) * Measurement))
    (signpost : Signpost) : list ((string * string) * Measurement) :=
  let measurement := {| m_configuration := configuration; signpost := signpost |} in
  let key := key_of measurement in
  match d_get key by_key with
  | None => d_set key measurement by_key
  | Some previous => if replaces previous measurement then d_set key measurement by_key else by_key
  end.

Definition collect_log (by_key : list ((string * string) * Measurement)) (run_log : RunLog)
    : result (list ((string * string) * Measurement)) :=
  signposts ← extract (path run_log) (log_text run_log);
  Ok (foldl (collect_one (configuration run_log)) by_key signposts).

(** [order[item.signpost.marker.name]] *)
Definition marker_order (m : Measurement) : Z :=
  index_of (marker_name (marker (signpost m))) (marker_name <$> MARKERS).

Definition measurement_le (configurations : list string) (a b : Measurement) : bool :=
  let ca := index_of (m_configuration a) configurations in
  let cb := index_of (m_configuration b) configurations in
  (ca <? cb) || ((ca =? cb) && (marker_order a <=? marker_order b)).

Definition collect (run_logs : list RunLog) : result (list string * list Measurement) :=
  let configurations := from_keys (configuration <$> run_logs) in
  by_key ← foldM collect_log [] run_logs;
  Ok (configurations, sort_le (measurement_le configurations) by_key.*2).

(** ** Function observations *)

Record FunctionObservation := {
  f_configuration : string; f_symbol : SymbolizedPc; f_cycles : Z; f_instret : Z; f_pc : Z;
  source_log : string; source_line : Z; samples : Z }.

Definition observations_t : Type := list ((string * string * string) * FunctionObservation).

(** One progress record. *)
Definition observe (tables : list SymbolTable) (run_log : RunLog) (observations : observations_t)
    (p : Progress) : observations_t :=
  match symbolize tables (pc p) with
  | None => observations
  | Some symbol =>
      let key := (configuration run_log, image symbol, function symbol) in
      let found samples :=
        {| f_configuration := configuration run_log; f_symbol := symbol; f_cycles := cycles p;
           f_instret := instret p; f_pc := pc p; source_log := path run_log;
           source_line := line p; samples := samples |} in
      match d_get key observations with
      | None => d_set key (found 1) observations
      | Some previous =>
          let n := samples previous + 1 in
          d_set key
            (if cycles p <? f_cycles previous then found n
             else {| f_configuration := f_configuration previous; f_symbol := f_symbol previous;
                     f_cycles := f_cycles previous; f_instret := f_instret previous;
                     f_pc := f_pc previous; source_log := source_log previous;
                     source_line := source_line previous; samples := n |}) observations
      end
  end.

Definition observe_line (tables : list SymbolTable) (run_log : RunLog) (observations : observations_t)
    (numbered_line : Z * list ascii) : result observations_t :=
  ps ← mapR (read_progress numbered_line.1) (finditer PROGRESS_RE numbered_line.2);
  Ok (foldl (observe tables run_log) observations ps).

Definition observe_log (tables : list SymbolTable) (observations : observations_t) (run_log : RunLog)
    : result observations_t :=
  foldM (observe_line tables run_log) observations (numbered (splitlines (log_text run_log))).

Definition lex_le (c : comparison) (rest : bool) : bool :=
  match c with Lt => true | Gt => false | Eq => rest end.
Definition observation_le (configurations : list string) (a b : FunctionObservation) : bool :=
  lex_le (index_of (f_configuration a) configurations ?= index_of (f_configuration b) configurations)
    (lex_le (f_cycles a ?= f_cycles b)
      (lex_le (String.compare (image (f_symbol a)) (image (f_symbol b)))
        (String.leb (function (f_symbol a)) (function (f_symbol b))))).

Definition collect_function_observations (run_logs : list RunLog) (tables : list SymbolTable)
    : result (list FunctionObservation) :=
  let configurations := from_keys (configuration <$> run_logs) in
  observations ← foldM (observe_log tables) [] run_logs;
  Ok (sort_le (observation_le configurations) observations.*2).

(** ** Run outcomes *)

Record RunOutcome := {
  o_configuration : string; status : string;
  first_cycle : option Z; last_cycle : option Z; first_instret : option Z; last_instret : option Z;
  prompt_seen : bool; panic_seen : bool; simulation_stop_seen : bool;
  no_retire_start : option Z; no_retire_end : option Z; no_retire_cycles : Z;
  last_pc : option Z; source_logs : list string }.

(** The loop variables of the search for the longest stretch without retirement;
    [previous] are [previous_cycle] and [previous_instret]. *)
Record Stall := {
  longest_start : option Z; longest_end : option Z; longest_cycles : Z;
  run_start : option Z; previous : option (Z * Z) }.

Definition no_stall : Stall :=
  {| longest_start := None; longest_end := None; longest_cycles := 0; run_start := None;
     previous := None |}.

(** One sample: cycle, and retired instructions with the pc. *)
Definition stall_step (s : Stall) (sample : Z * (Z * Z)) : Stall :=
  let '(cycle, (instret, _)) := sample in
  let here := Some (cycle, instret) in
  match previous s with
  | Some (previous_cycle, previous_instret) =>
      if instret =? previous_instret then
        let start := default previous_cycle (run_start s) in
        let span := cycle - start in
        if longest_cycles s <? span
        then {| longest_start := Some start; longest_end := Some cycle; longest_cycles := span;
                run_start := Some start; previous := here |}
        else {| longest_start := longest_start s; longest_end := longest_end s;
                longest_cycles := longest_cycles s; run_start := Some start; previous := here |}
      else {| longest_start := longest_start s; longest_end := longest_end s;
              longest_cycles := longest_cycles s; run_start := None; previous := here |}
  | None => {| longest_start := longest_start s; longest_end := longest_end s;
               longest_cycles := longest_cycles s; run_start := None; previous := here |}
  end.
Definition longest_stall (samples : list (Z * (Z * Z))) : Stall := foldl stall_step no_stall samples.

Definition record_cycle (d : list (Z * (Z * Z))) (m : captures) : result (list (Z * (Z * Z))) :=
  cycles ← int_group 10 "cycles" m;
  instret ← int_group 10 "instret" m;
  pc ← int_group 16 "pc" m;
  Ok (d_set cycles (instret, pc) d).

Definition progress_by_cycle (logs : list RunLog) : result (list (Z * (Z * Z))) :=
  foldM (λ d log, foldM (λ d line, foldM record_cycle d (finditer PROGRESS_RE line)) d
                    (splitlines (log_text log))) [] logs.

Definition seen (pattern : string) (logs : list RunLog) : bool :=
  existsb (λ log, contains pattern (log_text log)) logs.

Definition outcome_status (prompt panic stop : bool) (longest : Z) : string :=
  if prompt then "prompt reached"
  else if panic then "kernel panic"
  else if 1000000 <=? longest then "stalled"
  else if stop then "completed without prompt"
  else "incomplete".

Definition run_outcome (group : string * list RunLog) : result RunOutcome :=
  let '(configuration, logs) := group in
  by_cycle ← progress_by_cycle logs;
  let samples := sort_by fst by_cycle in
  let stall := longest_stall samples in
  let prompt := seen "openrv64# " logs in
  let panic := seen "Kernel panic" logs in
  let stop := seen "SIMULATION STOP cycle=" logs in
  Ok {| o_configuration := configuration;
        status := outcome_status prompt panic stop (longest_cycles stall);
        first_cycle := fst <$> head samples; last_cycle := fst <$> last samples;
        first_instret := (λ s, s.2.1) <$> head samples; last_instret := (λ s, s.2.1) <$> last samples;
        prompt_seen := prompt; panic_seen := panic; simulation_stop_seen := stop;
        no_retire_start := longest_start stall; no_retire_end := longest_end stall;
        no_retire_cycles := longest_cycles stall;
        last_pc := (λ s, s.2.2) <$> last samples; source_logs := path <$> logs |}.

(** [grouped[run_log.configuration].append(run_log)] *)
Definition group_logs (run_logs : list RunLog) : list (string * list RunLog) :=
  foldl (λ d log, d_set (configuration log) (default [] (d_get (configuration log) d) ++ [log]) d)
    [] run_logs.

Definition collect_run_outcomes (run_logs : list RunLog) : result (list RunOutcome) :=
  mapR run_outcome (group_logs run_logs).

(** ** Rows *)

Inductive cell := VNone | VInt (z : Z) | VStr (s : string) | VFloat (x : double) | VBool (b : bool).
Definition v_int (v : option Z) : cell := match v with Some z => VInt z | None => VNone end.
Definition v_str (v : option string) : cell := match v with Some s => VStr s | None => VNone end.
Definition v_float (v : option double) : cell := match v with Some x => VFloat x | None => VNone end.

(** [f"0x{pc:016x}" if pc is not None else None], and the text of its symbol. *)
Definition pc_cell (pc : option Z) : cell := v_str ((λ p, "0x" +:+ hex_pad 16 p) <$> pc).
Definition symbol_cell (tables : list SymbolTable) (pc : option Z) : cell :=
  v_str (p ← pc; text <$> symbolize tables p).

Definition csv_header : list cell :=
  VStr <$> ["configuration"; "signpost"; "description"; "cycle_low"; "cycle_high"; "cycle_estimate";
    "instret_low"; "instret_high"; "instret_estimate"; "precision"; "pc_low"; "function_low";
    "pc_high"; "function_high"; "source_log"; "source_line"].

Definition csv_row (tables : list SymbolTable) (item : Measurement) : list cell :=
  let s := signpost item in
  [VStr (m_configuration item); VStr (marker_name (marker s)); VStr (description (marker s));
   v_int (cycle_low item); v_int (cycle_high item); v_float (cycle_estimate item);
   v_int (instret_low item); v_int (instret_high item); v_float (instret_estimate item);
   VStr (precision item); pc_cell (pc_low item); symbol_cell tables (pc_low item);
   pc_cell (pc_high item); symbol_cell tables (pc_high item); VStr (log s); VInt (sp_line s)].

Definition write_csv (measurements : list Measurement) (tables : list SymbolTable) : list (list cell) :=
  csv_header :: (csv_row tables <$> measurements).

(** An entry of [interval_rows]. *)
Record Interval := {
  i_configuration : string; i_from : string; i_to : string;
  i_cycle_low : option Z; i_cycle_high : option Z; i_instret_low : option Z; i_instret_high : option Z;
  ipc_low : option double; ipc_high : option double }.

Definition ratio (a b : Z) : option double := if 0 <? b then Some (div_or_zero a b) else None.

Definition interval (configuration : string) (before after : Measurement) : Interval :=
  let row cl ch il ih pl ph :=
    {| i_configuration := configuration; i_from := marker_name (marker (signpost before));
       i_to := marker_name (marker (signpost after)); i_cycle_low := cl; i_cycle_high := ch;
       i_instret_low := il; i_instret_high := ih; ipc_low := pl; ipc_high := ph |} in
  match cycle_low before, cycle_high before, cycle_low after, cycle_high after with
  | Some bl, Some bh, Some al, Some ah =>
      match instret_low before, instret_high before, instret_low after, instret_high after with
      | Some jl, Some jh, Some kl, Some kh =>
          let cycle_low := Z.max 0 (al - bh) in
          let cycle_high := Z.max 0 (ah - bl) in
          let instret_low := Z.max 0 (kl - jh) in
          let instret_high := Z.max 0 (kh - jl) in
          row (Some cycle_low) (Some cycle_high) (Some instret_low) (Some instret_high)
            (ratio instret_low cycle_high) (ratio instret_high cycle_low)
      | _, _, _, _ => row None None None None None None
      end
  | _, _, _, _ => row None None None None None None
  end.

(** [zip(items, items[1:])] *)
Definition interval_rows (configurations : list string) (measurements : list Measurement)
    : list Interval :=
  mjoin ((λ configuration,
    let items := filter (λ m, m_configuration m = configuration) measurements in
    zip_with (interval configuration) items (drop 1 items)) <$> configurations).

Definition interval_cells (i : Interval) : list cell :=
  [VStr (i_configuration i); VStr (i_from i); VStr (i_to i); v_int (i_cycle_low i);
   v_int (i_cycle_high i); v_int (i_instret_low i); v_int (i_instret_high i);
   v_float (ipc_low i); v_float (ipc_high i)].

(** ** The sheets of the workbook *)

Definition read_me (baseline : string) (run_logs : list RunLog) : list (list cell) :=
  [ [VStr "OpenRV64 Linux boot configuration comparison"];
    [];
    [VStr ("Cycle and retired-instruction values are exact only when the log "
       +:+ "contains a PERF SIGNPOST or PERF MILESTONE record.")];
    [VStr ("Old UART records are bracketed by adjacent progress samples. "
       +:+ "Estimates are interval midpoints; low/high columns retain the "
       +:+ "measurement uncertainty.")];
    [VStr ("Blank cells mean the retained log does not contain enough data. "
       +:+ "They must not be interpreted as zero.")];
    [VStr ("Function Landmarks are periodic progress-PC samples, not a "
       +:+ "complete call trace. A function absent from that sheet may still "
       +:+ "have executed between samples.")];
    [];
    [VStr "Baseline"; VStr baseline];
    [];
    [VStr "Configuration"; VStr "Source log"] ]
  ++ ((λ log, [VStr (configuration log); VStr (path log)]) <$> run_logs).

Definition outcome_headers : list string :=
  ["Configuration"; "Status"; "First cycle"; "Last sampled cycle"; "First instret"; "Last instret";
   "Prompt seen"; "Panic seen"; "Simulation stop seen"; "Longest no-retire start";
   "Longest no-retire end"; "Longest no-retire cycles"; "Last sampled PC"; "Last sampled function";
   "Source logs"].

Definition outcome_row (tables : list SymbolTable) (o : RunOutcome) : list cell :=
  [VStr (o_configuration o); VStr (status o); v_int (first_cycle o); v_int (last_cycle o);
   v_int (first_instret o); v_int (last_instret o); VBool (prompt_seen o); VBool (panic_seen o);
   VBool (simulation_stop_seen o); v_int (no_retire_start o); v_int (no_retire_end o);
   VInt (no_retire_cycles o); pc_cell (last_pc o); symbol_cell tables (last_pc o);
   VStr (join newline (source_logs o))].

Definition milestone_headers : list string :=
  ["Configuration"; "Signpost"; "Description"; "Cycle low"; "Cycle high"; "Cycle estimate";
   "Cycle +/-"; "Instret low"; "Instret high"; "Instret estimate"; "Instret +/-";
   "Cumulative IPC estimate"; "Precision"; "PC low"; "Function at low sample"; "PC high";
   "Function at high sample"; "Source log"; "Source line"].

(** [(high - low) / 2] *)
Definition half_width (low high : option Z) : option double :=
  match low, high with
  | Some low, Some high => Some (div_or_zero (high - low) 2)
  | _, _ => None
  end.

(** A quotient of two floats, when the divisor is known and positive. *)
Definition positive_ratio (a b : option double) : option double :=
  match a, b with
  | Some a, Some b => if flt (to_float 0) b then Some (fdiv a b) else None
  | _, _ => None
  end.

Definition milestone_row (tables : list SymbolTable) (item : Measurement) : list cell :=
  let s := signpost item in
  [VStr (m_configuration item); VStr (marker_name (marker s)); VStr (description (marker s));
   v_int (cycle_low item); v_int (cycle_high item); v_float (cycle_estimate item);
   v_float (half_width (cycle_low item) (cycle_high item));
   v_int (instret_low item); v_int (instret_high item); v_float (instret_estimate item);
   v_float (half_width (instret_low item) (instret_high item));
   v_float (positive_ratio (instret_estimate item) (cycle_estimate item));
   VStr (precision item); pc_cell (pc_low item); symbol_cell tables (pc_low item);
   pc_cell (pc_high item); symbol_cell tables (pc_high item); VStr (log s); VInt (sp_line s)].

Definition function_headers : list string :=
  ["Configuration"; "First sampled cycle"; "Instret at first sample"; "Image"; "Function";
   "Function base"; "Sampled PC"; "Offset"; "Progress samples in function"; "Evidence";
   "Source log"; "Source line"].

Definition function_row (o : FunctionObservation) : list cell :=
  [VStr (f_configuration o); VInt (f_cycles o); VInt (f_instret o); VStr (image (f_symbol o));
   VStr (function (f_symbol o)); VStr ("0x" +:+ hex_pad 16 (base (f_symbol o)));
   VStr ("0x" +:+ hex_pad 16 (f_pc o)); VInt (offset (f_symbol o)); VInt (samples o);
   VStr "periodic PC sample; call entry not proven"; VStr (source_log o); VInt (source_line o)].

Definition interval_headers : list string :=
  ["Configuration"; "From"; "To"; "Cycle delta low"; "Cycle delta high"; "Instret delta low";
   "Instret delta high"; "IPC low"; "IPC high"].

Definition comparison_headers (baseline : string) (configurations : list string) : list string :=
  ["Signpost"; "Description"]
  ++ mjoin ((λ configuration,
       [configuration +:+ " cycles"; configuration +:+ " instret";
        (if String.eqb configuration baseline then configuration +:+ " baseline"
         else configuration +:+ " cycle improvement vs " +:+ baseline);
        (if String.eqb configuration baseline then configuration +:+ " instret baseline"
         else configuration +:+ " instret delta vs " +:+ baseline)]) <$> configurations).

(** [by_key.get((configuration, marker.name))]: the last measurement of the key. *)
Definition measurement_of (measurements : list Measurement) (configuration name : string)
    : option Measurement :=
  last (filter (λ m, key_of m = (configuration, name)) measurements).

(** The relative difference to a baseline, when both values are known and the
    baseline is positive: 0 for the baseline itself. *)
Definition relative (is_baseline : bool) (baseline value : option double)
    (difference : double → double → double) : option double :=
  if is_baseline then (λ _, to_float 0) <$> value
  else match value, baseline with
       | Some v, Some b => if flt (to_float 0) b then Some (fdiv (difference b v) b) else None
       | _, _ => None
       end.

Definition comparison_row (baseline : string) (configurations : list string)
    (measurements : list Measurement) (m : Marker) : list cell :=
  let estimates name :=
    let item := measurement_of measurements name (marker_name m) in
    (item ≫= cycle_estimate, item ≫= instret_estimate) in
  [VStr (marker_name m); VStr (description m)]
  ++ mjoin ((λ name,
       let '(cycles, instret) := estimates name in
       let '(baseline_cycles, baseline_instret) := estimates baseline in
       let is_baseline := String.eqb name baseline in
       [v_float cycles; v_float instret;
        v_float (relative is_baseline baseline_cycles cycles (λ b v, fsub b v));
        v_float (relative is_baseline baseline_instret instret (λ b v, fsub v b))])
       <$> configurations).

Section write_xlsx.
(** [openpyxl.utils.get_column_letter] and [sheet.dimensions]. *)
Context (letter : Z → string) (dimensions : list (list cell) → string).

Abbreviation Workbook := (list (string * BootWorkbook.Sheet cell)).

Definition sheet (look : list (list cell) → BootWorkbook.Look) (headers : list string)
    (rows : list (list cell)) : BootWorkbook.Sheet cell :=
  let rows := (VStr <$> headers) :: rows in
  {| BootWorkbook.rows := rows; BootWorkbook.look := look rows |}.

Definition write_xlsx (baseline : string) (run_logs : list RunLog) (configurations : list string)
    (measurements : list Measurement) (tables : list SymbolTable)
    (observations : list FunctionObservation) (outcomes : list RunOutcome) : Workbook :=
  [("Read Me", {| BootWorkbook.rows := read_me baseline run_logs;
                  BootWorkbook.look := BootWorkbook.read_me_look letter |});
   ("Run Outcomes", sheet (BootWorkbook.outcomes_look letter dimensions) outcome_headers
                      (outcome_row tables <$> outcomes));
   ("Milestones", sheet (BootWorkbook.milestones_look letter dimensions) milestone_headers
                    (milestone_row tables <$> measurements));
   ("Function Landmarks", sheet (BootWorkbook.functions_look letter dimensions) function_headers
                            (function_row <$> observations));
   ("Intervals", sheet (BootWorkbook.intervals_look letter dimensions) interval_headers
                   (interval_cells <$> interval_rows configurations measurements));
   ("Comparison", sheet (λ rows, BootWorkbook.comparison_look letter dimensions rows (zlen configurations))
                    (comparison_headers baseline configurations)
                    (comparison_row baseline configurations measurements <$> MARKERS))].

(** ** main *)

Record Args := {
  runs : list (string * string); baseline : string; xlsx : string; csv : string;
  elfs : list ElfImage; nm : string }.

(** What a run of the program leaves: the exit status, the messages, and the two
    files when they are written. *)
Record Report := {
  exit_status : Z; messages : list string; csv_rows : option (list (list cell));
  workbook : option Workbook }.

Definition failed (messages : list string) : Report :=
  {| exit_status := 2; messages := messages; csv_rows := None; workbook := None |}.

(** [read path] is the text of a file, [None] when the path is no file;
    [have_openpyxl] tells whether the workbook library can be imported. *)
Definition main (args : Args) (read : string → option string)
    (run : list string → result (list string)) (have_openpyxl : bool) : result Report :=
  let missing := filter (λ p, read p = None) (args.(runs).*2 ++ (image_path <$> elfs args)) in
  if negb (bool_decide (missing = [])) then
    Ok (failed ((λ p, "error: log does not exist: " +:+ p) <$> missing))
  else
    let run_logs := (λ r, {| configuration := r.1; path := r.2; log_text := default "" (read r.2) |})
                    <$> runs args in
    '(configurations, measurements) ← collect run_logs;
    if negb (bool_decide (baseline args ∈ configurations)) then
      Ok (failed ["error: baseline is not a --run configuration: " +:+ baseline args])
    else
      match load_symbol_tables run (elfs args) (nm args) with
      | Err _ => Ok (failed ["error: could not load ELF symbols"])
      | Ok tables =>
          observations ← collect_function_observations run_logs tables;
          outcomes ← collect_run_outcomes run_logs;
          let rows := write_csv measurements tables in
          if have_openpyxl then
            Ok {| exit_status := 0;
                  messages := ["Wrote " +:+ xlsx args +:+ " and " +:+ csv args +:+ ": "
                    +:+ str_int (zlen configurations) +:+ " configurations, "
                    +:+ str_int (zlen measurements) +:+ " measurements"];
                  csv_rows := Some rows;
                  workbook := Some (write_xlsx (baseline args) run_logs configurations measurements
                                      tables observations outcomes) |}
          else Ok {| exit_status := 2;
                     messages := ["error: openpyxl is required to generate the Excel report"];
                     csv_rows := Some rows; workbook := None |}
      end.

End write_xlsx.

(** ** The longest stretch without retirement *)

Abbreviation sample_t := (Z * (Z * Z))%type.

(** From cycle [a] to cycle [b] no sample shows an instruction retired. *)
Definition flat (samples : list sample_t) (a b : Z) : Prop :=
  ∃ (i j : nat) sa sb, (i ≤ j)%nat ∧ samples !! i = Some sa ∧ samples !! j = Some sb ∧
    sa.1 = a ∧ sb.1 = b ∧
    ∀ (k : nat) s, (i ≤ k ≤ j)%nat → samples !! k = Some s → s.2.1 = sa.2.1.

(** The same up to the last sample. *)
Definition flat_end (samples : list sample_t) (a : Z) : Prop :=
  ∃ (i : nat) sa, samples !! i = Some sa ∧ sa.1 = a ∧
    ∀ (k : nat) s, (i ≤ k)%nat → samples !! k = Some s → s.2.1 = sa.2.1.

Lemma lookup_snoc_cases {A} (l : list A) x (k : nat) y :
  (l ++ [x]) !! k = Some y → ((k < length l)%nat ∧ l !! k = Some y) ∨ (k = length l ∧ y = x).
Proof.
  intros H. destruct (decide (k < length l)%nat).
  - rewrite lookup_app_l in H by done. by left.
  - rewrite lookup_app_r in H by lia. apply list_lookup_singleton_Some in H as [Hk ->]. right. split; [lia|done].
Qed.

Lemma flat_snoc l x a b :
  flat (l ++ [x]) a b ↔ flat l a b ∨ (b = x.1 ∧ flat_end (l ++ [x]) a).
Proof.
  split.
  - intros (i & j & sa & sb & Hij & Hi & Hj & Ha & Hb & Hk).
    destruct (lookup_snoc_cases _ _ _ _ Hj) as [[Hl Hj']|[-> ->]].
    + left. rewrite lookup_app_l in Hi by lia. exists i, j, sa, sb. split_and!; try done.
      intros k s Hki Hs. apply (Hk k); [done|]. by apply lookup_app_l_Some.
    + right. split; [done|]. exists i, sa. split_and!; try done. intros k s Hki Hs.
      apply (Hk k); [|done]. apply lookup_lt_Some in Hs. rewrite length_app in Hs. simpl in Hs. lia.
  - intros [(i & j & sa & sb & Hij & Hi & Hj & Ha & Hb & Hk)|[-> (i & sa & Hi & Ha & Hk)]].
    + exists i, j, sa, sb. split_and!; try done; try by apply lookup_app_l_Some.
      intros k s Hki Hs. apply (Hk k); [done|]. rewrite lookup_app_l in Hs; [done|].
      apply lookup_lt_Some in Hj. lia.
    + exists i, (length l), sa, x. pose proof (lookup_lt_Some _ _ _ Hi) as Hl.
      rewrite length_app in Hl. simpl in Hl. split_and!; try done; [lia|by apply list_lookup_middle|].
      intros k s Hki Hs. apply (Hk k); [lia|done].
Qed.

Lemma flat_end_snoc l x a :
  flat_end (l ++ [x]) a ↔ a = x.1 ∨ ∃ y, last l = Some y ∧ y.2.1 = x.2.1 ∧ flat_end l a.
Proof.
  split.
  - intros (i & sa & Hi & Ha & Hk). destruct (lookup_snoc_cases _ _ _ _ Hi) as [[Hl Hi']|[-> ->]]; [|by left].
    right. destruct (last l) as [y|] eqn:Hy; [|apply last_None in Hy as ->; simpl in Hl; lia].
    exists y. split; [done|]. rewrite last_lookup in Hy.
    assert (x.2.1 = sa.2.1) as Hx by (apply (Hk (length l)); [lia|by apply list_lookup_middle]).
    assert (y.2.1 = sa.2.1) as Hy2
      by (apply (Hk (pred (length l))); [lia|rewrite lookup_app_l by lia; done]).
    split; [congruence|]. exists i, sa. split_and!; try done. intros k s Hki Hs.
    apply (Hk k); [done|]. by apply lookup_app_l_Some.
  - intros [->|(y & Hy & Heq & (i & sa & Hi & Ha & Hk))].
    + exists (length l), x. split_and!; [by apply list_lookup_middle|done|]. intros k s Hki Hs.
      apply lookup_snoc_cases in Hs as [[? _]|[_ ->]]; [lia|done].
    + exists i, sa. split_and!; [by apply lookup_app_l_Some|done|]. intros k s Hki Hs.
      apply lookup_snoc_cases in Hs as [[_ Hs]|[-> ->]]; [by apply (Hk k)|].
      rewrite <-Heq. rewrite last_lookup in Hy. apply (Hk (pred (length l))); [|done].
      apply lookup_lt_Some in Hi. lia.
Qed.

(** What the loop knows after some samples. *)
Definition stall_inv (done : list sample_t) (s : Stall) : Prop :=
  previous s = (λ x, (x.1, x.2.1)) <$> last done ∧
  (∀ y, last done = Some y →
     let start := default y.1 (run_start s) in
     flat_end done start ∧ ∀ a, flat_end done a → start ≤ a) ∧
  (∀ a b, flat done a b → b - a ≤ longest_cycles s) ∧
  ((longest_start s = None ∧ longest_end s = None ∧ longest_cycles s = 0) ∨
   ∃ a b, longest_start s = Some a ∧ longest_end s = Some b ∧ flat done a b ∧
          b - a = longest_cycles s ∧ 0 < longest_cycles s).

(** A sample that starts a new stretch. *)
Lemma stall_inv_new done x s :
  (∀ a, flat_end (done ++ [x]) a → a = x.1) → stall_inv done s →
  stall_inv (done ++ [x])
    {| longest_start := longest_start s; longest_end := longest_end s;
       longest_cycles := longest_cycles s; run_start := None; previous := Some (x.1, x.2.1) |}.
Proof.
  intros Hone (Hp & Hstart & Hmax & Hwit).
  assert (0 ≤ longest_cycles s) as Hpos by (destruct Hwit as [(_ & _ & ->)|(? & ? & _ & _ & _ & _ & ?)]; lia).
  split; [by rewrite last_snoc|]. cbn. split; [|split].
  - intros y Hy. rewrite last_snoc in Hy. injection Hy as <-. split; [apply flat_end_snoc; by left|].
    intros a ->%Hone. lia.
  - intros a b [Hf|[-> ->%Hone]]%flat_snoc; [by apply Hmax|lia].
  - destruct Hwit as [?|(a & b & ? & ? & ? & ?)]; [by left|]. right. exists a, b.
    split_and!; try done; [|tauto..]. apply flat_snoc. by left.
Qed.

Lemma stall_inv_step done x s :
  (∀ y, last done = Some y → y.1 ≤ x.1) → stall_inv done s → stall_inv (done ++ [x]) (stall_step s x).
Proof.
  destruct x as [c [i p]]. intros Hord Hinv. pose proof Hinv as (Hp & Hstart & Hmax & Hwit). unfold stall_step. rewrite Hp.
  assert (0 ≤ longest_cycles s) as Hpos by (destruct Hwit as [(_ & _ & ->)|(? & ? & _ & _ & _ & _ & ?)]; lia).
  assert (∀ a b, flat done a b → flat (done ++ [(c, (i, p))]) a b) as Hmono
    by (intros a b ?; apply flat_snoc; by left).
  destruct (last done) as [[c' [i' p']]|] eqn:Hlast; cbn [fmap option_fmap option_map fst snd].
  - specialize (Hstart _ eq_refl) as [Hend Hleast]. specialize (Hord _ eq_refl). cbn [fst snd] in *.
    destruct (Z.eqb_spec i i') as [->|Hne].
    + set (start := default c' (run_start s)) in *.
      assert (flat_end (done ++ [(c, (i', p))]) start) as Hend'.
      { apply flat_end_snoc. right. eexists. split; [exact Hlast|done]. }
      assert (∀ a, flat_end (done ++ [(c, (i', p))]) a → start ≤ a) as Hleast'.
      { intros a [->|(y & _ & _ & Ha)]%flat_end_snoc; [|by apply Hleast]. cbn [fst].
        transitivity c'; [|done]. apply Hleast. rewrite last_lookup in Hlast.
        exists (pred (length done)), (c', (i', p')). split_and!; try done. intros k z Hk Hz.
        pose proof (lookup_lt_Some _ _ _ Hz). replace k with (pred (length done)) in Hz by lia.
        by simplify_eq. }
      assert (∀ a b, flat (done ++ [(c, (i', p))]) a b → b - a ≤ Z.max (longest_cycles s) (c - start)) as Hmax'.
      { intros a b [Hf|[-> Ha]]%flat_snoc; [specialize (Hmax _ _ Hf); lia|]. specialize (Hleast' _ Ha).
        cbn [fst]. lia. }
      destruct (Z.ltb_spec (longest_cycles s) (c - start)); (split; [by rewrite last_snoc|]); cbn.
      * split; [intros y Hy; rewrite last_snoc in Hy; by injection Hy as <-|].
        split; [intros a b Hf; specialize (Hmax' _ _ Hf); lia|].
        right. exists start, c. split_and!; try done; [|lia]. apply flat_snoc. by right.
      * split; [intros y Hy; rewrite last_snoc in Hy; by injection Hy as <-|].
        split; [intros a b Hf; specialize (Hmax' _ _ Hf); lia|].
        destruct Hwit as [?|(a & b & ? & ? & ? & ?)]; [by left|]. right. exists a, b. naive_solver.
    + apply (stall_inv_new _ (c, (i, p))); [|exact Hinv].
      intros a [->|(y & Hy & Heq & _)]%flat_end_snoc; [done|]. rewrite Hlast in Hy. injection Hy as <-.
      by destruct Hne; cbn in Heq.
  - apply (stall_inv_new _ (c, (i, p))); [|exact Hinv].
    intros a [->|(y & Hy & _)]%flat_end_snoc; [done|]. by rewrite Hlast in Hy.
Qed.

Lemma longest_stall_spec samples :
  Pairwise (λ a b, a.1 ≤ b.1) samples → stall_inv samples (longest_stall samples).
Proof.
  unfold longest_stall. induction samples as [|x samples IH] using rev_ind; intros Hs.
  - split; [done|]. split; [done|]. split; [|by left].
    intros a b (i & j & sa & sb & _ & Hi & _). done.
  - rewrite foldl_app. simpl. apply Pairwise_app in Hs as (Hs & _ & Hx).
    apply stall_inv_step; [|by apply IH]. intros y Hy. apply Hx; [|by left].
    rewrite last_lookup in Hy. by apply list_elem_of_lookup_2 in Hy.
Qed.

(** ** The samples of a run *)

(** Every progress record of the logs, in order. *)
Definition all_progress (logs : list RunLog) : list Progress :=
  mjoin ((λ log, progress_records (numbered (splitlines (log_text log)))) <$> logs).

Definition set_cycle (d : list sample_t) (p : Progress) : list sample_t :=
  d_set (cycles p) (instret p, pc p) d.

Lemma record_line n line d :
  foldM record_cycle d (finditer PROGRESS_RE line) = Ok (foldl set_cycle d (progress_on (n, line))).
Proof.
  unfold progress_on. cbn [fst snd].
  assert (∀ m, m ∈ finditer PROGRESS_RE line → ∃ p, read_progress n m = Ok p) as Hm
    by (intros m Hm; destruct (read_progress_total n line m Hm) as (p & ? & _); eauto).
  revert d Hm. induction (finditer PROGRESS_RE line) as [|m ms IH]; intros d Hm; [done|]. cbn [foldM omap list_omap].
  destruct (Hm m) as [p Hp]; [by left|]. unfold compose. rewrite Hp. cbn [to_option foldl].
  rewrite <-IH by (intros; apply Hm; by right). unfold read_progress in Hp. unfold record_cycle.
  repeat (apply bind_Ok in Hp as (? & -> & Hp); cbn [mbind result_bind]). by injection Hp as <-.
Qed.

Lemma progress_by_cycle_spec logs :
  progress_by_cycle logs = Ok (foldl set_cycle [] (all_progress logs)).
Proof.
  unfold progress_by_cycle, all_progress. generalize (@nil sample_t).
  induction logs as [|log logs IH]; intros d; [done|]. cbn [foldM].
  rewrite fmap_cons, join_cons, foldl_app, <-IH.
  assert (foldM (λ d line, foldM record_cycle d (finditer PROGRESS_RE line)) d (splitlines (log_text log))
          = Ok (foldl set_cycle d (progress_records (numbered (splitlines (log_text log)))))) as ->; [|done].
  unfold numbered. set (ls := splitlines (log_text log)). clearbody ls. generalize 1.
  clear IH. revert d. induction ls as [|l ls IH]; intros d n.
  { by destruct (zrange n _). }
  rewrite zlen_cons, zrange_cons by (pose proof (zlen_nonneg ls); lia). cbn [foldM zip zip_with].
  rewrite (record_line n). cbn [mbind result_bind]. unfold progress_records.
  rewrite fmap_cons, join_cons, foldl_app.
  replace (1 + zlen ls + n) with (zlen ls + (n + 1)) by lia. apply IH.
Qed.

Lemma set_cycle_spec ps :
  let d := foldl set_cycle [] ps in
  NoDup d.*1 ∧
  ∀ c v, d_get c d = Some v ↔
    ∃ p, last (filter (λ p, cycles p = c) ps) = Some p ∧ v = (instret p, pc p).
Proof.
  induction ps as [|p ps IH] using rev_ind; simpl.
  { split; [constructor|]. intros c v. split; [done|by intros (? & ? & _)]. }
  rewrite foldl_app. simpl. destruct IH as [Hn Hg]. split; [by apply d_set_NoDup|]. intros c v.
  unfold set_cycle at 1. rewrite d_get_set, filter_app. destruct (decide (cycles p = c)) as [<-|Hne].
  - rewrite decide_True, filter_cons_True, filter_nil, last_snoc by done. naive_solver.
  - rewrite decide_False, filter_cons_False, filter_nil, app_nil_r by done. apply Hg.
Qed.

Lemma sorted_samples_lt (d : list sample_t) :
  NoDup d.*1 → Pairwise (λ a b, a.1 < b.1) (sort_by fst d).
Proof.
  intros Hn. assert (NoDup (sort_by fst d).*1) as Hn' by (by rewrite sort_by_perm).
  pose proof (sort_by_sorted fst d) as Hs. induction (sort_by fst d) as [|x l IH]; [done|].
  destruct Hs as [Hx Hs]. rewrite fmap_cons in Hn'. apply NoDup_cons in Hn' as [Hnx Hn']. split; [|by apply IH].
  apply Forall_forall. intros y Hy. rewrite Forall_forall in Hx. specialize (Hx y Hy).
  assert (x.1 ≠ y.1); [|lia]. intros Heq. apply Hnx. rewrite Heq. by apply list_elem_of_fmap_2.
Qed.

(** C32: The outcome of a run.  It is computed for every set of logs.  Its samples are the
    progress records with the last record of each cycle, by increasing cycle; the reported
    stretch without retirement is a stretch of samples with one instruction count, no such
    stretch is longer, and none is reported only when all are empty; a run without prompt
    and panic is stalled exactly when that stretch has a million cycles. *)
Theorem outcome_correct configuration logs :
  ∃ o samples, run_outcome (configuration, logs) = Ok o ∧
    Pairwise (λ a b, a.1 < b.1) samples ∧
    (∀ c v, (c, v) ∈ samples ↔
       ∃ p, last (filter (λ p, cycles p = c) (all_progress logs)) = Some p ∧ v = (instret p, pc p)) ∧
    (∀ a b, flat samples a b → b - a ≤ no_retire_cycles o) ∧
    ((no_retire_start o = None ∧ no_retire_end o = None ∧ no_retire_cycles o = 0) ∨
     ∃ a b, no_retire_start o = Some a ∧ no_retire_end o = Some b ∧ flat samples a b ∧
            b - a = no_retire_cycles o ∧ 0 < no_retire_cycles o) ∧
    (status o = "stalled" ↔
       prompt_seen o = false ∧ panic_seen o = false ∧ 1000000 ≤ no_retire_cycles o).
Proof.
  unfold run_outcome. rewrite progress_by_cycle_spec. cbn [mbind result_bind].
  set (d := foldl set_cycle [] (all_progress logs)). destruct (set_cycle_spec (all_progress logs)) as [Hn Hg].
  fold d in Hn, Hg. pose proof (sorted_samples_lt d Hn) as Hlt.
  destruct (longest_stall_spec (sort_by fst d)) as (_ & _ & Hmax & Hwit).
  { eapply Pairwise_impl; [|exact Hlt]. simpl. lia. }
  eexists _, (sort_by fst d). split; [done|]. split; [done|]. cbn [no_retire_start no_retire_end
    no_retire_cycles status prompt_seen panic_seen]. split; [|split; [done|split; [done|]]].
  - intros c v. rewrite sort_by_perm, <-Hg. split; [by apply d_elem_get|by apply d_get_elem].
  - unfold outcome_status. destruct (seen "openrv64# " logs), (seen "Kernel panic" logs); try naive_solver.
    destruct (Z.leb_spec 1000000 (longest_cycles (longest_stall (sort_by fst d)))); [naive_solver|].
    split; [by destruct (seen _ _)|]. intros (_ & _ & ?). lia.
Qed.

(** ** Soundness of the intervals *)

(** When the milestones really happened: the cycle and the retired instructions
    of each, by the name of its marker. *)
Record Truth := { t_cycles : string → Z; t_instret : string → Z }.

(** A log agrees with the truth: progress records up to the line of a marker were
    printed no later than it, the others no earlier, and an exact record is
    exact. *)
Definition agrees (t : Truth) (log : RunLog) : Prop :=
  let lines := numbered (splitlines (log_text log)) in
  ∀ m n, m ∈ MARKERS → marker_line lines m = Some n →
    (∀ p, p ∈ progress_records lines → line p ≤ n →
       cycles p ≤ t_cycles t (marker_name m) ∧ instret p ≤ t_instret t (marker_name m)) ∧
    (∀ p, p ∈ progress_records lines → n < line p →
       t_cycles t (marker_name m) ≤ cycles p ∧ t_instret t (marker_name m) ≤ instret p) ∧
    (∀ e, marker_entry lines m = Some e →
       ex_cycles e = t_cycles t (marker_name m) ∧ ex_instret e = t_instret t (marker_name m)).

(** The bounds of a measurement hold. *)
Definition between (low high : option Z) (v : Z) : Prop :=
  (∀ l, low = Some l → l ≤ v) ∧ (∀ h, high = Some h → v ≤ h).
Definition measures (t : Truth) (m : Measurement) : Prop :=
  let name := marker_name (marker (signpost m)) in
  between (cycle_low m) (cycle_high m) (t_cycles t name) ∧
  between (instret_low m) (instret_high m) (t_instret t name).

Lemma reference_measures t log c m sp :
  agrees t log → m ∈ MARKERS →
  reference (path log) (numbered (splitlines (log_text log))) m = Some sp →
  measures t {| m_configuration := c; signpost := sp |}.
Proof.
  intros Ha Hm. unfold reference. set (lines := numbered _).
  destruct (marker_line lines m) as [n|] eqn:Hn; [|done]. intros [= <-].
  destruct (Ha m n Hm Hn) as (Hlo & Hhi & He). fold lines in Hlo, Hhi, He.
  unfold measures, between, cycle_low, cycle_high, instret_low, instret_high. cbn.
  destruct (marker_entry lines m) as [e|]; cbn.
  { specialize (He e eq_refl) as [-> ->]. split; split; intros ? [= <-]; lia. }
  assert (∀ p, last (filter (λ p, line p ≤ n) (progress_records lines)) = Some p →
            p ∈ progress_records lines ∧ line p ≤ n) as Hlast.
  { intros p Hp. rewrite last_lookup in Hp. by apply list_elem_of_lookup_2, list_elem_of_filter in Hp as [? ?]. }
  assert (∀ p, head (filter (λ p, n < line p) (progress_records lines)) = Some p →
            p ∈ progress_records lines ∧ n < line p) as Hhead.
  { intros p Hp. rewrite head_lookup in Hp. by apply list_elem_of_lookup_2, list_elem_of_filter in Hp as [? ?]. }
  split; (split; intros v (p & Hp & ->)%fmap_Some; [apply Hlast in Hp as [? ?]|apply Hhead in Hp as [? ?]];
    [by apply Hlo|by apply Hhi]).
Qed.

Lemma extract_measures t log signposts sp :
  agrees t log → extract (path log) (log_text log) = Ok signposts → sp ∈ signposts →
  ∀ c, measures t {| m_configuration := c; signpost := sp |}.
Proof.
  rewrite extract_brackets_spec. intros Ha <-%Ok_inj (m & Hm & Hr)%list_elem_of_omap c.
  by apply (reference_measures t log c m sp).
Qed.

(** Every collected measurement comes from a log of its configuration. *)
Section soundness.
Variable truth : string → Truth.
Definition sound (m : Measurement) : Prop := measures (truth (m_configuration m)) m.

Lemma collect_one_sound c by_key sp :
  sound {| m_configuration := c; signpost := sp |} → Forall sound by_key.*2 →
  Forall sound (collect_one c by_key sp).*2.
Proof.
  intros Hs Hb. unfold collect_one. set (m := {| m_configuration := c; signpost := sp |}) in *.
  assert (∀ k, Forall sound (d_set k m by_key).*2) as Hset.
  { intros k. clear -Hs Hb. induction by_key as [|[k' v] d IH]; simpl in *; [by constructor|].
    apply Forall_cons in Hb as [Hv Hb]. destruct (decide (k = k')); constructor; auto. }
  destruct (d_get _ _); [|apply Hset]. destruct (replaces _ _); [apply Hset|done].
Qed.

Lemma collect_sound run_logs configurations measurements :
  (∀ log, log ∈ run_logs → agrees (truth (configuration log)) log) →
  collect run_logs = Ok (configurations, measurements) → Forall sound measurements.
Proof.
  intros Ha H. unfold collect in H. apply bind_Ok in H as (by_key & Hfold & H). injection H as <- <-.
  rewrite sort_le_perm. apply (foldM_inv (λ _ by_key, Forall sound by_key.*2)) in Hfold; [done|constructor|].
  intros don log s1 s2 Hs Hx [rest Hpre]. unfold collect_log in Hx.
  apply bind_Ok in Hx as (signposts & He & Hx). injection Hx as <-.
  assert (log ∈ run_logs) as Hin by (rewrite Hpre; set_solver).
  assert (∀ sp, sp ∈ signposts → sound {| m_configuration := configuration log; signpost := sp |}) as Hsp
    by (intros sp Hsp; by eapply extract_measures; [apply Ha| |]).
  clear -Hs Hsp. revert s1 Hs. induction signposts as [|sp l IH]; intros s1 Hs; [done|]. simpl.
  apply IH; [intros; apply Hsp; by right|]. apply collect_one_sound; [apply Hsp; by left|done].
Qed.

Definition m_name (m : Measurement) : string := marker_name (marker (signpost m)).
(** All four bounds of a milestone are known. *)
Definition bounded (m : Measurement) : Prop :=
  is_Some (cycle_low m) ∧ is_Some (cycle_high m) ∧ is_Some (instret_low m) ∧ is_Some (instret_high m).
(** The successive milestones of a configuration. *)
Definition successive (c : string) (measurements : list Measurement) : list (Measurement * Measurement) :=
  let items := filter (λ m, m_configuration m = c) measurements in zip items (drop 1 items).

(** [low..high] holds [v], is not negative, and is no wider than the two brackets together. *)
Definition holds (low high : option Z) (v slack : Z) : Prop :=
  ∃ l h, low = Some l ∧ high = Some h ∧ 0 ≤ l ≤ v ∧ v ≤ h ∧ h - l ≤ slack.
Definition width (low high : option Z) : Z := default 0 high - default 0 low.

(** The row of two successive milestones: what passed between them, nothing if the second
    came first. *)
Definition interval_holds (c : string) (p : Measurement * Measurement) (i : Interval) : Prop :=
  let '(before, after) := p in
  let passed (f : string → Z) := Z.max 0 (f (m_name after) - f (m_name before)) in
  i_configuration i = c ∧ i_from i = m_name before ∧ i_to i = m_name after ∧
  (bounded before → bounded after →
     holds (i_cycle_low i) (i_cycle_high i) (passed (t_cycles (truth c)))
       (width (cycle_low before) (cycle_high before) + width (cycle_low after) (cycle_high after)) ∧
     holds (i_instret_low i) (i_instret_high i) (passed (t_instret (truth c)))
       (width (instret_low before) (instret_high before) + width (instret_low after) (instret_high after)) ∧
     ipc_low i = ratio (default 0 (i_instret_low i)) (default 0 (i_cycle_high i)) ∧
     ipc_high i = ratio (default 0 (i_instret_high i)) (default 0 (i_cycle_low i))) ∧
  (¬ (bounded before ∧ bounded after) →
     i_cycle_low i = None ∧ i_cycle_high i = None ∧ i_instret_low i = None ∧ i_instret_high i = None ∧
     ipc_low i = None ∧ ipc_high i = None).

(** A clamped difference of two bracketed values. *)
Lemma difference_holds bl bh al ah b a :
  bl ≤ b ≤ bh → al ≤ a ≤ ah →
  holds (Some (Z.max 0 (al - bh))) (Some (Z.max 0 (ah - bl))) (Z.max 0 (a - b)) (bh - bl + (ah - al)).
Proof. intros Hb Ha. eexists _, _. split_and!; [done..|lia|lia|lia|lia]. Qed.

Lemma interval_sound c before after :
  m_configuration before = c → m_configuration after = c → sound before → sound after →
  interval_holds c (before, after) (interval c before after).
Proof.
  intros Hb Ha [[Hb1 Hb2] [Hb3 Hb4]] [[Ha1 Ha2] [Ha3 Ha4]]. rewrite Hb in Hb1, Hb2, Hb3, Hb4.
  rewrite Ha in Ha1, Ha2, Ha3, Ha4. fold (m_name before) in *. fold (m_name after) in *.
  unfold interval_holds, interval, bounded, width.
  destruct (cycle_low before) as [bl|], (cycle_high before) as [bh|], (cycle_low after) as [al|],
    (cycle_high after) as [ah|];
    try (cbn; split_and!; try done; intros (?&?&?&?) (?&?&?&?); by (destruct_or! || (exfalso; eauto using is_Some_None))).
  destruct (instret_low before) as [jl|], (instret_high before) as [jh|], (instret_low after) as [kl|],
    (instret_high after) as [kh|];
    try (cbn; split_and!; try done; intros (?&?&?&?) (?&?&?&?); by (exfalso; eauto using is_Some_None)).
  cbn. split_and!; [done..| |].
  - intros _ _. split_and!; [apply difference_holds; auto|apply difference_holds; auto|done|done].
  - intros []. split; by eauto.
Qed.

Lemma zip_with_rows {A B} (P : A * A → B → Prop) (f : A → A → B) (l k : list A) :
  (∀ a b, a ∈ l → b ∈ k → P (a, b) (f a b)) → Forall2 P (zip l k) (zip_with f l k).
Proof.
  revert k. induction l as [|a l IH]; intros [|b k] H; try by constructor.
  constructor; [apply H; by left|]. apply IH. intros x y Hx Hy. apply H; by right.
Qed.

(** C6: The intervals between milestones are sound.  When every log agrees with the times
    at which the milestones of its configuration happened (progress records up to a
    marker's line no later, the others no earlier, exact records exact), there is one row
    for every two successive measurements of a configuration.  If all bounds of both are
    known, the row's cycle and instruction ranges are not negative, hold what passed
    between the two milestones and are no wider than the two brackets together, and the
    IPC bounds are the outer quotients of the ranges; otherwise the row is blank.  What
    passed counts as zero when the milestone listed second came first: the program clamps
    its differences at zero. *)
Theorem intervals_sound run_logs configurations measurements :
  (∀ log, log ∈ run_logs → agrees (truth (configuration log)) log) →
  collect run_logs = Ok (configurations, measurements) →
  ∃ rows, interval_rows configurations measurements = mjoin rows ∧
    Forall2 (λ c, Forall2 (interval_holds c) (successive c measurements)) configurations rows.
Proof.
  intros Ha Hc. pose proof (collect_sound _ _ _ Ha Hc) as Hs. eexists. split; [reflexivity|].
  apply Forall2_fmap_r, Forall_Forall2_diag, Forall_true. intros c. apply zip_with_rows.
  assert (∀ m, m ∈ filter (λ m, m_configuration m = c) measurements → m_configuration m = c ∧ sound m) as Hitems.
  { intros m [Hm Hin]%list_elem_of_filter. split; [done|]. rewrite Forall_forall in Hs. by apply Hs. }
  intros before after Hb Hf. apply Hitems in Hb as [? ?].
  assert (m_configuration after = c ∧ sound after) as [? ?].
  { apply Hitems. clear -Hf. destruct (filter _ _); [done|]. by right. }
  by apply interval_sound.
Qed.
End soundness.

(** ** A concrete report *)

(** [agrees], as a test. *)
Definition agrees_check (t : Truth) (log : RunLog) : bool :=
  let lines := numbered (splitlines (log_text log)) in
  let records := progress_records lines in
  forallb (λ m,
    let c := t_cycles t (marker_name m) in
    let i := t_instret t (marker_name m) in
    match marker_line lines m with
    | None => true
    | Some n =>
        forallb (λ p, if line p <=? n then (cycles p <=? c) && (instret p <=? i)
                      else (c <=? cycles p) && (i <=? instret p)) records
        && match marker_entry lines m with
           | Some e => (ex_cycles e =? c) && (ex_instret e =? i)
           | None => true
           end
    end) MARKERS.

Lemma agrees_check_sound t log : agrees_check t log = true → agrees t log.
Proof.
  unfold agrees_check, agrees. cbv zeta. set (lines := numbered _). clearbody lines.
  rewrite forallb_forall. intros H m n Hm%list_elem_of_In Hn. specialize (H m Hm). rewrite Hn in H.
  apply andb_true_iff in H as [Hr He]. rewrite forallb_forall in Hr.
  split; [|split].
  - intros p Hp%list_elem_of_In Hle. specialize (Hr p Hp). destruct (Z.leb_spec (line p) n); [|lia]. b2p. lia.
  - intros p Hp%list_elem_of_In Hle. specialize (Hr p Hp). destruct (Z.leb_spec (line p) n); [lia|]. b2p. lia.
  - intros e Hentry. rewrite Hentry in He. b2p. lia.
Qed.

Definition sample_run : RunLog := {| configuration := "base"; path := "a.log"; log_text := sample_log |}.
Definition sample_truth : Truth :=
  {| t_cycles := λ name, if String.eqb name "opensbi" then 900000
                         else if String.eqb name "linux" then 1100000
                         else if String.eqb name "init" then 1300001 else 1400000;
     t_instret := λ name, if String.eqb name "opensbi" then 300000
                          else if String.eqb name "linux" then 450000
                          else if String.eqb name "init" then 520000 else 600000 |}.

Definition sample_measurements : list Measurement :=
  match collect [sample_run] with Ok (_, measurements) => measurements | Err _ => [] end.

Lemma sample_collects : is_Ok (collect [sample_run]) = true.
Proof. vm_compute. reflexivity. Qed.

Example sample_intervals :
  (λ i, (i_from i, i_to i, i_cycle_low i, i_cycle_high i, i_instret_high i))
    <$> interval_rows ["base"] sample_measurements =
  [("opensbi", "linux", None, None, None); ("linux", "init", Some 50001, Some 300001, Some 120000);
   ("init", "bash", None, None, None)].
Proof. vm_compute. reflexivity. Qed.

(** A later log whose bracket starts at cycle 0 does not replace a previous one:
    the zero bound counts as missing. *)
Example zero_bound_lost :
  let at_line low : Signpost :=
    {| log := "l"; marker := mark "bash" "" Empty; sp_line := 1; exact_cycles := None;
       exact_instret := None; exact_pc := None;
       lower := Some {| line := 1; cycles := low; instret := 0; pc := 0 |}; upper := None |} in
  let m low := {| m_configuration := "c"; signpost := at_line low |} in
  replaces (m 500) (m 100) = true ∧ replaces (m 500) (m 0) = false.
Proof. split; reflexivity. Qed.

(** Milestones out of order: the difference is -500, the row says that nothing passed. *)
Definition swapped_measurement (name : string) (cycle : Z) : Measurement :=
  {| m_configuration := "base";
     signpost := {| log := "a.log"; marker := mark name "" Empty; sp_line := 1; exact_cycles := Some cycle;
                    exact_instret := Some 0; exact_pc := None; lower := None; upper := None |} |}.
Example clamped_interval :
  let i := interval "base" (swapped_measurement "opensbi" 1000) (swapped_measurement "linux" 500) in
  i_cycle_low i = Some 0 ∧ i_cycle_high i = Some 0.
Proof. split; reflexivity. Qed.

Lemma intervals_sound_witness :
  ∃ configurations measurements rows,
    collect [sample_run] = Ok (configurations, measurements) ∧
    interval_rows configurations measurements = mjoin rows ∧
    Forall2 (λ c, Forall2 (interval_holds (λ _, sample_truth) c) (successive c measurements)) configurations rows.
Proof.
  destruct (collect [sample_run]) as [[configurations measurements]|] eqn:E.
  - destruct (intervals_sound (λ _, sample_truth) [sample_run] configurations measurements) as (rows & Hr & Hall);
      [|exact E|exists configurations, measurements, rows; split; [reflexivity|split; [exact Hr|exact Hall]]].
    intros log Hlog. apply list_elem_of_singleton in Hlog as ->. apply agrees_check_sound.
    vm_compute. reflexivity.
  - exfalso. pose proof sample_collects as H. rewrite E in H. discriminate H.
Defined.
