(* ===== verification/BootLook.v ===== *)
(** * What the boot comparison workbook shows

    The look [BootWorkbook] gives the sheets of [BootReport], against what the cells
    hold: number formats are on numbers, and the formats, colour scales and charts of
    the comparison are those of the columns of each configuration. *)

From stdpp Require Import base numbers list strings gmap.
From Stdlib Require Import ZArith Lia.
From S2P Require Import Prelude PyText PyFloat BootSignposts BootWorkbook BootReport.

Open Scope Z_scope.


(** The value of a cell, by its row and column from 1. *)
Definition value_at (s : Sheet cell) (r c : Z) : option cell :=
  row ← rows s !! Z.to_nat (r - 1); row !! Z.to_nat (c - 1).
Definition format_at (s : Sheet cell) (r c : Z) : option string :=
  number_formats (look s) !! (r, c).

Definition numeric (v : cell) : Prop :=
  match v with VInt _ | VFloat _ | VNone => True | VStr _ | VBool _ => False end.

(** Number formats are on cells below the header that hold a number or nothing. *)
Definition formats_fit (s : Sheet cell) : Prop := ∀ r c f,
  format_at s r c = Some f → ∃ v, 1 < r ∧ value_at s r c = Some v ∧ numeric v.

(** What a configuration has in the comparison: its four columns from [column], with
    their headers, and in the row of a marker the values and their formats. *)
Definition block_headers (baseline name : string) : list cell :=
  let against text := if String.eqb name baseline then name +:+ text.1 else name +:+ text.2 +:+ baseline in
  VStr <$> [name +:+ " cycles"; name +:+ " instret"; against (" baseline", " cycle improvement vs ");
            against (" instret baseline", " instret delta vs ")].
Definition block_values (baseline name : string) (measurements : list Measurement) (m : Marker) : list cell :=
  let estimate f name := measurement_of measurements name (marker_name m) ≫= f in
  let is_baseline := String.eqb name baseline in
  v_float <$>
    [estimate cycle_estimate name; estimate instret_estimate name;
     relative is_baseline (estimate cycle_estimate baseline) (estimate cycle_estimate name) (λ b v, fsub b v);
     relative is_baseline (estimate instret_estimate baseline) (estimate instret_estimate name)
       (λ b v, fsub v b)].
Definition BLOCK_FORMATS : list string := ["#,##0"; "#,##0"; "0.0%"; "0.0%"].

Definition at_columns {A} (f : Z → option A) (column : Z) (l : list A) : Prop :=
  ∀ j v, l !! j = Some v → f (column + Z.of_nat j) = Some v.

Section presentation.
Context (letter : Z → string) (dimensions : list (list cell) → string).

(** The scales and the charts on the four columns from [column]. *)
Definition coloured (s : Sheet cell) (column : Z) : Prop :=
  let area j := area letter (rows s) (column + j) in
  (area 2, RISING ("num", 0)) ∈ scales (look s) ∧
  (area 3, FALLING) ∈ scales (look s).
Definition charted (s : Sheet cell) (column : Z) : Prop :=
  Forall2 (λ '(place, chart) '(place', c),
      place = place' ∧
      {| min_col := c; max_col := Some c; min_row := 1;
         max_row := zlen (rows s) |} ∈ data chart)
    (charts (look s)) [("A13", column); ("J13", column + 1)].

Definition comparison_shown (baseline : string) (configurations : list string)
    (measurements : list Measurement) (s : Sheet cell) : Prop :=
  ∀ k name, configurations !! k = Some name →
    let column := 3 + 4 * Z.of_nat k in
    at_columns (value_at s 1) column (block_headers baseline name) ∧
    coloured s column ∧ charted s column ∧
    ∀ i m, MARKERS !! i = Some m →
      at_columns (value_at s (Z.of_nat i + 2)) column (block_values baseline name measurements m) ∧
      at_columns (format_at s (Z.of_nat i + 2)) column BLOCK_FORMATS.

(** Groups of four, in one list. *)
Lemma lookup_fours {A B} (f : A → list B) (l : list A) (k j : nat) x :
  (∀ x, length (f x) = 4%nat) → l !! k = Some x → (j < 4)%nat →
  mjoin (f <$> l) !! (4 * k + j)%nat = f x !! j.
Proof.
  intros Hf. revert k. induction l as [|y l IH]; intros k Hk Hj; [done|].
  rewrite fmap_cons, join_cons. destruct k as [|k]; simpl in Hk.
  - injection Hk as ->. replace (4 * 0 + j)%nat with j by lia. rewrite lookup_app_l by (rewrite Hf; lia). done.
  - rewrite lookup_app_r by (rewrite Hf; lia). rewrite Hf.
    replace (4 * S k + j - 4)%nat with (4 * k + j)%nat by lia. auto.
Qed.

(** ** Sheets with a header *)

Lemma sheet_value look headers (rows : list (list cell)) i c :
  value_at (sheet look headers rows) (Z.of_nat i + 2) c
  = (row ← rows !! i; row !! Z.to_nat (c - 1)).
Proof. unfold value_at, sheet. simpl. by replace (Z.to_nat (Z.of_nat i + 2 - 1)) with (S i) by lia. Qed.

Lemma in_body look headers (rows : list (list cell)) r :
  r ∈ body (BootWorkbook.rows (sheet look headers rows)) →
  ∃ i row, r = Z.of_nat i + 2 ∧ rows !! i = Some row.
Proof.
  unfold body, row_count, sheet. simpl. rewrite elem_of_zrange. intros Hr. unfold zlen in Hr. simpl in Hr.
  destruct (lookup_lt_is_Some_2 rows (Z.to_nat (r - 2))) as [row Hrow]; [lia|].
  exists (Z.to_nat (r - 2)), row. split; [lia|done].
Qed.
Lemma body_of look headers (rows : list (list cell)) i row :
  rows !! i = Some row → Z.of_nat i + 2 ∈ body (BootWorkbook.rows (sheet look headers rows)).
Proof.
  intros H. unfold body, row_count, sheet. simpl. rewrite elem_of_zrange. unfold zlen. simpl.
  apply lookup_lt_Some in H. lia.
Qed.

(** Formats put on columns whose cells are numbers. *)
Lemma formats_fit_columns look headers rows (f : BootWorkbook.cell_at → string) cells columns :
  let s := sheet look headers rows in
  number_formats (BootWorkbook.look s) = put_each f cells ∅ →
  (∀ r c, (r, c) ∈ cells → r ∈ body (BootWorkbook.rows s) ∧ c ∈ columns) →
  Forall (λ row, Forall (λ c, ∃ v, row !! Z.to_nat (c - 1) = Some v ∧ numeric v) columns) rows →
  formats_fit s.
Proof.
  intros s Hs Hcells Hrows r c fmt Hf. unfold format_at in Hf. rewrite Hs, put_each_lookup in Hf.
  destruct (decide _) as [[Hr Hc]%Hcells|]; [|by rewrite lookup_empty in Hf].
  apply in_body in Hr as (i & row & -> & Hrow). rewrite Forall_lookup in Hrows.
  pose proof (Hrows i row Hrow) as Hrow'. rewrite Forall_forall in Hrow'.
  destruct (Hrow' c Hc) as (v & Hv & Hn). exists v. split; [lia|]. split; [|done].
  unfold s. rewrite sheet_value, Hrow. exact Hv.
Qed.

Lemma formats_fit_none s : number_formats (BootWorkbook.look s) = ∅ → formats_fit s.
Proof. intros H r c f Hf. unfold format_at in Hf. by rewrite H, lookup_empty in Hf. Qed.

(** ** The comparison *)

Definition block_row (baseline : string) (measurements : list Measurement) (m : Marker) (name : string)
    : list cell := block_values baseline name measurements m.

Lemma v_float_numeric l : Forall numeric (v_float <$> l).
Proof. apply Forall_fmap, Forall_true. by intros [x|]. Qed.
Lemma block_numeric baseline name measurements m :
  Forall numeric (block_values baseline name measurements m).
Proof. apply v_float_numeric. Qed.

Lemma comparison_row_blocks baseline configurations measurements m :
  comparison_row baseline configurations measurements m
  = [VStr (marker_name m); VStr (description m)]
    ++ mjoin (block_row baseline measurements m <$> configurations).
Proof. reflexivity. Qed.
Lemma comparison_headers_blocks baseline configurations :
  VStr <$> comparison_headers baseline configurations
  = [VStr "Signpost"; VStr "Description"] ++ mjoin (block_headers baseline <$> configurations).
Proof.
  unfold comparison_headers. rewrite fmap_app. f_equal.
  induction configurations as [|name l IH]; [done|]. rewrite !fmap_cons, !join_cons, fmap_app, IH. f_equal.
Qed.

Lemma join_fours {A B} (f : A → list B) (l : list A) :
  (∀ x, length (f x) = 4%nat) → length (mjoin (f <$> l)) = (4 * length l)%nat.
Proof. intros Hf. induction l as [|x l IH]; [done|]. rewrite fmap_cons, join_cons, length_app, Hf, IH. simpl. lia. Qed.

(** The row of a table whose first two cells are followed by groups of four. *)
Lemma at_block (row : list cell) head (f : string → list cell) configurations k name :
  row = head ++ mjoin (f <$> configurations) → length head = 2%nat → (∀ x, length (f x) = 4%nat) →
  configurations !! k = Some name →
  at_columns (λ c, row !! Z.to_nat (c - 1)) (3 + 4 * Z.of_nat k) (f name).
Proof.
  intros -> Hhead Hf Hk j v Hj. pose proof (lookup_lt_Some _ _ _ Hj) as Hlt. rewrite Hf in Hlt.
  rewrite lookup_app_r by lia.
  replace (Z.to_nat (3 + 4 * Z.of_nat k + Z.of_nat j - 1) - length head)%nat with (4 * k + j)%nat by lia.
  by rewrite (lookup_fours f configurations k j name).
Qed.

Section comparison.
Variables (baseline : string) (configurations : list string) (measurements : list Measurement).

Definition comparison : Sheet cell :=
  sheet (λ rows, comparison_look letter dimensions rows (zlen configurations))
    (comparison_headers baseline configurations)
    (comparison_row baseline configurations measurements <$> MARKERS).

Lemma comparison_columns : column_count (BootWorkbook.rows comparison) = 2 + 4 * zlen configurations.
Proof.
  assert (∀ (l : list (list cell)) n, 0 ≤ n → Forall (λ r, zlen r = n) l → l ≠ [] → column_count l = n) as Hall.
  { intros l n Hn. unfold column_count. induction 1 as [|r l Hr Hl IH]; intros Hne; [done|]. simpl. rewrite Hr.
    destruct l; simpl; [lia|]. simpl in IH. rewrite IH by done. lia. }
  apply Hall; [unfold zlen; lia| |done]. unfold comparison, sheet. cbn [BootWorkbook.rows].
  assert (∀ (head : list cell) f, length head = 2%nat → (∀ x, length (f x) = 4%nat) →
            zlen (head ++ mjoin (f <$> configurations)) = 2 + 4 * zlen configurations) as Hlen.
  { intros head f Hh Hf. unfold zlen. rewrite length_app, (join_fours f) by done. lia. }
  constructor.
  - rewrite comparison_headers_blocks. by apply Hlen.
  - apply Forall_fmap, Forall_true. intros m. exact (Hlen [_; _] (block_row baseline measurements m) eq_refl (λ _, eq_refl)).
Qed.

Lemma comparison_number_formats :
  number_formats (BootWorkbook.look comparison)
  = put_each comparison_format
      (by_columns (body (BootWorkbook.rows comparison)) (zrange 3 (3 + 4 * zlen configurations))) ∅.
Proof.
  pose proof comparison_columns as Hc. unfold comparison, sheet in *.
  cbn [BootWorkbook.rows BootWorkbook.look] in *. unfold comparison_look.
  rewrite Hc. replace (2 + 4 * zlen configurations + 1) with (3 + 4 * zlen configurations) by lia.
  by destruct (_ && _).
Qed.

Lemma comparison_formats_fit : formats_fit comparison.
Proof.
  eapply (formats_fit_columns _ _ _ _ _ (zrange 3 (3 + 4 * zlen configurations))).
  - apply comparison_number_formats.
  - intros r c H%elem_of_by_columns. exact H.
  - apply Forall_fmap, Forall_true. intros m. apply Forall_forall. intros c Hc%elem_of_zrange.
    unfold zlen in Hc. set (k := Z.to_nat ((c - 3) / 4)). set (j := Z.to_nat ((c - 3) `mod` 4)).
    pose proof (Z.div_mod (c - 3) 4 ltac:(lia)) as Hdm. pose proof (Z.mod_pos_bound (c - 3) 4 ltac:(lia)).
    destruct (lookup_lt_is_Some_2 configurations k) as [name Hk]; [subst k; lia|].
    pose proof (at_block _ _ _ _ k name (comparison_row_blocks baseline configurations measurements m)
                  eq_refl (λ _, eq_refl) Hk j) as Hat. simpl.
    replace (3 + 4 * Z.of_nat k + Z.of_nat j) with c in Hat by (subst k j; lia).
    assert (j < 4)%nat as Hj by (subst j; lia).
    destruct (block_row baseline measurements m name !! j) as [v|] eqn:Hv.
    + exists v. split; [by apply Hat|].
      exact (Forall_lookup_1 _ _ _ _ (block_numeric baseline name measurements m) Hv).
    + apply lookup_ge_None in Hv. change (4 ≤ j)%nat in Hv. lia.
Qed.

Lemma comparison_rows : row_count (BootWorkbook.rows comparison) = 10.
Proof. unfold comparison, sheet, row_count. cbn [BootWorkbook.rows]. unfold zlen. by rewrite length_cons, length_fmap. Qed.

Lemma comparison_coloured k :
  (k < length configurations)%nat → coloured comparison (3 + 4 * Z.of_nat k).
Proof.
  intros Hk. pose proof comparison_rows as Hr. unfold coloured.
  assert (scales (BootWorkbook.look comparison)
          = comparison_scales letter (BootWorkbook.rows comparison) (zlen configurations)) as ->.
  { unfold comparison, sheet in *. cbn [BootWorkbook.rows BootWorkbook.look] in *. unfold comparison_look.
    rewrite Hr. by destruct (_ && _). }
  unfold comparison_scales. rewrite !list_elem_of_bind.
  split; exists (Z.of_nat k); (split; [|rewrite elem_of_zrange; unfold zlen; lia]).
  - replace (3 + 4 * Z.of_nat k + 2) with (5 + Z.of_nat k * 4) by lia. left.
  - replace (3 + 4 * Z.of_nat k + 3) with (6 + Z.of_nat k * 4) by lia. right. left.
Qed.

Lemma comparison_charted k :
  (k < length configurations)%nat → charted comparison (3 + 4 * Z.of_nat k).
Proof.
  intros Hk. pose proof comparison_rows as Hr. unfold charted.
  assert (charts (BootWorkbook.look comparison)
          = comparison_charts (BootWorkbook.rows comparison) (zlen configurations)) as ->.
  { unfold comparison, sheet in *. cbn [BootWorkbook.rows BootWorkbook.look] in *. unfold comparison_look.
    rewrite Hr. replace (0 <? zlen configurations) with true by (symmetry; apply Z.ltb_lt; unfold zlen; lia).
    done. }
  unfold comparison_charts, line_chart. fold (row_count (BootWorkbook.rows comparison)).
  apply Forall2_cons; split; [|apply Forall2_cons; split; [|by apply Forall2_nil]];
    (split; [done|]; cbn [data]; apply list_elem_of_fmap).
  - exists (3 + 4 * Z.of_nat k). split; [done|]. apply list_elem_of_fmap. exists (Z.of_nat k).
    rewrite elem_of_zrange. unfold zlen. split; lia.
  - exists (3 + 4 * Z.of_nat k + 1). split; [done|]. apply list_elem_of_fmap. exists (Z.of_nat k).
    rewrite elem_of_zrange. unfold zlen. split; lia.
Qed.

Lemma comparison_shows : comparison_shown baseline configurations measurements comparison.
Proof.
  intros k name Hk column.
  pose proof (lookup_lt_Some _ _ _ Hk) as Hlt.
  assert (Z.of_nat k ∈ zrange 0 (zlen configurations)) as Hz by (rewrite elem_of_zrange; unfold zlen; lia).
  split; [|split; [|split]].
  - intros j v Hj. unfold value_at, comparison, sheet. cbn [BootWorkbook.rows].
    exact (at_block _ _ _ _ k name (comparison_headers_blocks baseline configurations) eq_refl
             (λ x, eq_refl) Hk j v Hj).
  - by apply comparison_coloured.
  - by apply comparison_charted.
  - intros i m Hm. split.
    + intros j v Hj. unfold comparison. rewrite sheet_value, list_lookup_fmap, Hm. simpl.
      exact (at_block _ _ _ _ k name (comparison_row_blocks baseline configurations measurements m) eq_refl
               (λ x, eq_refl) Hk j v Hj).
    + intros j v Hj. unfold format_at. rewrite comparison_number_formats, put_each_lookup.
      rewrite decide_True.
      2:{ apply elem_of_by_columns. split.
          - unfold comparison. eapply body_of. by rewrite list_lookup_fmap, Hm.
          - rewrite elem_of_zrange. apply lookup_lt_Some in Hj. simpl in Hj. unfold zlen, column. lia. }
      f_equal. unfold comparison_format. simpl.
      replace (column + Z.of_nat j - 3) with (Z.of_nat j + Z.of_nat k * 4) by (unfold column; lia).
      rewrite Z.mod_add by lia. do 4 (destruct j as [|j]; [by injection Hj|]). done.
Qed.
End comparison.

Lemma milestones_fit tables measurements :
  formats_fit (sheet (milestones_look letter dimensions) milestone_headers (milestone_row tables <$> measurements)).
Proof.
  eapply (formats_fit_columns _ _ _ _ _ (zrange 4 13)); [done|intros r c H%elem_of_by_columns; exact H|].
  apply Forall_fmap, Forall_true. intros item.
  repeat (apply Forall_cons; split; [by eexists; split; [done|]; unfold v_int, v_float; try case_match|]).
  constructor.
Qed.

Lemma intervals_fit rows :
  formats_fit (sheet (intervals_look letter dimensions) interval_headers (interval_cells <$> rows)).
Proof.
  eapply (formats_fit_columns _ _ _ _ _ (zrange 4 10)); [|intros r c H%elem_of_by_rows; exact H|].
  - unfold intervals_look, sheet. cbn [BootWorkbook.look]. by destruct (2 <=? _).
  - apply Forall_fmap, Forall_true. intros item.
    repeat (apply Forall_cons; split; [by eexists; split; [done|]; unfold v_int, v_float; try case_match|]).
    constructor.
Qed.

(** C34: what the workbook shows is what its cells hold. On every sheet a number format
    is on a cell below the header with a number or nothing in it. In the comparison
    every configuration has four columns with its headers; in the row of each milestone
    they hold the cycles and instructions of its measurement, formatted as counts, and
    the differences to the baseline, formatted as percentages; the colour scales are on
    the differences, more of an improvement and less of an instruction increase being
    better, and the two charts draw the cycles and the instructions. *)
Theorem workbook_presented baseline run_logs configurations measurements tables observations outcomes :
  let workbook := write_xlsx letter dimensions baseline run_logs configurations measurements tables
                    observations outcomes in
  Forall (λ '(_, s), formats_fit s) workbook ∧
  ∃ s, last workbook = Some ("Comparison", s) ∧ comparison_shown baseline configurations measurements s.
Proof.
  split.
  - unfold write_xlsx. repeat (apply Forall_cons; split); [..|by apply Forall_nil_2].
    + by apply formats_fit_none.
    + by apply formats_fit_none.
    + apply milestones_fit.
    + by apply formats_fit_none.
    + apply intervals_fit.
    + apply comparison_formats_fit.
  - exists (comparison baseline configurations measurements). split; [done|]. apply comparison_shows.
Qed.
End presentation.
