(* ===== verification/BootProfile.v ===== *)
(** * Program-counter profile of a boot

    [tools/linux_boot_pc_histogram.py]: the periodic samples of a boot log, by
    privilege class and by kernel function, as a Markdown report.  The run of
    addr2line is a parameter; the time stamp of the report is an argument. *)

From stdpp Require Import base numbers list strings.
From Stdlib Require Import ZArith Lia Ascii.
From S2P Require Import Prelude PyText PyFloat PyDict PySearch PyRegex BootSignposts.

Open Scope Z_scope.

Definition PROGRESS_RE : regex :=
  lit "OpenSBI progress cycles=" +>+ Group "cycles" (many is_digit)
  +>+ lit " instret=" +>+ Group "instret" (many is_digit)
  +>+ lazy_any +>+ lit " pc=" +>+ Group "pc" (many is_hex)
  +>+ lazy_any +>+ lit " priv=" +>+ Group "priv" (many is_digit).
Definition KERNEL_BASE : Z := 0xFFFFFFFF80000000.

Record Sample := { cycles : Z; instret : Z; pc : Z; priv : Z }.
Record Symbol := { function : string; location : string }.

Definition read_sample (m : captures) : result Sample :=
  cycles ← int_group 10 "cycles" m;
  instret ← int_group 10 "instret" m;
  pc ← int_group 16 "pc" m;
  priv ← int_group 10 "priv" m;
  Ok {| cycles := cycles; instret := instret; pc := pc; priv := priv |}.

Definition parse_samples (text : string) : result (list Sample) :=
  samples ← mapR (λ line, mapR read_sample (finditer PROGRESS_RE line)) (splitlines text);
  Ok (sort_by cycles (mjoin samples)).

(** [symbolize(vmlinux, addresses)]: [run] gives the lines addr2line prints. *)
Definition symbolize (run : list string → result (list string)) (vmlinux : string)
    (addresses : list Z) : result (list (Z * Symbol)) :=
  if bool_decide (addresses = []) then Ok [] else
  lines ← run (["riscv64-linux-gnu-addr2line"; "-f"; "-C"; "-e"; vmlinux]
               ++ ((λ a, "0x" +:+ hex_int a) <$> addresses));
  raise (RuntimeError ("addr2line returned an unexpected number of output lines: "
           +:+ str_int (zlen lines) +:+ " for " +:+ str_int (zlen addresses) +:+ " addresses"))
    when negb (zlen lines =? 2 * zlen addresses);;
  symbols ← mapR (λ '(index, address),
               f ← get_item lines (2 * index);
               l ← get_item lines (2 * index + 1);
               Ok (address, {| function := f; location := l |})) (enumerate addresses);
  Ok (foldl (λ d kv, d_set kv.1 kv.2 d) [] symbols).

Definition privilege_class (sample : Sample) : string :=
  if (priv sample =? 1) && (KERNEL_BASE <=? pc sample) then "kernel S-mode"
  else if priv sample =? 3 then "machine mode"
  else if priv sample =? 0 then "user mode"
  else if priv sample =? 1 then "non-kernel S-mode"
  else "privilege " +:+ str_int (priv sample).

Definition is_kernel (sample : Sample) : bool := String.eqb (privilege_class sample) "kernel S-mode".

Definition format_cycles (cycles : Z) : string :=
  if 1000000 <=? cycles then fixed 3 (div_or_zero cycles 1000000) +:+ "M"
  else if 1000 <=? cycles then fixed 3 (div_or_zero cycles 1000) +:+ "K"
  else str_int cycles.

(** [f"{100 * count / total:.2f}%"], 0.00% of nothing. *)
Definition share (count total : Z) : string := fixed 2 (div_or_zero (100 * count) total) +:+ "%".

(** [symbols.get(sample.pc, Symbol("??", "??:0"))] *)
Definition symbol_of (symbols : list (Z * Symbol)) (sample : Sample) : Symbol :=
  default {| function := "??"; location := "??:0" |} (d_get (pc sample) symbols).

Definition class_row (samples cadence : Z) (entry : string * Z) : string :=
  let '(name, count) := entry in
  "| " +:+ name +:+ " | " +:+ str_int count +:+ " | " +:+ share count samples +:+ " | "
  +:+ format_cycles (count * cadence) +:+ " |".

Definition function_row (samples kernel cadence : Z) (locations : list (string * string))
    (ranked : Z * (string * Z)) : string :=
  let '(rank, (function, count)) := ranked in
  "| " +:+ str_int rank +:+ " | `" +:+ function +:+ "` | " +:+ str_int count +:+ " | "
  +:+ share count kernel +:+ " | " +:+ share count samples +:+ " | "
  +:+ format_cycles (count * cadence) +:+ " | `" +:+ default "" (d_get function locations) +:+ "` |".

Definition markdown_report (generated log vmlinux : string) (samples : list Sample)
    (symbols : list (Z * Symbol)) (top cadence : Z) : result (list string) :=
  first ← get_item samples 0;
  last ← get_item samples (-1);
  let categories := counter (privilege_class <$> samples) in
  let kernel_samples := filter (λ s, is_kernel s = true) samples in
  let function_counts := counter ((λ s, function (symbol_of symbols s)) <$> kernel_samples) in
  let function_location :=
    foldl (λ d s, d_setdefault (function (symbol_of symbols s)) (location (symbol_of symbols s)) d)
      [] kernel_samples in
  let ranked := take (Z.to_nat top) (most_common function_counts) in
  Ok (["# Linux boot PC sample histogram"; "";
       "Generated: `" +:+ generated +:+ "`"; "";
       "Log: `" +:+ log +:+ "`"; "";
       "Symbols: `" +:+ vmlinux +:+ "`"; "";
       "## Method and scope"; "";
       "This is a periodic point-sample profile from `OpenSBI progress` "
       +:+ "records. A hit identifies the PC at the sampling instant; it "
       +:+ "does not prove that the complete interval was spent in that "
       +:+ "function."; "";
       "- Cycle range: `" +:+ str_int (cycles first) +:+ "` to `" +:+ str_int (cycles last) +:+ "`";
       "- Retired-instruction range: `" +:+ str_int (instret first) +:+ "` to `"
       +:+ str_int (instret last) +:+ "`";
       "- Samples: `" +:+ str_int (zlen samples) +:+ "`";
       "- Nominal cadence: `" +:+ str_int cadence +:+ "` cycles";
       "- Sample-equivalent cycles below are `hits * cadence`; they are "
       +:+ "an intuitive scale, not exact attribution."; "";
       "## Privilege histogram"; "";
       "| Class | Samples | Percent | Sample-equivalent cycles |"; "|---|---:|---:|---:|"]
      ++ (class_row (zlen samples) cadence <$> most_common categories)
      ++ [""; "## Top kernel functions"; "";
          "| Rank | Function | Hits | Kernel samples | All samples | "
          +:+ "Sample-equivalent cycles | Source |";
          "|---:|---|---:|---:|---:|---:|---|"]
      ++ (function_row (zlen samples) (zlen kernel_samples) cadence function_location
            <$> zip (zrange 1 (zlen ranked + 1)) ranked)
      ++ (if bool_decide (length function_counts = 0%nat)
          then ["| - | No symbolized kernel samples | 0 | 0% | 0% | 0 | - |"] else [])
      ++ [""; "## Interpretation limits"; "";
          "- The cadence is coarse enough to miss short hot paths.";
          "- Deterministic periodic sampling can alias with periodic loops.";
          "- Stall causes are not identified by a PC histogram.";
          "- Exact cycle attribution requires a denser runtime-gated "
          +:+ "cycle trace or dedicated hardware/simulation counters."; ""]).

Record Args := {
  arg_log : string; arg_vmlinux : string; start_cycle : option Z; end_cycle : option Z;
  arg_top : Z; arg_cadence : Z }.

(** The samples kept before the first kernel sample is looked for. *)
Definition selected (args : Args) (sample : Sample) : bool :=
  (cycles sample mod arg_cadence args =? 0)
  && (match start_cycle args with Some c => c <=? cycles sample | None => true end)
  && (match end_cycle args with Some c => cycles sample <=? c | None => true end).

Fixpoint from_kernel (samples : list Sample) : list Sample :=
  match samples with
  | [] => []
  | s :: samples' => if is_kernel s then samples else from_kernel samples'
  end.

(** [main]: the exit status, the report or the message. [read path] is the text of
    a file, [None] when it is no file. *)
Definition main (args : Args) (read : string → option string)
    (run : list string → result (list string)) (generated : string) : result (Z * list string) :=
  match read (arg_log args), read (arg_vmlinux args) with
  | None, _ => Ok (2, ["error: log does not exist: " +:+ arg_log args])
  | _, None => Ok (2, ["error: vmlinux does not exist: " +:+ arg_vmlinux args])
  | Some text, Some _ =>
      if arg_cadence args <=? 0 then Ok (2, ["error: cadence must be positive"])
      else if arg_top args <=? 0 then Ok (2, ["error: top must be positive"])
      else
        parsed ← parse_samples text;
        match from_kernel (filter (λ s, selected args s = true) parsed) with
        | [] => Ok (1, ["error: no kernel S-mode progress samples found"])
        | samples =>
            let kernel_addresses := sorted_set (pc <$> filter (λ s, is_kernel s = true) samples) in
            match symbolize run (arg_vmlinux args) kernel_addresses with
            | Err _ => Ok (1, ["error: symbolization failed"])
            | Ok symbols =>
                report ← markdown_report generated (arg_log args) (arg_vmlinux args) samples symbols
                           (arg_top args) (arg_cadence args);
                Ok (0, report)
            end
        end
  end.

(** ** The histogram accounts for the samples *)

(** The classes add up to the samples, and the functions to the kernel samples. *)
Lemma classes_total samples : d_sum id (counter (privilege_class <$> samples)) = zlen samples.
Proof. by rewrite counter_total, zlen_fmap. Qed.

Lemma kernel_class_count samples :
  default 0 (d_get "kernel S-mode" (counter (privilege_class <$> samples)))
  = zlen (filter (λ s, is_kernel s = true) samples).
Proof.
  rewrite counter_get. unfold zcount. rewrite zsum_fmap.
  rewrite <-zcount_filter. unfold zcount. apply zsum_ext. intros s _. f_equal.
  unfold is_kernel. destruct (String.eqb_spec (privilege_class s) "kernel S-mode") as [->|];
    [by rewrite bool_decide_eq_true_2|by rewrite bool_decide_eq_false_2].
Qed.
