(* ===== verification/Compliance.v ===== *)
(** * Architectural compliance runs

    [tools/compliance.py]: self-checking ELF tests are converted to memory
    images ([MemImage]), run on a simulator, and their results collected and
    reported ([PyJson], [Xml]); in the differential mode the retirement trace of a
    run is compared with the trace of the Sail model.

    The program runs on the host of [Machine].  The commands it starts are the
    operation [run_process] of the class [Environment]: any change of the host
    within the files that commands may touch. *)

From stdpp Require Import base numbers list strings gmap.
From Stdlib Require Import ZArith Lia Ascii.
From S2P Require Import Prelude PyText Bytes PyFloat PyDict PyRegex PyNumber Csv CsvText PyJson Argparse.
From S2P Require Import Machine Xml FloatRepr MemImage.

Open Scope Z_scope.

(** ** The environment *)

(** What [subprocess.run] does: the process completes, there is no such program,
    or the time limit passes. The output captured before the limit is bytes, in
    text mode too. *)
Inductive outcome :=
  | Completed (returncode : Z) (stdout : string)
  | NoProgram (name : string)
  | TimedOut (stdout : option (list Z)).

Class Environment := {
  ROOT : string;                                    (* the repository *)
  executable : string;                              (* sys.executable *)
  command_path : string → option string;            (* shutil.which *)
  resolve : string → string;                        (* Path.resolve *)
  compile : string → result regex;                  (* re.compile *)
  (** a command with its time limit, and the seconds it takes *)
  run_process : list string → option Z → host → outcome * host;
  seconds : list string → host → double;
  (** the files commands may change *)
  touched : string → Prop;
  run_process_changes command limit h : changed touched h (run_process command limit h).2 }.

(** ** Paths *)

Definition path_name (path : string) : list ascii := default [] (last (path_parts path)).

(** The name split at its last dot: [path.stem] and [path.suffix]. A dot that
    starts or ends the name does not count. *)
Definition split_suffix (name : list ascii) : list ascii * list ascii :=
  match split_at "."%char (rev name) with
  | Some (suffix, stem) =>
      if bool_decide (stem = []) || bool_decide (suffix = []) then (name, [])
      else (rev stem, "."%char :: rev suffix)
  | None => (name, [])
  end.
Definition path_stem (path : string) : string := of_chars (split_suffix (path_name path)).1.
Definition path_suffix (path : string) : string := of_chars (split_suffix (path_name path)).2.

(** ** Constants and expressions *)

Definition RAM_BASE : Z := 0x80000000.
Definition RAM_SIZE : Z := 0x100000.

Definition word_char (c : ascii) : bool :=
  is_digit c || is_lower c || ((65 <=? code c) && (code c <=? 90)) || is_char "_" c.
Definition PASS_RE : regex :=
  lit "COMPLIANCE PASS" +>+ Ahead (λ c, match c with Some c => negb (word_char c) | None => true end).
Definition SAIL_INSTR_RE : regex :=
  lit "[" +>+ many is_digit +>+ lit "] [" +>+ Chr (λ c, (65 <=? code c) && (code c <=? 90))
  +>+ lit "]: 0x" +>+ Group "pc" (many is_hex) +>+ lit " (0x" +>+ Group "instr" (many is_hex) +>+ lit ")".
Definition SAIL_GPR_RE : regex :=
  lit "x" +>+ Group "rd" (many is_digit) +>+ lit " <- 0x" +>+ Group "wdata" (many is_hex).

Record Result := {
  test : string; elf : string; backend : string; engine : string; rv64m : bool; status : string;
  expected_failure : bool; duration_seconds : double; returncode : Z; tohost : string;
  log : string; trace : option string; message : string }.

(** ** One run *)

Section compliance.
Context `{Environment}.

(** A command whose exceptions are not caught: its exit status and output. *)
Definition run_command (command : list string) (timeout : option Z) : prog (Z * string) := λ h,
  match run_process command timeout h with
  | (Completed code output, h') => (Ok (code, output), h')
  | (NoProgram name, h') => (Err (no_such_file name), h')
  | (TimedOut _, h') => (Err (TimeoutExpired (join " " command)), h')
  end.

Fixpoint find_tohost (elf : string) (lines : list (list ascii)) : result Z :=
  match lines with
  | [] => Err (RuntimeError (elf +:+ ": no global tohost symbol"))
  | line :: lines =>
      match words line with
      | name :: _ :: value :: _ =>
          if String.eqb name "tohost" then int_text 16 value else find_tohost elf lines
      | _ => find_tohost elf lines
      end
  end.

Definition tohost_symbol (elf nm : string) : prog Z :=
  '(code, output) ← run_command [nm; "-P"; elf] None;
  if negb (code =? 0)
  then throw (RuntimeError ("nm failed for " +:+ elf +:+ ":" +:+ newline +:+ output))
  else lift (find_tohost elf (splitlines output)).

(** [re.sub(r"[^A-Za-z0-9_.-]+", "-", text)] *)
Fixpoint dashed (in_run : bool) (s : list ascii) : list ascii :=
  match s with
  | [] => []
  | c :: s =>
      if word_char c || is_char "." c || is_char "-" c then c :: dashed false s
      else if in_run then dashed true s else "-"%char :: dashed true s
  end.

(** [text.lstrip("-")] *)
Fixpoint drop_dashes (s : list ascii) : list ascii :=
  match s with c :: s' => if is_char "-" c then drop_dashes s' else s | [] => [] end.

Definition safe_name (path : string) : string :=
  let stem := dashed false (chars (path_stem path)) in
  let stem := rev (drop_dashes (rev (drop_dashes stem))) in
  let digest := hex_of_bytes (Sha256.digest (bytes_of (resolve path))) in
  of_chars stem +:+ "-" +:+ of_chars (take 10 (chars digest)).

Definition one_of (x : string) (l : list string) : bool := bool_decide (x ∈ l).

Definition resolve_engine (backend engine : string) : string :=
  if negb (String.eqb engine "auto") then engine
  else if one_of backend ["3p"; "platform-3p"] && bool_decide (is_Some (command_path "verilator"))
  then "verilator" else "iverilog".

(** The make target, the simulator and the bytes of a memory word. *)
Definition simulator (backend : string) (rv64m : bool) (engine : string)
    : result (string * string * Z) :=
  let suffix := if rv64m then "m" else "i" in
  let placed target word_bytes := Ok (target, ROOT +:+ "/" +:+ target, word_bytes) in
  if String.eqb engine "verilator" then
    let top := if one_of backend ["platform"; "platform-3p"] then "tb_compliance_platform"
               else "tb_compliance_" +:+ backend in
    placed ("build/compliance/sim/verilator/" +:+ backend +:+ "_" +:+ suffix +:+ "/V" +:+ top)
      (if String.eqb backend "3p" then 32 else 8)
  else if String.eqb backend "1p" then
    placed ("build/compliance/sim/compliance_1p_" +:+ suffix +:+ ".vvp") 8
  else if String.eqb backend "3p" then
    placed ("build/compliance/sim/compliance_3p_" +:+ suffix +:+ ".vvp") 32
  else if String.eqb backend "platform" then
    placed ("build/compliance/sim/compliance_platform_" +:+ suffix +:+ ".vvp") 8
  else if String.eqb backend "platform-3p" then
    Err (ValueError "platform-3p requires the Verilator engine")
  else Err (ValueError ("unsupported backend " +:+ repr backend)).

Definition build_simulator (target : string) : prog unit :=
  '(code, output) ← run_command ["make"; target] None;
  if negb (code =? 0)
  then throw (RuntimeError ("simulator build failed:" +:+ newline +:+ output))
  else mret ().

(** The options the runs share. *)
Record Options := {
  o_backend : string; o_engine : string; o_rv64m : bool; results_dir : string; max_cycles : Z;
  wall_timeout : Z; o_trace : bool; nm : string }.

Definition run_status (passed expected_failure : bool) : string :=
  if passed && expected_failure then "xpass"
  else if passed then "pass"
  else if expected_failure then "xfail"
  else "fail".

(** [output.strip().splitlines()[-1] if output.strip() else "no output"] *)
Definition last_message (output : string) : string :=
  match last (splitlines (of_chars (strip (chars output)))) with
  | Some line => of_chars line
  | None => "no output"
  end.

(** Output, return code, verdict and message of the simulation. Output captured
    before the time limit is bytes, which no text can be appended to. *)
Definition verdict (wall_timeout : Z) (o : outcome) : result (string * Z * bool * string) :=
  match o with
  | Completed code output =>
      Ok (output, code, (code =? 0) && bool_decide (is_Some (search PASS_RE (chars output))),
          last_message output)
  | NoProgram name => Err (no_such_file name)
  | TimedOut (Some (_ :: _)) => Err (TypeError "can't concat str to bytes")
  | TimedOut _ =>
      Ok (newline +:+ "wall-clock timeout" +:+ newline, 124, false,
          "wall-clock timeout after " +:+ str_int wall_timeout +:+ "s")
  end.
(** [round(x, 6)] *)
Definition round_micro (x : double) : double := default x (py_float (fixed 6 x)).
(** The simulation and its duration. *)
Definition simulate (command : list string) (wall_timeout : Z)
    : prog (string * Z * bool * string * double) := λ h,
  let '(o, h') := run_process command (Some wall_timeout) h in
  (v ← verdict wall_timeout o; Ok (v, seconds command h), h').

Definition artifact_dir (o : Options) (test : string) : string :=
  slash (slash (results_dir o) (o_backend o)) test.
(** [ROOT / target] *)
Definition memh_path (artifact : string) (word_bytes : Z) : string :=
  slash artifact ("image-" +:+ str_int (word_bytes * 8) +:+ ".memh").

(** The command of the simulation. *)
Definition simulation (engine sim memh test : string) (tohost max_cycles : Z) (trace_path : option string)
    : list string :=
  (if String.eqb engine "verilator" then [] else ["vvp"])
  ++ [sim; "+memh=" +:+ memh; "+tohost=" +:+ hex_int tohost; "+test=" +:+ test;
      "+max_cycles=" +:+ str_int max_cycles]
  ++ (match trace_path with Some p => ["+arch_trace=" +:+ p] | None => [] end).

(** [asdict(result)] *)
Definition asdict (r : Result) : json :=
  JObj [("test", JStr (test r)); ("elf", JStr (elf r)); ("backend", JStr (backend r));
        ("engine", JStr (engine r)); ("rv64m", JBool (rv64m r)); ("status", JStr (status r));
        ("expected_failure", JBool (expected_failure r));
        ("duration_seconds", JFloat (duration_seconds r)); ("returncode", JInt (returncode r));
        ("tohost", JStr (tohost r)); ("log", JStr (log r));
        ("trace", match trace r with Some path => JStr path | None => JNull end);
        ("message", JStr (message r))].

(** The memory image of an ELF file, written for the simulator. *)
Definition load_image (elf : string) (word_bytes : Z) (memh : string) : prog unit :=
  blob ← read_bytes elf;
  '(entry, segments) ← lift (Elf2mem.load_elf elf blob);
  _ ← (if (entry <? RAM_BASE) || (RAM_BASE + RAM_SIZE <=? entry)
       then throw (ValueError (elf +:+ ": entry point 0x" +:+ hex_int entry +:+ " is outside test RAM"))
       else mret ());
  words ← lift (Elf2mem.image_words segments RAM_BASE RAM_SIZE word_bytes);
  put_text memh (unlines (Elf2mem.write_memh words)).

Definition run_one (elf : string) (o : Options) (expected_failure : bool) : prog Result :=
  let elf := resolve elf in
  let test := safe_name elf in
  let artifact := artifact_dir o test in
  _ ← make_dirs artifact;
  let engine := resolve_engine (o_backend o) (o_engine o) in
  '(target, sim, word_bytes) ← lift (simulator (o_backend o) (o_rv64m o) engine);
  _ ← build_simulator target;
  let memh := memh_path artifact word_bytes in
  _ ← load_image elf word_bytes memh;
  tohost ← tohost_symbol elf (nm o);
  let trace_path := if o_trace o then Some (slash artifact "arch.csv") else None in
  let log_path := slash artifact "run.log" in
  let command := simulation engine sim memh test tohost (max_cycles o) trace_path in
  '(output, code, passed, message, duration) ← simulate command (wall_timeout o);
  _ ← write_text log_path output;
  let r := {| test := test; elf := elf; backend := o_backend o; engine := engine; rv64m := o_rv64m o;
              status := run_status passed expected_failure; expected_failure := expected_failure;
              duration_seconds := round_micro duration; returncode := code;
              tohost := "0x" +:+ hex_pad 16 tohost; log := log_path; trace := trace_path;
              message := message |} in
  _ ← write_text (slash artifact "result.json") (dumps (asdict r) +:+ newline);
  mret r.

(** ** Suites *)

(** [path.rglob("*.elf")] *)
Definition elf_name (name : list ascii) : Prop := chars ".elf" `suffix_of` name.
Fixpoint find_elfs (paths : list string) : prog (list string) :=
  match paths with
  | [] => mret []
  | path :: paths =>
      file ← is_file path;
      dir ← is_dir path;
      found ← (if file && String.eqb (path_suffix path) ".elf" then mret [path]
               else if dir : bool then rglob path elf_name
               else throw (FileNotFoundError path));
      rest ← find_elfs paths;
      mret (found ++ rest)
  end.
Definition discover_elfs (paths : list string) : prog (list string) :=
  found ← find_elfs paths;
  mret (merge_sort path_le (remove_dups (resolve <$> found))).

Definition xfail_line (path : string) (entries : gmap string string) (numbered_line : Z * list ascii)
    : result (gmap string string) :=
  let '(number, line) := numbered_line in
  if bool_decide (line = []) || bool_decide (head line = Some "#"%char) then Ok entries
  else
    let bad := Err (ValueError (path +:+ ":" +:+ str_int number +:+ ": expected TEST<TAB>REASON")) in
    match split_at (char_of 9) line with
    | Some (name, reason) =>
        if bool_decide (name = []) || bool_decide (reason = []) then bad
        else Ok (<[of_chars name := of_chars reason]> entries)
    | None => bad
    end.
Definition load_xfails (path : option string) : prog (gmap string string) :=
  match path with
  | Some path =>
      file ← is_file path;
      dir ← is_dir path;
      if file || dir then
        text ← read_text path; lift (foldM (xfail_line path) ∅ (numbered (splitlines text)))
      else mret ∅
  | None => mret ∅
  end.

(** The options of the suite; [o_match] is the text of [--match]. *)
Record SuiteOptions := {
  paths : list string; extensions : option string; o_match : option string; limit : option Z;
  xfail : option string; junit : option string; fail_fast : bool }.

(** [{item.strip() for item in text.split(",") if item.strip()}] *)
Definition extension_set (text : list ascii) : gset string :=
  list_to_set (of_chars <$> filter (λ item, item ≠ []) (strip <$> split_all "," text)).

(** An option that is absent or empty selects everything. *)
Definition given (text : option string) : option string :=
  match text with Some "" => None | _ => text end.
Definition select (s : SuiteOptions) (elfs : list string) : result (list string) :=
  let elfs := match given (extensions s) with
              | None => elfs
              | Some text =>
                  filter (λ elf, of_chars (path_name (parent elf)) ∈ extension_set (chars text)) elfs
              end in
  elfs ← match given (o_match s) with
         | None => Ok elfs
         | Some text => regex ← compile text; Ok (filter (λ elf, is_Some (search regex (chars elf))) elfs)
         end;
  Ok (match limit s with
      | None => elfs
      | Some n => slice elfs 0 n
      end).

Definition bad_status (r : Result) : bool := one_of (status r) ["fail"; "xpass"].
Definition progress_line (index total : Z) (r : Result) (elf : string) : string :=
  "[" +:+ str_int index +:+ "/" +:+ str_int total +:+ "] " +:+ upper (status r) +:+ " "
  +:+ of_chars (path_name elf).
Fixpoint run_suite (o : Options) (s : SuiteOptions) (xfails : gmap string string) (total index : Z)
    (elfs : list string) : prog (list Result) :=
  match elfs with
  | [] => mret []
  | elf :: elfs =>
      r ← run_one elf o (bool_decide (is_Some (xfails !! path_stem elf)));
      _ ← print_line (progress_line index total r elf);
      if fail_fast s && bad_status r then mret [r]
      else rest ← run_suite o s xfails total (index + 1) elfs; mret (r :: rest)
  end.

(** ** The JUnit file *)

(** The element of a result and what it holds, with the log of a failure. *)
Definition failure_element (r : Result) (text : string) : element :=
  Element "failure" [("message", message r)] text [] "".
Definition skipped_element (r : Result) : element := Element "skipped" [("message", message r)] "" [] "".
Definition junit_mark (r : Result) : prog (list element) :=
  if String.eqb (status r) "xfail" then mret [skipped_element r]
  else if bad_status r then text ← read_text (log r); mret [failure_element r text]
  else mret [].
Definition case_element (r : Result) (mark : list element) : element :=
  Element "testcase" [("classname", "openrv64." +:+ backend r); ("name", test r);
                      ("time", fixed 6 (duration_seconds r))] "" mark "".
Definition junit_case (r : Result) : prog element :=
  mark ← junit_mark r; mret (case_element r mark).
Definition suite_element (results : list Result) (cases : list element) : element :=
  Element "testsuite"
    [("name", "openrv64-compliance"); ("tests", str_int (zlen results));
     ("failures", str_int (zcount bad_status results));
     ("skipped", str_int (zcount (λ r, String.eqb (status r) "xfail") results));
     ("time", fixed 6 (float_sum (duration_seconds <$> results)))]
    "" cases "".
Definition write_junit (results : list Result) (path : string) : prog unit :=
  cases ← each junit_case results;
  put_text path (xml_document (suite_element results cases)).

Definition count_status (results : list Result) (name : string) : Z :=
  zcount (λ r, String.eqb (status r) name) results.
Definition summary_path (o : Options) : string :=
  slash (results_dir o) ("summary-" +:+ o_backend o +:+ ".json").
Definition junit_path (o : Options) (s : SuiteOptions) : string :=
  default (slash (results_dir o) ("junit-" +:+ o_backend o +:+ ".xml")) (junit s).
Definition summary_text (results : list Result) : string := dumps (JArr (asdict <$> results)) +:+ newline.

Definition suite_subcommand (o : Options) (s : SuiteOptions) : prog Z :=
  found ← discover_elfs (paths s);
  elfs ← lift (select s found);
  _ ← (if bool_decide (elfs = []) then throw (RuntimeError "no ELF tests selected") else mret ());
  xfails ← load_xfails (xfail s);
  results ← run_suite o s xfails (zlen elfs) 1 elfs;
  _ ← put_text (summary_path o) (summary_text results);
  _ ← write_junit results (junit_path o s);
  let counts := count_status results in
  _ ← print_line ("SUMMARY " +:+ join " " ((λ name, name +:+ "=" +:+ str_int (counts name))
                                           <$> ["pass"; "fail"; "xfail"; "xpass"]));
  mret (if negb (counts "fail" =? 0) || negb (counts "xpass" =? 0) then 1 else 0).

(** ** Single runs and the environment check *)

Definition run_subcommand (elf : string) (o : Options) : prog Z :=
  r ← run_one elf o false;
  _ ← print_line (upper (status r) +:+ " " +:+ test r +:+ " (" +:+ fixed 3 (duration_seconds r) +:+ "s)");
  _ ← print_line (log r);
  mret (if String.eqb (status r) "pass" then 0 else 1).

(** The truth value of a path that may be absent. *)
Definition present (path : option string) : bool :=
  match path with Some text => negb (String.eqb text "") | None => false end.
Definition doctor : prog Z :=
  let checks : list (string * option string) :=
    ("python", Some executable)
    :: ((λ name, (name, command_path name))
        <$> ["make"; "iverilog"; "vvp"; "verilator"; "riscv64-elf-gcc"; "riscv64-elf-nm"]) in
  let check_line '(name, value) :=
    (if present value then "PASS " else "MISS ") +:+ name +:+ ": "
    +:+ (if present value then default "" value else "not found") in
  let required := ["make"; "iverilog"; "vvp"; "riscv64-elf-gcc"; "riscv64-elf-nm"] in
  let local_ok := forallb (λ name, present (default None (d_get name checks))) required in
  _ ← print_lines (check_line <$> checks);
  _ ← print_line ("LOCAL " +:+ (if local_ok then "READY" else "INCOMPLETE"));
  mret (if local_ok then 0 else 1).

(** ** The differential mode *)

(** A row of the Sail trace, with the last register write printed after it. *)
Record SailRow := { s_pc : Z; s_instr : Z; s_update : option (Z * Z) }.

Definition group_int (base : Z) (name : string) (caps : captures) : result Z :=
  int_text base (default "" (group name caps)).

Definition sail_line (rows : list SailRow) (line : list ascii) : result (list SailRow) :=
  match match_at SAIL_INSTR_RE line with
  | Some (_, caps) =>
      pc ← group_int 16 "pc" caps;
      instr ← group_int 16 "instr" caps;
      Ok (rows ++ [{| s_pc := pc; s_instr := instr; s_update := None |}])
  | None =>
      match match_at SAIL_GPR_RE (strip line), last rows with
      | Some (_, caps), Some row =>
          rd ← group_int 10 "rd" caps;
          wdata ← group_int 16 "wdata" caps;
          set_item rows (-1) {| s_pc := s_pc row; s_instr := s_instr row; s_update := Some (rd, wdata) |}
      | _, _ => Ok rows
      end
  end.
Definition parse_sail_trace (text : string) : result (list SailRow) :=
  foldM sail_line [] (splitlines text).

Definition is_column (name value : string) (row : Row) : result bool :=
  text ← column row name; Ok (bool_decide (text = Some value)).

(** [[row for row in rows if row["arch"] == "1"]] *)
Fixpoint arch_rows (rows : list Row) : result (list Row) :=
  match rows with
  | [] => Ok []
  | row :: rows =>
      keep ← is_column "arch" "1" row;
      rest ← arch_rows rows;
      Ok (if keep : bool then row :: rest else rest)
  end.
(** [any(row["exception"] == "1" for row in dut)] *)
Fixpoint any_exception (rows : list Row) : result bool :=
  match rows with
  | [] => Ok false
  | row :: rows =>
      trap ← is_column "exception" "1" row;
      if trap : bool then Ok true else any_exception rows
  end.

(** The comparison of one pair of rows: the message of a difference. *)
Definition diff_row (index : Z) (dut_row : Row) (sail_row : SailRow) : result (option string) :=
  pc ← int_column dut_row "pc" 16;
  instr ← int_column dut_row "instr" 16;
  if negb (pc =? s_pc sail_row) || negb (instr =? s_instr sail_row) then
    Ok (Some ("DIFF FAIL order=" +:+ str_int index +:+ " DUT pc=" +:+ hex_pad 16 pc
              +:+ " instr=" +:+ hex_pad 8 instr +:+ " Sail pc=" +:+ hex_pad 16 (s_pc sail_row)
              +:+ " instr=" +:+ hex_pad 8 (s_instr sail_row)))
  else
    writes ← is_column "rd_write" "1" dut_row;
    written ← (if writes : bool then rd ← int_column dut_row "rd" 10; Ok (negb (rd =? 0)) else Ok false);
    if written : bool then
      rd ← int_column dut_row "rd" 10;
      wdata ← int_column dut_row "wdata" 16;
      if bool_decide (s_update sail_row = Some (rd, wdata)) then Ok None
      else Ok (Some ("DIFF FAIL order=" +:+ str_int index +:+ " x" +:+ str_int rd +:+ " DUT="
                     +:+ hex_pad 16 wdata +:+ " Sail="
                     +:+ match s_update sail_row with Some (_, v) => str_int v | None => "None" end))
    else Ok None.

Fixpoint diff_rows (rows : list (Z * (Row * SailRow))) : result (option string) :=
  match rows with
  | [] => Ok None
  | (index, (dut_row, sail_row)) :: rows =>
      difference ← diff_row index dut_row sail_row;
      match difference with
      | Some line => Ok (Some line)
      | None => diff_rows rows
      end
  end.

Definition with_trace (o : Options) : Options :=
  {| o_backend := o_backend o; o_engine := o_engine o; o_rv64m := o_rv64m o;
     results_dir := results_dir o; max_cycles := max_cycles o; wall_timeout := wall_timeout o;
     o_trace := true; nm := nm o |}.

Definition sail_command (sail sail_config elf : string) (rows : Z) : list string :=
  [sail; "--config"; sail_config; "--trace-instr"; "--trace-gpr"; "--inst-limit";
   str_int (rows + 8); resolve elf].

Definition diff_subcommand (elf : string) (o : Options) (sail sail_config : string) : prog Z :=
  r ← run_one elf (with_trace o) false;
  match (if String.eqb (status r) "pass" then trace r else None) with
  | None => _ ← print_line ("DUT " +:+ status r +:+ ": " +:+ log r); mret 1
  | Some path =>
      table ← read_table path;
      dut ← lift (arch_rows (rows table));
      trap ← lift (any_exception dut);
      _ ← (if trap : bool
           then throw (RuntimeError "differential mode currently requires a no-trap program")
           else mret ());
      '(_, output) ← run_command (sail_command sail sail_config elf (zlen dut)) (Some (wall_timeout o));
      _ ← write_text (slash (parent (log r)) "sail.log") output;
      sail ← lift (parse_sail_trace output);
      if zlen sail <? zlen dut then
        _ ← print_line ("DIFF FAIL Sail retired " +:+ str_int (zlen sail) +:+ ", DUT retired "
                        +:+ str_int (zlen dut));
        mret 1
      else
        difference ← lift (diff_rows (enumerate (zip dut sail)));
        match difference with
        | Some line => _ ← print_line line; mret 1
        | None =>
            _ ← print_line ("DIFF PASS backend=" +:+ o_backend o +:+ " instructions="
                            +:+ str_int (zlen dut));
            mret 0
        end
  end.

(** [main] of a subcommand and its options. *)
Inductive command :=
  | Doctor
  | Run (elf : string) (o : Options)
  | Suite (o : Options) (s : SuiteOptions)
  | Diff (elf : string) (o : Options) (sail sail_config : string).
Definition dispatch (c : command) : prog Z :=
  match c with
  | Doctor => doctor
  | Run elf o => run_subcommand elf o
  | Suite o s => suite_subcommand o s
  | Diff elf o sail sail_config => diff_subcommand elf o sail sail_config
  end.
Definition reported (e : exn) : bool :=
  match e with FileNotFoundError _ | RuntimeError _ | ValueError _ => true | _ => false end.
Definition main (c : command) : prog Z :=
  catch (dispatch c) (λ e,
    if reported e then Some (_ ← print_error ("ERROR: " +:+ Machine.message e); mret 2) else None).
End compliance.

(** ** What a run leaves *)

Section facts.
Context `{Environment}.

Lemma run_command_run command limit h code output h' :
  run_command command limit h = (Ok (code, output), h') ↔
  run_process command limit h = (Completed code output, h').
Proof.
  unfold run_command. destruct (run_process command limit h) as [[c out|name|t] h1]; split; intros [=]; by subst.
Qed.
Lemma simulate_run command limit h v x h' :
  simulate command limit h = (Ok (v, x), h') ↔
  ∃ o, run_process command (Some limit) h = (o, h') ∧ verdict limit o = Ok v ∧ x = seconds command h.
Proof.
  unfold simulate. destruct (run_process command (Some limit) h) as [o h1]. split.
  - intros [= Hv <-]. apply bind_Ok in Hv as (v' & Hv & [= -> <-]). by exists o.
  - intros (o' & [= <- <-] & -> & ->). done.
Qed.

(** The test's own verdict, from the exit status and the log. *)
Definition self_passed (r : Result) (text : string) : Prop :=
  returncode r = 0 ∧ is_Some (search PASS_RE (chars text)).

Lemma verdict_passed limit o output code passed message :
  verdict limit o = Ok (output, code, passed, message) →
  passed = true ↔ code = 0 ∧ is_Some (search PASS_RE (chars output)).
Proof.
  unfold verdict. intros Hs.
  destruct o as [c out|name|[[|b bs]|]]; try discriminate Hs;
    apply Ok_inj in Hs; injection Hs as <- <- <- _; [|split; [done|by intros [? _]]..].
  by rewrite andb_true_iff, Z.eqb_eq, bool_decide_eq_true.
Qed.

(** The text of the memory image of an ELF file. *)
Definition image_text (elf : string) (blob : string) (word_bytes : Z) (text : string) : Prop :=
  ∃ entry segments words, Elf2mem.load_elf elf (bytes_of blob) = Ok (entry, segments) ∧
    RAM_BASE ≤ entry < RAM_BASE + RAM_SIZE ∧
    Elf2mem.image_words segments RAM_BASE RAM_SIZE word_bytes = Ok words ∧
    text = unlines (Elf2mem.write_memh words).

Lemma load_image_run elf word_bytes memh h h' :
  load_image elf word_bytes memh h = (Ok (), h') →
  ∃ blob text, files h !! elf = Some blob ∧ image_text elf blob word_bytes text ∧
    files h' = <[memh := text]> (files h).
Proof.
  unfold load_image. intros (data & h1 & [-> (raw & Hraw & ->)]%run_read_bytes & Hl)%run_bind.
  apply run_bind in Hl as ([entry segments] & h2 & [Hload ->]%run_lift & Hl).
  apply run_check in Hl as [He%orb_false_iff Hl].
  apply run_bind in Hl as (words & h3 & [Hw ->]%run_lift & Hl). apply run_put in Hl.
  exists raw, (unlines (Elf2mem.write_memh words)). split; [done|]. split; [|done].
  exists entry, segments, words. split_and!; try done; destruct He; b2p; lia.
Qed.

(** A run: the image was written and [nm] read the file; the simulator was started on
    the host they left, and what it printed decides the result and is its log. *)
Record ran_on (elf : string) (o : Options) (expected : bool) (r : Result) (text : string)
    (before loaded started finished left : host) (word_bytes : Z) (memh : string) : Prop := {
  ran_elf : Compliance.elf r = resolve elf ∧ test r = safe_name (resolve elf);
  ran_options : backend r = o_backend o;
  ran_log : log r = slash (artifact_dir o (test r)) "run.log";
  ran_trace : o_trace o = true → is_Some (trace r);
  ran_word : word_bytes = 8 ∨ word_bytes = 32;
  ran_memh : memh = memh_path (artifact_dir o (test r)) word_bytes;
  ran_image : ∃ built blob image, changed touched before built ∧ files built !! Compliance.elf r = Some blob ∧
    image_text (Compliance.elf r) blob word_bytes image ∧ files loaded = <[memh := image]> (files built);
  ran_nm : ∃ addr, tohost_symbol (Compliance.elf r) (nm o) loaded = (Ok addr, started) ∧
    tohost r = "0x" +:+ hex_pad 16 addr ∧
    ∃ sim command outcome passed,
      command = simulation (engine r) sim memh (test r) addr (max_cycles o) (trace r) ∧
      run_process command (Some (wall_timeout o)) started = (outcome, finished) ∧
      verdict (wall_timeout o) outcome = Ok (text, returncode r, passed, message r) ∧
      status r = run_status passed expected ∧ duration_seconds r = round_micro (seconds command started);
  ran_files : files left =
    <[slash (artifact_dir o (test r)) "result.json" := dumps (asdict r) +:+ newline]>
      (<[log r := text]> (files finished)) }.

Lemma changes_command command limit : changes touched (run_command command limit).
Proof.
  intros h. unfold run_command. pose proof (run_process_changes command limit h) as Hc.
  by destruct (run_process command limit h) as [[] h'].
Qed.
Lemma changes_build target : changes touched (build_simulator target).
Proof.
  apply changes_bind; [apply changes_command|]. intros [code output]. by destruct (negb _).
Qed.
Lemma changes_tohost elf nm : changes touched (tohost_symbol elf nm).
Proof.
  apply changes_bind; [apply changes_command|]. intros [code output]. by destruct (negb _).
Qed.

Lemma simulator_word backend rv64m engine target sim word_bytes :
  simulator backend rv64m engine = Ok (target, sim, word_bytes) → word_bytes = 8 ∨ word_bytes = 32.
Proof.
  unfold simulator. repeat match goal with |- context [if ?b then _ else _] =>
    lazymatch type of b with bool => destruct b end end; intros [=]; auto.
Qed.

Lemma run_one_run elf o expected h r h' :
  run_one elf o expected h = (Ok r, h') →
  ∃ text loaded started finished word_bytes memh,
    ran_on elf o expected r text h loaded started finished h' word_bytes memh.
Proof.
  unfold run_one. intros ([] & h1 & Hd & Hr)%run_bind.
  apply run_bind in Hr as ([[target sim] word_bytes] & h2 & [Hsim%simulator_word ->]%run_lift & Hr).
  apply run_bind in Hr as ([] & h3 & Hb & Hr). apply run_bind in Hr as ([] & h4 & Hl & Hr).
  apply load_image_run in Hl as (blob & image & Hblob & Himage & Hl).
  pose proof (changes_make_dirs touched (artifact_dir o (safe_name (resolve elf))) h) as Hc1.
  pose proof (changes_build target h1) as Hc2. rewrite Hd in Hc1. rewrite Hb in Hc2.
  apply run_bind in Hr as (addr & h5 & Hnm & Hr).
  apply run_bind in Hr as ([[[[output code] passed] message] duration] & h6 & Hs & Hr).
  apply simulate_run in Hs as (outcome & Hs & Hv & ->).
  apply run_bind in Hr as ([] & h7 & ->%run_write & Hr).
  apply run_bind in Hr as ([] & h8 & ->%run_write & [<- ->]%run_ret).
  exists output, h4, h5, h6, word_bytes, (memh_path (artifact_dir o (safe_name (resolve elf))) word_bytes).
  split; cbn; try done.
  - intros ->. by eexists.
  - exists h3, blob, image. split_and!; [by etrans|done..].
  - exists addr. split; [done|]. split; [done|]. by eexists sim, _, outcome, passed.
Qed.

Lemma run_one_log elf o expected r text h h1 h2 h3 h' w memh :
  ran_on elf o expected r text h h1 h2 h3 h' w memh → files h' !! log r = Some text.
Proof.
  intros [_ _ Hlog _ _ _ _ _ ->]. rewrite lookup_insert_ne; [by rewrite lookup_insert_eq|].
  rewrite Hlog. by intros ?%slash_inj.
Qed.
Lemma ran_status elf o expected r text h h1 h2 h3 h' w memh :
  ran_on elf o expected r text h h1 h2 h3 h' w memh →
  ∃ passed, (passed = true ↔ self_passed r text) ∧ status r = run_status passed expected.
Proof.
  intros [_ _ _ _ _ _ _ (addr & _ & _ & sim & command & outcome & passed & _ & _ & Hv & Hs & _) _].
  exists passed. split; [by eapply verdict_passed|done].
Qed.

Lemma run_status_good passed expected :
  (run_status passed expected ∉ ["fail"; "xpass"]) ↔ passed = negb expected.
Proof. destruct passed, expected; vm_compute; split; intros; try done; set_solver. Qed.

Lemma bad_status_false r : bad_status r = false ↔ status r ∉ ["fail"; "xpass"].
Proof. unfold bad_status, one_of. by rewrite bool_decide_eq_false. Qed.

(** ** Suites *)

Definition expected (xfails : gmap string string) (elf : string) : bool :=
  bool_decide (is_Some (xfails !! path_stem elf)).

(** The runs of a suite, one after the other, each with the log it left. *)
Inductive session (o : Options) (xfails : gmap string string) :
    host → list string → list (Result * string) → host → Prop :=
  | session_done h : session o xfails h [] [] h
  | session_run h elf r text h1 h2 elfs runs h' :
      run_one elf o (expected xfails elf) h = (Ok r, h1) → files h1 !! log r = Some text →
      files h2 = files h1 → session o xfails h2 elfs runs h' →
      session o xfails h (elf :: elfs) ((r, text) :: runs) h'.

Lemma run_one_verdict elf o expected h r h' text :
  run_one elf o expected h = (Ok r, h') → files h' !! log r = Some text →
  ∃ passed, (passed = true ↔ self_passed r text) ∧ status r = run_status passed expected.
Proof.
  intros (text' & loaded & started & finished & w & memh & Hr)%run_one_run Hl.
  rewrite (run_one_log _ _ _ _ _ _ _ _ _ _ _ _ Hr) in Hl. injection Hl as <-. by eapply ran_status.
Qed.

Lemma run_suite_spec o s xfails total index elfs h results h' :
  run_suite o s xfails total index elfs h = (Ok results, h') →
  ∃ runs, results = runs.*1 ∧ session o xfails h (take (length runs) elfs) runs h' ∧
  (length runs = length elfs ∨
   fail_fast s = true ∧ ∃ run, last runs = Some run ∧ bad_status run.1 = true).
Proof.
  revert index h results. induction elfs as [|elf elfs IH]; intros index h results Hr; cbn [run_suite] in Hr.
  { apply run_ret in Hr as [<- ->]. exists []. split; [done|]. split; [constructor|by left]. }
  apply run_bind in Hr as (r & h1 & Hone & Hr). apply run_bind in Hr as ([] & h2 & ->%run_print & Hr).
  pose proof (run_one_run _ _ _ _ _ _ Hone) as (text & ? & ? & ? & ? & ? & Hran).
  apply run_one_log in Hran.
  destruct (fail_fast s && bad_status r) eqn:Hstop.
  - apply run_ret in Hr as [<- ->]. apply andb_true_iff in Hstop as [Hf Hb].
    exists [(r, text)]. split; [done|]. split; [by econstructor; [..|constructor]|]. right.
    split; [done|]. by exists (r, text).
  - apply run_bind in Hr as (rest & h3 & Hrest & [<- ->]%run_ret).
    apply IH in Hrest as (runs & -> & Hs & Hend). exists ((r, text) :: runs). split; [done|].
    split; [by econstructor; [..|exact Hs]|].
    destruct Hend as [Hlen|(Hf & run & Hl & Hb)]; [left; simpl; by rewrite Hlen|].
    right. split; [done|]. exists run. split; [|done]. by destruct runs.
Qed.

(** The exit status of the suite is about the statuses of its results. *)
Lemma suite_code results :
  (if negb (count_status results "fail" =? 0) || negb (count_status results "xpass" =? 0)
   then 1 else 0) = 0 ↔ Forall (λ r, bad_status r = false) results.
Proof.
  transitivity (count_status results "fail" = 0 ∧ count_status results "xpass" = 0).
  { destruct (Z.eqb_spec (count_status results "fail") 0), (Z.eqb_spec (count_status results "xpass") 0);
      simpl; split; intros; destruct_and?; try done; lia. }
  unfold count_status. rewrite !zcount_zero, <-Forall_and. apply Forall_iff. intros r.
  rewrite bad_status_false, !String.eqb_neq, not_elem_of_cons, list_elem_of_singleton. done.
Qed.

(** The verdict the suite wants of a run. *)
Definition as_expected (xfails : gmap string string) (elf : string) (run : Result * string) : Prop :=
  self_passed run.1 run.2 ↔ expected xfails elf = false.

Lemma session_verdicts o xfails h elfs runs h' :
  session o xfails h elfs runs h' →
  Forall (λ r, bad_status r = false) runs.*1 ↔ Forall2 (as_expected xfails) elfs runs.
Proof.
  induction 1 as [|h elf r text h1 h2 elfs runs h' Hone Hlog _ _ IH]; [by split|].
  rewrite fmap_cons, Forall_cons, Forall2_cons, IH. apply and_iff_compat_r.
  destruct (run_one_verdict _ _ _ _ _ _ _ Hone Hlog) as (passed & Hp & Hs).
  unfold as_expected. cbn [fst snd]. rewrite bad_status_false, Hs, run_status_good, <- Hp.
  destruct passed, (expected xfails elf); simpl; intuition congruence.
Qed.

Lemma session_length o xfails h elfs runs h' : session o xfails h elfs runs h' → length runs = length elfs.
Proof. induction 1; simpl; congruence. Qed.

Lemma find_elfs_observes paths : observes (find_elfs paths).
Proof. induction paths as [|path paths IH]; cbn [find_elfs]; observes_tac. Qed.
Lemma discover_observes paths : observes (discover_elfs paths).
Proof. apply observes_bind; [apply find_elfs_observes|]. observes_tac. Qed.
Lemma load_xfails_observes path : observes (load_xfails path).
Proof. unfold load_xfails. observes_tac. Qed.

(** What a suite went through: the selection, the runs, the two reports. *)
Lemma suite_run o s h code h' :
  suite_subcommand o s h = (Ok code, h') →
  ∃ found elfs xfails runs h1 h2,
    discover_elfs (paths s) h = (Ok found, h) ∧ select s found = Ok elfs ∧ elfs ≠ [] ∧
    load_xfails (xfail s) h = (Ok xfails, h) ∧
    session o xfails h (take (length runs) elfs) runs h1 ∧
    (length runs = length elfs ∨
     fail_fast s = true ∧ ∃ run, last runs = Some run ∧ bad_status run.1 = true) ∧
    files h2 = <[summary_path o := summary_text runs.*1]> (files h1) ∧
    (∃ h3, write_junit runs.*1 (junit_path o s) h2 = (Ok (), h3) ∧ files h' = files h3) ∧
    code = (if negb (count_status runs.*1 "fail" =? 0) || negb (count_status runs.*1 "xpass" =? 0)
            then 1 else 0).
Proof.
  unfold suite_subcommand. intros (found & h1 & Hfound & Hs)%run_bind.
  pose proof (observes_run _ _ _ _ (discover_observes _) Hfound) as ->.
  apply run_bind in Hs as (elfs & h1 & [Hsel ->]%run_lift & Hs). apply run_check in Hs as [Hne Hs].
  apply run_bind in Hs as (xfails & h1 & Hx & Hs).
  pose proof (observes_run _ _ _ _ (load_xfails_observes _) Hx) as ->.
  apply run_bind in Hs as (results & h1 & Hruns & Hs).
  apply run_suite_spec in Hruns as (runs & -> & Hsession & Hend).
  apply run_bind in Hs as ([] & h2 & Hsum & Hs). apply run_put in Hsum.
  apply run_bind in Hs as ([] & h3 & Hj & Hs).
  apply run_bind in Hs as ([] & h4 & ->%run_print & [<- ->]%run_ret).
  exists found, elfs, xfails, runs, h1, h2. apply bool_decide_eq_false in Hne.
  split_and!; try done. by exists h3.
Qed.

Lemma suite_verdict o s h code h' :
  suite_subcommand o s h = (Ok code, h') →
  ∃ found elfs xfails runs h1,
    discover_elfs (paths s) h = (Ok found, h) ∧ select s found = Ok elfs ∧ elfs ≠ [] ∧
    load_xfails (xfail s) h = (Ok xfails, h) ∧ session o xfails h (take (length runs) elfs) runs h1 ∧
    (code = 0 ∨ code = 1) ∧ (code = 0 ↔ Forall2 (as_expected xfails) elfs runs).
Proof.
  intros (found & elfs & xfails & runs & h1 & h2 & Hfound & Hsel & Hne & Hx & Hs & Hend & _ & _ & ->)%suite_run.
  exists found, elfs, xfails, runs, h1. split_and!; try done; [destruct (_ || _); auto|].
  pose proof (session_length _ _ _ _ _ _ Hs) as Hlen. rewrite suite_code, (session_verdicts _ _ _ _ _ _ Hs).
  destruct Hend as [Hall|(_ & run & Hl & Hb)]; [by rewrite Hall, firstn_all|].
  rewrite <- (session_verdicts _ _ _ _ _ _ Hs). split.
  - intros Hgood. exfalso. rewrite Forall_forall in Hgood.
    rewrite (Hgood run.1) in Hb; [done|]. apply list_elem_of_fmap_2. by apply last_Some_elem_of.
  - intros Hf. apply (session_verdicts _ _ _ _ _ _ Hs). apply Forall2_length in Hf as Hl'.
    by rewrite <- Hl', firstn_all.
Qed.

(** ** The reports of a suite *)

(** The text of a file as [read_text] gives it. *)
Definition text_of (raw : string) : string := of_chars (universal_newlines (chars raw)).
(** The test case of a result, by the log files. *)
Definition case_of (logs : gmap string string) (r : Result) : element :=
  case_element r
    (if String.eqb (status r) "xfail" then [skipped_element r]
     else if bad_status r then [failure_element r (default "" (text_of <$> logs !! log r))] else []).

Lemma junit_case_run r h e h' :
  junit_case r h = (Ok e, h') →
  h' = h ∧ e = case_of (files h) r ∧ (bad_status r = true → is_Some (files h !! log r)).
Proof.
  unfold junit_case, junit_mark, case_of. intros (mark & h1 & Hm & [<- ->]%run_ret)%run_bind.
  destruct (String.eqb_spec (status r) "xfail") as [Hx|_].
  - apply run_ret in Hm as [<- ->]. split_and!; [done..|]. unfold bad_status. by rewrite Hx.
  - destruct (bad_status r).
    + apply run_bind in Hm as (text & h2 & [-> (raw & Hraw & ->)]%run_read_text & [<- ->]%run_ret).
      rewrite Hraw. split_and!; [done..|by eexists].
    + by apply run_ret in Hm as [<- ->].
Qed.

Lemma junit_cases_run results h cases h' :
  each junit_case results h = (Ok cases, h') →
  h' = h ∧ cases = case_of (files h) <$> results ∧
  Forall (λ r, bad_status r = true → is_Some (files h !! log r)) results.
Proof.
  revert cases h'. induction results as [|r results IH]; intros cases h' Hc; cbn [each] in Hc.
  - by apply run_ret in Hc as [<- ->].
  - apply run_bind in Hc as (e & h1 & (-> & -> & Hr)%junit_case_run & Hc).
    apply run_bind in Hc as (es & h2 & (-> & -> & Hrs)%IH & [<- ->]%run_ret).
    split_and!; [done..|by constructor].
Qed.

Lemma write_junit_run results path h h' :
  write_junit results path h = (Ok (), h') →
  files h' = <[path := xml_document (suite_element results (case_of (files h) <$> results))]> (files h) ∧
  Forall (λ r, bad_status r = true → is_Some (files h !! log r)) results.
Proof.
  unfold write_junit. intros (cases & h1 & (-> & -> & Hr)%junit_cases_run & Hw)%run_bind.
  by apply run_put in Hw.
Qed.

(** The runs of a suite: each selected test in order, up to the first that goes wrong
    under --fail-fast. *)
Definition suite_ran (o : Options) (s : SuiteOptions) (h : host) (runs : list (Result * string)) (h1 : host)
    : Prop :=
  ∃ found elfs xfails,
    discover_elfs (paths s) h = (Ok found, h) ∧ select s found = Ok elfs ∧ elfs ≠ [] ∧
    load_xfails (xfail s) h = (Ok xfails, h) ∧ session o xfails h (take (length runs) elfs) runs h1 ∧
    (length runs = length elfs ∨
     fail_fast s = true ∧ ∃ run, last runs = Some run ∧ bad_status run.1 = true).

Lemma suite_files o s h code h' :
  suite_subcommand o s h = (Ok code, h') →
  ∃ runs h1, suite_ran o s h runs h1 ∧
    let results := runs.*1 in
    let logs := <[summary_path o := summary_text results]> (files h1) in
    files h' = <[junit_path o s := xml_document (suite_element results (case_of logs <$> results))]> logs ∧
    Forall (λ r, ∃ x, duration_seconds r = round_micro x) results ∧
    Forall (λ r, bad_status r = true → is_Some (logs !! log r)) results ∧
    (code = 0 ↔ zcount bad_status results = 0).
Proof.
  intros (found & elfs & xfails & runs & h1 & h2 & Hf & Hsel & Hne & Hx & Hs & Hend & Hsum & (h3 & Hj & Hh') & ->)%suite_run.
  apply write_junit_run in Hj as [Hj Hlogs]. exists runs, h1. split; [by exists found, elfs, xfails|].
  intros results logs. rewrite Hsum in Hj, Hlogs. rewrite Hh', Hj, suite_code, zcount_zero. split_and!; try done.
  clear -Hs. subst results. generalize dependent (take (length runs) elfs). clear elfs.
  intros elfs Hs. induction Hs as [|h elf r text h1' h2' elfs runs h' Hone _ _ _ IH]; [done|].
  rewrite fmap_cons. constructor; [|done].
  apply run_one_run in Hone as (? & ? & ? & ? & ? & ? &
    [[_ Htest] Hb _ _ _ _ _ (? & _ & _ & ? & ? & ? & ? & _ & _ & _ & _ & Hd) _]).
  by eexists.
Qed.

Lemma asdict_valid r : printable (duration_seconds r) → valid (asdict r).
Proof.
  intros Hd. cbn [asdict valid foldr fst snd]. split; [apply (bool_decide_unpack _); vm_compute; done|].
  split_and!; try done. by destruct (trace r).
Qed.
Lemma summary_read results :
  Forall (λ r, printable (duration_seconds r)) results →
  loads (summary_text results) = Ok (JArr (asdict <$> results)).
Proof.
  intros Hall. apply loads_dumps_line. cbn [valid].
  induction Hall as [|r results Hr _ IH]; [done|]. split; [by apply asdict_valid|done].
Qed.

(** ** The image a simulation starts with *)

Lemma image_read elf raw word_bytes text :
  image_text elf raw word_bytes text →
  ∃ entry segments lines memory, Elf2mem.load_elf elf (bytes_of raw) = Ok (entry, segments) ∧
    RAM_BASE ≤ entry < RAM_BASE + RAM_SIZE ∧ text = unlines lines ∧ read_memh lines = Some memory ∧
    (∀ s a v, s ∈ segments → segment_byte s a = Some v → memory_byte RAM_BASE word_bytes memory a = v) ∧
    (∀ a, (∀ s, s ∈ segments → segment_byte s a = None) → memory_byte RAM_BASE word_bytes memory a = 0).
Proof.
  intros (entry & segments & words & Hload & He & Hw & ->).
  assert (Forall (λ s, bytes_ok (Elf2mem.data s)) segments) as Hb.
  { apply load_elf_sound in Hload as (_ & Hall & _); [|apply bytes_of_ok]. eapply Forall_impl; [exact Hall|].
    intros s (off & _ & _ & -> & _). apply slice_bytes_ok, bytes_of_ok. }
  pose proof (image_words_faithful segments RAM_BASE RAM_SIZE word_bytes Hb) as Hf. rewrite Hw in Hf.
  destruct Hf as (_ & memory & Hm & Hs & Hz). by exists entry, segments, (Elf2mem.write_memh words), memory.
Qed.

(** The commands keep to their own files: they change neither the ELF file nor the
    image. *)
Definition commands_apart (elf : string) (o : Options) : Prop :=
  ¬ touched (resolve elf) ∧
  ¬ touched (memh_path (artifact_dir o (safe_name (resolve elf))) 8) ∧
  ¬ touched (memh_path (artifact_dir o (safe_name (resolve elf))) 32).

Lemma image_started elf o expected h r h' :
  run_one elf o expected h = (Ok r, h') → commands_apart elf o →
  ∃ raw entry segments word_bytes addr sim started finished outcome text passed lines memory,
    let memh := memh_path (artifact_dir o (test r)) word_bytes in
    files h !! resolve elf = Some raw ∧
    Elf2mem.load_elf (resolve elf) (bytes_of raw) = Ok (entry, segments) ∧
    RAM_BASE ≤ entry < RAM_BASE + RAM_SIZE ∧
    run_process (simulation (engine r) sim memh (test r) addr (max_cycles o) (trace r))
      (Some (wall_timeout o)) started = (outcome, finished) ∧
    files started !! memh = Some (unlines lines) ∧ read_memh lines = Some memory ∧
    (∀ s a v, s ∈ segments → segment_byte s a = Some v → memory_byte RAM_BASE word_bytes memory a = v) ∧
    (∀ a, (∀ s, s ∈ segments → segment_byte s a = None) → memory_byte RAM_BASE word_bytes memory a = 0) ∧
    verdict (wall_timeout o) outcome = Ok (text, returncode r, passed, message r) ∧
    status r = run_status passed expected ∧ files h' !! log r = Some text.
Proof.
  intros Hr (Helf & Hm8 & Hm32). pose proof (run_one_run _ _ _ _ _ _ Hr) as
    (text & loaded & started & finished & w & memh & Hran). pose proof (run_one_log _ _ _ _ _ _ _ _ _ _ _ _ Hran) as Hlog.
  destruct Hran as [[He Ht] _ _ _ Hw -> (built & raw & image & Hb & Hraw & Himage & Hloaded)
    (addr & Hnm & _ & sim & command & outcome & passed & -> & Hrun & Hv & Hs & _) _].
  rewrite He in *. apply image_read in Himage as (entry & segments & lines & memory & Hload & Hent & -> & Hm & Hin & Hout).
  exists raw, entry, segments, w, addr, sim, started, finished, outcome, text, passed, lines, memory.
  pose proof (changes_tohost (resolve elf) (nm o) loaded) as Hc. rewrite Hnm in Hc. simpl in Hc. rewrite Ht in *.
  split_and!; try done; [..|by destruct Hent|by destruct Hent|].
  - by rewrite <- (changed_files _ _ _ Hb _ Helf).
  - rewrite (changed_files _ _ _ Hc) by (by destruct Hw as [-> | ->]). by rewrite Hloaded, lookup_insert_eq.
Qed.

(** ** The differential mode *)

(** What a matching pair of rows says: the same instruction at the same address,
    and, when the row writes a register other than x0, the same write in the
    Sail trace. *)
Definition agrees (row : Row) (sail_row : SailRow) : Prop :=
  int_column row "pc" 16 = Ok (s_pc sail_row) ∧ int_column row "instr" 16 = Ok (s_instr sail_row) ∧
  ∃ writes, columns row !! "rd_write" = Some writes ∧
    (writes = Some "1" →
     ∃ rd, int_column row "rd" 10 = Ok rd ∧
       (rd ≠ 0 → ∃ wdata, int_column row "wdata" 16 = Ok wdata ∧ s_update sail_row = Some (rd, wdata))).

Lemma is_column_Ok name value row b :
  is_column name value row = Ok b ↔
  ∃ text, columns row !! name = Some text ∧ b = bool_decide (text = Some value).
Proof.
  unfold is_column, column. destruct (columns row !! name) as [text|]; simpl; split.
  - intros <-%Ok_inj. by exists text.
  - by intros (? & [= <-] & ->).
  - done.
  - by intros (? & ? & _).
Qed.

Lemma diff_row_None index row sail_row :
  diff_row index row sail_row = Ok None ↔ agrees row sail_row.
Proof.
  unfold diff_row, agrees. split.
  - intros Hd. apply bind_Ok in Hd as (pc & Hpc & Hd). apply bind_Ok in Hd as (instr & Hi & Hd).
    destruct (negb (pc =? _) || _) eqn:Hne; [discriminate Hd|]. b2p. subst.
    split; [done|]. split; [done|].
    apply bind_Ok in Hd as (writes & Hw & Hd). apply is_column_Ok in Hw as (text & Ht & ->).
    exists text. split; [done|]. intros ->. rewrite bool_decide_true in Hd by done.
    apply bind_Ok in Hd as (written & Hw & Hd). apply bind_Ok in Hw as (rd & Hrd & Hw).
    apply Ok_inj in Hw as <-. exists rd. split; [done|]. intros Hne.
    rewrite (proj2 (Z.eqb_neq rd 0) Hne) in Hd. cbn [negb] in Hd.
    apply bind_Ok in Hd as (rd' & Hrd' & Hd). rewrite Hrd in Hrd'. apply Ok_inj in Hrd' as <-.
    apply bind_Ok in Hd as (wdata & Hwd & Hd). exists wdata. split; [done|].
    by case_bool_decide.
  - intros (Hpc & Hi & writes & Hw & Hrest). rewrite Hpc, Hi. cbn [mbind result_bind].
    rewrite !Z.eqb_refl. cbn [negb orb].
    rewrite (proj2 (is_column_Ok "rd_write" "1" row (bool_decide (writes = Some "1"))))
      by (by exists writes).
    cbn [mbind result_bind]. case_bool_decide as Hone; [|done].
    destruct (Hrest Hone) as (rd & -> & Hwrite). cbn [mbind result_bind].
    destruct (Z.eqb_spec rd 0) as [|Hne]; cbn [negb]; [done|].
    destruct (Hwrite Hne) as (wdata & -> & ->). cbn [mbind result_bind].
    by rewrite bool_decide_true.
Qed.

Lemma diff_rows_None rows :
  diff_rows rows = Ok None ↔ Forall (λ row, agrees row.2.1 row.2.2) rows.
Proof.
  induction rows as [|[index [row sail_row]] rows IH]; [by split|].
  rewrite Forall_cons, <-IH, <-(diff_row_None index). cbn [diff_rows fst snd].
  destruct (diff_row index row sail_row) as [[line|]|e]; cbn [mbind result_bind]; split;
    try done; by intros [? ?].
Qed.

(** The retired rows of the DUT's trace. *)
Definition is_one (name : string) (row : Row) : Prop := columns row !! name = Some (Some "1").
#[export] Instance is_one_dec name row : Decision (is_one name row).
Proof. unfold is_one. apply _. Defined.

Lemma arch_rows_Ok rows dut :
  arch_rows rows = Ok dut ↔
  Forall (λ row, is_Some (columns row !! "arch")) rows ∧ dut = filter (is_one "arch") rows.
Proof.
  revert dut. induction rows as [|row rows IH]; intros dut; [cbn; split; [by intros <-%Ok_inj|by intros [_ ->]]|].
  rewrite Forall_cons. cbn [arch_rows]. split.
  - intros Hr. apply bind_Ok in Hr as (keep & Hk & Hr). apply bind_Ok in Hr as (rest & Hrest & Hr).
    apply is_column_Ok in Hk as (text & Ht & ->). apply IH in Hrest as [Hall ->].
    apply Ok_inj in Hr as <-. split; [split; [by eexists|done]|].
    rewrite filter_cons. unfold is_one. repeat case_decide || case_bool_decide; congruence.
  - intros [[[text Ht] Hall] ->].
    rewrite (proj2 (is_column_Ok "arch" "1" row (bool_decide (text = Some "1")))) by (by exists text).
    cbn [mbind result_bind]. rewrite (proj2 (IH _) (conj Hall eq_refl)). cbn [mbind result_bind].
    rewrite filter_cons. unfold is_one. f_equal.
    repeat case_decide || case_bool_decide; congruence.
Qed.

Lemma any_exception_false rows :
  any_exception rows = Ok false ↔
  Forall (λ row, is_Some (columns row !! "exception") ∧ ¬ is_one "exception" row) rows.
Proof.
  unfold is_one. induction rows as [|row rows IH]; [by split|]. rewrite Forall_cons, <-IH.
  cbn [any_exception]. unfold is_column, column.
  destruct (columns row !! "exception") as [text|]; cbn [mbind result_bind].
  - case_bool_decide; split; naive_solver.
  - split; [done|]. by intros [[[? ?] _] _].
Qed.

(** The evidence behind a differential pass: the run, its trace and the Sail
    trace, the retired rows matching its first rows one by one. *)
Definition confirmed (elf : string) (o : Options) (sail sail_config : string) (h : host) (count : Z)
    (left : host) : Prop :=
  ∃ r text path raw table h1 code output h2 sail_rows,
    run_one elf (with_trace o) false h = (Ok r, h1) ∧ files h1 !! log r = Some text ∧ self_passed r text ∧
    trace r = Some path ∧ files h1 !! path = Some raw ∧ csv_table raw = Ok table ∧
    Forall (λ row, is_Some (columns row !! "arch")) (rows table) ∧
    let dut := filter (is_one "arch") (rows table) in
    zlen dut = count ∧
    Forall (λ row, is_Some (columns row !! "exception") ∧ ¬ is_one "exception" row) dut ∧
    run_process (sail_command sail sail_config elf count) (Some (wall_timeout o)) h1
      = (Completed code output, h2) ∧
    write_text (slash (parent (log r)) "sail.log") output h2 = (Ok (), left) ∧
    parse_sail_trace output = Ok sail_rows ∧
    Forall2 agrees dut (take (length dut) sail_rows).

Lemma status_pass elf o h r h' text :
  run_one elf o false h = (Ok r, h') → files h' !! log r = Some text →
  status r = "pass" ↔ self_passed r text.
Proof.
  intros Hr Hl. destruct (run_one_verdict _ _ _ _ _ _ _ Hr Hl) as (passed & <- & ->). by destruct passed.
Qed.

Lemma run_table path h table h' :
  read_table path h = (Ok table, h') ↔ h' = h ∧ ∃ raw, files h !! path = Some raw ∧ csv_table raw = Ok table.
Proof.
  unfold read_table. rewrite run_bind. split.
  - intros (raw & h1 & [Hr ->]%run_read & [Ht ->]%run_lift). split; [done|]. by exists raw.
  - intros (-> & raw & Hr & Ht). exists raw, h. unfold read_file. rewrite Hr. by rewrite run_lift.
Qed.

Lemma Forall2_zip_enumerate dut sail_rows :
  zlen dut ≤ zlen sail_rows →
  Forall (λ row, agrees row.2.1 row.2.2) (enumerate (zip dut sail_rows)) ↔
  Forall2 agrees dut (take (length dut) sail_rows).
Proof.
  intros Hle. unfold enumerate.
  transitivity (Forall (λ row, agrees row.1 row.2) (zip dut sail_rows)).
  { generalize (zlen_zrange 0 (zlen (zip dut sail_rows)) (zlen_nonneg _)).
    generalize (zrange 0 (zlen (zip dut sail_rows))). induction (zip dut sail_rows) as [|x l IH];
      intros ks Hlen; destruct ks as [|k ks]; autorewrite with len in Hlen;
      try (pose proof (zlen_nonneg ks)); try (pose proof (zlen_nonneg l)); try lia; [by split|].
    cbn [zip zip_with]. rewrite !Forall_cons, IH by lia. done. }
  revert sail_rows Hle. induction dut as [|row dut IH]; intros sail_rows Hle.
  { split; constructor. }
  destruct sail_rows as [|sr sail_rows]; autorewrite with len in Hle.
  { pose proof (zlen_nonneg dut). lia. }
  cbn [zip zip_with take length]. rewrite Forall_cons, IH by lia.
  split; [intros [? ?]; by constructor|]. intros Hf. by apply Forall2_cons in Hf.
Qed.


(** The line of a differential pass. *)
Definition pass_line (o : Options) (count : Z) : string :=
  "DIFF PASS backend=" +:+ o_backend o +:+ " instructions=" +:+ str_int count.

Lemma diff_sound elf o sail sail_config h h' :
  diff_subcommand elf o sail sail_config h = (Ok 0, h') →
  ∃ count left, confirmed elf o sail sail_config h count left ∧
    h' = with_out (out left +:+ (pass_line o count +:+ newline)) left.
Proof.
  unfold diff_subcommand. intros (r & h1 & Hrun & Hd)%run_bind.
  pose proof (run_one_run _ _ _ _ _ _ Hrun) as (text & ? & ? & ? & ? & ? & Hlog%run_one_log).
  pose proof (status_pass _ _ _ _ _ _ Hrun Hlog) as Hpass.
  destruct (String.eqb_spec (status r) "pass") as [Hs|];
    [|by apply run_bind in Hd as ([] & ? & _ & [? _]%run_ret)].
  destruct (trace r) as [path|] eqn:Hpath; [|by apply run_bind in Hd as ([] & ? & _ & [? _]%run_ret)].
  apply run_bind in Hd as (table & ? & (-> & raw & Hraw & Htable)%run_table & Hd).
  apply run_bind in Hd as (dut & ? & [Hdut ->]%run_lift & Hd). apply arch_rows_Ok in Hdut as [Harch Hdut].
  apply run_bind in Hd as (trap & ? & [Htrap ->]%run_lift & Hd). apply run_check in Hd as [-> Hd].
  apply run_bind in Hd as ([code output] & h2 & Hcmd%run_command_run & Hd).
  apply run_bind in Hd as ([] & h3 & Hw & Hd).
  apply run_bind in Hd as (sail_rows & ? & [Hsail ->]%run_lift & Hd).
  destruct (Z.ltb_spec (zlen sail_rows) (zlen dut)) as [|Hle];
    [by apply run_bind in Hd as ([] & ? & _ & [? _]%run_ret)|].
  apply run_bind in Hd as ([diff|] & ? & [Hdiff ->]%run_lift & Hd);
    [by apply run_bind in Hd as ([] & ? & _ & [? _]%run_ret)|].
  apply run_bind in Hd as ([] & h4 & Hprint%run_print & [_ ->]%run_ret). subst h4.
  apply diff_rows_None, Forall2_zip_enumerate in Hdiff; [|done].
  exists (zlen dut), h3. split; [|done].
  exists r, text, path, raw, table, h1, code, output, h2, sail_rows.
  rewrite <- Hdut. apply any_exception_false in Htrap. by rewrite <- Hpass.
Qed.

Lemma run_step {A B} (m : prog A) (f : A → prog B) h a h1 :
  m h = (Ok a, h1) → (m ≫= f) h = f a h1.
Proof. intros Hm. unfold mbind, prog_bind. by rewrite Hm. Qed.

Lemma diff_complete elf o sail sail_config h count left :
  confirmed elf o sail sail_config h count left →
  diff_subcommand elf o sail sail_config h
    = (Ok 0, with_out (out left +:+ (pass_line o count +:+ newline)) left).
Proof.
  intros (r & text & path & raw & table & h1 & code & output & h2 & sail_rows & Hrun & Hlog & Hpass &
    Hpath & Hraw & Htable & Harch & <- & Htrap & Hcmd & Hw & Hsail & Hall).
  pose proof (Forall2_length _ _ _ Hall) as Hlen. rewrite length_take in Hlen.
  assert (zlen (filter (is_one "arch") (rows table)) ≤ zlen sail_rows) as Hle by (unfold zlen; lia).
  unfold diff_subcommand. erewrite run_step by exact Hrun.
  rewrite (proj2 (status_pass _ _ _ _ _ _ Hrun Hlog) Hpass), String.eqb_refl, Hpath.
  erewrite run_step by (apply run_table; split; [done|by exists raw]).
  erewrite run_step by (apply run_lift; split; [|done]; by apply arch_rows_Ok).
  erewrite run_step by (apply run_lift; split; [|done]; by apply any_exception_false). cbn beta iota.
  erewrite run_step by done. erewrite run_step by (by apply run_command_run). cbn beta iota.
  erewrite run_step by exact Hw. erewrite run_step by (by apply run_lift).
  rewrite (proj2 (Z.ltb_ge _ _) Hle).
  erewrite run_step by (apply run_lift; split; [|done]; by apply diff_rows_None, Forall2_zip_enumerate).
  done.
Qed.
End facts.

(** ** Characters of the JUnit file *)

(** A text XML can hold. *)
Definition xml_text (s : string) : Prop := forallb legal (chars s) = true.

Lemma xml_text_app a b : xml_text a → xml_text b → xml_text (a +:+ b).
Proof. unfold xml_text. intros Ha Hb. by rewrite chars_app, forallb_app, Ha. Qed.
Lemma xml_text_format base w n : 2 ≤ base ≤ 16 → xml_text (format_int base w n).
Proof.
  intros Hb. unfold xml_text, format_int. rewrite chars_of_chars, !forallb_app.
  replace (forallb legal (if n <? 0 then ["-"%char] else [])) with true by (by destruct (n <? 0)).
  assert (forallb legal (zeros (Z.to_nat (w - zlen (digit_char <$> digits base (Z.abs n))
    - zlen (if n <? 0 then ["-"%char] else [])))) = true) as ->.
  { unfold zeros. apply forallb_Forall, Forall_replicate. done. }
  cbn [andb]. apply forallb_Forall, Forall_fmap.
  destruct (digits_spec base (Z.abs n)) as (_ & Hd & _); [lia|lia|].
  eapply Forall_impl; [exact Hd|]. intros d Hd'. unfold compose.
  assert (Hall : Forall (λ d, legal (digit_char d) = true) (seqZ 0 16)) by (by repeat constructor).
  rewrite Forall_forall in Hall. apply Hall. apply elem_of_seqZ. simpl in Hd'. lia.
Qed.
Lemma xml_text_fixed n x : xml_text (fixed n x).
Proof.
  assert (∀ d z, xml_text (fixed_magnitude d z)) as Hm.
  { intros d z. unfold fixed_magnitude. destruct (d =? 0); repeat apply xml_text_app; by try apply xml_text_format. }
  destruct x as [s|s| |s m e]; try destruct s; try done; by apply xml_text_app.
Qed.

Lemma word_char_legal c : word_char c || is_char "." c || is_char "-" c = true → legal c = true.
Proof. by destruct c as [[] [] [] [] [] [] [] []]. Qed.
Lemma dashed_legal b s : Forall (λ c, legal c = true) (dashed b s).
Proof.
  revert b. induction s as [|c s IH]; intros b; simpl; [constructor|].
  destruct (_ || _) eqn:E; [constructor; [by apply word_char_legal|apply IH]|].
  destruct b; [apply IH|]. constructor; [done|apply IH].
Qed.
Lemma drop_dashes_legal s : Forall (λ c, legal c = true) s → Forall (λ c, legal c = true) (drop_dashes s).
Proof. induction 1 as [|c s Hc Hs IH]; simpl; [constructor|]. destruct (is_char "-" c); [done|by constructor]. Qed.
Lemma xml_text_safe_name `{Environment} path : xml_text (safe_name path).
Proof.
  unfold safe_name. apply xml_text_app; [|apply xml_text_app; [done|]]; unfold xml_text; rewrite chars_of_chars.
  - apply forallb_Forall. apply Forall_rev, drop_dashes_legal, Forall_rev, drop_dashes_legal, dashed_legal.
  - apply forallb_Forall, Forall_take. unfold hex_of_bytes. rewrite chars_of_chars. apply forallb_Forall.
    apply forallb_join, Forall_fmap, Forall_true. intros b. by apply xml_text_format.
Qed.

Lemma universal_newlines_plain s :
  Forall (λ c, legal c = true) s → Forall (λ c, plain c = true) (universal_newlines s).
Proof.
  assert (∀ c, legal c = true → Ascii.eqb c CR = false → plain c = true) as Hplain
    by (intros c Hl Hc; unfold plain; by rewrite Hl, Hc).
  intros Hs. remember (length s) as n eqn:Hn. revert s Hn Hs.
  induction (lt_wf n) as [n _ IH]. intros s -> Hs. destruct s as [|c s]; [constructor|].
  apply Forall_cons in Hs as [Hc Hs]. simpl. destruct (Ascii.eqb c CR) eqn:E.
  - constructor; [done|]. destruct s as [|d s]; [constructor|]. apply Forall_cons in Hs as [Hd Hs'].
    destruct (Ascii.eqb d LF); eapply IH; try done; simpl; try lia. by constructor.
  - constructor; [by apply Hplain|]. eapply IH; try done. simpl. lia.
Qed.
Lemma text_of_plain raw : xml_text raw → forallb plain (chars (text_of raw)) = true.
Proof.
  intros Hr%forallb_Forall. unfold text_of. rewrite chars_of_chars.
  by apply forallb_Forall, universal_newlines_plain.
Qed.

(** The report XML can hold: the backend, the messages and the logs of the failures. *)
Definition holdable (logs : gmap string string) (results : list Result) : Prop :=
  Forall (λ r, xml_text (backend r) ∧ xml_text (test r) ∧ xml_text (message r) ∧
               ∀ raw, logs !! log r = Some raw → xml_text raw) results.

Lemma message_ok s : xml_text s → attributes_ok [("message", s)] = true.
Proof. unfold xml_text, attributes_ok. cbn [forallb fst snd]. by intros ->. Qed.
Lemma case_ok logs r :
  xml_text (backend r) → xml_text (test r) → xml_text (message r) →
  (∀ raw, logs !! log r = Some raw → xml_text raw) → xml_ok (case_of logs r) = true.
Proof.
  unfold xml_text. intros Hb Ht Hm Hlog. unfold case_of, case_element. cbn [xml_ok].
  assert (forallb plain (chars (default "" (text_of <$> logs !! log r))) = true) as Htext.
  { destruct (logs !! log r) as [raw|]; [|done]. by apply text_of_plain, Hlog. }
  unfold attributes_ok. cbn [forallb fst snd fmap list_fmap].
  rewrite chars_app, forallb_app, Hb, Ht, (xml_text_fixed 6 (duration_seconds r)).
  destruct (String.eqb (status r) "xfail"); [|destruct (bad_status r)];
    unfold skipped_element, failure_element; cbn [xml_ok forallb];
    rewrite ?(message_ok _ Hm), ?Htext; reflexivity.
Qed.

Lemma suite_element_ok logs results :
  holdable logs results → xml_ok (suite_element results (case_of logs <$> results)) = true.
Proof.
  intros Hall. unfold suite_element. cbn [xml_ok]. unfold attributes_ok. cbn [forallb fst snd fmap list_fmap].
  unfold str_int. rewrite !(xml_text_format 10 0), xml_text_fixed by lia.
  replace (forallb xml_ok (case_of logs <$> results)) with true; [reflexivity|]. symmetry.
  apply forallb_Forall, Forall_fmap. eapply Forall_impl; [exact Hall|]. intros r (Hb & Ht & Hm & Hl).
  by apply case_ok.
Qed.


(** ** The counts of the JUnit file *)

Definition attribute_of (name : string) (e : element) : option string :=
  match e with Element _ attrib _ _ _ => d_get name attrib end.
Definition children_of (e : element) : list element :=
  match e with Element _ _ _ children _ => children end.
Definition tag_of (e : element) : string := match e with Element tag _ _ _ _ => tag end.
(** A case with a child of a tag, and the cases of a suite. *)
Definition marked (tag : string) (e : element) : bool :=
  existsb (λ child, String.eqb (tag_of child) tag) (children_of e).
Definition count_cases (p : element → bool) (suite : element) : Z := zcount p (children_of suite).

Lemma marked_failure logs r : marked "failure" (case_of logs r) = bad_status r.
Proof.
  unfold case_of, case_element, marked. cbn [children_of].
  destruct (String.eqb_spec (status r) "xfail") as [Hx|_].
  - unfold bad_status. by rewrite Hx.
  - by destruct (bad_status r).
Qed.
Lemma marked_skipped logs r : marked "skipped" (case_of logs r) = String.eqb (status r) "xfail".
Proof.
  unfold case_of, case_element, marked. cbn [children_of].
  destruct (String.eqb_spec (status r) "xfail") as [Hx|_]; [done|]. by destruct (bad_status r).
Qed.

Lemma count_cases_of logs results p q :
  (∀ r, p (case_of logs r) = q r) →
  count_cases p (suite_element results (case_of logs <$> results)) = zcount q results.
Proof.
  intros Hpq. unfold count_cases, suite_element, zcount. cbn [children_of]. rewrite zsum_fmap.
  apply zsum_ext. intros r _. by rewrite Hpq.
Qed.
Lemma count_all {A} (l : list A) : zcount (λ _, true) l = zlen l.
Proof. rewrite zcount_filter. f_equal. induction l as [|x l IH]; [done|]. by rewrite filter_cons_True, IH. Qed.

Lemma str_int_zero n : 0 ≤ n → str_int n = "0" ↔ n = 0.
Proof.
  intros Hn. split; [|by intros ->]. intros E. pose proof (str_int_int n Hn) as Hi. rewrite E in Hi.
  by injection Hi.
Qed.

Lemma round_micro_printable x : printable (round_micro x).
Proof.
  unfold round_micro. destruct (fixed_read 6 x) as [y Hy]; [done|]. rewrite Hy.
  eapply valid_printable, py_float_valid, Hy.
Qed.

(** ** Claims *)

(** C19: The differential mode exits with 0 exactly when the run passed on its own,
    none of the retired rows of its trace is a trap, the Sail trace has at least that
    many instructions, and row by row the address, the instruction and every write to
    a register other than x0 are those of the Sail trace; the line it prints then has
    their number. A row that writes no register is not compared with a write of the
    Sail trace. *)
Theorem diff_correct `{Environment} elf o sail sail_config h h' :
  diff_subcommand elf o sail sail_config h = (Ok 0, h') ↔
  ∃ count left, confirmed elf o sail sail_config h count left ∧
    h' = with_out (out left +:+ (pass_line o count +:+ newline)) left.
Proof.
  split; [apply diff_sound|]. intros (count & left & Hc & ->). by apply diff_complete.
Qed.

(** C20: A suite selects its tests before any command runs, runs them in order, one on
    the host the other left, and its exit status, 0 or 1, is 0 exactly when every
    selected test was run and passed on its own, by its exit status and the log it
    left, if and only if it is not listed as an expected failure. *)
Theorem suite_sound `{Environment} o s h code h' :
  suite_subcommand o s h = (Ok code, h') →
  ∃ found elfs xfails runs h1,
    discover_elfs (paths s) h = (Ok found, h) ∧ select s found = Ok elfs ∧ elfs ≠ [] ∧
    load_xfails (xfail s) h = (Ok xfails, h) ∧ session o xfails h (take (length runs) elfs) runs h1 ∧
    (code = 0 ∨ code = 1) ∧ (code = 0 ↔ Forall2 (as_expected xfails) elfs runs).
Proof. apply suite_verdict. Qed.

(** C21: What a single run reports is the verdict on a simulation of the ELF file
    itself: the simulator is started on a host whose image file, read as $readmemh
    reads it, holds every byte of every segment of the ELF file at its address in the
    test RAM and zero elsewhere, and the exit status, the message, the status and the
    log are those of that simulation, as long as the commands change neither the ELF
    file nor the image. *)
Theorem run_simulates_elf `{Environment} elf o expected h r h' :
  run_one elf o expected h = (Ok r, h') → commands_apart elf o →
  ∃ raw entry segments word_bytes addr sim started finished outcome text passed lines memory,
    let memh := memh_path (artifact_dir o (test r)) word_bytes in
    files h !! resolve elf = Some raw ∧
    Elf2mem.load_elf (resolve elf) (bytes_of raw) = Ok (entry, segments) ∧
    RAM_BASE ≤ entry < RAM_BASE + RAM_SIZE ∧
    run_process (simulation (engine r) sim memh (test r) addr (max_cycles o) (trace r))
      (Some (wall_timeout o)) started = (outcome, finished) ∧
    files started !! memh = Some (unlines lines) ∧ read_memh lines = Some memory ∧
    (∀ s a v, s ∈ segments → segment_byte s a = Some v → memory_byte RAM_BASE word_bytes memory a = v) ∧
    (∀ a, (∀ s, s ∈ segments → segment_byte s a = None) → memory_byte RAM_BASE word_bytes memory a = 0) ∧
    verdict (wall_timeout o) outcome = Ok (text, returncode r, passed, message r) ∧
    status r = run_status passed expected ∧ files h' !! log r = Some text.
Proof. apply image_started. Qed.

(** C22: The two reports of a suite that ends are read back as the results of its runs:
    the results are those of the session over the selected tests, all of them unless
    --fail-fast stopped it. The JSON summary is read by [json.loads] as the list of the
    results with all their fields; the JUnit file, when the backend, the messages and the
    logs of the failures are text that XML can hold, is read as a suite with one case per
    result, in order, with the log of every failure, and counts of tests, failures and
    skipped cases that are those of its cases; and the exit status is 0 exactly when the
    file says that there are no failures. The summary is there to read unless --junit
    names its path. *)
Theorem reports_read_back `{Environment} o s h code h' :
  suite_subcommand o s h = (Ok code, h') →
  ∃ runs h1, suite_ran o s h runs h1 ∧
    let results := runs.*1 in
    let logs := <[summary_path o := summary_text results]> (files h1) in
    let suite := suite_element results (case_of logs <$> results) in
    files h' = <[junit_path o s := xml_document suite]> logs ∧
    (junit_path o s ≠ summary_path o → files h' !! summary_path o = Some (summary_text results)) ∧
    loads (summary_text results) = Ok (JArr (asdict <$> results)) ∧
    (holdable logs results → parse_document (xml_document suite) = Some suite) ∧
    Forall (λ r, bad_status r = true → is_Some (logs !! log r)) results ∧
    attribute_of "tests" suite = Some (str_int (count_cases (λ _, true) suite)) ∧
    attribute_of "failures" suite = Some (str_int (count_cases (marked "failure") suite)) ∧
    attribute_of "skipped" suite = Some (str_int (count_cases (marked "skipped") suite)) ∧
    (code = 0 ↔ attribute_of "failures" suite = Some "0").
Proof.
  intros (runs & h1 & Hran & Hfiles & Hall & Hlogs & Hcode)%suite_files. exists runs, h1.
  split; [done|]. intros results logs suite.
  pose proof (zcount_bounds bad_status results) as [Hbad _].
  split; [done|]. split; [|split; [|split_and!; try done]].
  - intros Hne. by rewrite Hfiles, lookup_insert_ne, lookup_insert_eq.
  - apply summary_read. eapply Forall_impl; [exact Hall|]. intros r (x & ->). apply round_micro_printable.
  - intros Hh. by apply parse_printed, suite_element_ok.
  - by unfold suite; rewrite (count_cases_of _ _ _ (λ _, true)), count_all.
  - by unfold suite; rewrite (count_cases_of _ _ _ _ (marked_failure logs)).
  - by unfold suite; rewrite (count_cases_of _ _ _ _ (marked_skipped logs)).
  - rewrite Hcode. fold results. cbn. split; [by intros ->|]. intros [= E]. by apply str_int_zero.
Qed.

(** ** A sample session

    Two tests, the second an expected failure whose run reaches the time limit, and a
    Sail trace of two instructions. *)

Definition sample_trace : string :=
  unlines ["arch,exception,pc,instr,rd_write,rd,wdata"; "1,0,80000000,00500093,1,1,05";
           "1,0,80000004,0000006f,0,1,05"].
Definition trace_file (command : list string) : option string :=
  path ← head (omap (λ arg, after_prefix (chars "+arch_trace=") (chars arg)) command);
  if bool_decide (path_name (of_chars path) = chars "arch.csv") then Some (of_chars path) else None.

Definition trace_path (path : string) : Prop := path_name path = chars "arch.csv".

(** A simulation, and the trace it writes. *)
Definition sample_simulation (command : list string) (h : host) : outcome * host :=
  if existsb (contains "slow") command then (TimedOut None, h)
  else if existsb (contains "chatty") command then (TimedOut (Some [10]), h)
  else (Completed 0 ("COMPLIANCE PASS" +:+ newline),
        match trace_file command with
        | Some path => with_files (<[path := sample_trace]> (files h)) h
        | None => h
        end).
Lemma sample_simulation_changes command h : changed trace_path h (sample_simulation command h).2.
Proof.
  unfold sample_simulation. repeat case_match; try apply changed_refl. simpl. split; [|done..].
  intros path Hp. apply lookup_insert_ne. intros <-. apply Hp. unfold trace_file in *.
  destruct (head _) as [arg|]; [|done]. simpl in *. by case_bool_decide; simplify_eq.
Qed.

(** What the commands print. *)
Definition sample_process (command : list string) (limit : option Z) (h : host) : outcome * host :=
  match command with
  | "make" :: _ => (Completed 0 "", h)
  | "nm" :: _ => (Completed 0 ("_start T 80000000 0" +:+ newline +:+ "tohost D 80001000 8"), h)
  | "sail" :: _ =>
      (Completed 0 ("[0] [M]: 0x80000000 (0x00500093)" +:+ newline +:+ "  x1 <- 0x00000005" +:+ newline
                    +:+ "[1] [M]: 0x80000004 (0x0000006f)" +:+ newline), h)
  | _ => sample_simulation command h
  end.
Lemma sample_process_changes command limit h : changed trace_path h (sample_process command limit h).2.
Proof.
  unfold sample_process.
  repeat (case_match; try apply changed_refl; try apply sample_simulation_changes).
Qed.

#[local] Instance sample_environment : Environment := {|
  ROOT := "/repo"; executable := "/usr/bin/python3";
  command_path name := Some ("/usr/bin/" +:+ name); resolve path := path;
  compile text := Ok (lit text); run_process := sample_process; seconds _ _ := to_float 2;
  touched := trace_path; run_process_changes := sample_process_changes |}.

Definition sample_host : host := {|
  files := list_to_map [("/tests/I/add.elf", text_of_bytes sample_elf); ("/tests/I/slow.elf", text_of_bytes sample_elf);
                        ("/tests/chatty.elf", text_of_bytes sample_elf);
                        ("/xfail.txt", unlines ["# known"; "slow" +:+ of_chars [char_of 9] +:+ "loops"])];
  dirs := {["/"; "/tests"; "/tests/I"]}; unwritable := ∅; out := ""; err := "" |}.
Definition sample_options : Options := {|
  o_backend := "3p"; o_engine := "auto"; o_rv64m := true; results_dir := "/results";
  max_cycles := 1000; wall_timeout := 5; o_trace := false; nm := "nm" |}.
Definition sample_suite : SuiteOptions := {|
  paths := ["/tests/I"]; extensions := Some "I, M"; o_match := Some ".elf"; limit := Some 5;
  xfail := Some "/xfail.txt"; junit := None; fail_fast := true |}.

Definition printed (r : result Z * host) : result Z * string := (r.1, out r.2).

Example sample_runs :
  printed (main (Suite sample_options sample_suite) sample_host) =
    (Ok 0, unlines ["[1/2] PASS add.elf"; "[2/2] XFAIL slow.elf"; "SUMMARY pass=1 fail=0 xfail=1 xpass=0"]) ∧
  printed (main (Diff "/tests/I/add.elf" sample_options "sail" "sail.json") sample_host) =
    (Ok 0, unlines ["DIFF PASS backend=3p instructions=2"]) ∧
  (main (Suite sample_options {| paths := ["/x.elf"]; extensions := Some "M"; o_match := None;
                                 limit := None; xfail := None; junit := None; fail_fast := false |}) sample_host).1
    = Ok 2 ∧
  (dispatch Doctor sample_host).1 = Ok 0.
Proof. vm_compute. repeat split. Qed.

(** A test that prints something and then reaches the time limit is not a failure
    of the suite: it ends the whole program. *)
Example timeout_with_output :
  (main (Suite sample_options {| paths := ["/tests/chatty.elf"; "/tests/I/add.elf"]; extensions := None;
     o_match := None; limit := None; xfail := None; junit := None; fail_fast := false |}) sample_host).1
  = Err (TypeError "can't concat str to bytes").
Proof. vm_compute. reflexivity. Qed.

Lemma ran {A} (m : prog A) h a : (m h).1 = Ok a → m h = (Ok a, (m h).2).
Proof. destruct (m h) as [r h']. by intros [= ->]. Qed.

Lemma sample_suite_runs : (suite_subcommand sample_options sample_suite sample_host).1 = Ok 0.
Proof. vm_compute. reflexivity. Qed.
Definition sample_suite_host : host := (suite_subcommand sample_options sample_suite sample_host).2.
Lemma suite_sound_witness :
  suite_subcommand sample_options sample_suite sample_host = (Ok 0, sample_suite_host) ∧
  ∃ elfs xfails runs h1,
    load_xfails (xfail sample_suite) sample_host = (Ok xfails, sample_host) ∧
    session sample_options xfails sample_host (take (length runs) elfs) runs h1 ∧
    Forall2 (as_expected xfails) elfs runs.
Proof.
  pose proof (ran _ _ _ sample_suite_runs) as Hrun. split; [exact Hrun|].
  destruct (suite_sound _ _ _ _ _ Hrun)
    as (found & elfs & xfails & runs & h1 & _ & _ & _ & Hx & Hs & _ & Hcode).
  exists elfs, xfails, runs, h1. split; [exact Hx|]. split; [exact Hs|]. by apply Hcode.
Defined.

Definition sample_run : result Result * host := run_one "/tests/I/add.elf" sample_options false sample_host.
Definition sample_result : Result :=
  match sample_run.1 with
  | Ok r => r
  | Err _ => {| test := ""; elf := ""; backend := ""; engine := ""; rv64m := false; status := "";
                expected_failure := false; duration_seconds := PyFloat.exact 0; returncode := 1; tohost := "";
                log := ""; trace := None; message := "" |}
  end.
Lemma sample_run_passes : sample_run.1 = Ok sample_result ∧ status sample_result = "pass".
Proof. vm_compute. split; reflexivity. Qed.
Lemma sample_commands_apart : commands_apart "/tests/I/add.elf" sample_options.
Proof. by vm_compute. Qed.
Lemma run_simulates_elf_witness :
  sample_run = (Ok sample_result, sample_run.2) ∧
  ∃ started lines memory word_bytes,
    files started !! memh_path (artifact_dir sample_options (test sample_result)) word_bytes
      = Some (unlines lines) ∧
    read_memh lines = Some memory.
Proof.
  pose proof (ran _ _ _ (proj1 sample_run_passes)) as Hrun. split; [exact Hrun|].
  destruct (run_simulates_elf _ _ _ _ _ _ Hrun sample_commands_apart)
    as (raw & entry & segments & w & addr & sim & started & finished & o & text & passed & lines & memory
        & _ & _ & _ & _ & Hfile & Hread & _).
  exists started, lines, memory, w. split; [exact Hfile|exact Hread].
Defined.

Definition sample_bad_suite : SuiteOptions := {|
  paths := ["/tests/I"]; extensions := None; o_match := None; limit := None; xfail := None;
  junit := Some "/out.xml"; fail_fast := false |}.
Lemma sample_bad_suite_runs : (suite_subcommand sample_options sample_bad_suite sample_host).1 = Ok 1.
Proof. vm_compute. reflexivity. Qed.
Lemma reports_read_back_witness :
  ∃ h' runs h1,
    suite_subcommand sample_options sample_bad_suite sample_host = (Ok 1, h') ∧
    suite_ran sample_options sample_bad_suite sample_host runs h1 ∧
    files h' !! summary_path sample_options = Some (summary_text runs.*1) ∧
    loads (summary_text runs.*1) = Ok (JArr (asdict <$> runs.*1)).
Proof.
  pose proof (ran _ _ _ sample_bad_suite_runs) as Hrun.
  destruct (reports_read_back _ _ _ _ _ Hrun) as (runs & h1 & Hran & _ & Hsum & Hjson & _).
  exists (suite_subcommand sample_options sample_bad_suite sample_host).2, runs, h1.
  split; [exact Hrun|]. split; [exact Hran|]. split; [apply Hsum; discriminate|exact Hjson].
Defined.

(** The JUnit file of that suite, and how a reader sees it. *)
Example sample_junit :
  match files (suite_subcommand sample_options sample_bad_suite sample_host).2 !! "/out.xml" with
  | Some text =>
      match parse_document text with
      | Some suite => (attribute_of "tests" suite, attribute_of "failures" suite, attribute_of "skipped" suite)
      | None => (None, None, None)
      end
  | None => (None, None, None)
  end = (Some "2", Some "1", Some "0").
Proof. vm_compute. reflexivity. Qed.

(** A control character in a message goes into the file as it is, and the file is then
    not XML. *)
Example control_character :
  let failed := {| test := "t"; elf := "/t.elf"; backend := "1p"; engine := "iverilog"; rv64m := true;
                   status := "fail"; expected_failure := false; duration_seconds := to_float 1;
                   returncode := 1; tohost := "0x0"; log := "/run.log"; trace := None;
                   message := of_chars [char_of 27] |} in
  let logged := with_files {["/run.log" := newline]} sample_host in
  let written := write_junit [failed] "/out.xml" logged in
  written.1 = Ok () ∧ parse_document (default "" (files written.2 !! "/out.xml")) = None.
Proof. vm_compute. split; reflexivity. Qed.
