(* ===== verification/UartLoad.v ===== *)
(** * UART image loader

    [tools/fpga-uart-linux-load.py]: sends a Linux image over a serial line, in
    blocks the loader on the board acknowledges, and waits for the boot to reach
    a shell.

    The serial device, the clock and the printed text are a state that the
    operations thread; an operation may raise, and what was sent and received up
    to that point stays. Loops are bounded by fuel: [None] is a loop that has not
    ended within it, and [main_terminates] shows that there is always enough. *)

From stdpp Require Import base numbers list strings relations.
From Stdlib Require Import ZArith Lia.
From S2P Require Import Prelude PyText Bytes PyFloat.

Open Scope Z_scope.

(** ** Time

    The numbers of seconds of the clock: floats in the code, which the instance
    below gives. *)
Class Seconds (T : Type) := {
  t_add : T → T → T; t_sub : T → T → T; t_lt : T → T → bool;
  t_ratio : Z → Z → T;          (* a quotient of integers *)
  t_show : T → string           (* f"{t:.1f}" *)
}.
#[export] Instance float_seconds : Seconds double := {
  t_add := fadd; t_sub := fsub; t_lt := flt;
  t_ratio a b := fdiv (to_float a) (to_float b);
  t_show := fixed 1
}.

(** [min(a, b)] and [max(a, b)] *)
Definition t_min `{Seconds T} (a b : T) : T := if t_lt b a then b else a.
Definition t_max `{Seconds T} (a b : T) : T := if t_lt a b then b else a.

(** ** The serial device *)

(** The attributes of a terminal, and the flags the program names. *)
Record Attrs := { iflag : Z; oflag : Z; cflag : Z; lflag : Z; ispeed : Z; ospeed : Z; cc : list Z }.
Class Termios := {
  B115200 : Z; CSIZE : Z; PARENB : Z; CSTOPB : Z; CS8 : Z; CLOCAL : Z; CREAD : Z;
  IXON : Z; IXOFF : Z; IXANY : Z }.

(** The calls on the device and the clock. [writable] and [readable] are
    [select] with a time limit. *)
Class Device (T W : Type) := {
  monotonic : W → T * W;
  sleep : T → W → W;
  open_device : string → W → result unit * W;
  close_device : W → W;
  setraw : W → W;
  tcgetattr : W → Attrs * W;
  tcsetattr : Attrs → W → W;
  tcflush : W → W;
  tcdrain : W → W;
  readable : T → W → bool * W;
  writable : T → W → bool * W;
  read : Z → W → result (list Z) * W;      (* os.read: at most so many bytes *)
  write : list Z → W → result Z * W        (* os.write: how many were taken *)
}.

(** ** Effects *)

(** What goes over the wire, in order. *)
Inductive event := Tx (bytes : list Z) | Rx (bytes : list Z).

Record St (W : Type) := mk_St { world : W; log : list event; out : list Z }.
Arguments mk_St {W} _ _ _.
Arguments world {W} _.
Arguments log {W} _.
Arguments out {W} _.

Definition IO (W A : Type) : Type := St W → option (result A * St W).

#[export] Instance io_ret W : MRet (IO W) := λ A a s, Some (Ok a, s).
#[export] Instance io_bind W : MBind (IO W) := λ A B f m s,
  match m s with
  | Some (Ok a, s') => f a s'
  | Some (Err e, s') => Some (Err e, s')
  | None => None
  end.
Definition throw {W A} (e : exn) : IO W A := λ s, Some (Err e, s).
Definition diverge {W A} : IO W A := λ _, None.
(** [try: m] with the exception as a value. *)
Definition attempt {W A} (m : IO W A) : IO W (result A) := λ s,
  match m s with Some (r, s') => Some (Ok r, s') | None => None end.
Definition finally {W A} (m : IO W A) (last : IO W unit) : IO W A := λ s,
  match m s with
  | Some (r, s') => match last s' with
                    | Some (Ok _, s'') => Some (r, s'')
                    | Some (Err e, s'') => Some (Err e, s'')
                    | None => None
                    end
  | None => None
  end.
Fixpoint for_each {W A} (f : A → IO W unit) (l : list A) : IO W unit :=
  match l with
  | [] => mret ()
  | x :: l => _ ← f x; for_each f l
  end.

(** A call that changes the device only. *)
Definition call {W A} (f : W → A * W) : IO W A := λ s,
  let '(a, w) := f (world s) in Some (Ok a, mk_St w (log s) (out s)).
Definition call_ {W} (f : W → W) : IO W unit := call (λ w, ((), f w)).
Definition print_bytes {W} (block : list Z) : IO W unit := λ s,
  Some (Ok (), mk_St (world s) (log s) (out s ++ block)).
Definition print_line {W} (text : string) : IO W unit := print_bytes (bytes_of (text +:+ newline)).

(** ** Byte strings *)

Fixpoint starts_with (m s : list Z) : bool :=
  match m, s with
  | [], _ => true
  | x :: m, y :: s => (x =? y) && starts_with m s
  | _ :: _, [] => false
  end.
(** [m in s] *)
Fixpoint contains_bytes (m s : list Z) : bool :=
  starts_with m s || match s with [] => false | _ :: s => contains_bytes m s end.

(** [repr] of bytes and of a tuple of bytes. *)
Definition byte_repr (b : Z) : string :=
  if b =? 9 then "\t" else if b =? 10 then "\n" else if b =? 13 then "\r"
  else if b =? 92 then "\\" else if (32 <=? b) && (b <? 127) then of_chars [char_of b]
  else "\x" +:+ hex_pad 2 b.
Definition bytes_repr (bs : list Z) : string := "b'" +:+ foldr (λ b s, byte_repr b +:+ s) "'" bs.
Definition tuple_repr (markers : list (list Z)) : string :=
  match markers with
  | [m] => "(" +:+ bytes_repr m +:+ ",)"
  | _ => "(" +:+ join ", " (bytes_repr <$> markers) +:+ ")"
  end.

(** ** Constants *)

Definition line_bytes (text : string) : list Z := bytes_of text ++ [13; 10].
Definition MAGIC : list Z := bytes_of "ORV64LNX".
Definition READY : list Z := line_bytes "OPENRV64 LINUX LOAD READY".
Definition START : list Z := line_bytes "OPENRV64 LINUX LOAD START".
Definition PASS : list Z := line_bytes "OPENRV64 LINUX LOAD PASS".
Definition FAIL : list Z := line_bytes "OPENRV64 LINUX LOAD CRC FAIL".
Definition DDR_START : list Z := line_bytes "OPENRV64 DDR LOAD START".
Definition DDR_PASS : list Z := line_bytes "OPENRV64 DDR LOAD PASS".
Definition DDR_FAIL : list Z := line_bytes "OPENRV64 DDR LOAD CRC FAIL".
Definition PROMPT : list Z := bytes_of "openrv64# ".
Definition MAX_IMAGE_BYTES : Z := 0x8FF00000 - 0x80200000.
Definition BLOCK_BYTES : Z := 1024.
Definition LINUX_MAGIC : list Z := bytes_of "RSC" ++ [5].

(** ** The loader *)

Section loader.
Context {T W : Type} `{Seconds T} `{Device T W} `{Termios}.

Definition clock : IO W T := call monotonic.

(** [select] for reading; a negative time limit is refused. *)
Definition select_read (timeout : T) : IO W bool :=
  if t_lt timeout (t_ratio 0 1) then throw (ValueError "timeout must be non-negative")
  else call (readable timeout).

Definition os_read (n : Z) : IO W (list Z) := λ s,
  let '(r, w) := read n (world s) in
  Some (r, mk_St w (log s ++ match r with Ok block => [Rx block] | Err _ => [] end) (out s)).
Definition os_write (data : list Z) : IO W Z := λ s,
  let '(r, w) := write data (world s) in
  Some (r, mk_St w (log s ++ match r with Ok n => [Tx (take (Z.to_nat n) data)] | Err _ => [] end)
             (out s)).

Definition serial_attrs (attrs : Attrs) : Attrs := {|
  iflag := Z.land (iflag attrs) (Z.lnot (Z.lor (Z.lor IXON IXOFF) IXANY));
  oflag := oflag attrs;
  cflag := Z.lor (Z.lor (Z.lor (Z.land (cflag attrs) (Z.lnot (Z.lor (Z.lor CSIZE PARENB) CSTOPB)))
                          CS8) CLOCAL) CREAD;
  lflag := lflag attrs; ispeed := B115200; ospeed := B115200; cc := cc attrs |}.

Definition configure_serial : IO W unit :=
  _ ← call_ setraw; attrs ← call tcgetattr; _ ← call_ (tcsetattr (serial_attrs attrs)); call_ tcflush.

(** [del received[:-32768]] of a buffer of more than 65536 bytes. *)
Definition truncated (received : list Z) : list Z :=
  if 65536 <? zlen received then slice received (zlen received - 32768) (zlen received) else received.

Fixpoint read_loop (fuel : nat) (markers : list (list Z)) (deadline : T) (received : list Z)
    : IO W (list Z) :=
  match fuel with
  | O => diverge
  | S fuel =>
      now ← clock;
      if negb (t_lt now deadline) then
        throw (TimeoutError ("timed out waiting for " +:+ tuple_repr markers))
      else
        now ← clock;
        ready ← select_read (t_min (t_ratio 1 4) (t_sub deadline now));
        if negb ready then read_loop fuel markers deadline received
        else
          block ← os_read 4096;
          if bool_decide (block = []) then read_loop fuel markers deadline received
          else
            let received := received ++ block in
            _ ← print_bytes block;
            if existsb (λ marker, contains_bytes marker received) markers then mret received
            else read_loop fuel markers deadline (truncated received)
  end.
Definition read_until (fuel : nat) (markers : list (list Z)) (timeout : T) : IO W (list Z) :=
  now ← clock; read_loop fuel markers (t_add now timeout) [].

Definition REPORT_BYTES : Z := 256 * 1024.
Fixpoint write_loop (fuel : nat) (data : list Z) (stall_timeout : T) (report_progress : bool)
    (started : T) (offset next_report : Z) : IO W unit :=
  match fuel with
  | O => diverge
  | S fuel =>
      if negb (offset <? zlen data) then mret ()
      else
        ready ← call (writable stall_timeout);
        if negb ready then
          throw (TimeoutError ("UART stopped accepting output after " +:+ str_int offset +:+ "/"
                               +:+ str_int (zlen data) +:+ " bytes"))
        else
          n ← os_write (slice data offset (offset + 4096));
          let offset := offset + n in
          if report_progress && (next_report <=? offset) then
            now ← clock;
            _ ← print_line ("queued " +:+ str_int offset +:+ "/" +:+ str_int (zlen data)
                            +:+ " bytes in " +:+ t_show (t_sub now started) +:+ "s");
            write_loop fuel data stall_timeout report_progress started offset
              (next_report + REPORT_BYTES)
          else write_loop fuel data stall_timeout report_progress started offset next_report
  end.
Definition write_all (fuel : nat) (data : list Z) (report_progress : bool) : IO W unit :=
  started ← clock; write_loop fuel data (t_ratio 120 1) report_progress started 0 REPORT_BYTES.

Definition write_burst (fuel : nat) (data : list Z) (burst_bytes : Z) (pause : T) (offset : Z)
    : IO W unit :=
  _ ← write_all fuel (slice data offset (offset + burst_bytes)) false;
  if offset + burst_bytes <? zlen data then call_ (sleep pause) else mret ().
Definition write_paced (fuel : nat) (data : list Z) (burst_bytes : Z) (pause : T) : IO W unit :=
  for_each (write_burst fuel data burst_bytes pause) (range_step 0 (zlen data) burst_bytes).

Fixpoint ack_loop (fuel : nat) (deadline : T) : IO W unit :=
  match fuel with
  | O => diverge
  | S fuel =>
      now ← clock;
      if negb (t_lt now deadline) then
        throw (TimeoutError "timed out waiting for a loader block acknowledgement")
      else
        now ← clock;
        ready ← select_read (t_min (t_ratio 1 4) (t_sub deadline now));
        if negb ready then ack_loop fuel deadline
        else
          byte ← os_read 1;
          if bool_decide (byte = bytes_of "+") then mret ()
          else _ ← (if bool_decide (byte = []) then mret () else print_bytes byte);
               ack_loop fuel deadline
  end.
Definition wait_for_ack (fuel : nat) : IO W unit :=
  now ← clock; ack_loop fuel (t_add now (t_ratio 10 1)).

(** Sends the header until the board starts the transfer. *)
Fixpoint handshake (loops fuel : nat) (header marker : list Z) (header_retry burst_pause deadline : T)
    : IO W unit :=
  match loops with
  | O => diverge
  | S loops =>
      _ ← write_paced fuel header 1 burst_pause;
      started ← attempt (now ← clock;
                         read_until fuel [marker] (t_min header_retry (t_sub deadline now)));
      match started with
      | Ok _ => mret ()
      | Err (TimeoutError _) =>
          now ← clock;
          if negb (t_lt now deadline) then
            throw (TimeoutError "loader never accepted the transfer header")
          else handshake loops fuel header marker header_retry burst_pause deadline
      | Err e => throw e
      end
  end.

Record Args := {
  image : list Z; device : string; ready_timeout : T; boot_timeout : T; hardware_preload : bool;
  header_retry : T; burst_bytes : Z; burst_pause : T }.

(** One block and its acknowledgement. *)
Definition send_block (fuel : nat) (args : Args) (offset : Z) : IO W unit :=
  _ ← write_paced fuel (slice (image args) offset (offset + BLOCK_BYTES)) (burst_bytes args)
        (burst_pause args);
  _ ← wait_for_ack fuel;
  if offset =? 0 then
    print_line (newline +:+ "first 1 KiB DDR block acknowledged; continuing upload")
  else mret ().

Definition upload (fuel : nat) (args : Args) : IO W unit :=
  if hardware_preload args then write_all fuel (image args) true
  else for_each (send_block fuel args) (range_step 0 (zlen (image args)) BLOCK_BYTES).

Definition start_marker (args : Args) : list Z := if hardware_preload args then DDR_START else START.
Definition pass_marker (args : Args) : list Z := if hardware_preload args then DDR_PASS else PASS.
Definition fail_marker (args : Args) : list Z := if hardware_preload args then DDR_FAIL else FAIL.

Definition queued_line (args : Args) (elapsed : T) : string :=
  newline +:+ "upload queued through local PTY in " +:+ t_show elapsed
  +:+ "s; physical UART needs at least "
  +:+ t_show (t_max (t_ratio 0 1) (t_sub (t_ratio (zlen (image args) * 10) 115200) elapsed))
  +:+ "s more; awaiting checksum and boot".

(** The session on the open device: the exit status. *)
Definition session (fuel : nat) (args : Args) (header : list Z) : IO W Z :=
  _ ← configure_serial;
  now ← clock;
  _ ← handshake fuel fuel header (start_marker args) (header_retry args) (burst_pause args)
        (t_add now (ready_timeout args));
  started ← clock;
  _ ← upload fuel args;
  _ ← call_ tcdrain;
  now ← clock;
  _ ← print_line (queued_line args (t_sub now started));
  outcome ← read_until fuel [pass_marker args; fail_marker args] (boot_timeout args);
  if contains_bytes (fail_marker args) outcome then mret 1
  else
    _ ← print_line (newline +:+ "loader verified image; awaiting Linux shell prompt");
    _ ← read_until fuel [PROMPT] (boot_timeout args);
    _ ← print_line (newline +:+ "observed Linux shell prompt");
    mret 0.

(** The checks of the options and of the image: the header. *)
Definition header_of (args : Args) : result (list Z) :=
  raise (ExitWith "burst-bytes must be positive and burst-pause nonnegative")
    when (burst_bytes args <=? 0) || t_lt (burst_pause args) (t_ratio 0 1);;
  raise (ExitWith ("image size must be 1.." +:+ str_int MAX_IMAGE_BYTES +:+ " bytes"))
    when bool_decide (image args = []) || (MAX_IMAGE_BYTES <? zlen (image args));;
  raise (ExitWith "input lacks the RISC-V Linux Image magic at offset 0x38")
    when negb (bool_decide (slice (image args) 0x38 0x3C = LINUX_MAGIC));;
  fields ← pack [CU 4; CU 4] [FZ (zlen (image args)); FZ (crc32 (image args))];
  Ok (MAGIC ++ fields).

Definition main (fuel : nat) (args : Args) : IO W Z :=
  match header_of args with
  | Err e => throw e
  | Ok header =>
      _ ← print_line ("loading " +:+ str_int (zlen (image args)) +:+ " bytes, crc32="
                      +:+ hex_pad 8 (crc32 (image args)) +:+ ", minimum wire time="
                      +:+ t_show (t_ratio (zlen (image args) * 10) 115200) +:+ "s");
      _ ← (λ s, let '(r, w) := open_device (device args) (world s) in
                Some (r, mk_St w (log s) (out s)));
      finally (session fuel args header) (call_ close_device)
  end.
End loader.

(** ** A simulated board

    The board answers each byte string it has received with a fixed reply, a line
    at a time; every call takes [pace] milliseconds. *)
#[export] Instance tick_seconds : Seconds Z := {
  t_add := Z.add; t_sub := Z.sub; t_lt := Z.ltb; t_ratio a b := 1000 * a / b;
  t_show t := str_int (t / 1000) +:+ "." +:+ str_int (t mod 1000 / 100)
}.
Record Board := { ticks : Z; got : list Z; delivered : nat }.
Definition with_delivered (b : Board) (n : nat) : Board :=
  {| ticks := ticks b; got := got b; delivered := n |}.
Definition tick (n : Z) (b : Board) : Board :=
  {| ticks := ticks b + n; got := got b; delivered := delivered b |}.

(** The replies, one item per read, to the bytes received so far. *)
Definition board_replies (image_bytes : Z) (got : list Z) : list (list Z) :=
  let payload := zlen got - 16 in
  (if 0 <=? payload then [START] else [])
  ++ replicate (Z.to_nat (payload / BLOCK_BYTES)) (bytes_of "+")
  ++ (if image_bytes <=? payload then
        (if image_bytes mod BLOCK_BYTES =? 0 then [] else [bytes_of "+"])
        ++ [PASS; bytes_of "booting"; bytes_of "openrv64"; bytes_of "# "]
      else []).
Definition board_device (pace : Z) (replies : list Z → list (list Z)) : Device Z Board := {|
  monotonic b := (ticks b, tick pace b);
  sleep t := tick (Z.max pace t);
  open_device _ b := (Ok (), b); close_device := tick pace; setraw := tick pace;
  tcgetattr b := ({| iflag := 0x1c00; oflag := 0; cflag := 0x50; lflag := 0; ispeed := 0;
                     ospeed := 0; cc := [] |}, tick pace b);
  tcsetattr _ := tick pace; tcflush := tick pace; tcdrain := tick pace;
  readable _ b :=
    (bool_decide (delivered b < length (replies (got b)))%nat, tick pace b);
  writable _ b := (true, tick pace b);
  read n b := match replies (got b) !! delivered b with
              | Some reply =>
                  (Ok (take (Z.to_nat n) reply), with_delivered (tick pace b) (S (delivered b)))
              | None => (Ok [], tick pace b)
              end;
  write data b := (Ok (Z.min 3 (zlen data)),
                   {| ticks := ticks b + pace; got := got b ++ take 3 data; delivered := delivered b |})
|}.
#[export] Instance sample_termios : Termios := {|
  B115200 := 0x1002; CSIZE := 0x30; PARENB := 0x100; CSTOPB := 0x40; CS8 := 0x30; CLOCAL := 0x800;
  CREAD := 0x80; IXON := 0x400; IXOFF := 0x1000; IXANY := 0x800 |}.
Definition sample_image : list Z := zero_bytes 0x38 ++ LINUX_MAGIC ++ zero_bytes 1000.
Definition sample_args : Args (T := Z) := {|
  image := sample_image; device := "/tmp/ttyACM0"; ready_timeout := 120000; boot_timeout := 7200000;
  hardware_preload := false; header_retry := 2000; burst_bytes := 4; burst_pause := 1 |}.
Definition sample_start : St Board := mk_St {| ticks := 0; got := []; delivered := 0 |} [] [].
Example sample_session_passes :
  option_map fst (main (H0 := board_device 1 (board_replies (zlen sample_image))) 2000 sample_args sample_start)
  = Some (Ok 0).
Proof. vm_compute. reflexivity. Qed.

(** A board that says nothing. *)
Definition board_quiet (got : list Z) : list (list Z) := [].

(** A prompt that is read together with the pass marker is not seen again: the
    loader waits for another one until the time limit. *)
Definition prompt_with_pass (got : list Z) : list (list Z) :=
  if zlen got <? 16 then [] else if zlen got <? 16 + zlen sample_image then [DDR_START]
  else [DDR_START; DDR_PASS ++ PROMPT].
Example prompt_lost :
  option_map fst (main (H0 := board_device 1 prompt_with_pass) 2000
    {| image := sample_image; device := "/tmp/ttyACM0"; ready_timeout := 1000; boot_timeout := 1000;
       hardware_preload := true; header_retry := 500; burst_bytes := 4; burst_pause := 1 |} sample_start)
  = Some (Err (TimeoutError "timed out waiting for (b'openrv64# ',)")).
Proof. vm_compute. reflexivity. Qed.

(** A deadline that passes between the two looks at the clock is not a time-out
    but an error of [select], which the handshake does not catch. *)
Example late_deadline :
  option_map fst (read_until (H0 := board_device 700 board_quiet) 2000 [START] 1000 sample_start)
  = Some (Err (ValueError "timeout must be non-negative")).
Proof. vm_compute. reflexivity. Qed.

(** ** Transcripts *)

Definition is_tx (e : event) : Prop := match e with Tx _ => True | Rx _ => False end.
Definition is_rx (e : event) : Prop := match e with Tx _ => False | Rx _ => True end.

(** The bytes sent, and the bytes received. *)
Definition tx (l : list event) : list Z := mjoin ((λ e, match e with Tx bs => bs | Rx _ => [] end) <$> l).
Definition rx (l : list event) : list Z := mjoin ((λ e, match e with Tx _ => [] | Rx bs => bs end) <$> l).

Lemma tx_app l k : tx (l ++ k) = tx l ++ tx k.
Proof. unfold tx. by rewrite fmap_app, join_app. Qed.
Lemma rx_app l k : rx (l ++ k) = rx l ++ rx k.
Proof. unfold rx. by rewrite fmap_app, join_app. Qed.
Lemma tx_only_rx l : Forall is_rx l → tx l = [].
Proof. induction 1 as [|[]]; done. Qed.
Lemma rx_only_tx l : Forall is_tx l → rx l = [].
Proof. induction 1 as [|[]]; done. Qed.

(** What a call appends to the transcript, with its outcome. *)
Definition adds {W A} (m : IO W A) (Q : result A → list event → Prop) : Prop :=
  ∀ s r s', m s = Some (r, s') → ∃ l, log s' = log s ++ l ∧ Q r l.

Section adds.
Context {W : Type}.

Lemma adds_weaken {A} (m : IO W A) (Q Q' : result A → list event → Prop) :
  adds m Q → (∀ r l, Q r l → Q' r l) → adds m Q'.
Proof. intros Hm HQ s r s' Hs. apply Hm in Hs as (l & Hl & Hq). eauto. Qed.

Lemma adds_ret {A} (a : A) (Q : result A → list event → Prop) : Q (Ok a) [] → adds (W := W) (mret a) Q.
Proof. intros HQ s r s' [= <- <-]. exists []. by rewrite app_nil_r. Qed.

Lemma adds_throw {A} e (Q : result A → list event → Prop) : Q (Err e) [] → adds (W := W) (throw e) Q.
Proof. intros HQ s r s' [= <- <-]. exists []. by rewrite app_nil_r. Qed.

Lemma adds_diverge {A} (Q : result A → list event → Prop) : adds (W := W) diverge Q.
Proof. by intros s r s' ?. Qed.

Lemma adds_bind {A B} (m : IO W A) (f : A → IO W B) (Q : result B → list event → Prop) :
  adds m (λ r l, match r with
                 | Ok a => adds (f a) (λ r' l', Q r' (l ++ l'))
                 | Err e => Q (Err e) l
                 end) → adds (m ≫= f) Q.
Proof.
  intros Hm s r s' Hs. unfold mbind, io_bind in Hs.
  destruct (m s) as [[[a|e] s1]|] eqn:E; [| |done]; apply Hm in E as (l & Hl & HQ).
  - apply HQ in Hs as (l' & Hl' & HQ'). exists (l ++ l'). by rewrite Hl', Hl, <-app_assoc.
  - injection Hs as <- <-. by exists l.
Qed.

Lemma adds_call {A} (f : W → A * W) (Q : result A → list event → Prop) :
  (∀ a, Q (Ok a) []) → adds (call f) Q.
Proof.
  intros HQ s r s'. unfold call. destruct (f (world s)) as [a w]. intros [= <- <-].
  exists []. by rewrite app_nil_r.
Qed.
Lemma adds_call_ (f : W → W) (Q : result unit → list event → Prop) : Q (Ok ()) [] → adds (call_ f) Q.
Proof. intros HQ. apply adds_call. by intros []. Qed.
Lemma adds_print bs (Q : result unit → list event → Prop) :
  Q (Ok ()) [] → adds (W := W) (print_bytes bs) Q.
Proof. intros HQ s r s' [= <- <-]. exists []. by rewrite app_nil_r. Qed.

Lemma adds_attempt {A} (m : IO W A) (Q : result (result A) → list event → Prop) :
  adds m (λ r l, Q (Ok r) l) → adds (attempt m) Q.
Proof.
  intros Hm s r s'. unfold attempt. destruct (m s) as [[r0 s0]|] eqn:E; [|done].
  intros [= <- <-]. by apply Hm in E.
Qed.
End adds.
#[export] Hint Resolve adds_ret adds_throw adds_diverge adds_call adds_call_ adds_print : uart.

(** ** What is sent *)

Section sending.
Context {T W : Type} `{Seconds T} `{Device T W}.

(** [os.write] takes some of the bytes. *)
Definition writes_some : Prop :=
  ∀ data w n w', write data w = (Ok n, w') → 0 ≤ n ≤ zlen data.
Hypothesis Hwrite : writes_some.

Lemma adds_os_read n (Q : result (list Z) → list event → Prop) :
  (∀ block, Q (Ok block) [Rx block]) → (∀ e, Q (Err e) []) → adds (os_read n) Q.
Proof.
  intros Hok Herr s r s'. unfold os_read. destruct (read n (world s)) as [[block|e] w];
    intros [= <- <-]; eexists; split; simpl; eauto.
Qed.

Lemma adds_select_read timeout (Q : result bool → list event → Prop) :
  (∀ ready, Q (Ok ready) []) → (∀ e, Q (Err e) []) → adds (select_read timeout) Q.
Proof. intros Hok Herr. unfold select_read. case_match; [by apply adds_throw|by apply adds_call]. Qed.

Lemma adds_os_write data (Q : result Z → list event → Prop) :
  (∀ n, 0 ≤ n ≤ zlen data → Q (Ok n) [Tx (take (Z.to_nat n) data)]) → (∀ e, Q (Err e) []) →
  adds (os_write data) Q.
Proof.
  intros Hok Herr s r s'. unfold os_write. destruct (write data (world s)) as [[n|e] w] eqn:E;
    intros [= <- <-]; eexists; (split; [reflexivity|]); [|by apply Herr]. apply Hok. by eapply Hwrite.
Qed.

(** Only transmissions, of the first bytes of [data]; all of them on success. *)
Definition sends (data : list Z) (r : result unit) (l : list event) : Prop :=
  Forall is_tx l ∧ ∃ n, (n ≤ length data)%nat ∧ tx l = take n data ∧ (r = Ok () → n = length data).

Lemma sends_nil : sends [] (Ok ()) [].
Proof. split; [constructor|]. by exists 0%nat. Qed.

Lemma sends_none data e : sends data (Err e) [].
Proof. split; [constructor|]. exists 0%nat. split_and!; [lia|done|done]. Qed.

Lemma sends_app data1 data2 l1 l2 r :
  sends data1 (Ok ()) l1 → sends data2 r l2 → sends (data1 ++ data2) r (l1 ++ l2).
Proof.
  intros [H1 (n1 & _ & Ht1 & Hn1)] [H2 (n2 & Hle & Ht2 & Hn2)]. split; [by apply Forall_app|].
  specialize (Hn1 eq_refl). exists (length data1 + n2)%nat. rewrite length_app.
  split_and!; [lia| |intros Hr; rewrite Hn2 by done; lia].
  rewrite tx_app, Ht1, Ht2, Hn1, firstn_all, take_app_add'; done.
Qed.

Lemma sends_cons data n r l : sends (drop n data) r l → sends data r (Tx (take n data) :: l).
Proof.
  intros Hl. rewrite <-(take_drop n data) at 1.
  apply (sends_app (take n data) (drop n data) [Tx (take n data)]); [|done].
  split; [by repeat constructor|]. exists (length (take n data)).
  split_and!; [done| |done]. rewrite firstn_all. cbn. by rewrite app_nil_r.
Qed.

Lemma sends_prefix data1 data2 l e : sends data1 (Err e) l → sends (data1 ++ data2) (Err e) l.
Proof.
  intros [Ht (n & Hle & Htx & _)]. split; [done|]. exists n. rewrite length_app.
  split_and!; [lia| |done]. by rewrite Htx, take_app_le.
Qed.

Lemma write_loop_sends fuel data stall report started offset next :
  0 ≤ offset ≤ zlen data →
  adds (write_loop fuel data stall report started offset next) (sends (drop (Z.to_nat offset) data)).
Proof.
  revert offset next. induction fuel as [|fuel IH]; intros offset next Ho; [apply adds_diverge|].
  cbn [write_loop]. destruct (Z.ltb_spec offset (zlen data)) as [Hlt|Hge]; cbn [negb].
  2: { apply adds_ret. rewrite drop_ge by (unfold zlen in *; lia). apply sends_nil. }
  apply adds_bind, adds_call. intros [|]; cbn [negb]; [|apply adds_throw, sends_none].
  apply adds_bind, adds_os_write; [|intros e; apply sends_none]. intros n Hn.
  rewrite slice_clipped in Hn |- * by lia.
  assert (n ≤ zlen (drop (Z.to_nat offset) data)) as Hn'
    by (unfold zlen in *; rewrite length_take in Hn; lia).
  assert (∀ next', adds (write_loop fuel data stall report started (offset + n) next')
            (λ r l, sends (drop (Z.to_nat offset) data) r
               (Tx (take (Z.to_nat n) (drop (Z.to_nat offset) data)) :: l))) as Hnext.
  { intros next'. eapply adds_weaken.
    - apply IH. unfold zlen in *. rewrite length_drop in Hn'. lia.
    - intros r l Hl. apply sends_cons. by rewrite drop_drop, <-Z2Nat.inj_add by lia. }
  rewrite take_take, Nat.min_l
    by (unfold zlen in *; rewrite length_take in Hn; lia).
  destruct (report && _); [|apply Hnext].
  apply adds_bind, adds_call. intros now. apply adds_bind, adds_print. apply Hnext.
Qed.

(** [write_all] sends the data, once and in order; when it raises, a first part
    of it. *)
Lemma write_all_sends fuel data report : adds (write_all fuel data report) (sends data).
Proof.
  apply adds_bind, adds_call. intros started. apply write_loop_sends.
  split; [done|apply zlen_nonneg].
Qed.

Lemma for_each_sends {A} (f : A → IO W unit) (g : A → list Z) l :
  (∀ x, x ∈ l → adds (f x) (sends (g x))) → adds (for_each f l) (sends (mjoin (g <$> l))).
Proof.
  induction l as [|x l IH]; intros Hf; [apply adds_ret, sends_nil|]. cbn [for_each].
  apply adds_bind. eapply adds_weaken; [apply Hf; left|]. intros [[]|e] l1 H1; cbn [fmap list_fmap].
  - eapply adds_weaken; [apply IH; intros y Hy; apply Hf; by right|]. intros r l2 H2.
    rewrite join_cons. by apply sends_app.
  - rewrite join_cons. by apply sends_prefix.
Qed.

(** The pieces of a list of bytes, [step] at a time. *)
Definition pieces (data : list Z) (step : Z) : list (list Z) :=
  (λ offset, slice data offset (offset + step)) <$> range_step 0 (zlen data) step.

Lemma pieces_join data step : 0 < step → mjoin (pieces data step) = data.
Proof.
  intros Hs. unfold pieces, range_step. rewrite <-list_fmap_compose.
  set (count := (zlen data - 0 + step - 1) / step).
  assert (∀ n, 0 ≤ n →
    mjoin ((λ k, slice data (0 + k * step) (0 + k * step + step)) <$> zrange 0 n)
    = take (Z.to_nat (n * step)) data) as Hall.
  { apply natlike_ind; [done|]. intros n Hn IH. unfold Z.succ.
    rewrite zrange_snoc by lia. rewrite fmap_app, join_app, IH. cbn. rewrite app_nil_r.
    rewrite slice_clipped, take_take_drop by lia. f_equal. lia. }
  pose proof (zlen_nonneg data). etrans; [exact (Hall count ltac:(apply Z.div_pos; lia))|].
  apply take_ge. unfold count, zlen in *.
  pose proof (Z.mul_succ_div_gt (Z.of_nat (length data) - 0 + step - 1) step Hs). lia.
Qed.

Lemma write_paced_sends fuel data burst pause :
  0 < burst → adds (write_paced fuel data burst pause) (sends data).
Proof.
  intros Hb. unfold write_paced. rewrite <-(pieces_join data burst Hb) at 3.
  apply for_each_sends. intros offset _. apply adds_bind.
  eapply adds_weaken; [apply write_all_sends|]. intros [[]|e] l Hl; [|done].
  case_match; [apply adds_call_|apply adds_ret]; by rewrite app_nil_r.
Qed.
End sending.

(** ** What is received *)

Lemma starts_with_spec m s : starts_with m s = true ↔ ∃ rest, s = m ++ rest.
Proof.
  revert s. induction m as [|x m IH]; intros s; [split; [by exists s|done]|].
  destruct s as [|y s]; simpl; [split; [done|by intros [? ?]]|].
  rewrite andb_true_iff, Z.eqb_eq, IH. split.
  - intros [-> [rest ->]]. by exists rest.
  - intros [rest [= -> ->]]. split; [done|]. by exists rest.
Qed.

Lemma contains_bytes_spec m s : contains_bytes m s = true ↔ ∃ before after, s = before ++ m ++ after.
Proof.
  induction s as [|x s IH]; cbn [contains_bytes]; rewrite orb_true_iff, starts_with_spec.
  - split; [intros [[rest Hr]|]; [by exists [], rest|done]|].
    intros (before & after & Hs). left. exists []. destruct before; [|done]. simpl in Hs.
    by destruct m; [destruct after|].
  - rewrite IH. split.
    + intros [[rest Hr]|(before & after & ->)]; [by exists [], rest|]. by exists (x :: before), after.
    + intros ([|y before] & after & Hs); [left; by exists after|]. right.
      injection Hs as <- ->. by exists before, after.
Qed.

Lemma contains_bytes_app m s t : contains_bytes m s = true → contains_bytes m (s ++ t) = true.
Proof.
  rewrite !contains_bytes_spec. intros (before & after & ->). exists before, (after ++ t).
  by rewrite <-!app_assoc.
Qed.

(** A marker that is new with the last block is found in any part of the stream
    that is long enough. *)
Lemma contains_bytes_tail m pre kept block :
  contains_bytes m (pre ++ kept) = false → (pre = [] ∨ length m ≤ S (length kept))%nat →
  contains_bytes m (kept ++ block) = contains_bytes m (pre ++ kept ++ block).
Proof.
  intros Hno Hlong. destruct Hlong as [->|Hlong]; [done|].
  apply eq_bool_prop_intro. rewrite !Is_true_true, !contains_bytes_spec. split.
  - intros (before & after & ->). exists (pre ++ before), after. by rewrite <-app_assoc.
  - intros (before & after & Hs).
    destruct (decide (length pre ≤ length before)%nat) as [Hle|Hlt].
    + exists (drop (length pre) before), after. apply (f_equal (drop (length pre))) in Hs.
      rewrite drop_app_length in Hs. rewrite Hs. by rewrite drop_app_le.
    + exfalso. apply not_true_iff_false in Hno. apply Hno. rewrite contains_bytes_spec.
      exists before, (take (length pre + length kept - length before - length m) after).
      apply (f_equal (take (length (pre ++ kept)))) in Hs.
      rewrite app_assoc, take_app_length in Hs. rewrite Hs, length_app.
      rewrite !take_app, (take_ge before), (take_ge m) by lia. done.
Qed.

Section receiving.
Context {T W : Type} `{Seconds T} `{Device T W}.

(** None of the markers, or one of them, in the bytes received. *)
Definition found (markers : list (list Z)) (s : list Z) : bool :=
  existsb (λ marker, contains_bytes marker s) markers.

(** The result of waiting for a marker: only receptions. On success the last
    block completes the first marker of the stream, and the text handed on is an
    end of the stream with the same markers; otherwise the stream has none. *)
Definition awaited (markers : list (list Z)) (earlier : list Z) (r : result (list Z))
    (l : list event) : Prop :=
  Forall is_rx l ∧
  match r with
  | Ok received =>
      found markers received = true ∧
      (∃ l0 block, l = l0 ++ [Rx block] ∧ found markers (earlier ++ rx l0) = false) ∧
      (∃ dropped, dropped ++ received = earlier ++ rx l) ∧
      ∀ m, m ∈ markers → contains_bytes m received = contains_bytes m (earlier ++ rx l)
  | Err _ => found markers (earlier ++ rx l) = false
  end.

Lemma found_false markers s m : found markers s = false → m ∈ markers → contains_bytes m s = false.
Proof.
  intros Hf Hm. apply not_true_iff_false. intros Hc. apply not_true_iff_false in Hf. apply Hf.
  apply existsb_exists. exists m. by rewrite <-list_elem_of_In.
Qed.

Lemma marker_tail markers pre kept block m :
  found markers (pre ++ kept) = false →
  pre = [] ∨ Forall (λ m, zlen m ≤ 32768) markers ∧ 32768 ≤ zlen kept → m ∈ markers →
  contains_bytes m (kept ++ block) = contains_bytes m (pre ++ kept ++ block).
Proof.
  intros Hf Hlong Hm. apply contains_bytes_tail; [by eapply found_false|].
  destruct Hlong as [|[Hall Hk]]; [by left|right]. rewrite Forall_forall in Hall.
  specialize (Hall _ Hm). unfold zlen in *. lia.
Qed.

Lemma found_ext markers s t :
  (∀ m, m ∈ markers → contains_bytes m s = contains_bytes m t) → found markers s = found markers t.
Proof.
  induction markers as [|m markers IH]; intros Hm; [done|]. unfold found. cbn [existsb].
  f_equal; [apply Hm; left|apply IH; intros; apply Hm; by right].
Qed.
Lemma awaited_cons markers earlier block r l :
  found markers (earlier ++ block) = false →
  awaited markers (earlier ++ block) r l → awaited markers earlier r (Rx block :: l).
Proof.
  unfold awaited. intros Hno [Hl Hr]. split; [by constructor|].
  change (rx (Rx block :: l)) with (block ++ rx l). rewrite app_assoc.
  destruct r as [received|e]; [|done]. destruct Hr as (Hf & (l0 & last & -> & Hn) & Hd & Hm).
  split_and!; [done| |done|done]. exists (Rx block :: l0), last. split; [done|].
  change (rx (Rx block :: l0)) with (block ++ rx l0). by rewrite app_assoc.
Qed.

Lemma read_loop_awaits fuel markers deadline dropped received :
  Forall (λ m, zlen m ≤ 32768) markers →
  found markers (dropped ++ received) = false → dropped = [] ∨ 32768 ≤ zlen received →
  adds (read_loop fuel markers deadline received) (awaited markers (dropped ++ received)).
Proof.
  intros Hm. revert dropped received.
  induction fuel as [|fuel IH]; intros dropped received Hno Hlong; [apply adds_diverge|].
  assert (∀ e, awaited markers (dropped ++ received) (Err e) []) as Hfail.
  { intros e. split; [constructor|]. cbn. by rewrite app_nil_r. }
  cbn [read_loop]. apply adds_bind, adds_call. intros now.
  destruct (negb (t_lt now deadline)); [by apply adds_throw|].
  apply adds_bind, adds_call. intros now'. apply adds_bind, adds_select_read; [|done].
  intros [|]; cbn [negb].
  2: { by apply IH. }
  apply adds_bind, adds_os_read; [|done]. intros block. case_bool_decide as Hb.
  { subst block. eapply adds_weaken; [by apply IH|]. intros r l Hl.
    apply awaited_cons; by rewrite app_nil_r. }
  apply adds_bind, adds_print. cbn [app].
  assert (∀ m, m ∈ markers → contains_bytes m (received ++ block)
                             = contains_bytes m ((dropped ++ received) ++ block)) as Hsame.
  { intros m Hin. rewrite <-app_assoc. apply (marker_tail markers); [done| |done].
    destruct Hlong; [by left|by right]. }
  pose proof (found_ext _ _ _ Hsame) as Heq.
  fold (found markers (received ++ block)). destruct (found markers (received ++ block)) eqn:Hf.
  - apply adds_ret. split; [by repeat constructor|]. split; [done|]. split.
    + exists [], block. split; [done|]. cbn. by rewrite app_nil_r.
    + cbn. rewrite app_nil_r. split; [|done]. exists dropped. by rewrite app_assoc.
  - unfold truncated. destruct (Z.ltb_spec 65536 (zlen (received ++ block))) as [Hlen|Hlen].
    + rewrite slice_clipped, (take_ge (drop _ _)) by (rewrite ?length_drop; unfold zlen in *; lia).
      set (n := Z.to_nat (zlen (received ++ block) - 32768)).
      eapply adds_weaken; [apply (IH (dropped ++ take n (received ++ block)))|].
      * by rewrite <-app_assoc, take_drop, app_assoc, <-Heq.
      * right. unfold n, zlen in *. rewrite length_drop. lia.
      * intros r l. rewrite <-app_assoc, take_drop, app_assoc. by apply awaited_cons.
    + eapply adds_weaken; [apply (IH dropped)|].
      * by rewrite app_assoc, <-Heq.
      * destruct Hlong; [by left|right]. autorewrite with len. pose proof (zlen_nonneg block). lia.
      * intros r l. rewrite app_assoc. by apply awaited_cons.
Qed.

Lemma read_until_awaits fuel markers timeout :
  Forall (λ m, zlen m ≤ 32768) markers → found markers [] = false →
  adds (read_until fuel markers timeout) (awaited markers []).
Proof.
  intros Hm Hno. apply adds_bind, adds_call. intros now.
  apply (read_loop_awaits _ _ _ [] []); [done|done|by left].
Qed.

(** Only receptions, the last of them the acknowledgement. *)
Definition acknowledges (r : result unit) (l : list event) : Prop :=
  Forall is_rx l ∧ (r = Ok () → ∃ l0, l = l0 ++ [Rx (bytes_of "+")] ∧ Rx (bytes_of "+") ∉ l0).

Lemma ack_loop_acknowledges fuel deadline : adds (ack_loop fuel deadline) acknowledges.
Proof.
  assert (∀ e, acknowledges (Err e) []) as Hfail by done.
  induction fuel as [|fuel IH]; [apply adds_diverge|].
  cbn [ack_loop]. apply adds_bind, adds_call. intros now.
  destruct (negb (t_lt now deadline)); [by apply adds_throw|].
  apply adds_bind, adds_call. intros now'. apply adds_bind, adds_select_read; [|done].
  intros [|]; cbn [negb]; [|done].
  apply adds_bind, adds_os_read; [|done]. intros byte. case_bool_decide as Hb.
  { apply adds_ret. subst. split; [by repeat constructor|]. intros _. exists [].
    split; [done|]. apply not_elem_of_nil. }
  assert (adds (W := W) (ack_loop fuel deadline) (λ r l, acknowledges r (Rx byte :: l))) as Hrest.
  { eapply adds_weaken; [done|]. intros r l [Hl Hr]. split; [by constructor|].
    intros Hok. destruct (Hr Hok) as (l0 & -> & Hnot). exists (Rx byte :: l0). split; [done|].
    rewrite not_elem_of_cons. split; [congruence|done]. }
  apply adds_bind. case_bool_decide; [apply adds_ret|apply adds_print]; exact Hrest.
Qed.

Lemma wait_for_ack_acknowledges fuel : adds (wait_for_ack fuel) acknowledges.
Proof. apply adds_bind, adds_call. intros now. apply ack_loop_acknowledges. Qed.
End receiving.

(** ** Sessions *)

Lemma contains_bytes_suffix m s t : contains_bytes m t = true → contains_bytes m (s ++ t) = true.
Proof.
  rewrite !contains_bytes_spec. intros (before & after & ->). exists (s ++ before), after.
  by rewrite <-app_assoc.
Qed.

Lemma adds_finally {W A} (m : IO W A) (last : IO W unit) (Q : result A → list event → Prop) :
  adds m Q → adds last (λ r l, r = Ok () ∧ l = []) → adds (finally m last) Q.
Proof.
  intros Hm Hl s r s'. unfold finally. destruct (m s) as [[r0 s0]|] eqn:E; [|done].
  apply Hm in E as (l & Hlog & HQ). destruct (last s0) as [[r1 s1]|] eqn:E1; [|done].
  apply Hl in E1 as (l1 & Hlog1 & -> & ->). intros [= <- <-]. exists l.
  by rewrite Hlog1, Hlog, !app_nil_r.
Qed.

Lemma adds_for_each {W A} (f : A → IO W unit) (Q : A → list event → Prop) l :
  (∀ x, adds (f x) (λ r l, r = Ok () → Q x l)) →
  adds (for_each f l) (λ r k, r = Ok () → ∃ ls, k = mjoin ls ∧ Forall2 Q l ls).
Proof.
  intros Hf. induction l as [|x l IH]; [apply adds_ret; intros _; by exists []|].
  cbn [for_each]. apply adds_bind. eapply adds_weaken; [apply Hf|]. intros [[]|e] l1 H1; [|done].
  eapply adds_weaken; [exact IH|]. intros r l2 H2 Hr. destruct (H2 Hr) as (ls & -> & Hls).
  exists (l1 :: ls). rewrite join_cons. split; [done|]. constructor; [by apply H1|done].
Qed.

(** Bytes sent, with nothing received in between. *)
Definition sent (data : list Z) (l : list event) : Prop := Forall is_tx l ∧ tx l = data.

Lemma sends_Ok data l : sends data (Ok ()) l → sent data l.
Proof. intros [Hl (n & _ & Ht & Hn)]. split; [done|]. by rewrite Ht, (Hn eq_refl), firstn_all. Qed.

(** The header followed by the answer, which has the marker or not. *)
Definition round (header marker : list Z) (answered : bool) (l : list event) : Prop :=
  ∃ lt lr, l = lt ++ lr ∧ sent header lt ∧ Forall is_rx lr ∧ contains_bytes marker (rx lr) = answered.
(** Headers without an answer, then one that is answered. *)
Definition handshaken (header marker : list Z) (l : list event) : Prop :=
  ∃ rounds last, l = mjoin rounds ++ last ∧ Forall (round header marker false) rounds ∧
    round header marker true last.

(** A block, and then its acknowledgement. *)
Definition acknowledged (block : list Z) (l : list event) : Prop :=
  ∃ lt lr, l = lt ++ lr ++ [Rx (bytes_of "+")] ∧ sent block lt ∧ Forall is_rx lr.

Section sessions.
Context {T W : Type} `{Seconds T} `{Device T W} `{Termios}.
Hypothesis Hwrite : writes_some (T := T) (W := W).

Lemma handshake_handshaken loops fuel header marker retry pause deadline :
  zlen marker ≤ 32768 → marker ≠ [] →
  adds (handshake loops fuel header marker retry pause deadline)
    (λ r l, r = Ok () → handshaken header marker l).
Proof.
  intros Hlong Hne. induction loops as [|loops IH]; [apply adds_diverge|]. cbn [handshake].
  apply adds_bind. eapply adds_weaken; [by apply write_paced_sends|].
  intros [[]|e] lt Hlt; [|done]. apply sends_Ok in Hlt.
  apply adds_bind, adds_attempt, adds_bind, adds_call. intros now. cbn [app].
  eapply adds_weaken; [apply read_until_awaits|].
  { by repeat constructor. }
  { destruct marker; [done|]. reflexivity. }
  intros [received|e] lr [Hlr Hr].
  - apply adds_ret. intros _. exists [], (lt ++ lr). split; [by rewrite app_nil_r|].
    split; [constructor|]. exists lt, lr. split_and!; try done. destruct Hr as (Hf & _ & _ & Hm).
    etrans; [symmetry; apply (Hm marker); left|]. unfold found in Hf. cbn in Hf.
    by rewrite orb_false_r in Hf.
  - destruct e; try (by apply adds_throw). apply adds_bind, adds_call. intros now'.
    destruct (negb (t_lt now' deadline)); [by apply adds_throw|].
    eapply adds_weaken; [exact IH|]. intros r l Hl Hok. destruct (Hl Hok) as (rounds & last & -> & Hall & Hlast).
    exists ((lt ++ lr) :: rounds), last. rewrite join_cons.
    split; [by list_simplifier|]. split; [|done]. constructor; [|done]. exists lt, lr. split_and!; try done.
    by eapply found_false; [|left].
Qed.

(** The image is sent whole in one go, or block by block, each block after the
    first only when the one before is acknowledged. *)
Definition uploaded (args : Args (T := T)) (l : list event) : Prop :=
  if hardware_preload args then sent (image args) l
  else ∃ ls, l = mjoin ls ∧ Forall2 acknowledged (pieces (image args) BLOCK_BYTES) ls.

Lemma upload_uploaded fuel args :
  0 < burst_bytes args → adds (upload fuel args) (λ r l, r = Ok () → uploaded args l).
Proof.
  intros Hb. unfold upload, uploaded. destruct (hardware_preload args).
  { eapply adds_weaken; [by apply write_all_sends|]. intros r l Hl ->. by apply sends_Ok. }
  eapply adds_weaken; [apply (adds_for_each _
    (λ offset, acknowledged (slice (image args) offset (offset + BLOCK_BYTES))))|].
  - intros offset. apply adds_bind. eapply adds_weaken; [by apply write_paced_sends|].
    intros [[]|e] lt Hlt; [|done]. apply sends_Ok in Hlt.
    apply adds_bind. eapply adds_weaken; [apply wait_for_ack_acknowledges|].
    intros [[]|e] lr [Hlr Hack]; [|done]. destruct (Hack eq_refl) as (l0 & -> & _).
    apply Forall_app in Hlr as [Hlr _].
    case_match; [apply adds_print|apply adds_ret]; intros _; exists lt, l0; by rewrite app_nil_r.
  - intros r l Hl Hr. destruct (Hl Hr) as (ls & -> & Hls). exists ls. split; [done|].
    unfold pieces. by apply Forall2_fmap_l.
Qed.

Lemma configure_serial_adds : adds (W := W) configure_serial (λ r l, r = Ok () ∧ l = []).
Proof.
  apply adds_bind, adds_call_. apply adds_bind, adds_call. intros attrs.
  apply adds_bind, adds_call_. by apply adds_call_.
Qed.

(** The whole exchange of a session that ends with an exit status. *)
Definition transcript (args : Args (T := T)) (header : list Z) (code : Z) (l : list event) : Prop :=
  ∃ lh lu lp lq, l = lh ++ lu ++ lp ++ lq ∧
    handshaken header (start_marker args) lh ∧ uploaded args lu ∧
    Forall is_rx lp ∧ Forall is_rx lq ∧
    (code = 0 ∧ contains_bytes (pass_marker args) (rx lp) = true ∧
       contains_bytes (fail_marker args) (rx lp) = false ∧ contains_bytes PROMPT (rx lq) = true ∨
     code = 1 ∧ contains_bytes (fail_marker args) (rx lp) = true ∧ lq = []).

Lemma marker_bounds (args : Args (T := T)) :
  Forall (λ m, zlen m ≤ 32768 ∧ m ≠ []) [start_marker args; pass_marker args; fail_marker args; PROMPT].
Proof.
  unfold start_marker, pass_marker, fail_marker.
  destruct (hardware_preload args); repeat constructor; done || (vm_compute; discriminate).
Qed.

Lemma read_prompt_adds fuel timeout :
  adds (W := W) (read_until fuel [PROMPT] timeout)
    (λ r l, Forall is_rx l ∧ (∀ received, r = Ok received → contains_bytes PROMPT (rx l) = true)).
Proof.
  eapply adds_weaken; [apply read_until_awaits|].
  - repeat constructor; vm_compute; discriminate.
  - reflexivity.
  - intros r l [Hl Hr]. split; [done|]. intros received ->. destruct Hr as (Hf & _ & _ & Hm).
    etrans; [symmetry; apply (Hm PROMPT); left|]. unfold found in Hf. cbn [existsb] in Hf.
    by rewrite orb_false_r in Hf.
Qed.

Lemma session_transcript fuel (args : Args (T := T)) header :
  0 < burst_bytes args →
  adds (session fuel args header) (λ r l, ∀ code, r = Ok code → transcript args header code l).
Proof.
  intros Hb. unfold session.
  pose proof (marker_bounds args) as Hm. rewrite !Forall_cons in Hm.
  destruct Hm as ([Hs Hs'] & [Hp Hp'] & [Hf Hf'] & _).
  apply adds_bind. eapply adds_weaken; [apply configure_serial_adds|]. intros r l [-> ->].
  apply adds_bind, adds_call. intros now. cbn [app].
  apply adds_bind. eapply adds_weaken; [by apply handshake_handshaken|].
  intros [[]|e] lh Hlh; [|done]. specialize (Hlh eq_refl).
  apply adds_bind, adds_call. intros started.
  apply adds_bind. eapply adds_weaken; [by apply upload_uploaded|].
  intros [[]|e] lu Hlu; [|done]. specialize (Hlu eq_refl).
  apply adds_bind, adds_call_. apply adds_bind, adds_call. intros now'. apply adds_bind, adds_print.
  apply adds_bind. eapply adds_weaken; [apply read_until_awaits|].
  { by repeat constructor. }
  { unfold found. cbn. by destruct (pass_marker args), (fail_marker args). }
  intros [outcome|e] lp [Hlp Hr]; [|done]. destruct Hr as (Hfound & _ & _ & Hsame).
  assert (contains_bytes (fail_marker args) outcome = contains_bytes (fail_marker args) (rx lp)) as Hfail
    by (apply (Hsame (fail_marker args)); right; left).
  assert (contains_bytes (pass_marker args) outcome = contains_bytes (pass_marker args) (rx lp)) as Hpass
    by (apply (Hsame (pass_marker args)); left).
  unfold found in Hfound. cbn [existsb] in Hfound. rewrite orb_false_r in Hfound.
  destruct (contains_bytes (fail_marker args) outcome) eqn:Hcase.
  - apply adds_ret. intros code [= <-]. exists lh, lu, lp, []. split; [by list_simplifier|].
    split_and!; try done. by right.
  - apply adds_bind, adds_print. apply adds_bind. eapply adds_weaken; [apply read_prompt_adds|].
    intros [received|e] lq [Hlq Hprompt]; [|done]. apply adds_bind, adds_print. apply adds_ret.
    intros code [= <-]. exists lh, lu, lp, lq. split; [by list_simplifier|].
    split_and!; try done. left. rewrite orb_false_r in Hfound.
    split_and!; [done|by rewrite <-Hpass|done|by eapply Hprompt].
Qed.

(** An accepted image and its header: the magic, the length and the CRC-32. *)
Definition header_for (args : Args (T := T)) (header : list Z) : Prop :=
  0 < burst_bytes args ∧ 0 < zlen (image args) ≤ MAX_IMAGE_BYTES ∧
  slice (image args) 0x38 0x3C = LINUX_MAGIC ∧
  ∃ fields, header = MAGIC ++ fields ∧ zlen fields = 8 ∧
    unpack [CU 4; CU 4] fields = [FZ (zlen (image args)); FZ (crc32 (image args))].

Lemma header_of_Ok (args : Args (T := T)) header :
  bytes_ok (image args) → header_of args = Ok header → header_for args header.
Proof.
  unfold header_of. intros Hok Hh.
  apply guard_Ok in Hh as [E1 Hh]. apply guard_Ok in Hh as [E2 Hh]. apply guard_Ok in Hh as [E3 Hh].
  apply orb_false_iff in E1 as [E1%Z.leb_gt _].
  apply orb_false_iff in E2 as [E2%bool_decide_eq_false E2'%Z.ltb_ge].
  apply negb_false_iff, bool_decide_eq_true in E3.
  pose proof (crc32_bound _ Hok) as Hc. pose proof (zlen_nonneg (image args)) as Hn.
  assert (zlen (image args) ≠ 0) as Hz by (destruct (image args); [done|]; autorewrite with len;
    pose proof (zlen_nonneg l); lia).
  destruct (pack_unpack [CU 4; CU 4] [FZ (zlen (image args)); FZ (crc32 (image args))])
    as (fields & Hp & Hlen & Hu).
  { assert (MAX_IMAGE_BYTES < 2 ^ (8 * 4)) by (vm_compute; reflexivity).
    constructor; [|constructor; [|constructor]]; cbn [field_fits];
      change (2 ^ (8 * 4)) with (2 ^ 32) in *; lia. }
  rewrite Hp in Hh. cbn [mbind result_bind] in Hh. apply Ok_inj in Hh as <-.
  split_and!; [lia|lia|done|done|]. by exists fields.
Qed.

Lemma main_transcript fuel (args : Args (T := T)) :
  bytes_ok (image args) →
  adds (main fuel args) (λ r l, ∀ code, r = Ok code →
    ∃ header, header_for args header ∧ transcript args header code l).
Proof.
  intros Hok. unfold main. destruct (header_of args) as [header|e] eqn:Hh; [|by apply adds_throw].
  apply header_of_Ok in Hh; [|done]. apply adds_bind, adds_print. apply adds_bind.
  intros s r s'. destruct (open_device (device args) (world s)) as [r0 w]. intros [= <- <-].
  exists []. split; [by rewrite app_nil_r|]. destruct r0 as [[]|e]; [|done]. cbn [app].
  apply adds_finally; [|by apply adds_call_].
  eapply adds_weaken; [apply session_transcript, Hh|]. intros r l Hl code ->.
  exists header. split; [done|]. by apply Hl.
Qed.

(** The bytes sent in a session. *)
Lemma transcript_tx args header code l :
  transcript args header code l →
  ∃ tries, tx l = mjoin (replicate (S tries) header) ++ image args.
Proof.
  intros (lh & lu & lp & lq & -> & (rounds & last & -> & Hrounds & Hlast) & Hup & Hlp & Hlq & _).
  exists (length rounds). rewrite !tx_app, (tx_only_rx _ Hlp), (tx_only_rx _ Hlq), !app_nil_r.
  assert (∀ b l, round header (start_marker args) b l → tx l = header) as Hround.
  { intros b l (lt & lr & -> & [_ Ht] & Hr & _). by rewrite tx_app, Ht, (tx_only_rx _ Hr), app_nil_r. }
  rewrite (Hround _ _ Hlast). f_equal.
  - clear Hlast. induction Hrounds as [|x rounds Hx _ IH].
    + cbn. by rewrite app_nil_r.
    + rewrite join_cons, tx_app, (Hround _ _ Hx), <-app_assoc, IH. done.
  - unfold uploaded in Hup. destruct (hardware_preload args); [by destruct Hup|].
    destruct Hup as (ls & -> & Hls). rewrite <-(pieces_join (image args) BLOCK_BYTES) by done.
    induction Hls as [|block k blocks ls (lt & lr & -> & [_ Ht] & Hr) _ IH]; [done|].
    rewrite !join_cons, !tx_app, IH, Ht, (tx_only_rx _ Hr). change (tx [Rx _]) with (@nil Z). by list_simplifier.
Qed.
End sessions.

(** ** More fuel gives the same result *)

Definition le_io {W A} (m m' : IO W A) : Prop := ∀ s x, m s = Some x → m' s = Some x.
Definition mono {W A} (m : nat → IO W A) : Prop := ∀ n n', (n ≤ n')%nat → le_io (m n) (m n').

Section fuel.
Context {W : Type}.

Lemma le_io_refl {A} (m : IO W A) : le_io m m.
Proof. by intros s x. Qed.
Lemma le_io_diverge {A} (m : IO W A) : le_io diverge m.
Proof. by intros s x ?. Qed.
Lemma le_io_bind {A B} (m m' : IO W A) (f f' : A → IO W B) :
  le_io m m' → (∀ a, le_io (f a) (f' a)) → le_io (m ≫= f) (m' ≫= f').
Proof.
  intros Hm Hf s x. unfold mbind, io_bind. destruct (m s) as [[[a|e] s1]|] eqn:E; [| |done];
    rewrite (Hm _ _ E); [apply Hf|done].
Qed.
Lemma le_io_attempt {A} (m m' : IO W A) : le_io m m' → le_io (attempt m) (attempt m').
Proof.
  intros Hm s x. unfold attempt. destruct (m s) as [[r s1]|] eqn:E; [|done]. by rewrite (Hm _ _ E).
Qed.
Lemma le_io_finally {A} (m m' : IO W A) last : le_io m m' → le_io (finally m last) (finally m' last).
Proof.
  intros Hm s x. unfold finally. destruct (m s) as [[r s1]|] eqn:E; [|done]. by rewrite (Hm _ _ E).
Qed.
Lemma le_io_for_each {A} (f f' : A → IO W unit) l :
  (∀ x, le_io (f x) (f' x)) → le_io (for_each f l) (for_each f' l).
Proof. intros Hf. induction l as [|x l IH]; [apply le_io_refl|]. by apply le_io_bind. Qed.

Lemma mono_const {A} (m : IO W A) : mono (λ _, m).
Proof. intros n n' _. apply le_io_refl. Qed.
End fuel.

(** Takes both sides of [le_io] apart alike. *)
Ltac le_io_step :=
  first [ apply le_io_refl | apply le_io_diverge | assumption
        | match goal with
          | |- le_io (_ ≫= _) _ => apply le_io_bind; [|intros ?]
          | |- le_io (attempt _) _ => apply le_io_attempt
          | |- le_io (finally _ _) _ => apply le_io_finally
          | |- le_io (for_each _ _) _ => apply le_io_for_each; intros ?
          end
        | match goal with |- le_io (if ?b then _ else _) _ => destruct b end
        | match goal with |- le_io (match ?x with _ => _ end) _ => destruct x end ].
Ltac le_io_tac := repeat le_io_step.

Section mono.
Context {T W : Type} `{Seconds T} `{Device T W} `{Termios}.

Lemma read_loop_mono n n' markers deadline received :
  (n ≤ n')%nat → le_io (W := W) (read_loop n markers deadline received) (read_loop n' markers deadline received).
Proof.
  revert n' received. induction n as [|n IH]; intros n' received Hle; [apply le_io_diverge|].
  destruct n' as [|n']; [lia|].
  assert (∀ received, le_io (W := W) (read_loop n markers deadline received)
    (read_loop n' markers deadline received)) by (intros; apply IH; lia).
  cbn [read_loop]. le_io_tac; eauto.
Qed.
Lemma read_until_mono n n' markers timeout :
  (n ≤ n')%nat → le_io (W := W) (read_until n markers timeout) (read_until n' markers timeout).
Proof. intros. unfold read_until. le_io_tac. by apply read_loop_mono. Qed.

Lemma ack_loop_mono n n' deadline :
  (n ≤ n')%nat → le_io (W := W) (ack_loop n deadline) (ack_loop n' deadline).
Proof.
  revert n'. induction n as [|n IH]; intros n' Hle; [apply le_io_diverge|].
  destruct n' as [|n']; [lia|]. assert (le_io (W := W) (ack_loop n deadline) (ack_loop n' deadline))
    by (apply IH; lia).
  cbn [ack_loop]. le_io_tac.
Qed.

Lemma write_loop_mono n n' data stall report started offset next :
  (n ≤ n')%nat → le_io (W := W) (write_loop n data stall report started offset next)
                    (write_loop n' data stall report started offset next).
Proof.
  revert n' offset next. induction n as [|n IH]; intros n' offset next Hle; [apply le_io_diverge|].
  destruct n' as [|n']; [lia|].
  assert (∀ offset next, le_io (W := W) (write_loop n data stall report started offset next)
    (write_loop n' data stall report started offset next)) by (intros; apply IH; lia).
  cbn [write_loop]. le_io_tac; eauto.
Qed.
Lemma write_all_mono n n' data report :
  (n ≤ n')%nat → le_io (W := W) (write_all n data report) (write_all n' data report).
Proof. intros. unfold write_all. le_io_tac. by apply write_loop_mono. Qed.
Lemma write_paced_mono n n' data burst pause :
  (n ≤ n')%nat → le_io (W := W) (write_paced n data burst pause) (write_paced n' data burst pause).
Proof. intros. unfold write_paced, write_burst. le_io_tac. by apply write_all_mono. Qed.

Lemma handshake_mono l l' n n' header marker retry pause deadline :
  (l ≤ l')%nat → (n ≤ n')%nat →
  le_io (W := W) (handshake l n header marker retry pause deadline)
    (handshake l' n' header marker retry pause deadline).
Proof.
  revert l'. induction l as [|l IH]; intros l' Hl Hn; [apply le_io_diverge|].
  destruct l' as [|l']; [lia|].
  assert (le_io (W := W) (handshake l n header marker retry pause deadline)
    (handshake l' n' header marker retry pause deadline)) by (apply IH; lia).
  assert (∀ timeout, le_io (W := W) (read_until n [marker] timeout) (read_until n' [marker] timeout))
    by (intros; by apply read_until_mono).
  assert (le_io (W := W) (write_paced n header 1 pause) (write_paced n' header 1 pause))
    by by apply write_paced_mono.
  cbn [handshake]. le_io_tac; eauto.
Qed.

Lemma upload_mono n n' (args : Args (T := T)) :
  (n ≤ n')%nat → le_io (W := W) (upload n args) (upload n' args).
Proof.
  intros. unfold upload, send_block, wait_for_ack.
  le_io_tac; first [by apply write_all_mono|by apply write_paced_mono|by apply ack_loop_mono].
Qed.

Lemma session_mono n n' (args : Args (T := T)) header :
  (n ≤ n')%nat → le_io (W := W) (session n args header) (session n' args header).
Proof.
  intros. unfold session.
  le_io_tac; first [by apply handshake_mono|by apply upload_mono|by apply read_until_mono].
Qed.
End mono.

(** ** Termination *)

Section termination.
Context {T W : Type} `{Seconds T} `{Device T W} `{Termios}.

(** One call on the device. *)
Inductive step : W → W → Prop :=
  | step_clock w : step w (monotonic w).2
  | step_sleep t w : step w (sleep t w)
  | step_close w : step w (close_device w)
  | step_setraw w : step w (setraw w)
  | step_getattr w : step w (tcgetattr w).2
  | step_setattr attrs w : step w (tcsetattr attrs w)
  | step_flush w : step w (tcflush w)
  | step_drain w : step w (tcdrain w)
  | step_readable t w : step w (readable t w).2
  | step_writable t w : step w (writable t w).2
  | step_read n w : step w (read n w).2
  | step_write data w : step w (write data w).2.

(** A later state, when the clock was before the deadline. *)
Definition before (deadline : T) (w' w : W) : Prop :=
  t_lt (monotonic w).1 deadline = true ∧ tc step w w'.

Definition reaches {A} (m : IO W A) : Prop :=
  ∀ s r s', m s = Some (r, s') → rtc step (world s) (world s').

Lemma reaches_ret {A} (a : A) : reaches (mret a).
Proof. by intros s r s' [= _ <-]. Qed.
Lemma reaches_throw {A} e : reaches (throw (A := A) e).
Proof. by intros s r s' [= _ <-]. Qed.
Lemma reaches_diverge {A} : reaches (diverge (A := A)).
Proof. by intros s r s' ?. Qed.
Lemma reaches_print bs : reaches (print_bytes bs).
Proof. by intros s r s' [= _ <-]. Qed.
Lemma reaches_bind {A B} (m : IO W A) (f : A → IO W B) :
  reaches m → (∀ a, reaches (f a)) → reaches (m ≫= f).
Proof.
  intros Hm Hf s r s'. unfold mbind, io_bind. destruct (m s) as [[[a|e] s1]|] eqn:E; [| |done].
  - intros Hs. etrans; [by eapply Hm|by eapply Hf].
  - intros [= _ <-]. by eapply Hm.
Qed.
Lemma reaches_attempt {A} (m : IO W A) : reaches m → reaches (attempt m).
Proof.
  intros Hm s r s'. unfold attempt. destruct (m s) as [[r0 s0]|] eqn:E; [|done].
  intros [= _ <-]. by eapply Hm.
Qed.
Lemma reaches_for_each {A} (f : A → IO W unit) l : (∀ x, reaches (f x)) → reaches (for_each f l).
Proof. intros Hf. induction l as [|x l IH]; [apply reaches_ret|]. by apply reaches_bind. Qed.
Lemma reaches_call {A} (f : W → A * W) : (∀ w, step w (f w).2) → reaches (call f).
Proof.
  intros Hf s r s'. unfold call. destruct (f (world s)) as [a w] eqn:E. intros [= _ <-].
  apply rtc_once. specialize (Hf (world s)). by rewrite E in Hf.
Qed.
Lemma reaches_call_ (f : W → W) : (∀ w, step w (f w)) → reaches (call_ f).
Proof. intros Hf. by apply reaches_call. Qed.
Lemma reaches_read n : reaches (os_read n).
Proof.
  intros s r s'. unfold os_read. destruct (read n (world s)) as [r0 w] eqn:E. intros [= _ <-].
  apply rtc_once. pose proof (step_read n (world s)) as Hs. by rewrite E in Hs.
Qed.
Lemma reaches_write data : reaches (os_write data).
Proof.
  intros s r s'. unfold os_write. destruct (write data (world s)) as [r0 w] eqn:E. intros [= _ <-].
  apply rtc_once. pose proof (step_write data (world s)) as Hs. by rewrite E in Hs.
Qed.
End termination.

Ltac reaches_step :=
  first [ apply reaches_ret | apply reaches_throw | apply reaches_diverge | apply reaches_print
        | apply reaches_read | apply reaches_write | assumption
        | match goal with
          | |- reaches (_ ≫= _) => apply reaches_bind; [|intros ?]
          | |- reaches (attempt _) => apply reaches_attempt
          | |- reaches (for_each _ _) => apply reaches_for_each; intros ?
          | |- reaches (call_ _) => apply reaches_call_; intros ?; constructor
          | |- reaches (call _) => apply reaches_call; intros ?; constructor
          | |- reaches (select_read _) => unfold select_read
          | |- reaches clock => apply reaches_call; intros ?; constructor
          | |- reaches (if ?b then _ else _) => destruct b
          | |- reaches (match ?x with _ => _ end) => destruct x
          end ].
Ltac reaches_tac := repeat reaches_step.

Section termination_proofs.
Context {T W : Type} `{Seconds T} `{Device T W} `{Termios}.

Lemma read_until_reaches fuel markers timeout : reaches (T := T) (W := W) (read_until fuel markers timeout).
Proof.
  unfold read_until. apply reaches_bind; [reaches_tac|]. intros now.
  generalize (@nil Z). induction fuel as [|fuel IH]; intros received; [apply reaches_diverge|].
  cbn [read_loop]. reaches_tac; apply IH.
Qed.
Lemma write_all_reaches fuel data report : reaches (T := T) (W := W) (write_all fuel data report).
Proof.
  unfold write_all. apply reaches_bind; [reaches_tac|]. intros now.
  generalize 0, REPORT_BYTES. induction fuel as [|fuel IH]; intros offset next; [apply reaches_diverge|].
  cbn [write_loop]. reaches_tac; apply IH.
Qed.
Lemma write_paced_reaches fuel data burst pause :
  reaches (T := T) (W := W) (write_paced fuel data burst pause).
Proof. unfold write_paced, write_burst. reaches_tac. apply write_all_reaches. Qed.

(** Some amount of fuel is enough. *)
Definition total {A} (m : nat → IO W A) (s : St W) : Prop := ∃ n, is_Some (m n s).

Lemma total_const {A} (m : IO W A) s : is_Some (m s) → total (λ _, m) s.
Proof. intros Hm. by exists 0%nat. Qed.

Lemma total_S {A} (m : nat → IO W A) s : total (λ n, m (S n)) s → total m s.
Proof. intros [n Hn]. by exists (S n). Qed.

Lemma total_bind_const {A B} (m : IO W A) (f : nat → A → IO W B) s :
  is_Some (m s) → (∀ a s1, m s = Some (Ok a, s1) → total (λ n, f n a) s1) →
  total (λ n, m ≫= f n) s.
Proof.
  intros [[[a|e] s1] Hm] Hf.
  - destruct (Hf a s1 Hm) as [n Hn]. exists n. unfold mbind, io_bind. by rewrite Hm.
  - exists 0%nat. unfold mbind, io_bind. rewrite Hm. by eexists.
Qed.

Lemma total_bind {A B} (m : nat → IO W A) (f : nat → A → IO W B) s :
  mono m → (∀ a, mono (λ n, f n a)) → total m s →
  (∀ n a s1, m n s = Some (Ok a, s1) → total (λ n, f n a) s1) → total (λ n, m n ≫= f n) s.
Proof.
  intros Hm Hf [n [[[a|e] s1] Hn]] Hrest.
  - destruct (Hrest n a s1 Hn) as [n' [x Hn']]. exists (n `max` n')%nat, x.
    unfold mbind, io_bind. rewrite (Hm n (n `max` n')%nat ltac:(lia) _ _ Hn).
    by apply (Hf a n' (n `max` n')%nat ltac:(lia)).
  - exists n. unfold mbind, io_bind. rewrite Hn. by eexists.
Qed.

Lemma total_for_each {A} (f : nat → A → IO W unit) l s :
  (∀ x, mono (λ n, f n x)) → (∀ x s, total (λ n, f n x) s) → total (λ n, for_each (f n) l) s.
Proof.
  intros Hm Hf. revert s. induction l as [|x l IH]; intros s; [apply total_const; by eexists|].
  apply (total_bind (λ n, f n x) (λ n _, for_each (f n) l)); [done| |done|by intros].
  intros _ n n' Hle. apply le_io_for_each. intros y. by apply Hm.
Qed.

Lemma call_some {A} (f : W → A * W) s : is_Some (call f s).
Proof. unfold call. destruct (f (world s)). by eexists. Qed.

Lemma call_inv {A} (f : W → A * W) s a s1 :
  call f s = Some (Ok a, s1) → f (world s) = (a, world s1).
Proof. unfold call. destruct (f (world s)). by intros [= -> <-]. Qed.

(** What the device and the clock are relied on for: a device that is ready for
    writing takes some of the bytes, never more than it is given, and a deadline
    a bounded time from now passes, whatever is called until then. *)
Context (bounded : T → Prop).
Definition write_progress : Prop :=
  ∀ t w w1 data n w2, writable t w = (true, w1) → data ≠ [] → write data w1 = (Ok n, w2) → 0 < n.
Definition deadline_passes : Prop :=
  ∀ w timeout, bounded timeout → well_founded (before (t_add (monotonic w).1 timeout)).
Definition bounded_remaining : Prop :=
  ∀ w w' timeout, bounded timeout → bounded (t_sub (t_add (monotonic w).1 timeout) (monotonic w').1).
Hypothesis Hwrite : writes_some (T := T) (W := W).
Hypothesis Hprogress : write_progress.
Hypothesis Hpasses : deadline_passes.
Hypothesis Hremaining : bounded_remaining.

Lemma write_loop_total data stall report started offset next s :
  0 ≤ offset → total (λ n, write_loop n data stall report started offset next) s.
Proof.
  remember (Z.to_nat (zlen data - offset)) as k eqn:Hk. revert offset next s Hk.
  induction k as [k IH] using lt_wf_ind. intros offset next s -> Ho.
  apply total_S. cbn [write_loop].
  destruct (Z.ltb_spec offset (zlen data)) as [Hlt|Hge]; cbn [negb]; [|apply total_const; by eexists].
  apply total_bind_const; [apply call_some|]. intros [|] s1 Hready%call_inv; cbn [negb];
    [|apply total_const; by eexists].
  apply total_bind_const; [unfold os_write; destruct (write _ _); by eexists|]. intros n s2 Hs2.
  unfold os_write in Hs2. destruct (write _ (world s1)) as [r w] eqn:Ew. injection Hs2 as -> _.
  assert (slice data offset (offset + 4096) ≠ []) as Hne.
  { rewrite slice_clipped by lia. intros He%(f_equal length). rewrite length_take, length_drop in He.
    unfold zlen in *. simpl in He. lia. }
  pose proof (Hprogress _ _ _ _ _ _ Hready Hne Ew) as Hn.
  assert (∀ next s, total (λ m, write_loop m data stall report started (offset + n) next) s) as Hnext
    by (intros; eapply IH; [|reflexivity|]; lia).
  destruct (report && _); [|done].
  apply total_bind_const; [apply call_some|]. intros now s3 _.
  apply total_bind_const; [by eexists|]. intros [] s4 _. apply Hnext.
Qed.

Lemma write_all_total data report s : total (λ n, write_all n data report) s.
Proof.
  unfold write_all. apply total_bind_const; [apply call_some|]. intros started s1 _.
  by apply write_loop_total.
Qed.

Lemma write_paced_total data burst pause s : total (λ n, write_paced n data burst pause) s.
Proof.
  apply total_for_each; intros offset.
  - intros n n' Hle. unfold write_burst. le_io_tac. by apply write_all_mono.
  - intros s1. apply (total_bind (λ n, write_all n _ _) (λ n _, _)).
    + intros n n' Hle. by apply write_all_mono.
    + intros _. apply mono_const.
    + apply write_all_total.
    + intros _ _ s2 _. apply total_const. case_match; [apply call_some|by eexists].
Qed.

(** One turn of a loop that reads until a deadline goes on later, from a state
    the clock of which was before the deadline. *)
Lemma poll_total {A} deadline (after : exn) (f : nat → bool → IO W A) s :
  (∀ now ready s1, t_lt now deadline = true → before deadline (world s1) (world s) →
                   total (λ n, f n ready) s1) →
  total (λ n, now ← clock;
              if negb (t_lt now deadline) then throw after
              else now ← clock;
                   ready ← select_read (t_min (t_ratio 1 4) (t_sub deadline now));
                   f n ready) s.
Proof.
  intros Hf. apply total_bind_const; [apply call_some|]. intros now s1 Hnow%call_inv.
  destruct (t_lt now deadline) eqn:Hlt; cbn [negb]; [|apply total_const; by eexists].
  apply total_bind_const; [apply call_some|]. intros now' s2 Hnow'%call_inv.
  apply total_bind_const; [unfold select_read; case_match; [by eexists|apply call_some]|].
  intros ready s3 Hready. unfold select_read in Hready. case_match; [done|]. apply call_inv in Hready.
  apply (Hf now); [done|]. split; [by rewrite Hnow|].
  apply (tc_rtc_r _ (world s1)); [|etrans; apply rtc_once].
  - apply tc_once. pose proof (step_clock (world s)) as Hs. by rewrite Hnow in Hs.
  - pose proof (step_clock (world s1)) as Hs. by rewrite Hnow' in Hs.
  - pose proof (step_readable (t_min (t_ratio 1 4) (t_sub deadline now')) (world s2)) as Hs.
    by rewrite Hready in Hs.
Qed.

Lemma before_trans deadline w w1 w2 : before deadline w1 w → rtc step w1 w2 → before deadline w2 w.
Proof. intros [Ht Hs] Hr. split; [done|]. by eapply tc_rtc_r. Qed.

Lemma os_read_some n s : is_Some (os_read (T := T) (W := W) n s).
Proof. unfold os_read. destruct (read n (world s)). by eexists. Qed.

Lemma read_loop_total markers deadline received s :
  well_founded (before deadline) → total (λ n, read_loop n markers deadline received) s.
Proof.
  intros Hwf. remember (world s) as w eqn:Hw. revert received s Hw.
  induction w as [w IH] using (well_founded_induction Hwf). intros received s ->.
  apply total_S. cbn [read_loop]. apply poll_total. intros now [|] s1 Hlt Hb; cbn [negb]; [|by eapply IH].
  apply total_bind_const; [apply os_read_some|]. intros block s2 Hs2%reaches_read.
  assert (before deadline (world s2) (world s)) as Hb2 by (by eapply before_trans).
  case_bool_decide; [by eapply IH|].
  apply total_bind_const; [by eexists|]. intros [] s3 [= <-].
  destruct (existsb _ _); [apply total_const; by eexists|]. by eapply IH.
Qed.

Lemma read_until_total markers timeout s :
  bounded timeout → total (λ n, read_until n markers timeout) s.
Proof.
  intros Hb. apply total_bind_const; [apply call_some|]. intros now s1 Hnow%call_inv.
  apply read_loop_total. pose proof (Hpasses (world s) timeout Hb) as Hwf. by rewrite Hnow in Hwf.
Qed.

Lemma ack_loop_total deadline s :
  well_founded (before deadline) → total (λ n, ack_loop n deadline) s.
Proof.
  intros Hwf. remember (world s) as w eqn:Hw. revert s Hw.
  induction w as [w IH] using (well_founded_induction Hwf). intros s ->.
  apply total_S. cbn [ack_loop]. apply poll_total. intros now [|] s1 Hlt Hb; cbn [negb]; [|by eapply IH].
  apply total_bind_const; [apply os_read_some|]. intros byte s2 Hs2%reaches_read.
  assert (before deadline (world s2) (world s)) as Hb2 by (by eapply before_trans).
  case_bool_decide; [apply total_const; by eexists|].
  apply total_bind_const; [case_bool_decide; by eexists|]. intros [] s3 Hs3. eapply IH; [|reflexivity].
  by case_bool_decide; injection Hs3 as <-.
Qed.

Lemma wait_for_ack_total s : bounded (t_ratio 10 1) → total wait_for_ack s.
Proof.
  intros Hb. apply (total_bind_const _ (λ n now, ack_loop n (t_add now (t_ratio 10 1)))); [apply call_some|].
  intros now s1 Hnow%call_inv. apply ack_loop_total.
  pose proof (Hpasses (world s) _ Hb) as Hwf. by rewrite Hnow in Hwf.
Qed.

(** One attempt of the handshake; [now] is the clock after an attempt that
    failed before the deadline. *)
Lemma handshake_attempt header marker retry pause w0 timeout s :
  let deadline := t_add (monotonic w0).1 timeout in
  bounded retry → bounded timeout →
  (∀ s1 s', rtc step (world s) (world s1) → before deadline (world s') (world s1) →
     total (λ n, handshake n n header marker retry pause deadline) s') →
  total (λ n, handshake n n header marker retry pause deadline) s.
Proof.
  intros deadline Hretry Htimeout Hnext.
  assert (total (λ n, handshake (S n) n header marker retry pause deadline) s) as [n [x Hn]].
  2: { exists (S n), x. eapply handshake_mono, Hn; lia. }
  cbn [handshake].
  assert (∀ r : result (list Z), mono (λ n, match r with
    | Ok _ => mret ()
    | Err (TimeoutError _) =>
        now ← clock;
        if negb (t_lt now deadline) then throw (TimeoutError "loader never accepted the transfer header")
        else handshake n n header marker retry pause deadline
    | Err e => throw (W := W) e
    end)) as Hmono.
  { intros r n n' Hle. assert (le_io (W := W) (handshake n n header marker retry pause deadline)
      (handshake n' n' header marker retry pause deadline)) by (by apply handshake_mono).
    le_io_tac. }
  apply (total_bind (λ n, write_paced n header 1 pause) (λ n _, _)).
  - intros n n' Hle. by apply write_paced_mono.
  - intros _ n n' Hle. apply le_io_bind; [|intros r; by apply Hmono]. le_io_tac. by apply read_until_mono.
  - apply write_paced_total.
  - intros n0 [] s1 Hs1%write_paced_reaches.
    apply (total_bind (λ n, attempt (now ← clock; read_until n [marker] (t_min retry (t_sub deadline now))))
             (λ n r, _)).
    + intros n n' Hle. le_io_tac. by apply read_until_mono.
    + apply Hmono.
    + assert (total (λ n, now ← clock; read_until n [marker] (t_min retry (t_sub deadline now))) s1)
        as [n [[r s2] Hn]].
      { apply total_bind_const; [apply call_some|]. intros now s2 Hnow%call_inv.
        apply read_until_total. unfold t_min. case_match; [|done].
        pose proof (Hremaining w0 (world s1) timeout Htimeout) as Hr. by rewrite Hnow in Hr. }
      exists n. unfold attempt. rewrite Hn. by eexists.
    + intros n1 r s2 Hs2.
      apply reaches_attempt in Hs2; [|reaches_tac; apply read_until_reaches].
      destruct r as [received|e]; [apply total_const; by eexists|].
      destruct e; try (apply total_const; by eexists).
      apply total_bind_const; [apply call_some|]. intros now s3 Hnow%call_inv.
      destruct (t_lt now deadline) eqn:Hlt; cbn [negb]; [|apply total_const; by eexists].
      apply (Hnext s2 s3); [by etrans|]. split; [by rewrite Hnow|]. apply tc_once.
      pose proof (step_clock (world s2)) as Hs. by rewrite Hnow in Hs.
Qed.

Lemma handshake_total header marker retry pause w0 timeout s :
  bounded retry → bounded timeout →
  total (λ n, handshake n n header marker retry pause (t_add (monotonic w0).1 timeout)) s.
Proof.
  intros Hretry Htimeout. apply handshake_attempt; [done|done|]. intros s1 s' _.
  set (deadline := t_add _ _). remember (world s1) as w eqn:Hw. clear Hw s1. revert s'.
  induction w as [w IH] using (well_founded_induction (Hpasses w0 _ Htimeout)). intros s' Hb.
  apply handshake_attempt; [done|done|]. intros s2 s3 Hr Hb'. eapply IH; [|exact Hb'].
  by eapply before_trans.
Qed.

Lemma upload_total (args : Args (T := T)) s : bounded (t_ratio 10 1) → total (λ n, upload n args) s.
Proof.
  intros Hb. unfold upload. destruct (hardware_preload args); [apply write_all_total|].
  apply total_for_each; intros offset.
  - intros n n' Hle. unfold send_block, wait_for_ack.
    le_io_tac; first [by apply write_paced_mono|by apply ack_loop_mono].
  - intros s1. unfold send_block.
    apply (total_bind (λ n, write_paced n _ _ _) (λ n _, _)).
    + intros n n' Hle. by apply write_paced_mono.
    + intros _ n n' Hle. unfold wait_for_ack. le_io_tac. by apply ack_loop_mono.
    + apply write_paced_total.
    + intros _ _ s2 _. apply (total_bind wait_for_ack (λ n _, _)).
      * intros n n' Hle. unfold wait_for_ack. le_io_tac. by apply ack_loop_mono.
      * intros _. apply mono_const.
      * by apply wait_for_ack_total.
      * intros _ _ s3 _. apply total_const. case_match; by eexists.
Qed.

(** The time limits of a session. *)
Definition bounded_limits (args : Args (T := T)) : Prop :=
  bounded (ready_timeout args) ∧ bounded (boot_timeout args) ∧ bounded (header_retry args) ∧
  bounded (t_ratio 10 1).

Lemma boot_total (args : Args (T := T)) s :
  bounded (boot_timeout args) →
  total (λ n, outcome ← read_until n [pass_marker args; fail_marker args] (boot_timeout args);
    if contains_bytes (fail_marker args) outcome then mret 1
    else
      _ ← print_line (newline +:+ "loader verified image; awaiting Linux shell prompt");
      _ ← read_until n [PROMPT] (boot_timeout args);
      _ ← print_line (newline +:+ "observed Linux shell prompt");
      mret 0) s.
Proof.
  intros Hb. apply (total_bind (λ n, read_until n _ _) (λ n outcome, _)).
  - intros n n' Hle. by apply read_until_mono.
  - intros outcome n n' Hle. le_io_tac. by apply read_until_mono.
  - by apply read_until_total.
  - intros _ outcome s1 _. destruct (contains_bytes _ _); [apply total_const; by eexists|].
    apply total_bind_const; [by eexists|]. intros [] s2 _.
    apply (total_bind (λ n, read_until n _ _) (λ n _, _)).
    + intros n n' Hle. by apply read_until_mono.
    + intros _. apply mono_const.
    + by apply read_until_total.
    + intros _ _ s3 _. apply total_const. by eexists.
Qed.

Lemma session_total (args : Args (T := T)) header s :
  bounded_limits args → total (λ n, session n args header) s.
Proof.
  intros (Hready & Hboot & Hretry & Hack). unfold session.
  apply total_bind_const.
  { unfold configure_serial, mbind, io_bind, call_, call. destruct (tcgetattr _). by eexists. }
  intros [] s1 _. apply total_bind_const; [apply call_some|]. intros now s2 Hnow%call_inv.
  assert (now = (monotonic (world s1)).1) as -> by by rewrite Hnow.
  apply (total_bind (λ n, handshake n n _ _ _ _ _) (λ n _, _)).
  - intros n n' Hle. by apply handshake_mono.
  - intros _ n n' Hle. le_io_tac; first [by apply upload_mono|by apply read_until_mono].
  - by apply handshake_total.
  - intros _ [] s3 _. apply total_bind_const; [apply call_some|]. intros started s4 _.
    apply (total_bind (λ n, upload n args) (λ n _, _)).
    + intros n n' Hle. by apply upload_mono.
    + intros _ n n' Hle. le_io_tac; by apply read_until_mono.
    + by apply upload_total.
    + intros _ [] s5 _. apply total_bind_const; [by eexists|]. intros [] s6 _.
      apply total_bind_const; [apply call_some|]. intros now' s7 _.
      apply total_bind_const; [by eexists|]. intros [] s8 _. by apply boot_total.
Qed.

Lemma main_total (args : Args (T := T)) s : bounded_limits args → total (λ n, main n args) s.
Proof.
  intros Hb. unfold main. destruct (header_of args) as [header|e]; [|apply total_const; by eexists].
  apply total_bind_const; [by eexists|]. intros [] s1 _.
  apply total_bind_const; [destruct (open_device _ _); by eexists|]. intros [] s2 _.
  destruct (session_total args header s2 Hb) as [n [[r s3] Hn]]. exists n. unfold finally.
  rewrite Hn. by eexists.
Qed.
End termination_proofs.

(** ** Claims *)

(** C17: When the loader exits with a status, the board has been sent the header,
    once more for every attempt that was not answered, and then the image, byte
    for byte; the header is decoded to the length and the CRC-32 of the image. The
    start marker answered the last header; without the hardware preload every
    1024-byte block was acknowledged before the next one was sent; and the status
    is 0 when the loader reported a pass, no checksum failure, and the shell prompt
    was seen after that, and 1 when it reported a failure. *)
Theorem session_faithful `{Seconds T} `{Device T W} `{Termios} fuel (args : Args (T := T)) s code s' :
  writes_some (T := T) (W := W) → bytes_ok (image args) →
  main fuel args s = Some (Ok code, s') →
  ∃ header l tries, log s' = log s ++ l ∧ header_for args header ∧ transcript args header code l ∧
    tx l = mjoin (replicate (S tries) header) ++ image args.
Proof.
  intros Hw Hok Hm. apply main_transcript in Hm as (l & Hl & Hc); [|done|done].
  destruct (Hc code eq_refl) as (header & Hh & Ht).
  destruct (transcript_tx _ _ _ _ Ht) as [tries Htx]. by exists header, l, tries.
Qed.

(** C18: The loader always ends: on a device that takes some bytes whenever it
    reports that it is ready for them, and with a clock on which deadlines pass,
    some amount of fuel gives a result, from every state and for every image. *)
Theorem main_terminates `{Seconds T} `{Device T W} `{Termios} (bounded : T → Prop)
    (args : Args (T := T)) s :
  writes_some (T := T) (W := W) → write_progress (T := T) (W := W) →
  deadline_passes (W := W) bounded → bounded_remaining (W := W) bounded →
  bounded_limits bounded args → ∃ fuel r s', main fuel args s = Some (r, s').
Proof.
  intros Hw Hp Hd Hr Hb. destruct (main_total bounded Hp Hd Hr args s Hb) as [n [[r s'] Hn]].
  by exists n, r, s'.
Qed.

(** Waiting for a marker ignores nothing: although old text is dropped from the
    buffer, the wait ends with the first block after which the text received since
    the call has a marker, and fails only when that text has none. *)
Theorem read_until_correct `{Seconds T} `{Device T W} fuel markers timeout s r s' :
  Forall (λ m, zlen m ≤ 32768) markers → found markers [] = false →
  read_until fuel markers timeout s = Some (r, s') →
  ∃ l, log s' = log s ++ l ∧ awaited markers [] r l.
Proof. intros Hm Hn Hr. by apply read_until_awaits in Hr. Qed.

(** ** The simulated board *)

Lemma board_writes_some n : writes_some (H0 := board_device 1 n).
Proof. intros data b k b' [= <- _]. pose proof (zlen_nonneg data). lia. Qed.

Lemma board_write_progress n : write_progress (H0 := board_device 1 n).
Proof.
  intros t b b1 data k b2 _ Hne [= <- _]. destruct data as [|x data]; [done|].
  autorewrite with len. pose proof (zlen_nonneg data). lia.
Qed.

Lemma board_step n b b' : step (H0 := board_device 1 n) b b' → ticks b < ticks b'.
Proof.
  destruct 1; cbn; try lia. by destruct (_ !! _); cbn; lia.
Qed.

Lemma board_deadline_passes n : deadline_passes (H0 := board_device 1 n) (λ _, True).
Proof.
  intros b0 timeout _. cbn. set (deadline := ticks b0 + timeout).
  apply (wf_projected Nat.lt (λ b, Z.to_nat (deadline - ticks b))); [|apply lt_wf].
  intros b' b [Hlt%Z.ltb_lt Hs]. cbn in Hlt. assert (ticks b < ticks b') as Hb.
  { clear Hlt. induction Hs as [b b' Hs|b b1 b' Hs _ IH]; apply board_step in Hs; lia. }
  lia.
Qed.

Lemma outcome_of {A B} (x : option (A * B)) a : option_map fst x = Some a → ∃ b, x = Some (a, b).
Proof. destruct x as [[a' b]|]; [|done]. intros [= ->]. by exists b. Qed.

Lemma sample_image_ok : bytes_ok (image sample_args).
Proof. apply bytes_ok_test. vm_compute. reflexivity. Qed.

Lemma session_faithful_witness :
  ∃ s' header l tries,
    main (H0 := board_device 1 (board_replies (zlen sample_image))) 2000 sample_args sample_start = Some (Ok 0, s') ∧
    log s' = log sample_start ++ l ∧ transcript sample_args header 0 l ∧
    tx l = mjoin (replicate (S tries) header) ++ sample_image.
Proof.
  destruct (outcome_of _ _ sample_session_passes) as [s' Hs].
  destruct (session_faithful (H0 := board_device 1 (board_replies (zlen sample_image))) 2000 sample_args sample_start 0 s'
              (board_writes_some _) sample_image_ok Hs) as (header & l & tries & Hl & _ & Ht & Htx).
  exists s', header, l, tries. split; [exact Hs|]. split; [exact Hl|]. split; [exact Ht|exact Htx].
Defined.

Lemma main_terminates_witness :
  ∃ fuel r s', main (H0 := board_device 1 (board_replies 1060)) fuel sample_args sample_start = Some (r, s').
Proof.
  apply (main_terminates (H0 := board_device 1 (board_replies 1060)) (λ _, True) sample_args sample_start
           (board_writes_some _) (board_write_progress _) (board_deadline_passes _)
           (λ _ _ _ _, I) (conj I (conj I (conj I I)))).
Defined.

(** A board that has the header answers with the start marker. *)
Definition greeted : St Board := mk_St {| ticks := 0; got := zero_bytes 16; delivered := 0 |} [] [].

Lemma read_until_correct_witness :
  ∃ received s' l,
    read_until (H0 := board_device 1 (board_replies 1060)) 10 [START] 1000 greeted = Some (Ok received, s') ∧
    log s' = log greeted ++ l ∧ awaited [START] [] (Ok received) l.
Proof.
  assert (∃ received s', read_until (H0 := board_device 1 (board_replies 1060)) 10 [START] 1000 greeted
                         = Some (Ok received, s')) as (received & s' & Hr)
    by (vm_compute; eexists _, _; reflexivity).
  destruct (read_until_correct (H0 := board_device 1 (board_replies 1060)) 10 [START] 1000 greeted (Ok received) s'
              ltac:(constructor; [vm_compute; discriminate|constructor]) eq_refl Hr) as (l & Hl & Ha).
  exists received, s', l. split; [exact Hr|]. split; [exact Hl|exact Ha].
Defined.
