(* ===== verification/Gem5.v ===== *)
(** * gem5 statistics reports

    [tools/gem5_hpi_report.py], [tools/gem5_hpi_blake2s_report.py],
    [tools/gem5_hpi_pagefree_report.py], [tools/gem5_hpi_pointer_chase_report.py]
    and [tools/gem5_hpi_stream_report.py]: the blocks of a statistics file as
    dictionaries of floats, and the reports computed from them.

    [float(text)] is [py_float] of [PyNumber]. The scripts repeat
    their reading functions; [read_blocks] is the one they share, with the number
    of blocks each asks for as a parameter. [read_blocks_sections] describes it by
    the sections of the file. *)

From stdpp Require Import base numbers list strings gmap.
From Stdlib Require Import ZArith Lia Ascii SpecFloat.
From S2P Require Import Prelude PyText PyFloat PyRegex PyNumber.

Open Scope Z_scope.

(** ** Statistics *)

Abbreviation stats_t := (gmap string double).

(** [stats[fields[0]] = float(fields[1])] of a line with two fields or more; other
    lines and other values are left out. *)
Definition read_stat (stats : stats_t) (line : list ascii) : stats_t :=
  match words line with
  | name :: value :: _ =>
      match py_float value with Some x => <[name := x]> stats | None => stats end
  | _ => stats
  end.

(** [read_stats]: one dictionary for the whole file. *)
Definition read_whole (stats : stats_t) (line : list ascii) : stats_t :=
  match words line with
  | name :: _ => if String.prefix "-" name then stats else read_stat stats line
  | [] => stats
  end.
Definition read_stats (text : string) : stats_t := foldl read_whole ∅ (splitlines text).

Definition BEGIN : list ascii := chars "---------- Begin Simulation Statistics ----------".
Definition END : list ascii := chars "---------- End Simulation Statistics   ----------".

(** The blocks read so far and the block that is open. *)
Definition block_line (s : list stats_t * option stats_t) (line : list ascii)
    : list stats_t * option stats_t :=
  let '(blocks, current) := s in
  if bool_decide (line = BEGIN) then (blocks, Some ∅)
  else if bool_decide (line = END) then
    (match current with Some stats => blocks ++ [stats] | None => blocks end, None)
  else (blocks, (λ stats, read_stat stats line) <$> current).

Definition stat_blocks (text : string) : list stats_t :=
  (foldl block_line ([], None) (splitlines text)).1.

(** [read_blocks], of at least [least] blocks; [complaint] is the text of the
    error without the path. *)
Definition read_blocks (least : nat) (complaint path text : string) : result (list stats_t) :=
  let blocks := stat_blocks text in
  if (length blocks <? least)%nat then Err (ExitWith (complaint +:+ path)) else Ok blocks.

(** [read_first_block]: the block at the first end line that closes one. *)
Fixpoint first_block (current : option stats_t) (lines : list (list ascii)) : option stats_t :=
  match lines with
  | [] => None
  | line :: lines =>
      if bool_decide (line = BEGIN) then first_block (Some ∅) lines
      else match current with
           | Some stats =>
               if bool_decide (line = END) then Some stats
               else first_block (Some (read_stat stats line)) lines
           | None => first_block None lines
           end
  end.
Definition read_first_block (path text : string) : result stats_t :=
  match first_block None (splitlines text) with
  | Some stats => Ok stats
  | None => Err (ExitWith ("no complete gem5 statistics block in " +:+ path))
  end.

Definition require (stats : stats_t) (name : string) : result double :=
  match stats !! name with
  | Some x => Ok x
  | None => Err (ExitWith ("missing gem5 statistic: " +:+ name))
  end.
(** [int(require(stats, name))] *)
Definition require_int (stats : stats_t) (name : string) : result Z := x ← require stats name; float_int x.
(** [optional_int(stats, name)] *)
Definition optional_int (stats : stats_t) (name : string) : result (option Z) :=
  match stats !! name with Some x => Some <$> float_int x | None => Ok None end.
(** [optional_int(stats, name) or 0] *)
Definition int_or_zero (stats : stats_t) (name : string) : result Z :=
  default 0 <$> optional_int stats name.

(** A line for every statistic that is there. *)
Fixpoint optional_lines (stats : stats_t) (labels : list (string * string)) : result (list string) :=
  match labels with
  | [] => Ok []
  | (label, name) :: labels =>
      value ← optional_int stats name;
      rest ← optional_lines stats labels;
      Ok (match value with
          | Some v => ("  " +:+ label +:+ "=" +:+ str_int v) :: rest
          | None => rest
          end)
  end.

Definition item (label value : string) : string := "  " +:+ label +:+ "=" +:+ value.
Definition CPU : string := "system.cpu_cluster.cpus.".
Definition PREFETCHER : string := CPU +:+ "dcache.prefetcher.".

(** ** The reports: the printed lines *)

(** [gem5_hpi_report.py] *)
Definition coremark_report (path text : string) (trace : option string) : result (list string) :=
  let stats := read_stats text in
  cycles ← require_int stats (CPU +:+ "numCycles");
  committed ← require_int stats (CPU +:+ "commitStats0.numInsts");
  fetched ← require_int stats (CPU +:+ "fetchStats0.numInsts");
  branches ← require_int stats (CPU +:+ "branchPred.committed_0::total");
  mispredicted ← require_int stats (CPU +:+ "branchPred.mispredicted_0::total");
  icache_misses ← require_int stats (CPU +:+ "icache.demandMisses::total");
  dcache_misses ← require_int stats (CPU +:+ "dcache.demandMisses::total");
  discarded_ops ← require_int stats (CPU +:+ "executeStats0.numDiscardedOps");
  ipc ← true_div committed cycles;
  fetch_rate ← true_div fetched cycles;
  mispredict_rate ← true_div mispredicted branches;
  wrong_path_overhead ← true_div (fetched - committed) committed;
  Ok (["GEM5 ARM HPI COREMARK-DERIVED LOOP";
       "  model=HPI (2-wide in-order ARMv8-A proxy; not an exact Cortex-A53)";
       "  frequency=1GHz memory=DDR3_1600_8x8/1-channel";
       item "cycles" (str_int cycles);
       item "committed_instructions" (str_int committed);
       item "IPC" (fixed 6 ipc);
       item "fetched_instructions" (str_int fetched);
       item "fetch_rate" (fixed 6 fetch_rate +:+ " instructions/cycle");
       item "fetched_over_committed" (percent 2 wrong_path_overhead);
       item "committed_branches" (str_int branches);
       item "branch_mispredictions" (str_int mispredicted);
       item "branch_mispredict_rate" (percent 2 mispredict_rate);
       item "discarded_micro_ops" (str_int discarded_ops);
       item "l1i_demand_misses" (str_int icache_misses);
       item "l1d_demand_misses" (str_int dcache_misses);
       item "stats" path]
      ++ match trace with Some trace => [item "pipeline_trace" trace] | None => [] end
      ++ ["  timing_note=gem5 model cycles; QEMU TCG is used only for functional validation"]).

(** [gem5_hpi_blake2s_report.py] *)
Definition blake2s_report (path text : string) (calls blocks_per_call : Z) : result (list string) :=
  stats ← read_first_block path text;
  cycles ← require_int stats (CPU +:+ "numCycles");
  instructions ← require_int stats (CPU +:+ "commitStats0.numInsts");
  operations ← require_int stats (CPU +:+ "commitStats0.numOps");
  let blocks := calls * blocks_per_call in
  ipc ← true_div instructions cycles;
  cycles_per_block ← true_div cycles blocks;
  operations_per_block ← true_div operations blocks;
  misses ← optional_lines stats
             [("l1i_demand_misses", CPU +:+ "icache.demandMisses::total");
              ("l1d_demand_misses", CPU +:+ "dcache.demandMisses::total")];
  Ok (["GEM5 ARM HPI BLAKE2S";
       "  model=HPI (2-wide in-order ARMv8-A proxy; not Cortex-A53 silicon)";
       "  frequency=1GHz memory=DDR3_1600_8x8/1-channel";
       item "calls" (str_int calls);
       item "blocks_per_call" (str_int blocks_per_call);
       item "total_blocks" (str_int blocks);
       item "cycles" (str_int cycles);
       item "committed_instructions" (str_int instructions);
       item "committed_operations" (str_int operations);
       item "IPC" (fixed 6 ipc);
       item "cycles_per_block" (fixed 3 cycles_per_block);
       item "operations_per_block" (fixed 3 operations_per_block)] ++ misses).

(** [gem5_hpi_pointer_chase_report.py] *)
Record ChaseArgs := { bytes : Z; stride : Z; tlb_locality : Z; steps : Z; seed : Z }.
Definition prefetch_labels : list (string * string) :=
  [("l1d_prefetch_issued", PREFETCHER +:+ "pfIssued");
   ("l1d_prefetch_useful", PREFETCHER +:+ "pfUseful");
   ("l1d_prefetch_unused", PREFETCHER +:+ "pfUnused");
   ("l1d_prefetch_late", PREFETCHER +:+ "pfLate");
   ("l1d_demand_misses_not_covered", PREFETCHER +:+ "demandMshrMisses")].
Definition footer (blocks : list stats_t) (path : string) : list string :=
  [item "statistics_blocks" (str_int (zlen blocks));
   "  selected_statistics_block=0 (m5 reset/dump delimited kernel)"; item "stats" path].

Definition pointer_chase_report (path text : string) (args : ChaseArgs) : result (list string) :=
  blocks ← read_blocks 1 "no complete gem5 statistics blocks in " path text;
  stats ← get_item blocks 0;
  cycles ← require_int stats (CPU +:+ "numCycles");
  committed ← require_int stats (CPU +:+ "commitStats0.numInsts");
  ipc ← true_div committed cycles;
  per_load ← true_div cycles (steps args);
  instructions_per_load ← true_div committed (steps args);
  misses ← optional_lines stats
             [("l1d_demand_accesses", CPU +:+ "dcache.demandAccesses::total");
              ("l1d_demand_misses", CPU +:+ "dcache.demandMisses::total");
              ("l1d_overall_accesses", CPU +:+ "dcache.overallAccesses::total");
              ("l1d_overall_misses", CPU +:+ "dcache.overallMisses::total");
              ("l2_demand_accesses", "system.cpu_cluster.l2.demandAccesses::cpu_cluster.cpus.data");
              ("l2_demand_misses", "system.cpu_cluster.l2.demandMisses::cpu_cluster.cpus.data");
              ("dram_read_requests", "system.mem_ctrls.readReqs")];
  prefetches ← optional_lines stats prefetch_labels;
  Ok (["GEM5 ARM HPI POINTER CHASE";
       "  model=HPI (2-wide in-order ARMv8-A proxy; not an exact Cortex-A53)";
       "  frequency=1GHz memory=DDR3_1600_8x8/1-channel";
       item "footprint_bytes" (str_int (bytes args));
       item "stride_bytes" (str_int (stride args));
       item "tlb_locality_bytes" (str_int (tlb_locality args));
       item "dependent_loads" (str_int (steps args));
       item "seed" (str_int (seed args));
       item "cycles" (str_int cycles);
       item "committed_instructions" (str_int committed);
       item "IPC" (fixed 6 ipc);
       item "cycles_per_dependent_load" (fixed 6 per_load);
       item "instructions_per_dependent_load" (fixed 6 instructions_per_load)]
      ++ misses ++ prefetches ++ footer blocks path
      ++ ["  timing_note=gem5 model cycles; not measured Cortex-A53 silicon"]).

(** [gem5_hpi_stream_report.py] *)
Definition streams (kernel : string) : result Z :=
  if String.eqb kernel "copy" || String.eqb kernel "scale" then Ok 2
  else if String.eqb kernel "add" || String.eqb kernel "triad" then Ok 3
  else Err (KeyError kernel).
Definition optional_ratios (stats : stats_t) : list string :=
  omap (λ '(label, name), (λ x, item label (fixed 6 x)) <$> stats !! (PREFETCHER +:+ name))
    [("l1d_prefetch_accuracy", "accuracy"); ("l1d_prefetch_coverage", "coverage")].

Definition stream_report (path text kernel : string) (bytes : Z) : result (list string) :=
  blocks ← read_blocks 1 "no complete gem5 statistics blocks in " path text;
  stats ← get_item blocks 0;
  cycles ← require_int stats (CPU +:+ "numCycles");
  committed ← require_int stats (CPU +:+ "commitStats0.numInsts");
  ipc ← true_div committed cycles;
  count ← streams kernel;
  let logical_bytes := count * bytes in
  bytes_per_cycle ← true_div logical_bytes cycles;
  misses ← optional_lines stats
             [("l1i_demand_accesses", CPU +:+ "icache.demandAccesses::total");
              ("l1i_demand_misses", CPU +:+ "icache.demandMisses::total");
              ("l1d_demand_accesses", CPU +:+ "dcache.demandAccesses::total");
              ("l1d_demand_misses", CPU +:+ "dcache.demandMisses::total");
              ("l1d_overall_accesses", CPU +:+ "dcache.overallAccesses::total");
              ("l1d_overall_misses", CPU +:+ "dcache.overallMisses::total")];
  prefetches ← optional_lines stats prefetch_labels;
  Ok (["GEM5 ARM HPI INTEGER STREAM";
       "  model=HPI (2-wide in-order ARMv8-A proxy; not an exact Cortex-A53)";
       "  l1d_prefetcher=StridePrefetcher queue_size=4 degree=4";
       "  frequency=1GHz memory=DDR3_1600_8x8/1-channel";
       item "kernel" kernel;
       item "bytes_per_array" (str_int bytes);
       item "logical_stream_bytes" (str_int logical_bytes);
       item "cycles" (str_int cycles);
       item "committed_instructions" (str_int committed);
       item "IPC" (fixed 6 ipc);
       item "logical_bytes_per_cycle" (fixed 6 bytes_per_cycle);
       item "logical_bandwidth_at_1GHz" (fixed 6 bytes_per_cycle +:+ " GB/s")]
      ++ misses ++ prefetches ++ optional_ratios stats ++ footer blocks path
      ++ ["  timing_note=gem5 model cycles with modeled caches and DDR; not silicon timing"]).

(** [gem5_hpi_pagefree_report.py] *)
Definition useful_percent (useful issued : Z) : double :=
  if issued =? 0 then to_float 0
  else fdiv (fmul (to_float 100) (to_float useful)) (to_float issued).

(** The lines of required statistics, in order. *)
Definition required_lines (stats : stats_t) (labels : list (string * string)) : result (list string) :=
  mapR (λ '(label, name), v ← require_int stats (CPU +:+ name); Ok (item label (str_int v))) labels.
Definition prefetch_lines (stats : stats_t) (labels : list (string * string)) : result (list string) :=
  mapR (λ '(label, name), v ← int_or_zero stats (PREFETCHER +:+ name); Ok (item label (str_int v))) labels.

Definition pagefree_report (path text kernel : string) (records : Z) : result (list string) :=
  blocks ← read_blocks 2 "expected loop and drain statistics blocks in " path text;
  loop ← get_item blocks 0;
  drain ← get_item blocks 1;
  cycles ← require_int loop (CPU +:+ "numCycles");
  committed ← require_int loop (CPU +:+ "commitStats0.numInsts");
  drain_cycles ← require_int drain (CPU +:+ "numCycles");
  clock_ticks ← require loop "system.cpu_cluster.clk_domain.clock";
  miss_ticks ← require loop (CPU +:+ "dcache.demandMissLatency::total");
  prefetch_issued ← int_or_zero loop (PREFETCHER +:+ "pfIssued");
  prefetch_useful ← int_or_zero loop (PREFETCHER +:+ "pfUseful");
  ipc ← true_div committed cycles;
  per_record ← true_div cycles records;
  execution ← required_lines loop
    [("load_instructions", "commitStats0.numLoadInsts");
     ("store_instructions", "commitStats0.numStoreInsts");
     ("branch_mispredicts", "branchPred.mispredicted_0::total");
     ("discarded_ops", "executeStats0.numDiscardedOps");
     ("l1d_demand_accesses", "dcache.demandAccesses::total");
     ("l1d_demand_misses", "dcache.demandMisses::total")];
  service ← float_div miss_ticks clock_ticks;
  memory ← required_lines loop
    [("l1d_demand_mshr_misses", "dcache.demandMshrMisses::total");
     ("l1d_blocked_no_mshrs", "dcache.blockedCycles::no_mshrs");
     ("l1d_blocked_no_wbuffers", "dcache.blockedCycles::no_wbuffers");
     ("l1d_blocked_no_targets", "dcache.blockedCycles::no_targets")];
  prefetches ← prefetch_lines loop
    [("prefetch_late", "pfLate"); ("prefetch_unused", "pfUnused");
     ("prefetch_removed_by_demand", "pfRemovedDemand"); ("prefetch_queue_hits", "pfBufferHit");
     ("prefetch_span_page", "pfSpanPage"); ("prefetch_useful_span_page", "pfUsefulSpanPage")];
  Ok (["GEM5 ARM HPI PAGEFREE";
       "  model=HPI (2-wide in-order ARMv8-A proxy; not Cortex-A53 silicon)";
       "  comparison=cross-ISA semantic loop; not instruction matched";
       "  frequency=1GHz memory=DDR3_1600_8x8/1-channel";
       item "kernel" kernel;
       item "records" (str_int records);
       item "loop_cycles" (str_int cycles);
       item "committed_instructions" (str_int committed);
       item "IPC" (fixed 6 ipc);
       item "cycles_per_record" (fixed 6 per_record);
       item "post_loop_drain_cycles" (str_int drain_cycles)]
      ++ execution
      ++ [item "l1d_demand_miss_service_cycles" (fixed 0 service)]
      ++ memory
      ++ [item "prefetch_issued" (str_int prefetch_issued);
          item "prefetch_useful" (str_int prefetch_useful);
          item "prefetch_useful_pct" (fixed 2 (useful_percent prefetch_useful prefetch_issued))]
      ++ prefetches
      ++ [item "statistics_blocks" (str_int (zlen blocks)); item "stats" path]).

(** ** The blocks of a file *)

(** A line that neither opens nor closes a block. *)
Definition plain (line : list ascii) : Prop := line ≠ BEGIN ∧ line ≠ END.
#[export] Instance plain_dec line : Decision (plain line).
Proof. unfold plain. apply _. Defined.

(** A complete section: lines without an end line, an opening line, the lines of
    the block, and its end line. An opening line before the last one counts for
    nothing. *)
Record Section_ := { abandoned : list (list ascii); body : list (list ascii) }.
Definition section_lines (s : Section_) : list (list ascii) := abandoned s ++ BEGIN :: body s ++ [END].
Definition well_formed (s : Section_) : Prop :=
  Forall (λ line, line ≠ END) (abandoned s) ∧ Forall plain (body s).

(** What a line says about a statistic. *)
Definition says (name : string) (line : list ascii) : option double :=
  match words line with
  | n :: value :: _ => if String.eqb n name then py_float value else None
  | _ => None
  end.

Lemma read_stat_says stats line name :
  read_stat stats line !! name = match says name line with Some x => Some x | None => stats !! name end.
Proof.
  unfold read_stat, says. destruct (words line) as [|n [|value rest]]; [done|done|].
  destruct (py_float value) as [x|]; destruct (String.eqb_spec n name) as [->|Hne]; try done.
  - by rewrite lookup_insert_eq.
  - by rewrite lookup_insert_ne.
Qed.

(** The last line that gives the statistic a value decides. *)
Lemma read_stats_last (lines : list (list ascii)) name :
  foldl read_stat ∅ lines !! name = last (omap (says name) lines).
Proof.
  induction lines as [|line lines IH] using rev_ind; [done|].
  rewrite foldl_app, omap_app. cbn [foldl omap list_omap]. rewrite read_stat_says.
  destruct (says name line) as [x|]; [by rewrite last_snoc|]. by rewrite app_nil_r.
Qed.

Lemma body_lines lines blocks stats :
  Forall plain lines →
  foldl block_line (blocks, Some stats) lines = (blocks, Some (foldl read_stat stats lines)).
Proof.
  intros Hl. revert stats. induction Hl as [|line lines [Hb He] _ IH]; intros stats; [done|].
  cbn [foldl block_line]. rewrite !bool_decide_eq_false_2 by done. apply IH.
Qed.

(** Without an end line no block is added. *)
Lemma no_end_lines lines blocks current :
  Forall (λ line, line ≠ END) lines → (foldl block_line (blocks, current) lines).1 = blocks.
Proof.
  intros Hl. revert current. induction Hl as [|line lines He _ IH]; intros current; [done|].
  cbn [foldl block_line]. case_bool_decide; [apply IH|]. rewrite bool_decide_eq_false_2 by done. apply IH.
Qed.

Lemma section_block s blocks current :
  well_formed s →
  foldl block_line (blocks, current) (section_lines s) = (blocks ++ [foldl read_stat ∅ (body s)], None).
Proof.
  intros [Ha Hb]. unfold section_lines. rewrite foldl_app. cbn [foldl].
  destruct (foldl block_line (blocks, current) (abandoned s)) as [blocks' current'] eqn:E.
  pose proof (no_end_lines _ blocks current Ha) as Hn. rewrite E in Hn. cbn in Hn. subst blocks'.
  cbn [block_line]. rewrite bool_decide_eq_true_2 by done. rewrite foldl_app, body_lines by done.
  cbn [foldl block_line]. rewrite bool_decide_eq_false_2 by (vm_compute; discriminate).
  by rewrite bool_decide_eq_true_2.
Qed.

Lemma sections_blocks sections blocks current tail :
  Forall well_formed sections → Forall (λ line, line ≠ END) tail →
  (foldl block_line (blocks, current) (mjoin (section_lines <$> sections) ++ tail)).1
  = blocks ++ ((λ s, foldl read_stat ∅ (body s)) <$> sections).
Proof.
  intros Hs Ht. revert blocks current.
  induction Hs as [|s sections Hwf _ IH]; intros blocks current.
  { cbn. rewrite no_end_lines by done. by rewrite app_nil_r. }
  rewrite fmap_cons, join_cons, <-app_assoc, foldl_app, section_block by done.
  rewrite IH. by rewrite <-app_assoc.
Qed.

(** The file read as sections: one block for every section, in order, in which a
    statistic has the value of the last line of the section's body that gives it
    one; what follows the last end line is not read. *)
Theorem read_blocks_sections text sections tail name :
  splitlines text = mjoin (section_lines <$> sections) ++ tail →
  Forall well_formed sections → Forall (λ line, line ≠ END) tail →
  ((λ stats : stats_t, stats !! name) <$> stat_blocks text)
  = (λ s, last (omap (says name) (body s))) <$> sections.
Proof.
  intros Ht Hs Htail. unfold stat_blocks. rewrite Ht, sections_blocks by done.
  rewrite app_nil_l, <-list_fmap_compose. apply list_fmap_ext. intros i s _. apply read_stats_last.
Qed.

Lemma block_lines_app lines blocks current :
  (foldl block_line (blocks, current) lines).1 = blocks ++ (foldl block_line ([], current) lines).1.
Proof.
  revert blocks current. induction lines as [|line lines IH]; intros blocks current.
  { cbn. by rewrite app_nil_r. }
  cbn [foldl block_line]. repeat case_bool_decide; [apply IH| |apply IH].
  destruct current as [stats|]; [|apply IH]. rewrite IH, (IH ([] ++ [stats])). by rewrite <-app_assoc.
Qed.

(** [read_first_block] is the first block of [read_blocks]. *)
Lemma first_block_head text : first_block None (splitlines text) = head (stat_blocks text).
Proof.
  unfold stat_blocks. generalize (@None stats_t). induction (splitlines text) as [|line lines IH];
    intros current; [done|].
  cbn [foldl block_line first_block]. case_bool_decide; [apply IH|].
  destruct current as [stats|]; case_bool_decide; try apply IH. by rewrite block_lines_app.
Qed.

(** A block that is reopened, two complete blocks and one that is cut off. *)
Definition sample_stats : string :=
  join newline ["cycles 9"; of_chars BEGIN; "x 1"; of_chars BEGIN; "x 2 # comment"; "x bad"; "y 3.5";
                of_chars END; "x 4"; of_chars BEGIN; "x 5"; "x 6e1"; of_chars END; of_chars BEGIN; "x 7"].
Definition sample_sections : list Section_ :=
  [{| abandoned := chars <$> ["cycles 9"; of_chars BEGIN; "x 1"];
      body := chars <$> ["x 2 # comment"; "x bad"; "y 3.5"] |};
   {| abandoned := [chars "x 4"]; body := chars <$> ["x 5"; "x 6e1"] |}].

Lemma read_blocks_sections_witness :
  ((λ stats : stats_t, stats !! "x") <$> stat_blocks sample_stats)
  = (λ s, last (omap (says "x") (body s))) <$> sample_sections.
Proof.
  apply (read_blocks_sections sample_stats sample_sections [BEGIN; chars "x 7"] "x").
  - vm_compute. reflexivity.
  - repeat constructor; vm_compute; discriminate.
  - repeat constructor; vm_compute; discriminate.
Defined.
Example sample_values :
  ((λ s, last (omap (says "x") (body s))) <$> sample_sections) = [Some (to_float 2); Some (to_float 60)].
Proof. vm_compute. reflexivity. Qed.

(** A report from start to end. *)
Definition block_of (counters : list (string * string)) : string :=
  join newline ([of_chars BEGIN] ++ ((λ '(name, v), name +:+ " " +:+ v) <$> counters) ++ [of_chars END]).
Example sample_reports :
  blake2s_report "stats.txt"
    (block_of [(CPU +:+ "numCycles", "1000"); (CPU +:+ "commitStats0.numInsts", "1500");
               (CPU +:+ "commitStats0.numOps", "1600"); (CPU +:+ "dcache.demandMisses::total", "7")]) 2 5
  = Ok ["GEM5 ARM HPI BLAKE2S";
        "  model=HPI (2-wide in-order ARMv8-A proxy; not Cortex-A53 silicon)";
        "  frequency=1GHz memory=DDR3_1600_8x8/1-channel";
        "  calls=2"; "  blocks_per_call=5"; "  total_blocks=10"; "  cycles=1000";
        "  committed_instructions=1500"; "  committed_operations=1600"; "  IPC=1.500000";
        "  cycles_per_block=100.000"; "  operations_per_block=160.000"; "  l1d_demand_misses=7"] ∧
  pointer_chase_report "s" "" {| bytes := 1; stride := 1; tlb_locality := 1; steps := 1; seed := 1 |}
  = Err (ExitWith "no complete gem5 statistics blocks in s") ∧
  blake2s_report "s" (block_of [(CPU +:+ "numCycles", "0"); (CPU +:+ "commitStats0.numInsts", "1");
                                (CPU +:+ "commitStats0.numOps", "1")]) 1 1
  = Err (ZeroDivisionError "division by zero").
Proof. repeat split; vm_compute; reflexivity. Qed.
