(* ===== verification/QemuTrace.v ===== *)
(** * QEMU single-step traces

    [tools/qemu_one_insn_trace.py]: the program counters of a trace of one
    instruction per translation block, and the summary with the hottest ones. *)

From stdpp Require Import base numbers list strings.
From Stdlib Require Import ZArith Lia Ascii.
From S2P Require Import Prelude PyText PyDict PyRegex Csv.

Open Scope Z_scope.

(** The lines of a text file: LF, CR and CRLF end a line. *)
Fixpoint file_lines_go (current s : list ascii) : list (list ascii) :=
  match s with
  | [] => if bool_decide (current = []) then [] else [current]
  | c :: s =>
      if code c =? 10 then current :: file_lines_go [] s
      else if code c =? 13 then
        current :: match s with
                   | d :: s' => if code d =? 10 then file_lines_go [] s' else file_lines_go [] s
                   | [] => []
                   end
      else file_lines_go (current ++ [c]) s
  end.
Definition file_lines (text : string) : list (list ascii) := file_lines_go [] (chars text).

Definition not_slash (c : ascii) : bool := negb (is_char "/" c).
Definition TRACE_RE : regex :=
  lit "Trace" +>+ many blank +>+ many is_digit +>+ lit ":" +>+ many blank
  +>+ many (λ c, negb (blank c)) +>+ many blank +>+ lit "[" +>+ many not_slash +>+ lit "/"
  +>+ Group "pc" (many is_hex) +>+ lit "/".

(** The program counters of the trace, in order. *)
Definition read_line (line : list ascii) : result (list Z) :=
  match match_at TRACE_RE line with
  | Some (_, caps) => pc ← int_text 16 (default "" (group "pc" caps)); Ok [pc]
  | None => Ok []
  end.
Definition ordered_pcs (text : string) : result (list Z) :=
  pcs ← mapR read_line (file_lines text); Ok (mjoin (M := list) (A := Z) pcs).

(** [pcs.most_common(top)] *)
Definition hot (pcs : list Z) (top : Z) : list (Z * Z) := take (Z.to_nat top) (most_common (counter pcs)).

Definition summary (pcs : list Z) (first last_pc : Z) (top : Z) : list string :=
  ["QEMU ONE-INSTRUCTION TRACE SUMMARY";
   "  translation_blocks=" +:+ str_int (zlen pcs);
   "  instructions_before_semihost_exit=" +:+ str_int (zlen pcs - 1);
   "  distinct_pcs=" +:+ str_int (zlen (counter pcs));
   "  entry_pc=0x" +:+ hex_pad 16 first;
   "  semihost_exit_pc=0x" +:+ hex_pad 16 last_pc;
   "  timing=unavailable (QEMU TCG is functional, not Cortex-A53 timing)";
   "";
   "HOT DYNAMIC PCS"]
  ++ ((λ '(pc, count), "  0x" +:+ hex_pad 16 pc +:+ " " +:+ pad_left 8 (str_int count)) <$> hot pcs top).

Definition main (text : string) (top : Z) : result (list string) :=
  pcs ← ordered_pcs text;
  match pcs with
  | [] => Err (ExitWith "trace contains no QEMU execution records")
  | _ :: _ =>
      first ← get_item pcs 0;
      last_pc ← get_item pcs (-1);
      Ok (summary pcs first last_pc top)
  end.

(** ** The hottest counters *)

(** At most [top] counters, by decreasing count, each with the number of times it
    occurs in the trace, and none that is left out occurs more often. *)
Lemma hot_correct pcs top :
  (length (hot pcs top) ≤ Z.to_nat top)%nat ∧
  Pairwise (λ a b, b.2 ≤ a.2) (hot pcs top) ∧
  (∀ pc count, (pc, count) ∈ hot pcs top → count = zcount (λ y, bool_decide (y = pc)) pcs) ∧
  (∀ pc h, pc ∉ (hot pcs top).*1 → h ∈ hot pcs top → zcount (λ y, bool_decide (y = pc)) pcs ≤ h.2).
Proof.
  unfold hot, most_common. set (l := sort_by _ _).
  assert (Pairwise (λ a b : Z * Z, b.2 ≤ a.2) l) as Hsorted.
  { eapply Pairwise_impl; [|apply sort_by_sorted]. cbn. lia. }
  assert (∀ pc count, (pc, count) ∈ l ↔ (pc, count) ∈ counter pcs) as Hin.
  { intros pc count. unfold l. by rewrite sort_by_perm. }
  assert (∀ pc count, (pc, count) ∈ l → count = zcount (λ y, bool_decide (y = pc)) pcs) as Hcount.
  { intros pc count Hl%Hin%d_elem_get; [|apply counter_NoDup]. by rewrite <-counter_get, Hl. }
  assert (∀ h, h ∈ take (Z.to_nat top) l → h ∈ l) as Htake.
  { intros h Hh. rewrite <-(take_drop (Z.to_nat top) l), elem_of_app. by left. }
  rewrite <-(take_drop (Z.to_nat top) l) in Hsorted. apply Pairwise_app in Hsorted as (Hs & _ & Hcross).
  split_and!; [rewrite length_take; lia|done| |].
  - intros pc count Ht. by apply Hcount, Htake.
  - intros pc h Hnot Hh.
    destruct (d_get pc (counter pcs)) as [count|] eqn:Hget.
    + assert ((pc, count) ∈ l) as Hl by by apply Hin, d_get_elem.
      rewrite <-(Hcount _ _ Hl). rewrite <-(take_drop (Z.to_nat top) l), elem_of_app in Hl.
      destruct Hl as [Ht|Hd]; [|by apply (Hcross h (pc, count))].
      destruct Hnot. by apply (list_elem_of_fmap_2 fst) in Ht.
    + rewrite <-counter_get, Hget. cbn. destruct h as [p c]. apply Htake, Hcount in Hh.
      cbn. subst c. pose proof (zcount_bounds (λ y, bool_decide (y = p)) pcs). lia.
Qed.

Lemma hot_total (pcs : list Z) : d_sum id (counter pcs) = zlen pcs.
Proof. apply counter_total. Qed.

Example sample_summary :
  drop 1 <$> main (join newline ["Trace 0: 0x7f [00000000/0000000080000000/00/ff]"; "other line";
              "Trace 0: 0x7f [00000000/0000000080000004/00/ff]";
              "Trace 0: 0x7f [00000000/0000000080000000/00/ff]"]) 1
  = Ok ["  translation_blocks=3"; "  instructions_before_semihost_exit=2"; "  distinct_pcs=2";
        "  entry_pc=0x0000000080000000"; "  semihost_exit_pc=0x0000000080000000";
        "  timing=unavailable (QEMU TCG is functional, not Cortex-A53 timing)"; ""; "HOT DYNAMIC PCS";
        "  0x0000000080000000        2"].
Proof. vm_compute. reflexivity. Qed.
