(* ===== verification/RomInit.v ===== *)
(** * Boot ROM contents of a netlist

    [tools/check_yosys_rom_init.py]: counts the block-RAM initialisation segments
    of the boot ROM that are not zero in a Yosys netlist, and rejects a netlist
    with too few. *)

From stdpp Require Import base numbers list strings.
From Stdlib Require Import ZArith Lia Ascii.
From S2P Require Import Prelude PyText PyDict PyRegex PyJson.

Open Scope Z_scope.

Definition hex_capital (c : ascii) : bool := is_digit c || ((65 <=? code c) && (code c <=? 70)).
Definition INIT_PARAMETER : regex :=
  lit "INIT" +>+ Opt (lit "P") +>+ lit "_" +>+ Chr hex_capital +>+ Chr hex_capital.
(** [INIT_PARAMETER.fullmatch(name)] *)
Definition is_init (name : string) : bool :=
  bool_decide (is_Some (run INIT_PARAMETER (chars name) [] (λ rest _, if bool_decide (rest = [])
                                                                      then Some () else None))).

(** [value[key]]: the [KeyError] and [TypeError] of the look-up are one case. *)
Definition subscript (value : json) (key : string) : option json :=
  match value with JObj fields => d_get key fields | _ => None end.

Fixpoint subscripts (value : json) (keys : list string) : option json :=
  match keys with
  | [] => Some value
  | key :: keys => match subscript value key with Some v => subscripts v keys | None => None end
  end.

(** [value.items()] and [value.get(key)], which only objects have. *)
Definition fields_of (value : json) : result (list (string * json)) :=
  match value with JObj fields => Ok fields | _ => Err (AttributeError "items") end.
Definition get (value : json) (key : string) : result (option json) :=
  match value with JObj fields => Ok (d_get key fields) | _ => Err (AttributeError "get") end.

(** [value == text] *)
Definition is_text (value : option json) (text : string) : bool :=
  match value with Some (JStr s) => String.eqb s text | _ => false end.

(** ["1" in value] *)
Definition has_one (value : json) : result bool :=
  match value with
  | JStr s => Ok (contains "1" s)
  | JArr items => Ok (existsb (λ i, is_text (Some i) "1") items)
  | JObj fields => Ok (bool_decide (is_Some (d_get "1" fields)))
  | _ => Err (TypeError "argument is not iterable")
  end.

Definition ABSENT : exn := ValueError "OpenRV64 FPGA system module is absent".

(** [name: cell] of the boot ROM. *)
Definition rom_cell (name_cell : string * json) : result bool :=
  let '(name, cell) := name_cell in
  if contains ".u_rom.rom_q." name then
    kind ← get cell "type"; Ok (is_text kind "RAMB36E1")
  else Ok false.
Fixpoint rom_cells (cells : list (string * json)) : result (list (string * json)) :=
  match cells with
  | [] => Ok []
  | cell :: cells =>
      keep ← rom_cell cell; rest ← rom_cells cells;
      Ok (if keep : bool then cell :: rest else rest)
  end.

(** The parameters that count, of one cell. *)
Fixpoint count_parameters (parameters : list (string * json)) : result Z :=
  match parameters with
  | [] => Ok 0
  | (name, value) :: parameters =>
      one ← (if is_init name then has_one value else Ok false);
      rest ← count_parameters parameters;
      Ok (Z.b2z one + rest)
  end.
Definition count_cell (count : Z) (name_cell : string * json) : result Z :=
  parameters ← get name_cell.2 "parameters";
  fields ← fields_of (default (JObj []) parameters);
  n ← count_parameters fields;
  Ok (count + n).

Definition count_nonzero_segments (netlist : string) : result (Z * list string) :=
  design ← loads netlist;
  match subscripts design ["modules"; "openrv64_fpga_opensbi_system"; "cells"] with
  | None => Err ABSENT
  | Some cells =>
      fields ← fields_of cells;
      roms ← rom_cells fields;
      raise (ValueError "no mapped RAMB36E1 boot-ROM cells found") when bool_decide (roms = []);;
      count ← foldM count_cell 0 roms;
      Ok (count, sort_strings roms.*1)
  end.

(** The printed line and the exit status. *)
Definition main (netlist : string) (minimum_segments : Z) : result (string * Z) :=
  let fail error := Ok ("YOSYS ROM INIT FAIL " +:+ error, 1) in
  match count_nonzero_segments netlist with
  | Ok (count, cells) =>
      if count <? minimum_segments then
        fail ("boot ROM has " +:+ str_int count +:+ " nonzero BRAM INIT segments; expected at least "
              +:+ str_int minimum_segments)
      else
        Ok ("YOSYS ROM INIT PASS cells=" +:+ str_int (zlen cells) +:+ " nonzero_segments="
            +:+ str_int count, 0)
  | Err (ValueError error) => fail error
  | Err e => Err e
  end.

(** ** What is accepted *)

(** A parameter that counts: an initialisation word with a one in its bits. *)
Definition nonzero_init (parameter : string * json) : bool :=
  is_init parameter.1 && match has_one parameter.2 with Ok b => b | Err _ => false end.
Definition parameters_of (cell : string * json) : list (string * json) :=
  match cell.2 with
  | JObj fields => match d_get "parameters" fields with Some (JObj ps) => ps | _ => [] end
  | _ => []
  end.
Definition is_rom (cell : string * json) : bool :=
  match rom_cell cell with Ok b => b | Err _ => false end.

Lemma rom_cells_Ok cells roms : rom_cells cells = Ok roms → roms = filter (λ c, is_rom c = true) cells.
Proof.
  revert roms. induction cells as [|cell cells IH]; intros roms Hr; [by apply Ok_inj in Hr as <-|].
  cbn [rom_cells] in Hr. apply bind_Ok in Hr as (keep & Hk & Hr). apply bind_Ok in Hr as (rest & Hrest & Hr).
  apply IH in Hrest as ->. apply Ok_inj in Hr as <-. rewrite filter_cons.
  assert (is_rom cell = keep) as -> by (unfold is_rom; by rewrite Hk). by destruct keep.
Qed.

Lemma count_parameters_Ok ps n : count_parameters ps = Ok n → n = zcount nonzero_init ps.
Proof.
  revert n. induction ps as [|[name value] ps IH]; intros n Hn; [by apply Ok_inj in Hn as <-|].
  cbn [count_parameters] in Hn. apply bind_Ok in Hn as (one & Hone & Hn).
  apply bind_Ok in Hn as (rest & Hrest & Hn). apply IH in Hrest as ->. apply Ok_inj in Hn as <-.
  unfold zcount. rewrite zsum_cons. do 2 f_equal. unfold nonzero_init. cbn [fst snd].
  destruct (is_init name); [by rewrite Hone|by apply Ok_inj in Hone as <-].
Qed.

Lemma count_cell_Ok count cell n :
  count_cell count cell = Ok n → n = count + zcount nonzero_init (parameters_of cell).
Proof.
  unfold count_cell, parameters_of. intros Hn. apply bind_Ok in Hn as (ps & Hps & Hn).
  apply bind_Ok in Hn as (fields & Hf & Hn). apply bind_Ok in Hn as (k & Hk & Hn).
  apply Ok_inj in Hn as <-. apply count_parameters_Ok in Hk as ->.
  destruct cell.2; try discriminate Hps. apply Ok_inj in Hps as <-.
  destruct (d_get "parameters" fields0) as [[]|]; try discriminate Hf; by apply Ok_inj in Hf as <-.
Qed.

(** A netlist is accepted only when its system module has boot-ROM block RAMs, and
    at least the minimum of their initialisation words, counted over all of them,
    has a one. *)
Theorem accepted_rom netlist minimum line :
  main netlist minimum = Ok (line, 0) →
  ∃ design cells, loads netlist = Ok design ∧
    subscripts design ["modules"; "openrv64_fpga_opensbi_system"; "cells"] = Some (JObj cells) ∧
    let roms := filter (λ c, is_rom c = true) cells in
    let count := zsum (λ c, zcount nonzero_init (parameters_of c)) roms in
    roms ≠ [] ∧ minimum ≤ count ∧
    line = "YOSYS ROM INIT PASS cells=" +:+ str_int (zlen roms) +:+ " nonzero_segments=" +:+ str_int count.
Proof.
  unfold main. destruct (count_nonzero_segments netlist) as [[count names]|e] eqn:E;
    [|by destruct e].
  destruct (Z.ltb_spec count minimum) as [|Hmin]; [done|]. intros Hl%Ok_inj. injection Hl as <-.
  unfold count_nonzero_segments in E. apply bind_Ok in E as (design & Hl & E).
  destruct (subscripts design _) as [cells|] eqn:Ec in E; [|discriminate E].
  apply bind_Ok in E as (fields & Hf & E). apply bind_Ok in E as (roms & Hr & E).
  apply guard_Ok in E as [Hne E]. apply bool_decide_eq_false in Hne.
  apply bind_Ok in E as (n & Hn & E). apply Ok_inj in E. injection E as <- <-.
  destruct cells; try discriminate Hf. apply Ok_inj in Hf as ->. apply rom_cells_Ok in Hr.
  assert (n = zsum (λ c, zcount nonzero_init (parameters_of c)) roms) as ->.
  { apply (foldM_inv (λ don n, n = zsum (λ c, zcount nonzero_init (parameters_of c)) don)) in Hn;
      [done|done|].
    intros don cell s s' -> Hc%count_cell_Ok _. rewrite Hc, zsum_app. cbn. lia. }
  exists design, fields. cbn zeta. rewrite <-Hr. split_and!; try done.
  unfold sort_strings, zlen. by rewrite merge_sort_Permutation, length_fmap.
Qed.

Definition sample_design (words : list string) : json :=
  JObj [("modules", JObj [("openrv64_fpga_opensbi_system", JObj [("cells", JObj [
    ("top.u_rom.rom_q.0.0", JObj [("type", JStr "RAMB36E1");
       ("parameters", JObj (zip ["INIT_00"; "INITP_0F"; "INIT_A"; "INIT_0a"; "INIT_01"] (JStr <$> words)))]);
    ("top.u_rom.rom_q.0.1", JObj [("type", JStr "LUT6")]);
    ("top.u_ram.0", JObj [("type", JStr "RAMB36E1")])])])])].

Definition sample_netlist (words : list string) : string := dumps (sample_design words).

Lemma accepted_rom_witness :
  ∃ line design cells, main (sample_netlist ["01"; "10"; "11"; "11"; "00"]) 2 = Ok (line, 0) ∧
    loads (sample_netlist ["01"; "10"; "11"; "11"; "00"]) = Ok design ∧
    subscripts design ["modules"; "openrv64_fpga_opensbi_system"; "cells"] = Some (JObj cells) ∧
    filter (λ c, is_rom c = true) cells ≠ [] ∧
    2 ≤ zsum (λ c, zcount nonzero_init (parameters_of c)) (filter (λ c, is_rom c = true) cells).
Proof.
  assert (main (sample_netlist ["01"; "10"; "11"; "11"; "00"]) 2
          = Ok ("YOSYS ROM INIT PASS cells=1 nonzero_segments=2", 0)) as Hm by (vm_compute; reflexivity).
  destruct (accepted_rom _ _ _ Hm) as (design & cells & Hl & Hc & Hne & Hmin & _).
  exists "YOSYS ROM INIT PASS cells=1 nonzero_segments=2", design, cells.
  split; [exact Hm|]. split; [exact Hl|]. split; [exact Hc|]. split; [exact Hne|exact Hmin].
Defined.

Example sample_rejected :
  main (sample_netlist ["01"; "10"; "11"; "11"; "00"]) 3
    = Ok ("YOSYS ROM INIT FAIL boot ROM has 2 nonzero BRAM INIT segments; expected at least 3", 1) ∧
  main "[]" 3 = Ok ("YOSYS ROM INIT FAIL OpenRV64 FPGA system module is absent", 1) ∧
  match loads "[1," with Ok _ => false | Err _ => true end = true.
Proof. repeat split; vm_compute; reflexivity. Qed.
