(* ===== verification/CoremarkCompare.v ===== *)
(** * CoreMark pipeline comparison

    [tools/compare_coremark_pipelines.py]: the dynamic instructions of an OpenRV64
    pipeline trace and of a gem5 HPI trace, the windows that start at the same call
    of the same function, and the report that sets them side by side.

    What objdump prints, the rows of the CSV trace and the text of the HPI trace are
    arguments. Dictionaries whose order is not used are [gmap]s. *)

From stdpp Require Import base numbers list strings gmap.
From Stdlib Require Import ZArith Lia Ascii SpecFloat.
From S2P Require Import Prelude PyText PyFloat PyDict PyRegex Csv QemuTrace.

Open Scope Z_scope.

(** ** Data *)

Record Instruction := {
  key : string; pc : Z; bits : Z; text : string; stages : gmap string (list Z);
  issue_events : list (Z * string); complete_events : list (Z * string) }.
Abbreviation instructions_t := (gmap string Instruction).
Abbreviation OrvRow := (gmap string Z).
Record OrvTrace := { o_instructions : instructions_t; retired : list string; rows : gmap Z OrvRow }.
Record HpiTrace := {
  h_instructions : instructions_t; committed : list string; failed_issue : gmap Z (list string) }.

Definition ORV_STAGES : list (string * string * string) :=
  [("F", "fetch_valid", "f"); ("D", "decode_valid", "d"); ("I", "issue_valid", "i");
   ("C", "complete_valid", "c"); ("R", "retire_valid", "r")].

Definition new_instruction (key : string) (pc bits : Z) (text : string) : Instruction := {|
  key := key; pc := pc; bits := bits; text := text; stages := ∅; issue_events := [];
  complete_events := [] |}.
(** [inst.stages[stage]], a default dictionary. *)
Definition stage_cycles (stage : string) (inst : Instruction) : list Z :=
  default [] (stages inst !! stage).
Definition add_stage (stage : string) (cycle : Z) (inst : Instruction) : Instruction := {|
  key := key inst; pc := pc inst; bits := bits inst; text := text inst;
  stages := <[stage := stage_cycles stage inst ++ [cycle]]> (stages inst);
  issue_events := issue_events inst; complete_events := complete_events inst |}.
Definition add_issue (event : Z * string) (inst : Instruction) : Instruction := {|
  key := key inst; pc := pc inst; bits := bits inst; text := text inst; stages := stages inst;
  issue_events := issue_events inst ++ [event]; complete_events := complete_events inst |}.
Definition add_complete (event : Z * string) (inst : Instruction) : Instruction := {|
  key := key inst; pc := pc inst; bits := bits inst; text := text inst; stages := stages inst;
  issue_events := issue_events inst; complete_events := complete_events inst ++ [event] |}.
Definition set_text (new : string) (inst : Instruction) : Instruction := {|
  key := key inst; pc := pc inst; bits := bits inst; text := new; stages := stages inst;
  issue_events := issue_events inst; complete_events := complete_events inst |}.

Definition list_minimum (l : list Z) : result Z :=
  match l with [] => Err (ValueError "min() arg is an empty sequence") | x :: l => Ok (list_min x l) end.
Definition list_maximum (l : list Z) : result Z :=
  match l with [] => Err (ValueError "max() arg is an empty sequence") | x :: l => Ok (list_max x l) end.

Definition stage_span (cycles : list Z) (base : Z) : string :=
  match cycles with
  | [] => "-"
  | c :: rest =>
      let first := list_min c rest - base in
      let last := list_max c rest - base in
      if first =? last then str_int first else str_int first +:+ "-" +:+ str_int last
  end.

(** [text.replace("|", "\|").strip()] *)
Definition escape_table (text : string) : string :=
  of_chars (strip (mjoin ((λ c, if is_char "|" c then chars "\|" else [c]) <$> chars text))).

(** ** The OpenRV64 trace *)

(** [pattern.match(line)] with the end of the line required. *)
Definition match_line (r : regex) (line : list ascii) : option captures :=
  run r line [] (λ rest caps, if bool_decide (rest = []) then Some caps else None).

Definition DISASM_RE : regex :=
  Rep true 0 blank +>+ Group "address" (many is_hex) +>+ lit ":" +>+ many blank +>+ many is_hex
  +>+ many blank +>+ Group "text" (Rep false 1 not_newline) +>+ Rep true 0 blank.

Definition group_text (name : string) (caps : captures) : string := default "" (group name caps).
Definition group_int (base : Z) (name : string) (caps : captures) : result Z :=
  int_text base (group_text name caps).

Definition disasm_line (d : gmap Z string) (line : list ascii) : result (gmap Z string) :=
  match match_line DISASM_RE line with
  | Some caps => address ← group_int 16 "address" caps; Ok (<[address := group_text "text" caps]> d)
  | None => Ok d
  end.
Definition disassembly (output : string) : result (gmap Z string) :=
  foldM disasm_line ∅ (splitlines output).

Definition HEX_COLUMNS : list string :=
  ["fetch_valid"; "fetch_fire"; "issue_valid"; "complete_valid"; "retire_valid"; "raw"; "waw";
   "read_port"; "stall_causes"].
Definition DECIMAL_COLUMNS : list string :=
  ["dispatch_q"; "retire_q"; "barrier"; "bp_fetch_stall"; "bp_decode_stall"; "redirect"].
Definition read_columns (raw : Row) (base : Z) (row : OrvRow) (names : list string) : result OrvRow :=
  foldM (λ row name, v ← int_column raw name base; Ok (<[name := v]> row)) row names.

(** The trace so far, with the keys that have retired in their order. *)
Definition orv_key (uid pc bits : Z) : string :=
  hex_int uid +:+ ":" +:+ hex_int pc +:+ ":" +:+ hex_pad 8 bits.

Definition orv_event (disasm : gmap Z string) (cycle : Z) (stage : string) (trace : OrvTrace)
    (key : string) (pc bits : Z) : OrvTrace :=
  let inst := default (new_instruction key pc bits (default ("0x" +:+ hex_pad 8 bits) (disasm !! pc)))
                (o_instructions trace !! key) in
  let inst := add_stage stage cycle inst in
  let inst := if String.eqb stage "I" then add_issue (cycle, text inst) inst
              else if String.eqb stage "C" then add_complete (cycle, text inst) inst else inst in
  {| o_instructions := <[key := inst]> (o_instructions trace);
     retired := if String.eqb stage "R" && negb (bool_decide (key ∈ retired trace))
                then retired trace ++ [key] else retired trace;
     rows := rows trace |}.

Definition read_lane (disasm : gmap Z string) (raw : Row) (cycle : Z) (stage prefix : string) (mask : Z)
    (trace : OrvTrace) (lane : Z) : result OrvTrace :=
  if negb (bit mask lane) then Ok trace
  else
    let column name := prefix +:+ str_int lane +:+ name in
    uid ← int_column raw (column "_uid") 16;
    pc ← int_column raw (column "_pc") 16;
    bits ← int_column raw (column "_instr") 16;
    Ok (orv_event disasm cycle stage trace (orv_key uid pc bits) pc bits).

Definition read_stage (disasm : gmap Z string) (raw : Row) (cycle : Z) (trace : OrvTrace)
    (stage : string * string * string) : result OrvTrace :=
  let '(name, mask_name, prefix) := stage in
  mask ← int_column raw mask_name 16;
  foldM (read_lane disasm raw cycle name prefix mask) trace (zrange 0 3).

Definition read_row (disasm : gmap Z string) (trace : OrvTrace) (raw : Row) : result OrvTrace :=
  cycle ← int_column raw "cycle" 10;
  row ← read_columns raw 16 ∅ HEX_COLUMNS;
  row ← read_columns raw 10 row DECIMAL_COLUMNS;
  foldM (read_stage disasm raw cycle)
    {| o_instructions := o_instructions trace; retired := retired trace;
       rows := <[cycle := row]> (rows trace) |} ORV_STAGES.

Definition load_orv (table : Table) (disasm : gmap Z string) : result OrvTrace :=
  foldM (read_row disasm) {| o_instructions := ∅; retired := []; rows := ∅ |} (Csv.rows table).

(** ** The HPI trace *)

Definition EVENT_NAMES : regex :=
  Alt (lit "Issuing inst") (Alt (lit "Issuing mem ref early inst")
    (Alt (lit "Committing inst") (Alt (lit "Trying to commit mem response") (lit "Didn't issue inst")))).
Definition not_blank (c : ascii) : bool := negb (blank c).
Definition HPI_EVENT_RE : regex :=
  Rep true 0 blank +>+ Group "time" (many is_digit) +>+ lit ": " +>+ lazy_any +>+ lit " "
  +>+ Group "event" EVENT_NAMES +>+ lit ": " +>+ Group "id" (many not_blank) +>+ lit " pc: 0x"
  +>+ Group "pc" (many is_hex) +>+ lit " (" +>+ Group "op" (many (λ c, negb (is_char ")" c))) +>+ lit ")".
Definition HPI_INST_RE : regex :=
  Rep true 0 blank +>+ Group "time" (many is_digit) +>+ lit ": " +>+ lazy_any +>+ lit "MinorInst: id="
  +>+ Group "id" (many not_blank) +>+ lit " addr=0x" +>+ Group "pc" (many is_hex) +>+ lit " inst="
  +>+ lit quote +>+ Group "text" lazy_any +>+ lit quote +>+ lit " class=" +>+ lazy_any
  +>+ lit " flags=" +>+ lit quote +>+ Group "flags" lazy_any +>+ lit quote.

(** [identifier.rsplit(".", 1)[0]] *)
Definition hpi_group (identifier : string) : string :=
  match split_at "."%char (rev (chars identifier)) with
  | Some (_, before) => of_chars (rev before)
  | None => identifier
  end.

(** The trace so far: besides the result, the text of every micro-op and the
    commits of every group with their line numbers. *)
Record HpiState := {
  instructions : instructions_t; metadata : gmap string string;
  completed : gmap string (list (Z * Z * string)); failed : gmap Z (list string) }.

Definition ends_with (suffix s : string) : bool :=
  bool_decide (is_Some (after_prefix (rev (chars suffix)) (rev (chars s)))).

Definition hpi_inst (s : HpiState) (caps : captures) : result HpiState :=
  _ ← group_int 10 "time" caps;
  let identifier := group_text "id" caps in
  pc ← group_int 16 "pc" caps;
  let text := of_chars (strip (chars (group_text "text" caps))) in
  let group := hpi_group identifier in
  let inst := default (new_instruction group pc 0 text) (instructions s !! group) in
  let inst := if (ends_with "_uop" text || contains "_uop " text)
                 && negb (contains "uops" (CoremarkCompare.text inst))
              then set_text (CoremarkCompare.text inst +:+ " {multiple uops}") inst else inst in
  Ok {| instructions := <[group := inst]> (instructions s);
        metadata := <[identifier := text]> (metadata s);
        completed := completed s; failed := failed s |}.

Definition hpi_event (s : HpiState) (line_number : Z) (caps : captures) : result HpiState :=
  time ← group_int 10 "time" caps;
  let cycle := time / 1000 in
  let event := group_text "event" caps in
  let identifier := group_text "id" caps in
  pc ← group_int 16 "pc" caps;
  let group := hpi_group identifier in
  let inst := default (new_instruction group pc 0 (group_text "op" caps)) (instructions s !! group) in
  let put inst := <[group := inst]> (instructions s) in
  Ok (if String.eqb event "Issuing inst" then
        {| instructions := put (add_stage "I" cycle (add_issue (cycle, identifier) inst));
           metadata := metadata s; completed := completed s; failed := failed s |}
      else if String.eqb event "Issuing mem ref early inst" then
        {| instructions := put (add_stage "M" cycle inst);
           metadata := metadata s; completed := completed s; failed := failed s |}
      else if String.eqb event "Committing inst" || String.eqb event "Trying to commit mem response" then
        {| instructions := put (add_stage "K" cycle (add_complete (cycle, identifier) inst));
           metadata := metadata s;
           completed := <[group := default [] (completed s !! group)
                                   ++ [(line_number, cycle, identifier)]]> (completed s);
           failed := failed s |}
      else
        {| instructions := put inst; metadata := metadata s; completed := completed s;
           failed := <[cycle := default [] (failed s !! cycle) ++ [group]]> (failed s) |}).

Definition hpi_line (s : HpiState) (numbered_line : Z * list ascii) : result HpiState :=
  let '(line_number, line) := numbered_line in
  match match_at HPI_INST_RE line with
  | Some (_, caps) => hpi_inst s caps
  | None =>
      match match_at HPI_EVENT_RE line with
      | Some (_, caps) => hpi_event s line_number caps
      | None => Ok s
      end
  end.

(** The line of the last commit of a group. *)
Definition last_commit (events : list (Z * Z * string)) : Z :=
  match events with [] => 0 | (line, _, _) :: rest => list_max line (rest.*1.*1) end.

(** The text of a committed instruction: its first micro-op, with their number. *)
Definition micro_ops (metadata : gmap string string) (events : list (Z * Z * string)) : list string :=
  omap (λ event, metadata !! event.2) events.
Definition committed_text (ops : list string) (old : string) : string :=
  match ops with
  | first :: _ :: _ => first +:+ " {" +:+ str_int (zlen ops) +:+ " uops}"
  | [first] => first
  | [] => old
  end.

(** [sorted(commit_records)]: by line, and by group on the same line. *)
Definition record_le (a b : Z * string) : bool :=
  (a.1 <? b.1) || ((a.1 =? b.1) && String.leb a.2 b.2).
Definition commit_records (completed : gmap string (list (Z * Z * string))) : list (Z * string) :=
  (λ '(group, events), (last_commit events, group)) <$> map_to_list completed.

Definition finish (s : HpiState) : HpiTrace := {|
  h_instructions := map_imap (λ group inst,
    Some (match completed s !! group with
          | Some events => set_text (committed_text (micro_ops (metadata s) events) (text inst)) inst
          | None => inst
          end)) (instructions s);
  committed := (sort_le record_le (commit_records (completed s))).*2;
  failed_issue := failed s |}.

Definition load_hpi (text : string) : result HpiTrace :=
  s ← foldM hpi_line {| instructions := ∅; metadata := ∅; completed := ∅; failed := ∅ |}
        (enumerate (file_lines text));
  Ok (finish s).

(** ** Windows and calls *)

Definition instruction (insts : instructions_t) (key : string) : result Instruction :=
  match insts !! key with Some inst => Ok inst | None => Err (KeyError key) end.

(** The places where the entry instruction is in the order. *)
Fixpoint entries_from (insts : instructions_t) (entry_pc index : Z) (order : list string)
    : result (list Z) :=
  match order with
  | [] => Ok []
  | key :: order =>
      inst ← instruction insts key;
      rest ← entries_from insts entry_pc (index + 1) order;
      Ok (if pc inst =? entry_pc then index :: rest else rest)
  end.

Definition select_window (order : list string) (insts : instructions_t) (entry_pc occurrence count : Z)
    : result (Z * list string * Z) :=
  entries ← entries_from insts entry_pc 0 order;
  raise (ValueError ("only " +:+ str_int (zlen entries) +:+ " occurrences of 0x" +:+ hex_int entry_pc
                     +:+ "; cannot select occurrence " +:+ str_int occurrence))
    when zlen entries <? occurrence;;
  start ← get_item entries (occurrence - 1);
  let selected := slice order start (start + count) in
  raise (ValueError ("only " +:+ str_int (zlen selected) +:+ " instructions remain"))
    when negb (zlen selected =? count);;
  Ok (start, selected, zlen entries).

(** The first instruction, and those after it as long as they stay in the
    function. *)
Fixpoint call_from (insts : instructions_t) (low_pc high_pc : Z) (first : bool) (order : list string)
    : result (list string) :=
  match order with
  | [] => Ok []
  | key :: order =>
      inst ← instruction insts key;
      if negb first && negb ((low_pc <=? pc inst) && (pc inst <? high_pc)) then Ok []
      else rest ← call_from insts low_pc high_pc false order; Ok (key :: rest)
  end.
Definition function_call (order : list string) (insts : instructions_t) (start low_pc high_pc : Z)
    : result (list string) :=
  call_from insts low_pc high_pc true (slice order start (zlen order)).

Definition stage_first (insts : instructions_t) (stage key : string) : result Z :=
  inst ← instruction insts key; get_item (stage_cycles stage inst) 0.
Definition stage_last (insts : instructions_t) (stage key : string) : result Z :=
  inst ← instruction insts key; get_item (stage_cycles stage inst) (-1).
Definition call_span (keys : list string) (insts : instructions_t) (start_stage end_stage : string)
    : result Z :=
  firsts ← mapR (stage_first insts start_stage) keys;
  first ← list_minimum firsts;
  lasts ← mapR (stage_last insts end_stage) keys;
  last ← list_maximum lasts;
  Ok (last - first + 1).

(** A measured call: its number, its instructions, its cycles and its IPC. *)
Record Call := { occurrence : Z; keys : list string; cycles : Z; ipc : double }.

Definition measure_call (order : list string) (insts : instructions_t)
    (entry_pc function_end : Z) (start_stage end_stage : string)
    (calls : list Call) (numbered_key : Z * string) : result (list Call) :=
  let '(start, key) := numbered_key in
  inst ← instruction insts key;
  if negb (pc inst =? entry_pc) then Ok calls
  else
    keys ← function_call order insts start entry_pc function_end;
    cycles ← call_span keys insts start_stage end_stage;
    ipc ← true_div (zlen keys) cycles;
    Ok (calls ++ [{| occurrence := zlen calls + 1; keys := keys; cycles := cycles; ipc := ipc |}]).
Definition measure_calls (order : list string) (insts : instructions_t)
    (entry_pc function_end : Z) (start_stage end_stage : string) : result (list Call) :=
  foldM (measure_call order insts entry_pc function_end start_stage end_stage) [] (enumerate order).

(** ** Counts *)

Definition starts_with_any (prefixes : list string) (s : string) : bool :=
  existsb (λ p, String.prefix p s) prefixes.
Definition classify (text : string) : result string :=
  word ← get_item (words (chars text)) 0;
  let op := lower word in
  Ok (if starts_with_any ["lb"; "lh"; "lw"; "ld"; "ldr"] op then "load"
      else if starts_with_any ["sb"; "sh"; "sw"; "sd"; "str"; "stp"] op then "store"
      else if starts_with_any ["b"; "j"; "ret"; "cbz"; "cbnz"; "tbz"; "tbnz"] op then "control"
      else "alu/other").

(** The cycles in which some selected instruction starts, one for each. *)
Definition start_cycle (insts : instructions_t) (stage key : string) : result (list Z) :=
  inst ← instruction insts key;
  Ok (match stage_cycles stage inst with [] => [] | c :: rest => [list_min c rest] end).
Definition width_counts (selected : list string) (insts : instructions_t) (stage : string)
    : result (list (Z * Z)) :=
  starts ← mapR (start_cycle insts stage) selected;
  Ok (counter (counter (mjoin (M := list) (A := Z) starts)).*2).
(** [Counter.__getitem__] *)
Definition count_of {A} `{EqDecision A} (c : list (A * Z)) (x : A) : Z := default 0 (d_get x c).

Definition issue_activity (selected : list string) (insts : instructions_t) : result (Z * Z) :=
  events ← mapR (λ key, inst ← instruction insts key; Ok (issue_events inst).*1) selected;
  let events := mjoin (M := list) (A := Z) events in
  Ok (zlen events, zlen (remove_dups events)).

(** [int(row[name])] *)
Definition cell (row : OrvRow) (name : string) : result Z :=
  match row !! name with Some v => Ok v | None => Err (KeyError name) end.
Definition nonzero (row : OrvRow) (name : string) : result bool := v ← cell row name; Ok (negb (v =? 0)).
(** [int(row[a]) and not int(row[b])] *)
Definition and_not (row : OrvRow) (a b : string) : result bool :=
  x ← nonzero row a; if x : bool then y ← nonzero row b; Ok (negb y) else Ok false.
Definition zero (row : OrvRow) (name : string) : result bool := x ← nonzero row name; Ok (negb x).

(** The labels whose condition holds, in order. *)
Definition labels_that_hold (conditions : list (string * result bool)) : result (list string) :=
  mapped ← mapR (λ '(label, holds), b ← holds; Ok (if b : bool then [label] else [])) conditions;
  Ok (mjoin (M := list) (A := string) mapped).

Definition exposure_labels (row : OrvRow) : result (list string) :=
  labels_that_hold
    [("frontend empty", zero row "fetch_valid");
     ("frontend held", and_not row "fetch_valid" "fetch_fire");
     ("dispatch empty", zero row "dispatch_q");
     ("queued, no issue", and_not row "dispatch_q" "issue_valid");
     ("RAW", nonzero row "raw"); ("WAW", nonzero row "waw"); ("read port", nonzero row "read_port");
     ("barrier", nonzero row "barrier"); ("retire wait", and_not row "retire_q" "retire_valid");
     ("BP fetch stall", nonzero row "bp_fetch_stall"); ("redirect", nonzero row "redirect")].
Definition orv_stall_exposure (trace : OrvTrace) (first_cycle last_cycle : Z)
    : result (list (string * Z)) :=
  foldM (λ counts cycle,
    match rows trace !! cycle with
    | None => Ok counts
    | Some row => labels ← exposure_labels row; Ok (foldl count_one counts labels)
    end) [] (zrange first_cycle (last_cycle + 1)).

Definition cycle_stalls (row : option OrvRow) : result string :=
  match row with
  | None => Ok ""
  | Some row =>
      labels ← labels_that_hold
        [("RAW", nonzero row "raw"); ("WAW", nonzero row "waw"); ("RPORT", nonzero row "read_port");
         ("BAR", nonzero row "barrier"); ("NOISS", and_not row "dispatch_q" "issue_valid");
         ("RETWAIT", and_not row "retire_q" "retire_valid"); ("BPSTALL", nonzero row "bp_fetch_stall");
         ("REDIR", nonzero row "redirect")];
      Ok (join "+" labels)
  end.

(** ** Matched calls *)

Record Matched := {
  number : Z; orv_length : Z; orv_cycles : Z; orv_ipc : double; hpi_length : Z; hpi_cycles : Z;
  hpi_ipc : double; gap : Z }.

Definition match_call (matched : list Matched) (pair : Call * Call) : result (list Matched) :=
  let '(orv, hpi) := pair in
  raise (ValueError "call occurrence streams are not aligned")
    when negb (occurrence orv =? occurrence hpi);;
  Ok (if (100 <=? zlen (keys orv)) && (100 <=? zlen (keys hpi)) then
        matched ++ [{| number := occurrence orv; orv_length := zlen (keys orv);
                       orv_cycles := cycles orv; orv_ipc := ipc orv; hpi_length := zlen (keys hpi);
                       hpi_cycles := cycles hpi; hpi_ipc := ipc hpi;
                       gap := cycles orv - cycles hpi |}]
      else matched).
Definition matched_calls (orv_calls hpi_calls : list Call) : result (list Matched) :=
  foldM match_call [] (zip orv_calls hpi_calls).

(** [sorted(matched, key=gap, reverse=True)] *)
Definition by_gap (matched : list Matched) : list Matched := sort_by (λ m, - gap m) matched.
Fixpoint rank_of (occurrence rank : Z) (matched : list Matched) : option Z :=
  match matched with
  | [] => None
  | m :: matched => if number m =? occurrence then Some rank else rank_of occurrence (rank + 1) matched
  end.

(** [statistics.median] *)
Definition median (xs : list double) : result double :=
  let xs := sort_le SFleb xs in
  let n := zlen xs in
  if n =? 0 then Err (ValueError "no median for empty data")
  else if n mod 2 =? 1 then get_item xs (n / 2)
  else
    a ← get_item xs (n / 2 - 1); b ← get_item xs (n / 2);
    Ok (fdiv (fadd a b) (to_float 2)).

(** [f"{n:+d}"] *)
Definition signed (n : Z) : string := if n <? 0 then str_int n else "+" +:+ str_int n.

(** ** The report *)

(** What the report is made of. *)
Record Comparison := {
  orv : OrvTrace; hpi : HpiTrace; orv_selected : list string; hpi_selected : list string;
  orv_call : list string; hpi_call : list string; c_occurrence : Z; orv_entry_count : Z;
  hpi_entry_count : Z; orv_calls : list Call; hpi_calls : list Call; orv_label : string }.

Definition selected_insts (insts : instructions_t) (keys : list string) : result (list Instruction) :=
  mapR (instruction insts) keys.

(** [min(min(inst.stages[stage]) for inst in insts)] and the maximum. *)
Definition first_cycle (stage : string) (insts : list Instruction) : result Z :=
  firsts ← mapR (λ inst, list_minimum (stage_cycles stage inst)) insts; list_minimum firsts.
Definition last_cycle (stage : string) (insts : list Instruction) : result Z :=
  lasts ← mapR (λ inst, list_maximum (stage_cycles stage inst)) insts; list_maximum lasts.

(** The cycles in which a selected instruction was refused by the HPI issue stage. *)
Definition blocked_cycles (trace : HpiTrace) (selected : list string) (base last : Z) : Z :=
  zlen (filter (λ '(cycle, groups),
                  base ≤ cycle ∧ cycle ≤ last ∧ Exists (λ group, group ∈ selected) groups)
          (map_to_list (failed_issue trace))).

(** [f"{100 / cycles:.3f}"] *)
Definition rate (n cycles : Z) : result string := x ← true_div n cycles; Ok (fixed 3 x).

(** [f"| {first} / {second} |"] *)
Definition slashes (ns : list Z) : string := join " / " (str_int <$> ns).
Definition bars (cells : list string) : string := "| " +:+ join " | " cells +:+ " |".
Definition mix (insts : list Instruction) : result (list (string * Z)) :=
  kinds ← mapR (λ inst, classify (text inst)) insts; Ok (counter kinds).
Definition mix_cell (m : list (string * Z)) : string :=
  slashes (count_of m <$> ["load"; "store"; "control"; "alu/other"]).

Definition STALL_LABELS : list string :=
  ["frontend empty"; "frontend held"; "dispatch empty"; "queued, no issue"; "RAW"; "WAW"; "read port";
   "barrier"; "retire wait"; "BP fetch stall"; "redirect"].
Definition stall_line (stalls : list (string * Z)) (cycles : Z) (label : string) : result string :=
  share ← true_div (100 * count_of stalls label) cycles;
  Ok (bars [label; str_int (count_of stalls label); fixed 1 share +:+ "%"]).

(** The first cycle of a stage of the [n]-th selected instruction, relative. *)
Definition row_cycle (insts : list Instruction) (base n : Z) (stage : string) : result string :=
  inst ← get_item insts n; c ← list_minimum (stage_cycles stage inst); Ok (str_int (c - base)).

Definition worst_line (m : Matched) : string :=
  bars [str_int (number m); str_int (orv_length m); str_int (orv_cycles m); fixed 3 (orv_ipc m);
        str_int (hpi_length m); str_int (hpi_cycles m); fixed 3 (hpi_ipc m); signed (gap m)].

Definition spans (stages : list string) (inst : Instruction) (base : Z) : string :=
  join "/" ((λ stage, stage_span (stage_cycles stage inst) base) <$> stages).
Definition pair_line (orv_base hpi_base : Z) (numbered_pair : Z * (Instruction * Instruction)) : string :=
  let '(index, (orv_inst, hpi_inst)) := numbered_pair in
  "| " +:+ str_int index +:+ " | `" +:+ hex_pad 8 (pc orv_inst) +:+ "` " +:+ escape_table (text orv_inst)
  +:+ " | `" +:+ spans ["F"; "D"; "I"; "C"; "R"] orv_inst orv_base +:+ "` | `"
  +:+ hex_pad 8 (pc hpi_inst) +:+ "` " +:+ escape_table (text hpi_inst) +:+ " | `"
  +:+ spans ["I"; "M"; "K"] hpi_inst hpi_base +:+ "` |".

(** The place of a key in the window, from 1; of the last one if there are two. *)
Definition ordinal (selected : list string) (key : string) : option Z :=
  d_get key (foldl (λ d '(index, key), d_set key index d) [] (numbered selected)).
Definition tag (selected : list string) (key : string) : list string :=
  match ordinal selected key with Some n => ["#" +:+ str_int n] | None => [] end.
(** The selected instructions that are in a stage in a cycle. *)
Definition stage_cell (insts : instructions_t) (selected : list string) (stage : string) (cycle : Z)
    : string :=
  join "/" (mjoin (M := list) (A := string)
    (tag selected <$> filter (λ key, cycle ∈ from_option (stage_cycles stage) [] (insts !! key)) selected)).

Definition cycle_line (c : Comparison) (orv_base hpi_base relative : Z) : result string :=
  let orv_cell stage := stage_cell (o_instructions (orv c)) (orv_selected c) stage (orv_base + relative) in
  let hpi_cell stage := stage_cell (h_instructions (hpi c)) (hpi_selected c) stage (hpi_base + relative) in
  let blocked := mjoin (M := list) (A := string)
    (tag (hpi_selected c) <$> default [] (failed_issue (hpi c) !! (hpi_base + relative))) in
  stalls ← cycle_stalls (rows (orv c) !! (orv_base + relative));
  Ok (bars [str_int relative; orv_cell "I"; orv_cell "C"; orv_cell "R"; stalls; hpi_cell "I";
            hpi_cell "M"; hpi_cell "K"; join "/" (from_keys blocked)]).

(** The numbers of the comparison. *)
Record Numbers := {
  orv_insts : list Instruction; hpi_insts : list Instruction; orv_base : Z; hpi_base : Z;
  orv_last : Z; hpi_last : Z; orv_call_cycles : Z; hpi_call_cycles : Z;
  orv_mix : list (string * Z); hpi_mix : list (string * Z); orv_widths : list (Z * Z);
  hpi_widths : list (Z * Z); orv_uops : Z; orv_issue_active : Z; hpi_uops : Z; hpi_issue_active : Z;
  orv_window_cycles : Z; hpi_window_cycles : Z; orv_stalls : list (string * Z);
  hpi_blocked_cycles : Z; matched : list Matched }.

Definition numbers_of (c : Comparison) : result Numbers :=
  let orv_all := o_instructions (orv c) in
  let hpi_all := h_instructions (hpi c) in
  orv_insts ← selected_insts orv_all (orv_selected c);
  hpi_insts ← selected_insts hpi_all (hpi_selected c);
  orv_base ← first_cycle "I" orv_insts;
  hpi_base ← first_cycle "I" hpi_insts;
  orv_last ← last_cycle "R" orv_insts;
  hpi_last ← last_cycle "K" hpi_insts;
  orv_call_cycles ← call_span (orv_call c) orv_all "I" "R";
  hpi_call_cycles ← call_span (hpi_call c) hpi_all "I" "K";
  orv_mix ← mix orv_insts;
  hpi_mix ← mix hpi_insts;
  orv_widths ← width_counts (orv_selected c) orv_all "I";
  hpi_widths ← width_counts (hpi_selected c) hpi_all "I";
  '(orv_uops, orv_issue_active) ← issue_activity (orv_selected c) orv_all;
  '(hpi_uops, hpi_issue_active) ← issue_activity (hpi_selected c) hpi_all;
  orv_stalls ← orv_stall_exposure (orv c) orv_base orv_last;
  matched ← matched_calls (orv_calls c) (hpi_calls c);
  Ok {| orv_insts := orv_insts; hpi_insts := hpi_insts; orv_base := orv_base; hpi_base := hpi_base;
        orv_last := orv_last; hpi_last := hpi_last; orv_call_cycles := orv_call_cycles;
        hpi_call_cycles := hpi_call_cycles; orv_mix := orv_mix; hpi_mix := hpi_mix;
        orv_widths := orv_widths; hpi_widths := hpi_widths; orv_uops := orv_uops;
        orv_issue_active := orv_issue_active; hpi_uops := hpi_uops;
        hpi_issue_active := hpi_issue_active; orv_window_cycles := orv_last - orv_base + 1;
        hpi_window_cycles := hpi_last - hpi_base + 1; orv_stalls := orv_stalls;
        hpi_blocked_cycles := blocked_cycles (hpi c) (hpi_selected c) hpi_base hpi_last;
        matched := matched |}.

Definition summary_lines (c : Comparison) (n : Numbers) : result (list string) :=
  orv_ipc ← rate (zlen (orv_call c)) (orv_call_cycles n);
  hpi_ipc ← rate (zlen (hpi_call c)) (hpi_call_cycles n);
  orv_rate ← rate 100 (orv_window_cycles n);
  hpi_rate ← rate 100 (hpi_window_cycles n);
  Ok ["# OpenRV64 versus HPI: matched 100-instruction pipeline window"; "";
      "This report starts at the " +:+ str_int (c_occurrence c) +:+ "th dynamic call to `state_transition` in both binaries. The call ordinal aligns the logical workload position; row numbers do not claim ISA-level instruction equivalence.";
      "";
      "Observed entry calls: OpenRV64 " +:+ str_int (orv_entry_count c) +:+ ", HPI "
      +:+ str_int (hpi_entry_count c) +:+ ".";
      ""; "## Matched-call and 100-instruction summary"; "";
      bars ["Measurement"; escape_table (orv_label c); "gem5 HPI"]; "| --- | ---: | ---: |";
      bars ["Instructions in matched `state_transition` call"; str_int (zlen (orv_call c));
            str_int (zlen (hpi_call c))];
      bars ["Issue-through-retire/commit cycles for matched call"; str_int (orv_call_cycles n);
            str_int (hpi_call_cycles n)];
      bars ["Local matched-call IPC"; orv_ipc; hpi_ipc];
      bars ["Cycles spanning the selected 100 instructions"; str_int (orv_window_cycles n);
            str_int (hpi_window_cycles n)];
      bars ["Local 100-instruction IPC"; orv_rate; hpi_rate];
      bars ["Issued backend micro-ops for those 100 instructions"; str_int (orv_uops n);
            str_int (hpi_uops n)];
      bars ["Cycles with selected issue / without selected issue";
            slashes [orv_issue_active n; orv_window_cycles n - orv_issue_active n];
            slashes [hpi_issue_active n; hpi_window_cycles n - hpi_issue_active n]];
      bars ["Loads / stores / controls / other"; mix_cell (orv_mix n); mix_cell (hpi_mix n)];
      bars ["One-wide / two-wide / three-wide issue cycles";
            slashes (count_of (orv_widths n) <$> [1; 2; 3]);
            slashes (count_of (hpi_widths n) <$> [1; 2]) +:+ " / n/a"];
      bars ["Cycles where selected oldest instruction was blocked"; "n/a";
            str_int (hpi_blocked_cycles n)];
      "";
      "The width row counts architectural instruction starts. The micro-op row exposes decomposed AArch64 instructions, including pre-indexed loads; these are not free single-operation backend work in HPI.";
      ""].

Definition stall_lines (n : Numbers) : result (list string) :=
  lines ← mapR (stall_line (orv_stalls n) (orv_window_cycles n)) STALL_LABELS;
  Ok (["## OpenRV64 stall exposure in this 100-instruction span"; "";
       "Counters overlap: one cycle can carry several causes."; "";
       "| Condition | Cycles | Percent of " +:+ str_int (orv_window_cycles n) +:+ "-cycle span |";
       "| --- | ---: | ---: |"] ++ lines).

Definition reading_lines (c : Comparison) (n : Numbers) : list string :=
  [""; "## What this window shows"; "";
   "- Instruction count is not the primary deficit. For the same dynamic call HPI executes "
   +:+ str_int (zlen (hpi_call c) - zlen (orv_call c)) +:+ " more architectural instructions yet takes "
   +:+ str_int (orv_call_cycles n - hpi_call_cycles n) +:+ " fewer cycles.";
   "- Pre/post-increment is not a hidden one-uop advantage here. HPI decomposes the pre-indexed loads shown below into two issued micro-ops.";
   "- Compare/branch fusion is not required to explain HPI's lead. Its trace issues separate `subs` and conditional-branch instructions; it frequently overlaps the branch with the next independent `subs`.";
   "- The dominant deficit is scheduling and availability: OpenRV64 spends long runs with queued instructions but no issue, and its load-to-use chains expose the full memory-pipe completion latency.";
   "- The predictor never explicitly stalls fetch in this span, but there are "
   +:+ str_int (count_of (orv_stalls n) "redirect")
   +:+ " correction redirects. Prediction is therefore not free, but it is not large enough to explain the "
   +:+ str_int (orv_window_cycles n - hpi_window_cycles n) +:+ "-cycle window gap by itself.";
   ""].

Definition mechanism_lines (n : Numbers) : result (list string) :=
  let at_row i stage := row_cycle (orv_insts n) (orv_base n) i stage in
  i0 ← at_row 0 "I"; c0 ← at_row 0 "C"; i1 ← at_row 1 "I"; c1 ← at_row 1 "C"; i2 ← at_row 2 "I";
  i10 ← at_row 10 "I"; c10 ← at_row 10 "C"; r10 ← at_row 10 "R"; i11 ← at_row 11 "I";
  Ok ["## Pipe-state examples and implicated mechanisms"; "";
      "- OpenRV64 rows 1-3 form a true load chain: `ld` issues at " +:+ i0 +:+ " and completes at "
      +:+ c0 +:+ ", dependent `lbu` issues at " +:+ i1 +:+ " and completes at " +:+ c1
      +:+ ", and the branch issues at " +:+ i2
      +:+ ". HPI fills part of the corresponding interval with an independent `orr`, then issues `cbz` and the next independent `movz` together at relative cycle 6.";
      "- OpenRV64 row 11 writes `a2` at issue " +:+ i10 +:+ ", completes at " +:+ c10
      +:+ ", and retires at " +:+ r10 +:+ ". Row 12 also writes `a2` and does not issue until " +:+ i11
      +:+ ": RAW forwarding would not remove a destination-ownership WAW stall. HPI rows 9, 11, 13, and 15 repeatedly write `w0` and start on consecutive cycles 10-13, committing later on cycles 13-16.";
      "- HPI starts an older conditional branch and the next younger `subs` together on cycles 10, 11, 12, and 13. OpenRV64 now resolves aligned conditional branches before retirement and can place a branch behind older work in the same issue group, but the branch still terminates that group. It therefore cannot use the second ALU for a younger instruction after the branch as HPI repeatedly does here.";
      "- OpenRV64's issue chooser is a strict prefix: candidate 1 requires candidate 0 to fire and candidate 2 requires candidate 1. It cannot use an idle lane around an oldest blocked load, WAW, branch, or fixed-lane conflict. HPI is also in-order, but its latency-aware scoreboard and input buffering make the oldest-blocked intervals materially shorter.";
      "- `RETWAIT` is visible on " +:+ str_int (count_of (orv_stalls n) "retire wait") +:+ " of "
      +:+ str_int (orv_window_cycles n)
      +:+ " cycles. This does not mean retirement alone owns all of those cycles—the counters overlap—but it shows how often the finite in-order retirement window contains work without completing its oldest contiguous prefix.";
      "- This selected window is inside `state_transition`, not at a return. The RAS improves call-boundary behavior in the full run but does not remove the dependency and scheduling bubbles shown here.";
      ""].

Definition worst_lines (c : Comparison) (n : Numbers) : result (list string) :=
  orv_median ← median (orv_ipc <$> matched n);
  hpi_median ← median (hpi_ipc <$> matched n);
  let rank := rank_of (c_occurrence c) 1 (by_gap (matched n)) in
  Ok (["## Where the matched-call cycle gap is largest"; "";
       "There are " +:+ str_int (zlen (matched n))
       +:+ " matched calls with at least 100 architectural instructions on both ISAs. Across those calls, OpenRV64 local IPC has median "
       +:+ fixed 3 orv_median +:+ "; HPI's median is " +:+ fixed 3 hpi_median +:+ ". "
       +:+ match rank with
           | Some rank => "The selected call ranks " +:+ str_int rank +:+ " by absolute cycle gap."
           | None => "The selected call is shorter than the substantial-call filter."
           end;
       "";
       "| Call occurrence | ORV instructions | ORV cycles | ORV IPC | HPI instructions | HPI cycles | HPI IPC | ORV minus HPI cycles |";
       "| ---: | ---: | ---: | ---: | ---: | ---: | ---: | ---: |"]
      ++ (worst_line <$> take 10 (by_gap (matched n)))).

Definition table_lines (n : Numbers) : list string :=
  [""; "Stage cycles below are relative to each core's first issue in the window. OpenRV64 shows fetch/decode/issue/complete/retire; HPI's reliable per-instruction events from `MinorExecute` are issue, memory launch (`M`), and ordered commit (`K`).";
   "";
   "OpenRV64 `F` and `D` ranges are valid-presentation intervals, not request-to-response latency. For example, `F=0-9` means the same already-fetched instruction was visible through cycle 9 while downstream backpressure prevented acceptance. The trace does not attach an individual AXI line-request start to each instruction.";
   ""; "## 100 dynamic instructions side by side"; "";
   "| # | OpenRV64 PC and instruction | F/D/I/C/R | HPI PC and instruction | I/M/K |";
   "| ---: | --- | --- | --- | --- |"]
  ++ (pair_line (orv_base n) (hpi_base n) <$> numbered (zip (orv_insts n) (hpi_insts n))).

Definition cycle_lines (c : Comparison) (n : Numbers) : result (list string) :=
  let max_relative := Z.max (orv_last n - orv_base n) (hpi_last n - hpi_base n) in
  lines ← mapR (cycle_line c (orv_base n) (hpi_base n)) (zrange 0 (max_relative + 1));
  Ok ([""; "## Cycle-by-cycle backend pipe state"; "";
       "Instruction numbers refer to the table above. Empty cells are real bubbles within that core's selected window.";
       "";
       "| Relative cycle | OpenRV64 issue | complete | retire | ORV stalls | HPI issue | memory | commit | HPI blocked oldest |";
       "| ---: | --- | --- | --- | --- | --- | --- | --- | --- |"] ++ lines ++ [""]).

Definition render (c : Comparison) : result string :=
  n ← numbers_of c;
  summary ← summary_lines c n;
  stalls ← stall_lines n;
  mechanisms ← mechanism_lines n;
  worst ← worst_lines c n;
  cycles ← cycle_lines c n;
  Ok (join newline (summary ++ stalls ++ reading_lines c n ++ mechanisms ++ worst ++ table_lines n
                    ++ cycles)).

Record Args := {
  orv_entry : Z; orv_function_end : Z; hpi_entry : Z; hpi_function_end : Z; a_occurrence : Z;
  count : Z; a_label : string }.

Definition compare (objdump : string) (orv_trace : Table) (hpi_trace : string) (args : Args)
    : result Comparison :=
  disasm ← disassembly objdump;
  orv ← load_orv orv_trace disasm;
  hpi ← load_hpi hpi_trace;
  '(orv_start, orv_selected, orv_entry_count) ←
    select_window (retired orv) (o_instructions orv) (orv_entry args) (a_occurrence args) (count args);
  '(hpi_start, hpi_selected, hpi_entry_count) ←
    select_window (committed hpi) (h_instructions hpi) (hpi_entry args) (a_occurrence args) (count args);
  orv_call ← function_call (retired orv) (o_instructions orv) orv_start (orv_entry args)
               (orv_function_end args);
  hpi_call ← function_call (committed hpi) (h_instructions hpi) hpi_start (hpi_entry args)
               (hpi_function_end args);
  orv_calls ← measure_calls (retired orv) (o_instructions orv) (orv_entry args) (orv_function_end args)
                "I" "R";
  hpi_calls ← measure_calls (committed hpi) (h_instructions hpi) (hpi_entry args)
                (hpi_function_end args) "I" "K";
  Ok {| orv := orv; hpi := hpi; orv_selected := orv_selected; hpi_selected := hpi_selected;
        orv_call := orv_call; hpi_call := hpi_call; c_occurrence := a_occurrence args;
        orv_entry_count := orv_entry_count; hpi_entry_count := hpi_entry_count;
        orv_calls := orv_calls; hpi_calls := hpi_calls; orv_label := a_label args |}.

Definition main (objdump : string) (orv_trace : Table) (hpi_trace : string) (args : Args)
    : result string :=
  c ← compare objdump orv_trace hpi_trace args; render c.

(** ** Windows and calls *)

(** The instruction is at this address. *)
Definition is_at (insts : instructions_t) (address : Z) (key : string) : bool :=
  match insts !! key with Some inst => pc inst =? address | None => false end.
Definition inside (insts : instructions_t) (low high : Z) (key : string) : bool :=
  match insts !! key with Some inst => (low <=? pc inst) && (pc inst <? high) | None => false end.

Lemma instruction_Ok insts key inst : instruction insts key = Ok inst ↔ insts !! key = Some inst.
Proof.
  unfold instruction. destruct (insts !! key); split; try done; [by intros ->%Ok_inj|by intros [= ->]].
Qed.

Lemma entries_from_Ok insts entry_pc index order entries :
  entries_from insts entry_pc index order = Ok entries →
  zlen entries = zcount (is_at insts entry_pc) order ∧
  ∀ k start, entries !! k = Some start → ∃ i key,
    start = index + Z.of_nat i ∧ order !! i = Some key ∧ is_at insts entry_pc key = true ∧
    zcount (is_at insts entry_pc) (take i order) = Z.of_nat k.
Proof.
  revert index entries. induction order as [|key order IH]; intros index entries He.
  { apply Ok_inj in He as <-. split; [done|]. by intros [|k] start. }
  cbn [entries_from] in He. apply bind_Ok in He as (inst & Hi & He).
  apply bind_Ok in He as (rest & Hrest & He). apply Ok_inj in He. apply instruction_Ok in Hi.
  assert (is_at insts entry_pc key = (pc inst =? entry_pc)) as Hat by (unfold is_at; by rewrite Hi).
  destruct (IH _ _ Hrest) as [Hlen Hall]. unfold zcount in *. rewrite zsum_cons, Hat.
  destruct (pc inst =? entry_pc) eqn:Hpc; subst entries.
  - split; [autorewrite with len; cbn; lia|]. intros [|k] start Hk.
    + injection Hk as <-. exists 0%nat, key. cbn. split_and!; [lia|done|by rewrite Hat|done].
    + destruct (Hall k start Hk) as (i & key' & -> & Ho & Hk' & Hc). exists (S i), key'.
      split_and!; [lia|done|done|]. cbn [take]. rewrite zsum_cons, Hat, Hc. cbn. lia.
  - split; [cbn; lia|]. intros k start Hk.
    destruct (Hall k start Hk) as (i & key' & -> & Ho & Hk' & Hc). exists (S i), key'.
    split_and!; [lia|done|done|]. cbn [take]. rewrite zsum_cons, Hat, Hc. cbn. lia.
Qed.

(** The place of an occurrence of the entry instruction. *)
Definition occurrence_at (insts : instructions_t) (entry_pc occurrence start : Z) (order : list string)
    : Prop :=
  0 ≤ start ∧ (∃ key, order !! Z.to_nat start = Some key ∧ is_at insts entry_pc key = true) ∧
  zcount (is_at insts entry_pc) (take (Z.to_nat start) order) = occurrence - 1.

Lemma select_window_Ok order insts entry_pc occurrence count start selected n :
  1 ≤ occurrence → 0 ≤ count →
  select_window order insts entry_pc occurrence count = Ok (start, selected, n) →
  occurrence_at insts entry_pc occurrence start order ∧
  selected = take (Z.to_nat count) (drop (Z.to_nat start) order) ∧ zlen selected = count ∧
  n = zcount (is_at insts entry_pc) order.
Proof.
  unfold select_window. intros Ho Hc Hs. apply bind_Ok in Hs as (entries & He & Hs).
  apply guard_Ok in Hs as [Hlen Hs]. apply Z.ltb_ge in Hlen. apply bind_Ok in Hs as (start' & Hg & Hs).
  apply guard_Ok in Hs as [Hn Hs]. apply negb_false_iff, Z.eqb_eq in Hn. apply Ok_inj in Hs.
  injection Hs as -> <- <-. destruct (entries_from_Ok _ _ _ _ _ He) as [Hz Hall].
  apply get_item_inv in Hg; [|lia].
  destruct (Hall _ _ Hg) as (i & key & -> & Hi & Hat & Hcount).
  rewrite slice_clipped in Hn |- * by lia.
  replace (0 + Z.of_nat i + count - (0 + Z.of_nat i)) with count in Hn |- * by lia.
  rewrite Z.add_0_l in *. split; [|done]. unfold occurrence_at. rewrite Nat2Z.id.
  split; [lia|]. split; [by exists key|]. rewrite Hcount. lia.
Qed.

Lemma call_from_Ok insts low high first order keys :
  call_from insts low high first order = Ok keys →
  ∃ rest, order = keys ++ rest ∧
    Forall (λ key, inside insts low high key = true) (if first then tail keys else keys) ∧
    (first = true → order ≠ [] → keys ≠ []) ∧
    match head rest with Some key => inside insts low high key = false | None => True end.
Proof.
  revert first keys. induction order as [|key order IH]; intros first keys Hk.
  { apply Ok_inj in Hk as <-. exists []. split_and!; try done. by destruct first. }
  cbn [call_from] in Hk. apply bind_Ok in Hk as (inst & Hi & Hk). apply instruction_Ok in Hi.
  assert (inside insts low high key = (low <=? pc inst) && (pc inst <? high)) as Hin
    by (unfold inside; by rewrite Hi).
  destruct (negb first && _) eqn:Hstop.
  - apply Ok_inj in Hk as <-. apply andb_true_iff in Hstop as [Hf Hout].
    apply negb_true_iff in Hf as ->. apply negb_true_iff in Hout.
    exists (key :: order). split_and!; [done|constructor|done|]. cbn. by rewrite Hin.
  - apply bind_Ok in Hk as (rest & Hrest & Hk). apply Ok_inj in Hk as <-.
    destruct (IH false rest Hrest) as (tail & -> & Hall & _ & Hhead).
    exists tail. split_and!; try done. destruct first; [done|]. constructor; [|done].
    cbn in Hstop. apply negb_false_iff in Hstop. by rewrite Hin.
Qed.

(** A call: the instructions from its first one as far as they stay in the
    function. *)
Definition is_call (insts : instructions_t) (low high start : Z) (order keys : list string) : Prop :=
  ∃ rest, drop (Z.to_nat start) order = keys ++ rest ∧ keys ≠ [] ∧
    Forall (λ key, inside insts low high key = true) (tail keys) ∧
    match head rest with Some key => inside insts low high key = false | None => True end.

Lemma function_call_Ok order insts start low high keys :
  0 ≤ start < zlen order →
  function_call order insts start low high = Ok keys → is_call insts low high start order keys.
Proof.
  unfold function_call. intros Hs Hk. rewrite slice_clipped in Hk by lia.
  rewrite (take_ge (drop _ _)) in Hk by (rewrite length_drop; unfold zlen in *; lia).
  apply call_from_Ok in Hk as (rest & Hr & Hall & Hne & Hhead). exists rest. split_and!; try done.
  apply Hne; [done|]. intros He%(f_equal length). rewrite length_drop in He. unfold zlen in *.
  cbn in He. lia.
Qed.

(** The measured calls: numbered from 1, one for every entry. *)
Definition measured (insts : instructions_t) (entry_pc function_end : Z) (start_stage end_stage : string)
    (order : list string) (calls : list Call) : Prop :=
  zlen calls = zcount (is_at insts entry_pc) order ∧
  ∀ i call, calls !! i = Some call → occurrence call = Z.of_nat i + 1 ∧
    ∃ start, occurrence_at insts entry_pc (occurrence call) start order ∧
      is_call insts entry_pc function_end start order (keys call) ∧
      call_span (keys call) insts start_stage end_stage = Ok (cycles call).

Lemma measure_calls_Ok order insts entry_pc function_end start_stage end_stage calls :
  measure_calls order insts entry_pc function_end start_stage end_stage = Ok calls →
  measured insts entry_pc function_end start_stage end_stage order calls.
Proof.
  unfold measure_calls. intros Hm.
  enough (∃ n, n = length (enumerate order) ∧
    zlen calls = zcount (is_at insts entry_pc) (take n order) ∧
    ∀ i call, calls !! i = Some call → occurrence call = Z.of_nat i + 1 ∧
      ∃ start, occurrence_at insts entry_pc (occurrence call) start order ∧
        is_call insts entry_pc function_end start order (keys call) ∧
        call_span (keys call) insts start_stage end_stage = Ok (cycles call)) as (n & -> & Hz & Hall).
  { split; [|done]. by rewrite Hz, length_enumerate, firstn_all. }
  eapply (foldM_inv (λ don calls, ∃ n, n = length don ∧
    zlen calls = zcount (is_at insts entry_pc) (take n order) ∧ _)) in Hm; [exact Hm| |].
  { exists 0%nat. split_and!; [done|done|]. by intros [|i] call. }
  intros don [start key] before after (n & -> & Hz & Hall) Hstep Hprefix.
  apply enumerate_prefix in Hprefix as [-> Hkey]. set (k := length don) in *.
  exists (S k). rewrite length_app, Nat.add_1_r. split; [done|].
  apply bind_Ok in Hstep as (inst & Hi & Hstep). apply instruction_Ok in Hi.
  assert (is_at insts entry_pc key = (pc inst =? entry_pc)) as Hat by (unfold is_at; by rewrite Hi).
  rewrite (take_S_r _ _ _ Hkey). unfold zcount in *. rewrite zsum_app. cbn [zsum foldr]. rewrite Hat.
  destruct (pc inst =? entry_pc) eqn:Hpc; cbn [negb] in Hstep.
  2: { apply Ok_inj in Hstep as <-. split; [cbn; lia|done]. }
  apply bind_Ok in Hstep as (keys & Hkeys & Hstep). apply bind_Ok in Hstep as (cycles & Hspan & Hstep).
  apply bind_Ok in Hstep as (ipc & _ & Hstep). apply Ok_inj in Hstep as <-.
  split; [autorewrite with len; cbn; lia|]. intros i call Hc.
  apply lookup_app_Some in Hc as [Hc|[Hge Hc]]; [by apply Hall|].
  destruct (i - length before)%nat eqn:Hdiff; [|done]. injection Hc as <-. cbn [occurrence CoremarkCompare.keys CoremarkCompare.cycles].
  assert (i = length before) as -> by lia. split; [unfold zlen; lia|].
  exists (Z.of_nat k). apply lookup_lt_Some in Hkey as Hlt.
  split_and!; [|apply function_call_Ok; [unfold zlen; lia|done]|done].
  unfold occurrence_at, zcount. rewrite Nat2Z.id. split_and!; [lia|by exists key|lia].
Qed.

(** ** The calls of the two traces match by number *)

Lemma measured_occurrence insts entry_pc function_end start_stage end_stage order calls i call :
  measured insts entry_pc function_end start_stage end_stage order calls →
  calls !! i = Some call → occurrence call = Z.of_nat i + 1.
Proof. intros [_ Hall] Hc. by apply Hall in Hc as [? _]. Qed.

(** Calls that are numbered from 1 are never out of step. *)
Lemma matched_calls_total (orv_calls hpi_calls : list Call) :
  (∀ i call, orv_calls !! i = Some call → occurrence call = Z.of_nat i + 1) →
  (∀ i call, hpi_calls !! i = Some call → occurrence call = Z.of_nat i + 1) →
  ∃ matched, matched_calls orv_calls hpi_calls = Ok matched.
Proof.
  intros Ho Hh. unfold matched_calls.
  destruct (foldM_total (λ _ _, True) match_call [] (zip orv_calls hpi_calls)) as (m & Hm & _); [done| |by exists m].
  intros don [orv hpi] s _ [rest Hr].
  assert (zip orv_calls hpi_calls !! length don = Some (orv, hpi)) as Hl
    by (rewrite Hr, <-app_assoc; by apply list_lookup_middle).
  apply lookup_zip_with_Some in Hl as (a & b & [= <- <-] & Ha & Hb).
  unfold match_call. rewrite (Ho _ _ Ha), (Hh _ _ Hb), Z.eqb_refl. cbn [negb]. eauto.
Qed.

(** ** What the OpenRV64 trace says *)

(** An instruction presented in a stage. *)
Record Event := { e_cycle : Z; e_stage : string; e_key : string; e_pc : Z; e_bits : Z }.

(** The events of a row, lane by lane and stage by stage. *)
Definition lane_events (raw : Row) (cycle : Z) (stage prefix : string) (mask lane : Z)
    : result (list Event) :=
  if negb (bit mask lane) then Ok []
  else
    let column name := prefix +:+ str_int lane +:+ name in
    uid ← int_column raw (column "_uid") 16;
    pc ← int_column raw (column "_pc") 16;
    bits ← int_column raw (column "_instr") 16;
    Ok [{| e_cycle := cycle; e_stage := stage; e_key := orv_key uid pc bits; e_pc := pc;
           e_bits := bits |}].
Definition stage_events (raw : Row) (cycle : Z) (stage : string * string * string)
    : result (list Event) :=
  let '(name, mask_name, prefix) := stage in
  mask ← int_column raw mask_name 16;
  events ← mapR (lane_events raw cycle name prefix mask) (zrange 0 3);
  Ok (mjoin (M := list) (A := Event) events).
Definition row_events (raw : Row) : result (list Event) :=
  cycle ← int_column raw "cycle" 10;
  events ← mapR (stage_events raw cycle) ORV_STAGES;
  Ok (mjoin (M := list) (A := Event) events).

Definition cycles_at (stage key : string) (events : list Event) : list Z :=
  e_cycle <$> filter (λ e, e_stage e = stage ∧ e_key e = key) events.
Definition keys_retired (events : list Event) : list string :=
  e_key <$> filter (λ e, e_stage e = "R") events.

(** The trace holds exactly these events: an instruction for every key, with the
    identity and the text of an event of it and its cycles in every stage; and the
    keys in the order of their first retirement. *)
Definition holds (disasm : gmap Z string) (events : list Event) (trace : OrvTrace) : Prop :=
  (∀ key, is_Some (o_instructions trace !! key) ↔ key ∈ e_key <$> events) ∧
  (∀ key inst, o_instructions trace !! key = Some inst →
     (∃ e, e ∈ events ∧ e_key e = key ∧ pc inst = e_pc e ∧ bits inst = e_bits e ∧
           text inst = default ("0x" +:+ hex_pad 8 (e_bits e)) (disasm !! e_pc e)) ∧
     ∀ stage, stage_cycles stage inst = cycles_at stage key events) ∧
  retired trace = from_keys (keys_retired events).

Lemma from_keys_snoc {A} `{EqDecision A} (l : list A) x :
  from_keys (l ++ [x]) = if bool_decide (x ∈ from_keys l) then from_keys l else from_keys l ++ [x].
Proof. unfold from_keys. by rewrite foldl_app. Qed.

Lemma cycles_at_snoc stage key events e :
  cycles_at stage key (events ++ [e])
  = cycles_at stage key events ++ (if decide (e_stage e = stage ∧ e_key e = key) then [e_cycle e] else []).
Proof.
  unfold cycles_at. rewrite filter_app, fmap_app. f_equal. rewrite filter_cons. by case_decide.
Qed.

Lemma cycles_at_fresh stage key events : key ∉ e_key <$> events → cycles_at stage key events = [].
Proof.
  intros Hk. unfold cycles_at. rewrite filter_none; [done|]. apply Forall_forall.
  intros e He [_ Hkey]. apply Hk. subst key. by apply list_elem_of_fmap_2.
Qed.

Lemma stage_cycles_add stage stage' cycle inst :
  stage_cycles stage' (add_stage stage cycle inst)
  = stage_cycles stage' inst ++ (if decide (stage = stage') then [cycle] else []).
Proof.
  unfold stage_cycles, add_stage. cbn [stages]. case_decide as Hs.
  - subst. by rewrite lookup_insert_eq.
  - rewrite lookup_insert_ne by done. by rewrite app_nil_r.
Qed.

(** The bookkeeping of the issue and the completion leaves the rest alone. *)
Lemma noted_fields (issue complete : bool) event inst :
  let inst' := if issue then add_issue event inst
               else if complete then add_complete event inst else inst in
  pc inst' = pc inst ∧ bits inst' = bits inst ∧ text inst' = text inst ∧
  ∀ stage, stage_cycles stage inst' = stage_cycles stage inst.
Proof. by destruct issue, complete. Qed.

Lemma orv_event_holds disasm events trace e :
  holds disasm events trace →
  holds disasm (events ++ [e])
    (orv_event disasm (e_cycle e) (e_stage e) trace (e_key e) (e_pc e) (e_bits e)).
Proof.
  intros (Hkeys & Hinsts & Hretired). unfold orv_event.
  set (fresh := new_instruction _ _ _ _). set (old := default fresh _).
  set (added := add_stage (e_stage e) (e_cycle e) old).
  destruct (noted_fields (String.eqb (e_stage e) "I") (String.eqb (e_stage e) "C")
              (e_cycle e, text added) added) as (Hpc & Hbits & Htext & Hstages).
  set (noted := if String.eqb (e_stage e) "I" then _ else _) in *.
  split_and!; cbn [o_instructions retired].
  - intros key. rewrite fmap_app, elem_of_app, <-Hkeys. cbn. rewrite list_elem_of_singleton.
    destruct (decide (key = e_key e)) as [->|Hne].
    + rewrite lookup_insert_eq. split; [by right|by eexists].
    + rewrite lookup_insert_ne by done. split; [by left|by intros [?|?]].
  - intros key inst. destruct (decide (key = e_key e)) as [->|Hne].
    + rewrite lookup_insert_eq. intros [= <-]. rewrite Hpc, Hbits, Htext.
      unfold old in added. destruct (o_instructions trace !! e_key e) as [i|] eqn:Hi; cbn in added.
      * destruct (Hinsts _ _ Hi) as [(e0 & He0 & Hk0 & Hp0 & Hb0 & Ht0) Hc]. split.
        { exists e0. rewrite elem_of_app. split_and!; try done. by left. }
        intros stage. rewrite Hstages. unfold added. rewrite stage_cycles_add, Hc, cycles_at_snoc.
        f_equal. repeat case_decide; naive_solver.
      * split; [exists e; rewrite elem_of_app, list_elem_of_singleton; split_and!; try done; by right|].
        intros stage. rewrite Hstages. unfold added. rewrite stage_cycles_add, cycles_at_snoc.
        rewrite cycles_at_fresh by (rewrite <-Hkeys, Hi; by intros [? ?]).
        f_equal. repeat case_decide; naive_solver.
    + rewrite lookup_insert_ne by done. intros Hi.
      destruct (Hinsts _ _ Hi) as [(e0 & He0 & Hk0 & Hp0 & Hb0 & Ht0) Hc]. split.
      { exists e0. rewrite elem_of_app. split_and!; try done. by left. }
      intros stage. rewrite Hc, cycles_at_snoc. rewrite decide_False by (intros [_ ?]; congruence).
      by rewrite app_nil_r.
  - unfold keys_retired. rewrite filter_app, fmap_app, filter_cons, filter_nil.
    fold (keys_retired events). destruct (String.eqb_spec (e_stage e) "R") as [Hr|Hr].
    + rewrite decide_True by done. cbn [fmap list_fmap andb negb]. rewrite from_keys_snoc, <-Hretired.
      by destruct (bool_decide _).
    + rewrite decide_False by done. cbn. by rewrite app_nil_r.
Qed.

Lemma mapR_snoc {A B} (f : A → result B) xs ys x y :
  mapR f xs = Ok ys → f x = Ok y → mapR f (xs ++ [x]) = Ok (ys ++ [y]).
Proof. rewrite !mapR_Ok. intros Hxs Hx. apply Forall2_app; [done|]. by constructor. Qed.

(** A loop that reads its items into events reads them in order. *)
Lemma fold_events {A} disasm (read : OrvTrace → A → result OrvTrace) (events_of : A → result (list Event))
    xs events trace trace' :
  (∀ events trace trace' x, holds disasm events trace → read trace x = Ok trace' →
     ∃ new, events_of x = Ok new ∧ holds disasm (events ++ new) trace') →
  holds disasm events trace → foldM read trace xs = Ok trace' →
  ∃ new, mapR events_of xs = Ok new ∧ holds disasm (events ++ mjoin new) trace'.
Proof.
  intros Hread Hh Hf.
  eapply (foldM_inv (λ don trace', ∃ new, mapR events_of don = Ok new ∧
    holds disasm (events ++ mjoin new) trace')) in Hf; [exact Hf| |].
  - exists []. cbn. by rewrite app_nil_r.
  - intros don x s1 s2 (new & Hnew & Hh1) Hx _. destruct (Hread _ _ _ _ Hh1 Hx) as (more & Hmore & Hh2).
    exists (new ++ [more]). split; [by apply mapR_snoc|]. rewrite join_app. cbn.
    by rewrite app_nil_r, app_assoc.
Qed.

Lemma read_lane_holds disasm raw cycle stage prefix mask events trace lane trace' :
  holds disasm events trace → read_lane disasm raw cycle stage prefix mask trace lane = Ok trace' →
  ∃ new, lane_events raw cycle stage prefix mask lane = Ok new ∧ holds disasm (events ++ new) trace'.
Proof.
  intros Hh Hr. unfold read_lane in Hr. unfold lane_events. destruct (negb (bit mask lane)).
  { apply Ok_inj in Hr as <-. exists []. by rewrite app_nil_r. }
  apply bind_Ok in Hr as (uid & Huid & Hr). apply bind_Ok in Hr as (p & Hp & Hr).
  apply bind_Ok in Hr as (b & Hb & Hr). apply Ok_inj in Hr as <-.
  rewrite Huid. cbn [mbind result_bind]. rewrite Hp. cbn [mbind result_bind]. rewrite Hb.
  cbn [mbind result_bind]. eexists. split; [reflexivity|].
  by apply (orv_event_holds disasm events trace {| e_cycle := cycle; e_stage := stage;
    e_key := orv_key uid p b; e_pc := p; e_bits := b |}).
Qed.

Lemma read_stage_holds disasm raw cycle events trace stage trace' :
  holds disasm events trace → read_stage disasm raw cycle trace stage = Ok trace' →
  ∃ new, stage_events raw cycle stage = Ok new ∧ holds disasm (events ++ new) trace'.
Proof.
  destruct stage as [[name mask_name] prefix]. intros Hh Hr.
  apply bind_Ok in Hr as (mask & Hm & Hr). unfold stage_events. rewrite Hm. cbn [mbind result_bind].
  eapply (fold_events disasm _ (lane_events raw cycle name prefix mask)) in Hr as (new & Hnew & Hh');
    [|intros; by eapply read_lane_holds|done].
  rewrite Hnew. cbn [mbind result_bind]. by exists (mjoin new).
Qed.

Lemma read_row_holds disasm events trace raw trace' :
  holds disasm events trace → read_row disasm trace raw = Ok trace' →
  ∃ new, row_events raw = Ok new ∧ holds disasm (events ++ new) trace'.
Proof.
  intros Hh Hr. apply bind_Ok in Hr as (cycle & Hc & Hr). apply bind_Ok in Hr as (row1 & _ & Hr).
  apply bind_Ok in Hr as (row2 & _ & Hr). unfold row_events. rewrite Hc. cbn [mbind result_bind].
  eapply (fold_events disasm _ (stage_events raw cycle)) in Hr as (new & Hnew & Hh');
    [|intros; by eapply read_stage_holds|exact Hh].
  rewrite Hnew. cbn [mbind result_bind]. by exists (mjoin new).
Qed.

Lemma load_orv_spec table disasm trace :
  load_orv table disasm = Ok trace →
  ∃ events, mapR row_events (Csv.rows table) = Ok events ∧ holds disasm (mjoin events) trace.
Proof.
  intros Hl. eapply (fold_events disasm _ row_events _ []) in Hl as (events & He & Hh).
  - by exists events.
  - intros. by eapply read_row_holds.
  - split_and!; [|done|done]. intros key. cbn. rewrite lookup_empty, elem_of_nil. split; [|done].
    by intros [? ?].
Qed.

(** ** The order of the HPI commits *)

(** Every committed group once, by the line of its last commit. *)
Lemma finish_committed s :
  committed (finish s) ≡ₚ (map_to_list (completed s)).*1 ∧
  Pairwise (λ a b, ∃ x y, completed s !! a = Some x ∧ completed s !! b = Some y ∧
              last_commit x ≤ last_commit y) (committed (finish s)).
Proof.
  cbn [finish committed]. split.
  - rewrite sort_le_perm. unfold commit_records. rewrite <-list_fmap_compose.
    erewrite (list_fmap_ext _ fst); [done|]. by intros i [group events] _.
  - apply (Pairwise_fmap _ snd).
    assert (Forall (λ r : Z * string, ∃ x, completed s !! r.2 = Some x ∧ last_commit x = r.1)
              (sort_le record_le (commit_records (completed s)))) as Hall.
    { rewrite sort_le_perm. unfold commit_records. apply Forall_fmap, Forall_forall.
      intros [group events] Hin%elem_of_map_to_list. by exists events. }
    assert (Pairwise (λ a b : Z * string, a.1 ≤ b.1)
              (sort_le record_le (commit_records (completed s)))) as Hsorted.
    { apply (sort_le_sorted record_le (λ a b : Z * string, a.1 ≤ b.1)); unfold record_le.
      - intros a b. destruct (Z.ltb_spec a.1 b.1), (Z.eqb_spec a.1 b.1); cbn; intros; try lia; done.
      - intros a b. destruct (Z.ltb_spec a.1 b.1); cbn; intros; [done|lia].
      - intros; lia. }
    induction (sort_le record_le _) as [|r l IH]; [done|].
    apply Forall_cons in Hall as [(x & Hx & Hlx) Hall]. destruct Hsorted as [Hr Hl].
    split; [|by apply IH]. rewrite Forall_forall in Hr, Hall |- *. intros r' Hin.
    destruct (Hall _ Hin) as (y & Hy & Hly). exists x, y. split_and!; [done|done|].
    rewrite Hlx, Hly. by apply Hr.
Qed.

(** ** Claims *)

(** C35: The OpenRV64 trace is read without loss: with the events of all rows, lane by
    lane and stage by stage, the trace has an instruction for every key of an
    event, with the identity and the disassembly of such an event and, in every
    stage, exactly the cycles of its events in order; the retired keys are those of
    the retirement events in the order of their first one. *)
Theorem load_orv_faithful table disasm trace :
  load_orv table disasm = Ok trace →
  ∃ events, mapR row_events (Csv.rows table) = Ok events ∧ holds disasm (mjoin events) trace.
Proof. apply load_orv_spec. Qed.

(** What one side of a comparison is about: the window and the call that start at
    an occurrence of the entry, and the number of entries. *)
Definition side (insts : instructions_t) (order : list string) (entry function_end occurrence count : Z)
    (selected call : list string) (entries : Z) : Prop :=
  ∃ start, occurrence_at insts entry occurrence start order ∧
    selected = take (Z.to_nat count) (drop (Z.to_nat start) order) ∧ zlen selected = count ∧
    is_call insts entry function_end start order call ∧
    entries = zcount (is_at insts entry) order.

(** C33: The two windows of a comparison, when the asked occurrence is numbered from 1 and
    the asked count is not negative, are matched: each starts at the same-numbered
    execution of its entry instruction and has the asked number of instructions, the
    two calls start there too and end where the function is left, every entry is
    measured once, numbered from 1, and pairing the measured calls never fails. *)
Theorem comparison_matched objdump orv_trace hpi_trace (args : Args) c :
  1 ≤ a_occurrence args → 0 ≤ count args →
  compare objdump orv_trace hpi_trace args = Ok c →
  side (o_instructions (orv c)) (retired (orv c)) (orv_entry args) (orv_function_end args)
    (a_occurrence args) (count args) (orv_selected c) (orv_call c) (orv_entry_count c) ∧
  side (h_instructions (hpi c)) (committed (hpi c)) (hpi_entry args) (hpi_function_end args)
    (a_occurrence args) (count args) (hpi_selected c) (hpi_call c) (hpi_entry_count c) ∧
  measured (o_instructions (orv c)) (orv_entry args) (orv_function_end args) "I" "R" (retired (orv c))
    (orv_calls c) ∧
  measured (h_instructions (hpi c)) (hpi_entry args) (hpi_function_end args) "I" "K" (committed (hpi c))
    (hpi_calls c) ∧
  ∃ matched, matched_calls (orv_calls c) (hpi_calls c) = Ok matched.
Proof.
  intros Ho Hn Hc. apply bind_Ok in Hc as (disasm & _ & Hc). apply bind_Ok in Hc as (o & _ & Hc).
  apply bind_Ok in Hc as (h & _ & Hc).
  apply bind_Ok in Hc as ([[start1 selected1] entries1] & H1 & Hc).
  apply bind_Ok in Hc as ([[start2 selected2] entries2] & H2 & Hc).
  apply bind_Ok in Hc as (call1 & Hc1 & Hc). apply bind_Ok in Hc as (call2 & Hc2 & Hc).
  apply bind_Ok in Hc as (calls1 & Hm1 & Hc). apply bind_Ok in Hc as (calls2 & Hm2 & Hc).
  apply Ok_inj in Hc as <-. cbn.
  apply measure_calls_Ok in Hm1. apply measure_calls_Ok in Hm2.
  assert (∀ insts order entry fend sel call n start,
    select_window order insts entry (a_occurrence args) (count args) = Ok (start, sel, n) →
    function_call order insts start entry fend = Ok call →
    side insts order entry fend (a_occurrence args) (count args) sel call n) as Hside.
  { intros insts order entry fend sel call n start Hw Hcall.
    apply select_window_Ok in Hw as (Hat & Hsel & Hlen & Hcount); [|done|done].
    exists start. split_and!; try done. apply function_call_Ok; [|done].
    destruct Hat as (Hs & (key & Hkey & _) & _). apply lookup_lt_Some in Hkey. unfold zlen. lia. }
  split; [by eapply Hside|]. split; [by eapply Hside|]. split; [done|]. split; [done|].
  apply matched_calls_total; intros i call; by eapply measured_occurrence.
Qed.

(** ** A small comparison *)

Definition all_columns : list string :=
  ["cycle"] ++ HEX_COLUMNS ++ DECIMAL_COLUMNS ++ ["decode_valid"]
  ++ mjoin ((λ prefix, mjoin ((λ lane, (λ name, prefix +:+ lane +:+ name) <$> ["_uid"; "_pc"; "_instr"])
                               <$> ["0"; "1"; "2"])) <$> ["f"; "d"; "i"; "c"; "r"]).
Definition sample_row (cells : list (string * string)) : Row := {|
  columns := list_to_map ((λ name, (name, Some (default "0" (d_get name cells)))) <$> all_columns);
  surplus := [] |}.
(** Instruction [k] issues in cycle [10 + k] and retires in the next one. *)
Definition issue_cells (k : Z) : list (string * string) :=
  [("issue_valid", "1"); ("i0_uid", hex_int (k + 1)); ("i0_pc", hex_int (0x80000040 + 4 * k));
   ("i0_instr", "13")].
Definition retire_cells (k : Z) : list (string * string) :=
  [("retire_valid", "1"); ("r0_uid", hex_int (k + 1)); ("r0_pc", hex_int (0x80000040 + 4 * k));
   ("r0_instr", "13")].
Definition sample_table (n : Z) : Table := {|
  fieldnames := Some all_columns;
  Csv.rows := (λ k, sample_row ([("cycle", str_int (10 + k))]
                 ++ (if k <? n then issue_cells k else []) ++ (if 0 <? k then retire_cells (k - 1) else [])))
              <$> zrange 0 (n + 1) |}.
Definition hpi_text (n : Z) : string :=
  join newline (mjoin ((λ k,
    let id := "0/1.1/" +:+ str_int k +:+ ".7" in
    let place := " pc: 0x" +:+ hex_int (0x400030 + 4 * k) +:+ " (nop)" in
    [str_int (1000 * (5 + k)) +:+ ": cpu Issuing inst: " +:+ id +:+ place;
     str_int (1000 * (7 + k)) +:+ ": cpu Committing inst: " +:+ id +:+ place]) <$> zrange 0 n)).
Definition sample_args (count : Z) : Args := {|
  orv_entry := 0x80000040; orv_function_end := 0x80000060; hpi_entry := 0x400030;
  hpi_function_end := 0x400040; a_occurrence := 1; count := count; a_label := "OpenRV64 3P" |}.
Definition sample_objdump : string :=
  "  80000040:	00000013          	nop" +:+ newline +:+ "80000044:	00000013	li a0,1 ".

(** The report calls the window a hundred instructions whatever its size is: with
    twelve it prints a rate of 100 over the cycles of twelve. *)
Example hundred_is_fixed :
  match compare sample_objdump (sample_table 12) (hpi_text 12) (sample_args 12) with
  | Ok c =>
      zlen (orv_selected c) = 12 ∧ zlen (orv_call c) = 8 ∧ zlen (hpi_call c) = 4 ∧
      match numbers_of c with
      | Ok n => match summary_lines c n with
                | Ok lines => lines !! 14%nat = Some "| Local 100-instruction IPC | 7.692 | 7.143 |"
                | Err _ => False
                end
      | Err _ => False
      end
  | Err _ => False
  end.
Proof. vm_compute. repeat split. Qed.

(** Opcodes are classified by their first letters, which takes divisions, bit-field
    and carry operations for stores and bit-clearing ones for branches. *)
Example classified_by_prefix :
  (classify <$> ["ldr x0, [x1]"; "sd a0,0(a1)"; "b.ne 400"; "subs w0, w0, #1"])
    = [Ok "load"; Ok "store"; Ok "control"; Ok "alu/other"] ∧
  (classify <$> ["sdiv w0, w1, w2"; "sbfx x0, x1, #0, #8"; "sbc w0, w1, w2"])
    = [Ok "store"; Ok "store"; Ok "store"] ∧
  (classify <$> ["bic w0, w1, w2"; "bfi w0, w1, #0, #8"]) = [Ok "control"; Ok "control"].
Proof. repeat split; vm_compute; reflexivity. Qed.

Lemma sample_compare :
  is_Ok (compare sample_objdump (sample_table 2) (hpi_text 2) (sample_args 2)) = true.
Proof. vm_compute. reflexivity. Qed.

Lemma comparison_matched_witness :
  ∃ c, compare sample_objdump (sample_table 2) (hpi_text 2) (sample_args 2) = Ok c ∧
    side (o_instructions (orv c)) (retired (orv c)) 0x80000040 0x80000060 1 2 (orv_selected c)
      (orv_call c) (orv_entry_count c) ∧
    ∃ matched, matched_calls (orv_calls c) (hpi_calls c) = Ok matched.
Proof.
  pose proof sample_compare as Hok.
  destruct (compare sample_objdump (sample_table 2) (hpi_text 2) (sample_args 2)) as [c|] eqn:E;
    [|discriminate Hok].
  destruct (comparison_matched _ _ _ (sample_args 2) c ltac:(cbn; lia) ltac:(cbn; lia) E)
    as (Hside & _ & _ & _ & Hm).
  exists c. split; [reflexivity|]. split; [exact Hside|exact Hm].
Defined.

Lemma sample_load : is_Ok (load_orv (sample_table 2) ∅) = true.
Proof. vm_compute. reflexivity. Qed.

Lemma load_orv_faithful_witness :
  ∃ trace events, load_orv (sample_table 2) ∅ = Ok trace ∧
    mapR row_events (Csv.rows (sample_table 2)) = Ok events ∧ holds ∅ (mjoin events) trace.
Proof.
  pose proof sample_load as Hok.
  destruct (load_orv (sample_table 2) ∅) as [trace|] eqn:E; [|discriminate Hok].
  destruct (load_orv_faithful (sample_table 2) ∅ trace E) as (events & He & Hh).
  exists trace, events. split; [reflexivity|]. split; [exact He|exact Hh].
Defined.
