(* ===== verification/Options.v ===== *)
(** * The options of the programs

    The parsers the programs build with [argparse], and how each reads the
    namespace it gets back.  A program is a module with its parser [options] and
    its [read], the attribute accesses of [main]. *)

From stdpp Require Import base numbers list strings gmap.
From Stdlib Require Import ZArith Lia Ascii.
From S2P Require Import Prelude PyText PyFloat PyRegex MemImage SdImage ElfSymbols KernelExtract.
From S2P Require Import Pipeline3p PipelineTrace ParallelMap BootProfile BootReport BootWatch.
From S2P Require Import CoremarkCompare PyNumber Gem5 UartLoad Compliance Argparse.

Open Scope Z_scope.

(** ** The conversions of the programs *)

Definition auto_int : converter := integer_of "integer" 0.      (* int(value, 0) *)
Definition hex_int_of : converter := integer_of "parse_hex" 16.  (* int(value, 16) *)

Definition float_value (s : string) : result value :=
  match py_float s with
  | Some x => Ok (VFloat x)
  | None => Err (ValueError "could not convert string to float")
  end.
Definition float : converter.
Proof.
  refine {| type_name := "float"; elem := TFloat; convert := float_value |}.
  all: intros s v; unfold float_value; by destruct (py_float s); intros [= <-].
Defined.

Definition run_value (s : string) : result value :=
  '(configuration, path) ← parse_run s; Ok (VPair configuration (path_text path)).
Definition run_log : converter.
Proof.
  refine {| type_name := "parse_run"; elem := TPair; convert := run_value |}.
  - intros s v H. unfold run_value in H. by apply bind_Ok in H as ([c p] & _ & [= <-]).
  - intros s e H. unfold run_value, parse_run in H. destruct (split_at _ _) as [[c p]|];
      [destruct (bool_decide _); [|destruct (bool_decide _)]|]; simpl in H; first [discriminate H|by injection H as <-].
Defined.

Definition elf_value (s : string) : result value :=
  image ← parse_elf_image s; Ok (VPair (image_name image) (path_text (image_path image))).
Definition elf_image : converter.
Proof.
  refine {| type_name := "parse_elf_image"; elem := TPair; convert := elf_value |}.
  - intros s v H. unfold elf_value in H. by apply bind_Ok in H as (i & _ & [= <-]).
  - intros s e H. unfold elf_value, parse_elf_image in H.
    destruct (split_at _ _) as [[c p]|];
      [destruct (bool_decide _); [|destruct (bool_decide _)]|]; simpl in H; first [discriminate H|by injection H as <-].
Defined.

Definition elf_of (p : string * string) : ElfImage := {| image_name := p.1; image_path := p.2 |}.

(** ** Images *)

Module FourHart.
Definition options : parser :=
  argument_parser [positional "template" path; positional "output" path].
Record Args := { template : string; output : string }.
Definition read (m : namespace) : result Args :=
  template ← attr m "template" TPath; output ← attr m "output" TPath;
  Ok {| template := template; output := output |}.
End FourHart.

Module Shared.
Definition options : parser :=
  argument_parser [positional "template" path; positional "output" path; store_true ["--tlbi-test"]].
Record Args := { template : string; output : string; tlbi_test : bool }.
Definition read (m : namespace) : result Args :=
  template ← attr m "template" TPath; output ← attr m "output" TPath;
  tlbi_test ← attr m "tlbi_test" TBool;
  Ok {| template := template; output := output; tlbi_test := tlbi_test |}.
End Shared.

Module SdCard.
Definition options : parser :=
  argument_parser
    [positional_maybe "dts" path; positional_maybe "opensbi" path; positional_maybe "linux" path;
     positional_maybe "output" path;
     with_dest "image" (option_of ["--verify"] path);
     option_of ["--manifest"] path;
     with_default (VInt 0x10000000) (option_of ["--memory-size"] (integer_of "<lambda>" 0));
     with_default (VInt 1) (option_of ["--hart-count"] int);
     with_default (VInt 9216000) (option_of ["--timebase-frequency"] int);
     with_default (VInt 9216000) (option_of ["--uart-clock-frequency"] int);
     with_default (VText "cpp") (option_of ["--cpp"] text);
     with_default (VText "dtc") (option_of ["--dtc"] text)].
Definition read (m : namespace) : result (SdImage.Args * option string) :=
  dts ← attr m "dts" (TOption TPath); opensbi ← attr m "opensbi" (TOption TPath);
  linux ← attr m "linux" (TOption TPath); output ← attr m "output" (TOption TPath);
  image ← attr m "image" (TOption TPath); manifest ← attr m "manifest" (TOption TPath);
  memory_size ← attr m "memory_size" TInt; hart_count ← attr m "hart_count" TInt;
  timebase ← attr m "timebase_frequency" TInt; uart_clock ← attr m "uart_clock_frequency" TInt;
  cpp ← attr m "cpp" TText; dtc ← attr m "dtc" TText;
  Ok ({| a_dts := dts; a_opensbi := opensbi; a_linux := linux; a_output := output; a_image := image;
         memory_size := memory_size; hart_count := hart_count; timebase_frequency := timebase;
         uart_clock_frequency := uart_clock; a_cpp := cpp; a_dtc := dtc |}, manifest).
End SdCard.

Module Bin2mem.
Definition options : parser :=
  argument_parser
    [positional "binary" path; positional "output" path;
     is_required (option_of ["--size"] auto_int);
     with_default (VInt 8) (option_of ["--word-bytes"] auto_int)].
Record Args := { binary : string; output : string; size : Z; word_bytes : Z }.
Definition read (m : namespace) : result Args :=
  binary ← attr m "binary" TPath; output ← attr m "output" TPath;
  size ← attr m "size" TInt; word_bytes ← attr m "word_bytes" TInt;
  Ok {| binary := binary; output := output; size := size; word_bytes := word_bytes |}.
End Bin2mem.

Module Elf2mem.
Definition options : parser :=
  argument_parser
    [positional "elf" path; positional "output" path;
     with_default (VInt 0x80000000) (option_of ["--base"] auto_int);
     with_default (VInt (16 * 1024 * 1024)) (option_of ["--size"] auto_int);
     with_default (VInt 8) (with_choices [VInt 8; VInt 32] (option_of ["--word-bytes"] int));
     option_of ["--manifest"] path].
Record Args := {
  elf : string; output : string; base : Z; size : Z; word_bytes : Z; manifest : option string }.
Definition read (m : namespace) : result Args :=
  elf ← attr m "elf" TPath; output ← attr m "output" TPath; base ← attr m "base" TInt;
  size ← attr m "size" TInt; word_bytes ← attr m "word_bytes" TInt;
  manifest ← attr m "manifest" (TOption TPath);
  Ok {| elf := elf; output := output; base := base; size := size; word_bytes := word_bytes;
        manifest := manifest |}.
End Elf2mem.

Module Chase.
Definition options : parser :=
  argument_parser
    [positional "output" path;
     with_default (VInt (16 * 1024 * 1024)) (option_of ["--bytes"] int);
     with_default (VInt 256) (option_of ["--stride"] int);
     with_default (VInt (256 * 1024)) (option_of ["--tlb-locality"] int);
     with_default (VInt 1) (option_of ["--seed"] int)].
Record Args := { output : string; bytes : Z; stride : Z; tlb_locality : Z; seed : Z }.
Definition read (m : namespace) : result Args :=
  output ← attr m "output" TPath; bytes ← attr m "bytes" TInt; stride ← attr m "stride" TInt;
  tlb_locality ← attr m "tlb_locality" TInt; seed ← attr m "seed" TInt;
  Ok {| output := output; bytes := bytes; stride := stride; tlb_locality := tlb_locality; seed := seed |}.
End Chase.

Module Kernel.
Definition options : parser :=
  argument_parser
    [is_required (option_of ["--vmlinux"] text); is_required (option_of ["--symbol"] text);
     is_required (option_of ["--output-symbol"] text); is_required (option_of ["--output-bin"] text);
     is_required (option_of ["--output-asm"] text); store_true ["--apply-alternatives"];
     with_default (VList []) (append_of ["--redirect"] text)].
Record Args := { vmlinux : string; output_asm : string; extract : KernelExtract.Args }.
Definition read (m : namespace) : result Args :=
  vmlinux ← attr m "vmlinux" TText; symbol ← attr m "symbol" TText;
  output_symbol ← attr m "output_symbol" TText; output_bin ← attr m "output_bin" TText;
  output_asm ← attr m "output_asm" TText; alternatives ← attr m "apply_alternatives" TBool;
  redirect ← attr m "redirect" (TList TText);
  Ok {| vmlinux := vmlinux; output_asm := output_asm;
        extract := {| arg_symbol := symbol; output_symbol := output_symbol; output_bin := output_bin;
                      apply_alternatives_flag := alternatives; redirect := redirect |} |}.
End Kernel.

(** ** Traces *)

Module Retirement.
Definition options : parser := argument_parser [positional_many "paths" path].
Definition read (m : namespace) : result (list string) := attr m "paths" (TList TPath).
End Retirement.

Module Oracle.
Definition options : parser :=
  argument_parser [positional "trace" path; positional "output" path; option_of ["--expect-count"] int].
Record Args := { trace : string; output : string; expect_count : option Z }.
Definition read (m : namespace) : result Args :=
  trace ← attr m "trace" TPath; output ← attr m "output" TPath;
  expect_count ← attr m "expect_count" (TOption TInt);
  Ok {| trace := trace; output := output; expect_count := expect_count |}.
End Oracle.

Module Window.
Definition options : parser :=
  argument_parser
    [positional "trace" path; with_default (VInt 16) (option_of ["--capacity"] int);
     store_true ["--free-perfect-branches"]; store_true ["--free-perfect-jumps"];
     option_of ["--json"] path].
Record Args := {
  trace : string; capacity : Z; free_perfect_branches : bool; free_perfect_jumps : bool;
  json : option string }.
Definition read (m : namespace) : result Args :=
  trace ← attr m "trace" TPath; capacity ← attr m "capacity" TInt;
  branches ← attr m "free_perfect_branches" TBool; jumps ← attr m "free_perfect_jumps" TBool;
  json ← attr m "json" (TOption TPath);
  Ok {| trace := trace; capacity := capacity; free_perfect_branches := branches;
        free_perfect_jumps := jumps; json := json |}.
End Window.

Module Pipeline.
Definition options : parser :=
  argument_parser
    [positional "trace" path; option_of ["-o"; "--output"] path; option_of ["--start-cycle"] int;
     option_of ["--end-cycle"] int; with_default (VInt 200) (option_of ["--max-cycles"] int)].
Record Args := { trace : string; output : option string; range : PipelineTrace.Args }.
Definition read (m : namespace) : result Args :=
  trace ← attr m "trace" TPath; output ← attr m "output" (TOption TPath);
  start_cycle ← attr m "start_cycle" (TOption TInt); end_cycle ← attr m "end_cycle" (TOption TInt);
  max_cycles ← attr m "max_cycles" TInt;
  Ok {| trace := trace; output := output;
        range := {| PipelineTrace.start_cycle := start_cycle; PipelineTrace.end_cycle := end_cycle;
                    PipelineTrace.max_cycles := max_cycles |} |}.
End Pipeline.

Module ThreeWide.
Definition anchors : list string := ["around_pc"; "around_uid"; "start_cycle"; "block_reason"].
Definition options : parser := {|
  actions := actions (argument_parser
    [positional "trace" path; option_of ["--output"] path;
     option_of ["--around-pc"] hex_int_of; option_of ["--around-uid"] hex_int_of;
     option_of ["--start-cycle"] int;
     with_choices (VText <$> drop 1 BLOCK_REASONS.*2) (option_of ["--block-reason"] text);
     with_default (VInt 6) (option_of ["--before"] int);
     with_default (VInt 28) (option_of ["--rows"] int)]);
  exclusive := [anchors] |}.
Record Args := { trace : string; output : option string; view : Pipeline3p.Args }.
Definition read (m : namespace) : result Args :=
  trace ← attr m "trace" TPath; output ← attr m "output" (TOption TPath);
  around_pc ← attr m "around_pc" (TOption TInt); around_uid ← attr m "around_uid" (TOption TInt);
  start_cycle ← attr m "start_cycle" (TOption TInt);
  block_reason ← attr m "block_reason" (TOption TText);
  before ← attr m "before" TInt; rows ← attr m "rows" TInt;
  Ok {| trace := trace; output := output;
        view := {| around_pc := around_pc; around_uid := around_uid;
                   Pipeline3p.start_cycle := start_cycle; block_reason := block_reason;
                   Pipeline3p.before := before; row_count := rows |} |}.
End ThreeWide.

Module Qemu.
Definition options : parser :=
  argument_parser
    [positional "trace" path; option_of ["--output"] path; with_default (VInt 20) (option_of ["--top"] int)].
Record Args := { trace : string; output : option string; top : Z }.
Definition read (m : namespace) : result Args :=
  trace ← attr m "trace" TPath; output ← attr m "output" (TOption TPath); top ← attr m "top" TInt;
  Ok {| trace := trace; output := output; top := top |}.
End Qemu.

Module Coremark.
Definition options : parser :=
  argument_parser
    [is_required (option_of ["--orv-trace"] path); is_required (option_of ["--hpi-trace"] path);
     with_default (VPath "sw/coremark-loop.elf") (option_of ["--orv-elf"] path);
     with_default (VText "riscv64-elf-objdump") (option_of ["--orv-objdump"] text);
     with_default (VInt 0x80000040) (option_of ["--orv-entry"] hex_int_of);
     with_default (VInt 0x8000042C) (option_of ["--orv-function-end"] hex_int_of);
     with_default (VInt 0x400030) (option_of ["--hpi-entry"] hex_int_of);
     with_default (VInt 0x400380) (option_of ["--hpi-function-end"] hex_int_of);
     with_default (VInt 100) (option_of ["--occurrence"] int);
     with_default (VInt 100) (option_of ["--count"] int);
     with_default (VText "OpenRV64 3P") (option_of ["--orv-label"] text);
     option_of ["--output"] path].
Record Args := {
  orv_trace : string; hpi_trace : string; orv_elf : string; orv_objdump : string;
  comparison : CoremarkCompare.Args; output : option string }.
Definition read (m : namespace) : result Args :=
  orv_trace ← attr m "orv_trace" TPath; hpi_trace ← attr m "hpi_trace" TPath;
  orv_elf ← attr m "orv_elf" TPath; orv_objdump ← attr m "orv_objdump" TText;
  orv_entry ← attr m "orv_entry" TInt; orv_end ← attr m "orv_function_end" TInt;
  hpi_entry ← attr m "hpi_entry" TInt; hpi_end ← attr m "hpi_function_end" TInt;
  occurrence ← attr m "occurrence" TInt; count ← attr m "count" TInt;
  label ← attr m "orv_label" TText; output ← attr m "output" (TOption TPath);
  Ok {| orv_trace := orv_trace; hpi_trace := hpi_trace; orv_elf := orv_elf;
        orv_objdump := orv_objdump;
        comparison := {| orv_entry := orv_entry; orv_function_end := orv_end; hpi_entry := hpi_entry;
                         hpi_function_end := hpi_end; a_occurrence := occurrence; count := count;
                         a_label := label |};
        output := output |}.
End Coremark.

(** ** gem5 reports *)

Module Gem5Report.
Definition options : parser :=
  argument_parser [positional "stats" path; option_of ["--trace"] path; option_of ["--output"] path].
Record Args := { stats : string; trace : option string; output : option string }.
Definition read (m : namespace) : result Args :=
  stats ← attr m "stats" TPath; trace ← attr m "trace" (TOption TPath);
  output ← attr m "output" (TOption TPath);
  Ok {| stats := stats; trace := trace; output := output |}.
End Gem5Report.

Module Gem5Blake2s.
Definition options : parser :=
  argument_parser
    [positional "stats" path; is_required (option_of ["--calls"] int);
     is_required (option_of ["--blocks-per-call"] int); option_of ["--output"] path].
Record Args := { stats : string; calls : Z; blocks_per_call : Z; output : option string }.
Definition read (m : namespace) : result Args :=
  stats ← attr m "stats" TPath; calls ← attr m "calls" TInt;
  blocks_per_call ← attr m "blocks_per_call" TInt; output ← attr m "output" (TOption TPath);
  Ok {| stats := stats; calls := calls; blocks_per_call := blocks_per_call; output := output |}.
End Gem5Blake2s.

Module Gem5Chase.
Definition options : parser :=
  argument_parser
    [positional "stats" path; is_required (option_of ["--bytes"] int);
     is_required (option_of ["--stride"] int); is_required (option_of ["--tlb-locality"] int);
     is_required (option_of ["--steps"] int); is_required (option_of ["--seed"] int);
     option_of ["--output"] path].
Record Args := { stats : string; run : ChaseArgs; output : option string }.
Definition read (m : namespace) : result Args :=
  stats ← attr m "stats" TPath; bytes ← attr m "bytes" TInt; stride ← attr m "stride" TInt;
  tlb_locality ← attr m "tlb_locality" TInt; steps ← attr m "steps" TInt; seed ← attr m "seed" TInt;
  output ← attr m "output" (TOption TPath);
  Ok {| stats := stats;
        run := {| bytes := bytes; stride := stride; tlb_locality := tlb_locality; steps := steps;
                  seed := seed |};
        output := output |}.
End Gem5Chase.

Module Gem5Stream.
Definition options : parser :=
  argument_parser
    [positional "stats" path;
     is_required (with_choices [VText "copy"; VText "scale"; VText "add"; VText "triad"]
                    (option_of ["--kernel"] text));
     is_required (option_of ["--bytes"] int); option_of ["--output"] path].
Record Args := { stats : string; kernel : string; bytes : Z; output : option string }.
Definition read (m : namespace) : result Args :=
  stats ← attr m "stats" TPath; kernel ← attr m "kernel" TText; bytes ← attr m "bytes" TInt;
  output ← attr m "output" (TOption TPath);
  Ok {| stats := stats; kernel := kernel; bytes := bytes; output := output |}.
End Gem5Stream.

Module Gem5Pagefree.
Definition options : parser :=
  argument_parser
    [positional "stats" path;
     is_required (with_choices [VText "core"; VText "tail"] (option_of ["--kernel"] text));
     is_required (option_of ["--records"] int); option_of ["--output"] path].
Record Args := { stats : string; kernel : string; records : Z; output : option string }.
Definition read (m : namespace) : result Args :=
  stats ← attr m "stats" TPath; kernel ← attr m "kernel" TText; records ← attr m "records" TInt;
  output ← attr m "output" (TOption TPath);
  Ok {| stats := stats; kernel := kernel; records := records; output := output |}.
End Gem5Pagefree.

(** ** Boot logs *)

Module Signposts.
Definition options : parser :=
  argument_parser
    [positional_many "logs" path;
     with_default (VText "markdown")
       (with_choices [VText "markdown"; VText "tsv"] (option_of ["--format"] text))].
Record Args := { logs : list string; format : string }.
Definition read (m : namespace) : result Args :=
  logs ← attr m "logs" (TList TPath); format ← attr m "format" TText;
  Ok {| logs := logs; format := format |}.
End Signposts.

Module Watch.
Definition options : parser :=
  argument_parser
    [with_default (VText "unknown") (option_of ["--configuration"] text);
     with_default (VList []) (append_of ["--elf"] elf_image);
     with_default (VText "riscv64-linux-gnu-nm") (option_of ["--nm"] text);
     option_of ["--csv"] path; store_true ["--annotations-only"]; store_true ["--changes-only"]].
Record Args := { watch : BootWatch.Options; elfs : list ElfImage; nm : string; csv : option string }.
Definition read (m : namespace) : result Args :=
  configuration ← attr m "configuration" TText; elf ← attr m "elf" (TList TPair);
  nm ← attr m "nm" TText; csv ← attr m "csv" (TOption TPath);
  annotations_only ← attr m "annotations_only" TBool; changes_only ← attr m "changes_only" TBool;
  Ok {| watch := {| BootWatch.configuration := configuration; annotations_only := annotations_only;
                    changes_only := changes_only |};
        elfs := elf_of <$> elf; nm := nm; csv := csv |}.
End Watch.

Module Report.
Definition options : parser :=
  argument_parser
    [is_required (append_of ["--run"] run_log); is_required (option_of ["--baseline"] text);
     is_required (option_of ["--xlsx"] path); is_required (option_of ["--csv"] path);
     with_default (VList []) (append_of ["--elf"] elf_image);
     with_default (VText "riscv64-linux-gnu-nm") (option_of ["--nm"] text)].
Definition read (m : namespace) : result BootReport.Args :=
  run ← attr m "run" (TList TPair); baseline ← attr m "baseline" TText;
  xlsx ← attr m "xlsx" TPath; csv ← attr m "csv" TPath; elf ← attr m "elf" (TList TPair);
  nm ← attr m "nm" TText;
  Ok {| runs := run; baseline := baseline; xlsx := xlsx; BootReport.csv := csv;
        BootReport.elfs := elf_of <$> elf; BootReport.nm := nm |}.
End Report.

Module Profile.
Definition options : parser :=
  argument_parser
    [positional "log" path;
     with_default (VPath "/home/bill/src/linux/vmlinux") (option_of ["--vmlinux"] path);
     option_of ["--start-cycle"] int; option_of ["--end-cycle"] int;
     with_default (VInt 30) (option_of ["--top"] int);
     with_default (VInt 250000) (option_of ["--cadence"] int); option_of ["--output"] path].
Record Args := { profile : BootProfile.Args; output : option string }.
Definition read (m : namespace) : result Args :=
  log ← attr m "log" TPath; vmlinux ← attr m "vmlinux" TPath;
  start_cycle ← attr m "start_cycle" (TOption TInt); end_cycle ← attr m "end_cycle" (TOption TInt);
  top ← attr m "top" TInt; cadence ← attr m "cadence" TInt; output ← attr m "output" (TOption TPath);
  Ok {| profile := {| arg_log := log; arg_vmlinux := vmlinux;
                      BootProfile.start_cycle := start_cycle; BootProfile.end_cycle := end_cycle;
                      arg_top := top; arg_cadence := cadence |};
        output := output |}.
End Profile.

(** ** Hardware sessions *)

Module Uart.
Definition milliseconds (n : Z) : double := fdiv (to_float n) (to_float 1000).
Definition options : parser :=
  argument_parser
    [positional "image" path; with_default (VText "/tmp/ttyACM0") (option_of ["--device"] text);
     with_default (VFloat (to_float 120)) (option_of ["--ready-timeout"] float);
     with_default (VFloat (to_float 7200)) (option_of ["--boot-timeout"] float);
     store_true ["--hardware-preload"];
     with_default (VFloat (to_float 2)) (option_of ["--header-retry"] float);
     with_default (VInt 4) (option_of ["--burst-bytes"] int);
     with_default (VFloat (milliseconds 1)) (option_of ["--burst-pause"] float)].
(** The options with the bytes of the image still to be read. *)
Definition read (m : namespace) : result (string * (list Z → UartLoad.Args (T := double))) :=
  image ← attr m "image" TPath; device ← attr m "device" TText;
  ready_timeout ← attr m "ready_timeout" TFloat; boot_timeout ← attr m "boot_timeout" TFloat;
  hardware_preload ← attr m "hardware_preload" TBool; header_retry ← attr m "header_retry" TFloat;
  burst_bytes ← attr m "burst_bytes" TInt; burst_pause ← attr m "burst_pause" TFloat;
  Ok (image, λ data,
      {| UartLoad.image := data; device := device; ready_timeout := ready_timeout;
         boot_timeout := boot_timeout; hardware_preload := hardware_preload;
         header_retry := header_retry; burst_bytes := burst_bytes; burst_pause := burst_pause |}).
End Uart.

Module Suites.
Section options.
(** The repository and the variable [RISCV_NM] of the process environment. *)
Context (root : string) (riscv_nm : option string).

Definition DEFAULT_RESULTS : string := root +:+ "/build/compliance/results".
Definition add_run_options : list action :=
  [with_default (VText "1p")
     (with_choices (VText <$> ["1p"; "3p"; "platform"; "platform-3p"]) (option_of ["--backend"] text));
   with_default (VText "auto")
     (with_choices (VText <$> ["auto"; "iverilog"; "verilator"]) (option_of ["--engine"] text));
   boolean_optional "--rv64m" true;
   with_default (VPath DEFAULT_RESULTS) (option_of ["--results-dir"] path);
   with_default (VInt 2000000) (option_of ["--max-cycles"] int);
   with_default (VInt 300) (option_of ["--wall-timeout"] int);
   store_true ["--trace"];
   with_default (VText (default "riscv64-elf-nm" riscv_nm)) (option_of ["--nm"] text)].

Definition run_parser : parser := argument_parser (positional "elf" path :: add_run_options).
Definition suite_parser : parser :=
  argument_parser
    (positional_many "paths" path :: add_run_options
     ++ [option_of ["--extensions"] text; option_of ["--match"] text; option_of ["--limit"] int;
         option_of ["--xfail"] path; option_of ["--junit"] path; store_true ["--fail-fast"]]).
Definition diff_parser : parser :=
  argument_parser
    (positional "elf" path :: add_run_options
     ++ [is_required (option_of ["--sail"] path); is_required (option_of ["--sail-config"] path)]).
Definition commands : list (string * parser) :=
  [("doctor", argument_parser []); ("run", run_parser); ("suite", suite_parser); ("diff", diff_parser)].
Definition options : parser := argument_parser [sub_commands "command" commands.*1].

Definition read_run (m : namespace) : result Compliance.Options :=
  backend ← attr m "backend" TText; engine ← attr m "engine" TText; rv64m ← attr m "rv64m" TBool;
  results_dir ← attr m "results_dir" TPath; max_cycles ← attr m "max_cycles" TInt;
  wall_timeout ← attr m "wall_timeout" TInt; trace ← attr m "trace" TBool; nm ← attr m "nm" TText;
  Ok {| o_backend := backend; o_engine := engine; o_rv64m := rv64m; Compliance.results_dir := results_dir;
        Compliance.max_cycles := max_cycles; wall_timeout := wall_timeout; o_trace := trace;
        Compliance.nm := nm |}.

(** The function a command sets as its default, applied to the arguments. *)
Definition read (m : namespace) : result Compliance.command :=
  name ← attr m "command" TText;
  if String.eqb name "doctor" then Ok Doctor
  else
    o ← read_run m;
    if String.eqb name "run" then elf ← attr m "elf" TPath; Ok (Run elf o)
    else if String.eqb name "suite" then
      paths ← attr m "paths" (TList TPath); extensions ← attr m "extensions" (TOption TText);
      text ← attr m "match" (TOption TText); limit ← attr m "limit" (TOption TInt);
      xfail ← attr m "xfail" (TOption TPath); junit ← attr m "junit" (TOption TPath);
      fail_fast ← attr m "fail_fast" TBool;
      Ok (Suite o {| Compliance.paths := paths; extensions := extensions; o_match := text;
                     limit := limit; xfail := xfail; junit := junit; fail_fast := fail_fast |})
    else
      elf ← attr m "elf" TPath; sail ← attr m "sail" TPath;
      sail_config ← attr m "sail_config" TPath;
      Ok (Diff elf o sail sail_config).
End options.
End Suites.

(** ** Synthesis *)

Module TechMap.
Definition options : parser :=
  argument_parser
    [is_required (option_of ["--yosys"] path); is_required (option_of ["--checkpoint"] path);
     is_required (option_of ["--pre-stat"] path); is_required (option_of ["--hierarchy"] path);
     is_required (option_of ["--liberty"] path); is_required (option_of ["--constraint"] path);
     is_required (option_of ["--out-stat"] path); is_required (option_of ["--worker-dir"] path);
     is_required (option_of ["--jobs"] int); store_true ["--reuse-workers"]; store_true ["--fast"];
     option_of ["--abc-script"] path].
Record Args := {
  yosys : string; pre_stat : string; hierarchy : string; out_stat : string; map : ParallelMap.Args }.
Definition read (m : namespace) : result Args :=
  yosys ← attr m "yosys" TPath; checkpoint ← attr m "checkpoint" TPath;
  pre_stat ← attr m "pre_stat" TPath; hierarchy ← attr m "hierarchy" TPath;
  liberty ← attr m "liberty" TPath; constraint ← attr m "constraint" TPath;
  out_stat ← attr m "out_stat" TPath; worker_dir ← attr m "worker_dir" TPath;
  jobs ← attr m "jobs" TInt; reuse_workers ← attr m "reuse_workers" TBool;
  fast ← attr m "fast" TBool; abc_script ← attr m "abc_script" (TOption TPath);
  Ok {| yosys := yosys; pre_stat := pre_stat; hierarchy := hierarchy; out_stat := out_stat;
        map := {| checkpoint := checkpoint; liberty := liberty; constraint := constraint;
                  worker_dir := worker_dir; requested_jobs := jobs; reuse_workers := reuse_workers;
                  fast := fast; abc_script := abc_script |} |}.
End TechMap.

Module Resources.
Definition options : parser :=
  argument_parser
    [is_required (option_of ["--partition-stat"] path); is_required (option_of ["--hierarchy"] path);
     is_required (option_of ["--memories"] path); option_of ["--flat-stat"] path;
     is_required (option_of ["--out-dir"] path)].
Record Args := {
  partition_stat : string; hierarchy : string; memories : string; flat_stat : option string;
  out_dir : string }.
Definition read (m : namespace) : result Args :=
  partition_stat ← attr m "partition_stat" TPath; hierarchy ← attr m "hierarchy" TPath;
  memories ← attr m "memories" TPath; flat_stat ← attr m "flat_stat" (TOption TPath);
  out_dir ← attr m "out_dir" TPath;
  Ok {| partition_stat := partition_stat; hierarchy := hierarchy; memories := memories;
        flat_stat := flat_stat; out_dir := out_dir |}.
End Resources.

Module Core4pf.
Definition options : parser :=
  argument_parser
    [is_required (with_choices [VText "fd"; VText "nofd"] (option_of ["--variant"] text));
     with_default (VInt 0) (with_choices [VInt 0; VInt 1] (option_of ["--register-issue-select"] int));
     is_required (option_of ["--stat"] path); is_required (option_of ["--liberty"] path);
     is_required (option_of ["--worker-dir"] path); is_required (option_of ["--out-dir"] path)].
Record Args := {
  variant : string; register_issue_select : Z; stat : string; liberty : string; worker_dir : string;
  out_dir : string }.
Definition read (m : namespace) : result Args :=
  variant ← attr m "variant" TText; register_issue_select ← attr m "register_issue_select" TInt;
  stat ← attr m "stat" TPath; liberty ← attr m "liberty" TPath;
  worker_dir ← attr m "worker_dir" TPath; out_dir ← attr m "out_dir" TPath;
  Ok {| variant := variant; register_issue_select := register_issue_select; stat := stat;
        liberty := liberty; worker_dir := worker_dir; out_dir := out_dir |}.
End Core4pf.

Module Rom.
Definition options : parser :=
  argument_parser
    [positional "netlist" path; with_default (VInt 4) (option_of ["--minimum-segments"] int)].
Record Args := { netlist : string; minimum_segments : Z }.
Definition read (m : namespace) : result Args :=
  netlist ← attr m "netlist" TPath; minimum_segments ← attr m "minimum_segments" TInt;
  Ok {| netlist := netlist; minimum_segments := minimum_segments |}.
End Rom.

(** ** Every program reads what it parsed *)

(** A program's command line: the parser at work and the reads of its [main]. *)
Record tool := {
  tool_name : string;
  parse : list string → result namespace;
  arguments : Type;
  reads : namespace → result arguments }.

Definition plain_tool {A} (name : string) (p : parser) (read : namespace → result A) : tool :=
  {| tool_name := name; parse := parse_args p; reads := read |}.

Section tools.
Context (root : string) (riscv_nm : option string).

Definition compliance_tool : tool :=
  {| tool_name := "compliance.py";
     parse := parse_command (Suites.options root riscv_nm) (Suites.commands root riscv_nm);
     reads := Suites.read |}.

Definition tools : list tool :=
  [plain_tool "make_4h_sv39_image.py" FourHart.options FourHart.read;
   plain_tool "make_shared_sv39_image.py" Shared.options Shared.read;
   plain_tool "make-fpga-sd-image.py" SdCard.options SdCard.read;
   plain_tool "bin2mem.py" Bin2mem.options Bin2mem.read;
   plain_tool "elf2mem.py" Elf2mem.options Elf2mem.read;
   plain_tool "gen_multichase_ring.py" Chase.options Chase.read;
   plain_tool "extract-riscv-kernel-function.py" Kernel.options Kernel.read;
   plain_tool "check_arch_trace.py" Retirement.options Retirement.read;
   plain_tool "branch_oracle_from_trace.py" Oracle.options Oracle.read;
   plain_tool "issue_window_experiment.py" Window.options Window.read;
   plain_tool "pipeline_trace.py" Pipeline.options Pipeline.read;
   plain_tool "pipeline_trace_3p.py" ThreeWide.options ThreeWide.read;
   plain_tool "qemu_one_insn_trace.py" Qemu.options Qemu.read;
   plain_tool "compare_coremark_pipelines.py" Coremark.options Coremark.read;
   plain_tool "gem5_hpi_report.py" Gem5Report.options Gem5Report.read;
   plain_tool "gem5_hpi_blake2s_report.py" Gem5Blake2s.options Gem5Blake2s.read;
   plain_tool "gem5_hpi_pointer_chase_report.py" Gem5Chase.options Gem5Chase.read;
   plain_tool "gem5_hpi_stream_report.py" Gem5Stream.options Gem5Stream.read;
   plain_tool "gem5_hpi_pagefree_report.py" Gem5Pagefree.options Gem5Pagefree.read;
   plain_tool "linux_boot_signposts.py" Signposts.options Signposts.read;
   plain_tool "linux_boot_watch.py" Watch.options Watch.read;
   plain_tool "linux_boot_report.py" Report.options Report.read;
   plain_tool "linux_boot_pc_histogram.py" Profile.options Profile.read;
   plain_tool "fpga-uart-linux-load.py" Uart.options Uart.read;
   plain_tool "parallel_map.py" TechMap.options TechMap.read;
   plain_tool "summarize_resources.py" Resources.options Resources.read;
   plain_tool "summarize-core-4pf.py" Core4pf.options Core4pf.read;
   plain_tool "check_yosys_rom_init.py" Rom.options Rom.read;
   compliance_tool].

(** Parsing prints the help text or a usage error and exits; or it returns a
    namespace, and then the reads of [main] find the attributes with their types. *)
Definition command_line_typed (t : tool) : Prop :=
  ∀ argv, match parse t argv with
          | Ok m => ∃ args, reads t m = Ok args
          | Err e => is_exit e
          end.

Ltac plain_typed :=
  let argv := fresh "argv" in let m := fresh "m" in let e := fresh "e" in let Hm := fresh "Hm" in
  intros argv; destruct (parse _ argv) as [m|e] eqn:Hm; cbn [parse plain_tool] in Hm;
  [ cbn [reads plain_tool]; lazymatch goal with |- ∃ _, ?read _ = _ => unfold read end;
    read_attrs Hm; by eexists
  | eapply parse_args_exits; [|exact Hm]; vm_compute; reflexivity ].

Lemma text_default_declared flags s : well_declared (with_default (VText s) (option_of flags text)) = true.
Proof.
  unfold well_declared. cbn [does nargs with_default option_of initial conv text convert text_value].
  rewrite (bool_decide_eq_true_2 (VText s = VText s)) by done. done.
Qed.

Lemma commands_declared :
  Forall (λ '(_, sub), well_formed sub = true ∧ "command" ∉ dest <$> actions sub)
    (Suites.commands root riscv_nm).
Proof.
  unfold Suites.commands, Suites.run_parser, Suites.suite_parser,
    Suites.diff_parser, Suites.add_run_options.
  generalize (default "riscv64-elf-nm" riscv_nm) (Suites.DEFAULT_RESULTS root). intros b c.
  repeat (constructor; [split; [|apply (bool_decide_unpack _); vm_compute; done]|]); [..|by constructor].
  all: apply andb_true_iff; split; [|vm_compute; reflexivity].
  all: apply forallb_forall; intros a Ha; apply list_elem_of_In in Ha.
  all: repeat (apply elem_of_cons in Ha as [->|Ha]; [first [reflexivity|apply text_default_declared]|]).
  all: by apply not_elem_of_nil in Ha.
Qed.

Ltac sub_attrs Hm :=
  repeat match goal with
  | |- context [attr ?m ?name ?t] =>
      let x := fresh "x" in let E := fresh "E" in
      destruct (typed_attr _ m name t Hm eq_refl) as [x E]; rewrite E; cbn [mbind result_bind]
  end.

Lemma compliance_typed : command_line_typed compliance_tool.
Proof.
  intros argv. destruct (parse compliance_tool argv) as [m|e] eqn:Hm; simpl in Hm.
  2:{ eapply parse_command_exits; [| |exact Hm]; [vm_compute; reflexivity|].
      eapply Forall_impl; [exact commands_declared|]. by intros [name sub] [? _]. }
  apply parse_command_typed in Hm as (name & sub & Hin & _ & Hname & Hm); [| |done].
  2: by apply commands_declared.
  assert (attr m "command" TText = Ok name) as Hc by (unfold attr; by rewrite Hname).
  cbn [reads compliance_tool]. unfold Suites.read. rewrite Hc. cbn [mbind result_bind].
  repeat (apply elem_of_cons in Hin as [[= -> ->]|Hin]; [cbn [String.eqb Ascii.eqb Bool.eqb];
    unfold Suites.read_run; sub_attrs Hm; by eexists|]).
  by apply not_elem_of_nil in Hin.
Qed.

Lemma tools_typed : Forall command_line_typed tools.
Proof.
  unfold tools. repeat (constructor; [first [apply compliance_typed|plain_typed]|]). constructor.
Qed.
Lemma tool_typed t : t ∈ tools → command_line_typed t.
Proof. pose proof tools_typed as Ht. rewrite Forall_forall in Ht. apply Ht. Qed.

(** C14: of the twenty-nine programs, whatever strings their command line holds,
    each either stops in [parse_args] with the help text or a usage error, or gets
    a namespace in which every attribute its [main] reads is present with the
    declared type. No command line makes a program fail later with an
    [AttributeError] or on a value of the wrong type. *)
Theorem command_lines_typed : Forall command_line_typed tools.
Proof. apply tools_typed. Qed.
End tools.

Example tools_count : length (tools "/repo" None) = 29%nat.
Proof. reflexivity. Qed.

Example bin2mem_reads :
  (m ← parse_args Bin2mem.options ["--size=0x1000"; "a//b.bin"; "out.hex"]; Bin2mem.read m)
  = Ok {| Bin2mem.binary := "a/b.bin"; Bin2mem.output := "out.hex"; Bin2mem.size := 4096;
          Bin2mem.word_bytes := 8 |}.
Proof. vm_compute. reflexivity. Qed.

(** Abbreviations, a repeated option, and an option after the positionals. *)
Example kernel_reads :
  (m ← parse_args Kernel.options
         ["--vml"; "vmlinux"; "--sym=memcpy"; "--output-s"; "f"; "--output-b"; "f.bin"; "--output-a";
          "f.S"; "--redirect"; "a=b"; "--app"; "--redirect=c=d"];
   Kernel.read m)
  = Ok {| Kernel.vmlinux := "vmlinux"; Kernel.output_asm := "f.S";
          Kernel.extract := {| arg_symbol := "memcpy"; output_symbol := "f"; output_bin := "f.bin";
                               apply_alternatives_flag := true; redirect := ["a=b"; "c=d"] |} |}.
Proof. vm_compute. reflexivity. Qed.

Example anchors_exclude :
  parse_args ThreeWide.options ["t.csv"; "--around-pc"; "80000000"; "--start-cycle"; "3"]
  = Err (ExitWith "argument --start-cycle: not allowed with argument --around-pc").
Proof. vm_compute. reflexivity. Qed.

Example sd_reads :
  fst <$> (m ← parse_args SdCard.options ["--hart-count"; "2"; "a.dts"; "fw.bin"; "Image"; "sd.img"];
           SdCard.read m)
  = Ok {| a_dts := Some "a.dts"; a_opensbi := Some "fw.bin"; a_linux := Some "Image";
          a_output := Some "sd.img"; a_image := None; memory_size := 0x10000000; hart_count := 2;
          timebase_frequency := 9216000; uart_clock_frequency := 9216000; a_cpp := "cpp";
          a_dtc := "dtc" |}.
Proof. vm_compute. reflexivity. Qed.
