(* ===== verification/ImagePrograms.v ===== *)
(** * The programs that make images

    [main] of the image generators and converters, from the options to the files:
    the Sv39 images, the memory image converters, the pointer-chase source, the
    kernel function extraction, the boot card image and the boot ROM check.

    [resolve] is [Path.resolve], [run_dts] what a command of the device-tree
    compilation does, [read_dtb] the tree it leaves and [tmp] its directory. *)

From stdpp Require Import base numbers list strings gmap.
From Stdlib Require Import ZArith Lia Ascii.
From S2P Require Import Prelude PyText Bytes PyJson Argparse Machine.
From S2P Require Options.
From S2P Require Sv39Image MemImage Multichase KernelExtract SdImage RomInit.

Open Scope Z_scope.

(** ** Supervisor images *)

Definition make_4h_sv39_image (args : Options.FourHart.Args) : prog Z :=
  reporting "make_4h_sv39_image.py"
    (template ← read_bytes (Options.FourHart.template args);
     image ← lift (Sv39Image.FourHart.build template);
     _ ← make_dirs (parent (Options.FourHart.output args));
     _ ← write_bytes (Options.FourHart.output args) image;
     _ ← print_line ("four-hart Sv39 image: " +:+ hex_alt (zlen image) +:+ " bytes, "
           +:+ str_int Sv39Image.FourHart.HARTS +:+ " roots, stride="
           +:+ hex_alt Sv39Image.FourHart.PREFIX_STRIDE +:+ ", VA="
           +:+ hex_alt Sv39Image.FourHart.VIRTUAL_BASE);
     mret 0).

Definition make_shared_sv39_image (args : Options.Shared.Args) : prog Z :=
  reporting "make_shared_sv39_image.py"
    (template ← read_bytes (Options.Shared.template args);
     image ← lift (Sv39Image.Shared.build template (Options.Shared.tlbi_test args));
     _ ← make_dirs (parent (Options.Shared.output args));
     _ ← write_bytes (Options.Shared.output args) image;
     let root_ppn := Z.shiftr (Sv39Image.Shared.PHYSICAL_BASE + Sv39Image.Shared.ROOT_OFFSET) 12 in
     _ ← print_line ("shared Sv39 image: " +:+ hex_alt (zlen image) +:+ " bytes, satp.ppn="
           +:+ hex_alt root_ppn +:+ ", VA=" +:+ hex_alt Sv39Image.Shared.VIRTUAL_BASE
           +:+ ", mapped=" +:+ hex_alt Sv39Image.Shared.MAPPED_BYTES +:+ ", tlbi_test="
           +:+ str_int (Z.b2z (Options.Shared.tlbi_test args)));
     mret 0).

(** ** Memory images *)

Definition bin2mem (args : Options.Bin2mem.Args) : prog Z :=
  reporting "bin2mem.py"
    (data ← read_bytes (Options.Bin2mem.binary args);
     '(loaded, lines) ← lift (MemImage.Bin2mem.convert data (Options.Bin2mem.size args)
                                (Options.Bin2mem.word_bytes args));
     _ ← put_text (Options.Bin2mem.output args) (unlines lines);
     _ ← print_line ("binary " +:+ Options.Bin2mem.binary args +:+ ": loaded=" +:+ str_int loaded
           +:+ " bytes memory=" +:+ str_int (Options.Bin2mem.size args) +:+ " bytes word="
           +:+ str_int (Options.Bin2mem.word_bytes args) +:+ " bytes");
     mret 0).

Definition elf_manifest_json (elf : string) (m : MemImage.Elf2mem.Manifest) : json :=
  JObj [("format", JStr "openrv64-elf-image-v1"); ("elf", JStr elf);
        ("entry", JStr (MemImage.Elf2mem.m_entry m)); ("ram_base", JStr (MemImage.Elf2mem.m_ram_base m));
        ("ram_size", JInt (MemImage.Elf2mem.m_ram_size m));
        ("word_bytes", JInt (MemImage.Elf2mem.m_word_bytes m));
        ("loaded_start", JStr (MemImage.Elf2mem.m_loaded_start m));
        ("loaded_end", JStr (MemImage.Elf2mem.m_loaded_end m));
        ("segments", JInt (MemImage.Elf2mem.m_segments m))].

Definition elf2mem (resolve : string → string) (args : Options.Elf2mem.Args) : prog Z :=
  blob ← read_bytes (Options.Elf2mem.elf args);
  '(lines, manifest) ←
    lift (MemImage.Elf2mem.main (Options.Elf2mem.elf args) blob (Options.Elf2mem.base args)
            (Options.Elf2mem.size args) (Options.Elf2mem.word_bytes args));
  _ ← put_text (Options.Elf2mem.output args) (unlines lines);
  match Options.Elf2mem.manifest args with
  | None => mret 0
  | Some path =>
      _ ← put_text path
            (dumps (elf_manifest_json (resolve (Options.Elf2mem.elf args)) manifest) +:+ newline);
      mret 0
  end.

(** ** Sources *)

Definition gen_multichase_ring (args : Options.Chase.Args) : prog Z :=
  text ← lift (Multichase.emit (Options.Chase.bytes args) (Options.Chase.stride args)
                 (Options.Chase.tlb_locality args) (Options.Chase.seed args));
  _ ← put_text (Options.Chase.output args) text; mret 0.

(** The paths are [pathlib.Path(args.output_bin)] and the like; the assembly names
    the binary by its resolved path. *)
Definition extract_riscv_kernel_function (resolve : string → string) (args : Options.Kernel.Args) : prog Z :=
  let extract := Options.Kernel.extract args in
  vmlinux ← read_bytes (path_text (Options.Kernel.vmlinux args));
  let output_bin := path_text (KernelExtract.output_bin extract) in
  let output_asm := path_text (Options.Kernel.output_asm args) in
  output ← lift (KernelExtract.main
             {| KernelExtract.arg_symbol := KernelExtract.arg_symbol extract;
                KernelExtract.output_symbol := KernelExtract.output_symbol extract;
                KernelExtract.output_bin := resolve output_bin;
                KernelExtract.apply_alternatives_flag := KernelExtract.apply_alternatives_flag extract;
                KernelExtract.redirect := KernelExtract.redirect extract |} vmlinux);
  _ ← make_dirs (parent output_bin);
  _ ← make_dirs (parent output_asm);
  _ ← write_bytes output_bin (KernelExtract.binary_bytes output);
  _ ← write_text output_asm (join newline (KernelExtract.assembly output));
  _ ← print_line (KernelExtract.console output);
  mret 0.

(** ** The boot ROM of a netlist *)

Definition check_yosys_rom_init (args : Options.Rom.Args) : prog Z :=
  catch
    (netlist ← read_text (Options.Rom.netlist args);
     '(line, status) ← lift (RomInit.main netlist (Options.Rom.minimum_segments args));
     _ ← (if status =? 0 then print_line line else print_error line);
     mret status)
    (λ e, if is_os_error e then Some (_ ← print_error ("YOSYS ROM INIT FAIL " +:+ message e); mret 1)
          else None).

(** ** The boot card *)

Definition card_entry_json (e : SdImage.ManifestEntry) : json :=
  JObj ([("tag", JStr (SdImage.m_tag e)); ("start_lba", JInt (SdImage.m_start_lba e));
         ("sector_count", JInt (SdImage.m_sector_count e));
         ("load_address", JStr (SdImage.m_load_address e));
         ("byte_length", JInt (SdImage.m_byte_length e)); ("crc32", JStr (SdImage.m_crc32 e));
         ("sha256", JStr (SdImage.m_sha256 e))]
        ++ match SdImage.m_source e with
           | Some (source, hash) => [("source", JStr source); ("source_sha256", JStr hash)]
           | None => []
           end).
Definition card_json (m : SdImage.Manifest) : json :=
  JObj [("format", JStr (SdImage.m_format m)); ("image", JStr (SdImage.m_image m));
        ("image_bytes", JInt (SdImage.m_image_bytes m));
        ("image_sectors", JInt (SdImage.m_image_sectors m));
        ("sha256", JStr (SdImage.m_image_sha256 m));
        ("entries", JArr (card_entry_json <$> SdImage.m_entries m))].

Definition CARD : string := "make-fpga-sd-image.py".

(** [read_bytes] with its [OSError] as a [ValueError] of this text. *)
Definition read_boot_input (text path : string) : prog (list Z) :=
  catch (read_bytes path)
    (λ e, if is_os_error e then Some (throw (ValueError (text +:+ ": " +:+ message e))) else None).

Section card.
Context (tmp : string) (run_dts : list string → SdImage.run_result) (read_dtb : option (list Z)).

Definition build_card (args : SdImage.Args) (manifest : option string) (dts opensbi linux output : string)
    : prog Z :=
  dts_source ← read_boot_input ("cannot read " +:+ dts) dts;
  compiled ← lift (SdImage.compile_dts args tmp dts (λ _, Some dts_source) run_dts read_dtb);
  opensbi_data ← read_boot_input "cannot read boot input" opensbi;
  linux_data ← read_boot_input "cannot read boot input" linux;
  let '(image, record) :=
    SdImage.build dts opensbi linux output (Ok compiled) (Some opensbi_data) (Some linux_data) in
  _ ← match image with
      | Some image => _ ← make_dirs (parent output); write_bytes output image
      | None => mret ()
      end;
  record ← lift record;
  let manifest_path := default (add_suffix output ".json") manifest in
  _ ← write_text manifest_path (dumps (card_json record) +:+ newline);
  _ ← print_line (dumps (card_json record));
  _ ← print_line ("manifest: " +:+ manifest_path);
  mret 0.

Definition verify_card (path : string) : prog Z :=
  image ← read_bytes path;
  '(_, record) ← lift (SdImage.verify_bytes path image);
  _ ← print_line (dumps (card_json record));
  mret 0.

Definition make_fpga_sd_image (args : SdImage.Args * option string) : prog Z :=
  match SdImage.choose_action args.1 with
  | Err (ExitWith text) => parser_error text
  | Err e => throw e
  | Ok (SdImage.Verify image) => reporting CARD (verify_card image)
  | Ok (SdImage.Build dts opensbi linux output) =>
      reporting CARD (build_card args.1 args.2 dts opensbi linux output)
  end.
End card.
