(* ===== verification/TracePrograms.v ===== *)
(** * The programs that read traces and logs

    [main] of the trace checkers, the pipeline and boot reports and the gem5 reports,
    from the options to the files and the lines printed.

    [resolve] is [Path.resolve]; [command] what a command prints, or its failure. *)

From stdpp Require Import base numbers list strings gmap.
From Stdlib Require Import ZArith Lia Ascii QArith.
From S2P Require Import Prelude PyText PyFloat PyNumber Csv CsvText PyJson Argparse Machine.
From S2P Require Options.
From S2P Require ArchTrace IssueTrace IssueWindow PipelineTrace Pipeline3p CoremarkCompare QemuTrace Gem5.
From S2P Require ElfSymbols BootSignposts BootWorkbook BootReport BootProfile.

Open Scope Z_scope.

(** [path.write_text(report)] into a directory that is made first, or the console. *)
Definition deliver (output : option string) (text : string) : prog unit :=
  match output with Some path => put_text path text | None => print_text text end.

(** ** Retirement traces *)

Section traces.
Context (resolve : string → string).

Definition discover_one (path : string) : prog (list string) :=
  file ← is_file path;
  if file : bool then mret [path]
  else
    dir ← is_dir path;
    if dir : bool then rglob path (λ name, name = chars "arch.csv") else throw (FileNotFoundError path).
Definition discover (paths : list string) : prog (list string) :=
  found ← each discover_one paths;
  mret (merge_sort path_le (remove_dups (resolve <$> mjoin (M := list) (A := string) found))).

Definition check_one (path : string) : prog unit :=
  t ← read_table path;
  rows ← lift (ArchTrace.Check.validate t);
  print_line ("TRACE PASS " +:+ path +:+ " rows=" +:+ str_int rows).

Definition check_arch_trace (paths : list string) : prog Z :=
  catch
    (found ← discover paths;
     _ ← (if bool_decide (found = []) then throw (ValueError "no arch.csv traces found") else mret ());
     _ ← each check_one found;
     mret 0)
    (λ e, if is_os_error e || is_value_error e
          then Some (_ ← print_error ("TRACE FAIL " +:+ message e); mret 1) else None).
End traces.

Definition branch_oracle (args : Options.Oracle.Args) : prog Z :=
  t ← read_table (Options.Oracle.trace args);
  records ← lift (ArchTrace.Oracle.main t (Options.Oracle.expect_count args));
  retired ← lift (foldM ArchTrace.Oracle.retire_row [] (rows t));
  _ ← put_text (Options.Oracle.output args) (unlines records);
  _ ← print_line ("branch oracle: trace=" +:+ Options.Oracle.trace args +:+ " retired="
        +:+ str_int (zlen retired) +:+ " records=" +:+ str_int (zlen records) +:+ " output="
        +:+ Options.Oracle.output args);
  mret 0.

(** ** The issue window *)

Section issue_window.
Import IssueWindow.

(** A quotient of integers as a float. *)
Definition json_ratio (q : Q) : json := JFloat (div_or_zero (Qnum q) (Z.pos (Qden q))).
(** [median(values) if values else 0]: an even number of values has a float. *)
Definition json_median (values : list Z) : json :=
  if Nat.odd (length values) then JInt (Qnum (median values))
  else match values with [] => JInt 0 | _ => json_ratio (median values) end.

Definition summary_json (s : Summary) : json :=
  let c := totals s in
  JObj [("cycles", JInt (cycles s)); ("ipc", json_ratio (ipc s)); ("issued", JInt (issue_slots c));
        ("no_issue_cycles", JInt (no_issue_cycles c));
        ("window_full_cycles", JInt (window_full_cycles c)); ("max_occupancy", JInt (max_occupancy c));
        ("skipped_oldest_cycles", JInt (skipped_oldest_cycles c));
        ("max_skip_distance", JInt (max_skip_distance c));
        ("feed_stall_cycles", JInt (feed_stall_cycles c)); ("free_branches", JInt (free_branches c));
        ("free_jumps", JInt (free_jumps c))].

Definition projection_json (p : Projection) : json :=
  JObj [("calibration_cycles", JInt (calibration_cycles p));
        ("selection_delta_cycles", JInt (selection_delta_cycles p));
        ("selection_only_cycles", JInt (selection_only_cycles p));
        ("selection_only_ipc", json_ratio (selection_only_ipc p));
        ("strict_buffered_cycles", JInt (strict_buffered_cycles p));
        ("strict_buffered_ipc", json_ratio (strict_buffered_ipc p));
        ("issue_window_cycles", JInt (issue_window_cycles p));
        ("issue_window_ipc", json_ratio (issue_window_ipc p));
        ("issue_window_saved_cycles", JInt (issue_window_saved_cycles p))].

Definition latency_json (instructions : list IssueTrace.DynamicInstruction) : json :=
  let latencies P := IssueTrace.latency <$> filter (λ i, P i = true) instructions in
  JObj [("alu", json_median (latencies (λ i, negb (IssueTrace.is_mem i))));
        ("load", json_median (latencies (λ i, IssueTrace.is_mem i && negb (IssueTrace.is_store i))));
        ("store", json_median (latencies IssueTrace.is_store))].

Definition experiment_json (args : Options.Window.Args) (trace : list IssueTrace.DynamicInstruction)
    (stats : IssueTrace.Stats) (r : Report) : json :=
  sort_keys (JObj
    [("trace", JStr (Options.Window.trace args));
     ("trace_stats", JObj [("cycles", JInt (IssueTrace.s_cycles stats));
                           ("retired", JInt (IssueTrace.s_retired stats));
                           ("held_cycles", JInt (IssueTrace.s_held_cycles stats));
                           ("backend_held_cycles", JInt (IssueTrace.s_backend_held_cycles stats))]);
     ("capacity", JInt (Options.Window.capacity args));
     ("free_perfect_branches", JBool (Options.Window.free_perfect_branches args));
     ("free_perfect_jumps", JBool (Options.Window.free_perfect_jumps args));
     ("hazard_model", JStr ("youngest-producer completion forwarding; WAW allocation "
                            +:+ "allowed; no synthetic read-port cap"));
     ("latency_median", latency_json trace);
     ("results", JObj (prod_map id summary_json <$> results r));
     ("projection", projection_json (projection r))]).
End issue_window.

Definition issue_window_experiment (args : Options.Window.Args) : prog Z :=
  t ← read_table (Options.Window.trace args);
  '(instructions, stats) ← lift (IssueTrace.load_trace t);
  report ← lift (IssueWindow.main t (Options.Window.capacity args)
                   (Options.Window.free_perfect_branches args)
                   (Options.Window.free_perfect_jumps args));
  let text := dumps (experiment_json args instructions stats report) in
  _ ← print_line text;
  _ ← match Options.Window.json args with
      | Some path => write_text path (text +:+ newline)
      | None => mret ()
      end;
  mret 0.

(** ** Pipeline reports *)

(** The reading errors end in a message; what fails later does not. *)
Definition pipeline_trace (args : Options.Pipeline.Args) : prog Z :=
  catch
    (t ← read_table (Options.Pipeline.trace args); mret (inr t))
    (λ e, if is_os_error e then Some (mret (inl e)) else None) ≫= λ table,
  match table with
  | inl e => _ ← print_error ("pipeline_trace.py: " +:+ message e); mret 2
  | inr t =>
      '(status, lines) ← lift (PipelineTrace.main (Options.Pipeline.range args) t);
      _ ← (if status =? 0 then deliver (Options.Pipeline.output args) (unlines lines)
           else print_error (join newline lines));
      mret status
  end.

(** [path.write_text(report)] where the directory is expected to be there. *)
Definition write_or_print (output : option string) (text : string) : prog unit :=
  match output with Some path => write_text path text | None => print_text text end.

Definition pipeline_trace_3p (args : Options.ThreeWide.Args) : prog Z :=
  t ← read_table (Options.ThreeWide.trace args);
  report ← lift (Pipeline3p.main (Options.ThreeWide.view args) t);
  _ ← write_or_print (Options.ThreeWide.output args) report; mret 0.

Definition qemu_one_insn_trace (args : Options.Qemu.Args) : prog Z :=
  text ← read_text (Options.Qemu.trace args);
  lines ← lift (QemuTrace.main text (Options.Qemu.top args));
  _ ← deliver (Options.Qemu.output args) (unlines lines); mret 0.

Section commands.
Context (command : list string → result (list string)).

(** [print(report)] ends the report with a line break, the file has none. *)
Definition compare_coremark_pipelines (args : Options.Coremark.Args) : prog Z :=
  listing ← lift (command [Options.Coremark.orv_objdump args; "-d"; Options.Coremark.orv_elf args]);
  orv ← read_table (Options.Coremark.orv_trace args);
  hpi ← read_text (Options.Coremark.hpi_trace args);
  report ← lift (CoremarkCompare.main (unlines listing) orv hpi (Options.Coremark.comparison args));
  _ ← match Options.Coremark.output args with
      | Some path => write_text path report
      | None => print_line report
      end;
  mret 0.

(** ** Boot logs *)

Definition linux_boot_signposts (args : Options.Signposts.Args) : prog Z :=
  read ← snapshot;
  '(status, lines, errors) ← lift (BootSignposts.main read (Options.Signposts.logs args)
      (String.eqb (Options.Signposts.format args) "markdown"));
  _ ← print_lines lines;
  _ ← (if bool_decide (errors = []) then mret () else print_error (join newline errors));
  mret status.

Definition linux_boot_pc_histogram (generated : string) (args : Options.Profile.Args) : prog Z :=
  read ← snapshot;
  '(status, lines) ← lift (BootProfile.main (Options.Profile.profile args) read command generated);
  _ ← (if status =? 0 then
         match Options.Profile.output args with
         | Some path => put_text path (join newline lines)
         | None => print_lines lines
         end
       else print_error (join newline lines));
  mret status.

(** What [csv.writer] writes for a value. *)
Definition csv_field (c : BootReport.cell) : string :=
  match c with
  | BootReport.VNone => ""
  | BootReport.VInt z => str_int z
  | BootReport.VStr s => s
  | BootReport.VFloat x => float_repr x
  | BootReport.VBool b => if b then "True" else "False"
  end.
Definition csv_text (rows : list (list BootReport.cell)) : string :=
  csv_writer (map (map csv_field) rows).

(** [save] is the file [openpyxl] makes of the sheets, [letter] and [dimensions] its
    names of columns and areas. *)
Definition linux_boot_report (letter : Z → string) (dimensions : list (list BootReport.cell) → string)
    (have_openpyxl : bool) (save : list (string * BootWorkbook.Sheet BootReport.cell) → string)
    (args : BootReport.Args) : prog Z :=
  read ← snapshot;
  report ← lift (BootReport.main letter dimensions args read command have_openpyxl);
  _ ← match BootReport.csv_rows report with
      | Some rows => put_text (BootReport.csv args) (csv_text rows)
      | None => mret ()
      end;
  _ ← match BootReport.workbook report with
      | Some sheets => put_text (BootReport.xlsx args) (save sheets)
      | None => mret ()
      end;
  _ ← (if BootReport.exit_status report =? 0 then print_lines (BootReport.messages report)
       else print_error (join newline (BootReport.messages report)));
  mret (BootReport.exit_status report).
End commands.

(** ** gem5 reports *)

(** The report goes to the file, if one is named, and to the console. *)
Definition gem5_output (output : option string) (lines : result (list string)) : prog Z :=
  lines ← lift lines;
  let report := unlines lines in
  _ ← match output with Some path => put_text path report | None => mret () end;
  _ ← print_text report;
  mret 0.

Definition gem5_hpi_report (args : Options.Gem5Report.Args) : prog Z :=
  text ← read_text (Options.Gem5Report.stats args);
  gem5_output (Options.Gem5Report.output args)
    (Gem5.coremark_report (Options.Gem5Report.stats args) text (Options.Gem5Report.trace args)).
Definition gem5_hpi_blake2s_report (args : Options.Gem5Blake2s.Args) : prog Z :=
  text ← read_text (Options.Gem5Blake2s.stats args);
  gem5_output (Options.Gem5Blake2s.output args)
    (Gem5.blake2s_report (Options.Gem5Blake2s.stats args) text (Options.Gem5Blake2s.calls args)
       (Options.Gem5Blake2s.blocks_per_call args)).
Definition gem5_hpi_pointer_chase_report (args : Options.Gem5Chase.Args) : prog Z :=
  text ← read_text (Options.Gem5Chase.stats args);
  gem5_output (Options.Gem5Chase.output args)
    (Gem5.pointer_chase_report (Options.Gem5Chase.stats args) text (Options.Gem5Chase.run args)).
Definition gem5_hpi_stream_report (args : Options.Gem5Stream.Args) : prog Z :=
  text ← read_text (Options.Gem5Stream.stats args);
  gem5_output (Options.Gem5Stream.output args)
    (Gem5.stream_report (Options.Gem5Stream.stats args) text (Options.Gem5Stream.kernel args)
       (Options.Gem5Stream.bytes args)).
Definition gem5_hpi_pagefree_report (args : Options.Gem5Pagefree.Args) : prog Z :=
  text ← read_text (Options.Gem5Pagefree.stats args);
  gem5_output (Options.Gem5Pagefree.output args)
    (Gem5.pagefree_report (Options.Gem5Pagefree.stats args) text (Options.Gem5Pagefree.kernel args)
       (Options.Gem5Pagefree.records args)).
