(* ===== verification/SynthPrograms.v ===== *)
(** * The programs of the synthesis flow

    Yosys statistics as JSON, and [main] of [synth/core/parallel_map.py],
    [synth/core/summarize_resources.py] and
    [synth/nangate45/summarize-core-4pf.py], from the options to the files.

    [yosys] is what the tool does on a script: its exit code, its log and the report
    it leaves; [seconds] the time a worker took; [completed] the order in which the
    workers complete. *)

From stdpp Require Import base numbers list strings gmap sorting.
From Stdlib Require Import ZArith Lia Ascii SpecFloat.
From S2P Require Import Prelude PyText PyFloat PyDict PyRegex PyNumber CsvText PyJson Argparse Machine.
From S2P Require Options.
From S2P Require ParallelMap AreaReport.

Open Scope Z_scope.

#[local] Existing Instance AreaReport.double_Num.

Definition Stats : Type := ParallelMap.Stats double.

(** ** Statistics reports *)

(** [value[key]] *)
Definition subscript (value : json) (key : string) : result json :=
  match value with
  | JObj fields => match d_get key fields with Some v => Ok v | None => Err (KeyError key) end
  | _ => Err (TypeError "indices must be integers")
  end.
Definition items (value : json) : result (list (string * json)) :=
  match value with JObj fields => Ok fields | _ => Err (AttributeError "items") end.

(** [float(value)] *)
Definition number (value : json) : result double :=
  match value with
  | JInt z => Ok (to_float z)
  | JBool b => Ok (to_float (Z.b2z b))
  | JFloat x => Ok x
  | JStr s => match py_float s with
              | Some x => Ok x
              | None => Err (ValueError ("could not convert string to float: " +:+ repr s))
              end
  | _ => Err (TypeError "must be a real number")
  end.
Definition optional_number (fields : list (string * json)) (key : string) : result (option double) :=
  match d_get key fields with None => Ok None | Some v => Some <$> number v end.
Definition cell_count (cell : string * json) : result (string * Z) :=
  match cell.2 with JInt n => Ok (cell.1, n) | _ => Err (TypeError "unsupported operand type") end.

(** The statistics the programs read of a module; the counts of cells are integers. *)
Definition read_stats (value : json) : result Stats :=
  match value with
  | JObj fields =>
      area ← optional_number fields "area";
      sequential_area ← optional_number fields "sequential_area";
      cells ← items (default (JObj []) (d_get "num_cells_by_type" fields));
      counts ← mapR cell_count cells;
      Ok {| ParallelMap.area := area; ParallelMap.sequential_area := sequential_area;
            ParallelMap.num_cells_by_type := counts; ParallelMap.fields := fields |}
  | _ => Err (AttributeError "get")
  end.
Definition named_stats (entry : string * json) : result (string * Stats) :=
  stats ← read_stats entry.2; Ok (entry.1, stats).
Definition read_modules (report : json) : result (list (string * Stats)) :=
  modules ← subscript report "modules"; entries ← items modules; mapR named_stats entries.
(** [load_stat]: the modules of a report, by the names it gives them. *)
Definition load_stat (text : string) : result (list (string * Stats)) :=
  report ← loads text; read_modules report.

Definition missing_top (top text : string) (modules : list (string * Stats)) : result unit :=
  match d_get top (ParallelMap.by_canonical_name modules) with
  | Some _ => Ok tt
  | None => Err (ValueError text)
  end.

(** The object of a merged module: what the worker reported, with the recursive
    areas. *)
Definition stats_json (stats : Stats) : json :=
  let put key v fields := match v with Some x => d_set key (JFloat x) fields | None => fields end in
  JObj (put "sequential_area" (ParallelMap.sequential_area stats)
          (put "area" (ParallelMap.area stats) (ParallelMap.fields stats))).
(** [merged = dict(pre_data); merged["modules"] = merged_modules] *)
Definition merged_json (pre : list (string * json)) (merged : list (string * Stats)) : json :=
  JObj (d_set "modules" (JObj (prod_map id stats_json <$> merged)) pre).

(** ** Parallel mapping *)

Section parallel.
Context (yosys : string → Z * string * option string) (seconds : string → double)
  (completed : list (Z * string)).

Section workers.
Context (args : ParallelMap.Args).

Definition worker_path (task : Z * string) (original extension : string) : string :=
  ParallelMap.worker_file args (ParallelMap.worker_stem task.1 original +:+ extension).
Definition script_of (task : Z * string) (original : string) : string :=
  ParallelMap.worker_script args (worker_path task original ".json") original.

(** The reports as [ParallelMap] sees them, from the files before the workers; a report
    that Yosys did not leave is an error without its path. *)
Definition tools (before : string → option string) : ParallelMap.Tools :=
  {| ParallelMap.stat_file := λ path, load_stat <$> before path;
     ParallelMap.run_yosys := λ script,
       let '(code, _, report) := yosys script in
       (code, match report with Some text => load_stat text | None => Err (no_such_file "report") end) |}.

(** One worker: its files, its result or error, and the time it took. *)
Definition worker (before : string → option string) (names : gmap string string) (task : Z * string)
    : prog (string * double) :=
  original ← lift (ParallelMap.item names task.2);
  let reused := ParallelMap.reuse_workers args
                && bool_decide (is_Some (before (worker_path task original ".json"))) in
  _ ← (if reused then mret ()
       else
         let script := script_of task original in
         let '(_, log, report) := yosys script in
         _ ← write_text (worker_path task original ".ys") script;
         _ ← write_text (worker_path task original ".log") log;
         match report with
         | Some text => write_text (worker_path task original ".json") text
         | None => mret ()
         end);
  _ ← lift (ParallelMap.run_worker (tools before) args task.1 original);
  mret (task.2, if reused then S754_zero false else seconds task.2).

(** The worker at a position of the order, and the line printed for it. *)
Definition collect (before : string → option string) (names : gmap string string) (count : Z)
    (position : Z * (Z * string)) : prog (string * double) :=
  '(module, elapsed) ← worker before names position.2;
  _ ← print_line ("mapped " +:+ module +:+ " in " +:+ fixed 1 elapsed +:+ "s ("
        +:+ str_int (position.1 + 1) +:+ "/" +:+ str_int count +:+ ")");
  mret (module, elapsed).

Definition recipe : string :=
  match ParallelMap.abc_script args with
  | Some script => script
  | None => if ParallelMap.fast args then "fast" else "default"
  end.
Definition timing_json (jobs : Z) (elapsed : list (string * double)) : json :=
  JObj [("requested_jobs", JInt (ParallelMap.requested_jobs args)); ("jobs", JInt jobs);
        ("job_limit", JInt ParallelMap.MAX_JOBS); ("abc_recipe", JStr recipe);
        ("module_seconds", JObj (prod_map id JFloat <$> merge_sort key_le elapsed))].
End workers.

Definition parallel_map (options : Options.TechMap.Args) : prog Z :=
  let args := Options.TechMap.map options in
  if ParallelMap.fast args && bool_decide (ParallelMap.abc_script args ≠ None) then
    parser_error "--fast and --abc-script are mutually exclusive"
  else if ParallelMap.requested_jobs args <? 1 then parser_error "--jobs must be at least one"
  else
    let jobs := Z.min (ParallelMap.requested_jobs args) ParallelMap.MAX_JOBS in
    _ ← (if jobs =? ParallelMap.requested_jobs args then mret ()
         else print_line ("limiting requested worker count from "
                +:+ str_int (ParallelMap.requested_jobs args) +:+ " to "
                +:+ str_int ParallelMap.MAX_JOBS));
    _ ← make_dirs (ParallelMap.worker_dir args);
    pre_text ← read_text (Options.TechMap.pre_stat options);
    pre_data ← lift (loads pre_text);
    pre_modules ← lift (m ← subscript pre_data "modules"; items m);
    hierarchy ← read_text (Options.TechMap.hierarchy options);
    let lines := of_chars <$> splitlines hierarchy in
    '(names, _) ← lift (ParallelMap.prepare args pre_modules.*1 lines);
    let count := zlen (ParallelMap.module_list pre_modules.*1) in
    let workers := ParallelMap.worker_count args pre_modules.*1 in
    _ ← print_line ("mapping " +:+ str_int count +:+ " retained modules with "
          +:+ str_int workers +:+ " workers");
    _ ← lift (ParallelMap.executor args pre_modules.*1);
    before ← snapshot;
    elapsed ← each (collect args before names count) (enumerate completed);
    merged ← lift (ParallelMap.main (tools before) args pre_modules.*1 lines completed);
    pre ← lift (items pre_data);
    _ ← write_text (Options.TechMap.out_stat options) (dumps (merged_json pre merged) +:+ newline);
    _ ← write_text (slash (ParallelMap.worker_dir args) "timing.json")
          (dumps (timing_json args workers elapsed) +:+ newline);
    mret 0.
End parallel.

(** ** The functional area summary *)

Section area.
Import AreaReport.

Definition memory_number (m : Memory) (key : string) : json :=
  if String.eqb key "width" then JInt (width m) else if String.eqb key "size" then JInt (size m)
  else if String.eqb key "read_ports" then JInt (read_ports m)
  else if String.eqb key "write_ports" then JInt (write_ports m) else JStr (read_clock_enable m).
Definition memory_json (m : Memory) : json :=
  JObj ([("module", JStr (m_module m)); ("name", JStr (m_name m))]
        ++ ((λ key, (key, memory_number m key)) <$> m_keys m)
        ++ [("bits", JInt (bits m)); ("group", JStr (group m))]).

(** The values of a row, by the keys of the dictionary. *)
Definition row_json (row : BlockRow) : list (string * json) :=
  [("block", JStr (block row)); ("area_um2", JFloat (area_um2 row));
   ("percent", JFloat (percent_of_total row));
   ("sequential_area_um2", JFloat (sequential_area_um2 row));
   ("mapped_cells", JInt (row_cells row)); ("instances", JInt (row_instances row));
   ("description", JStr (description row))].

Definition configuration_json : json :=
  JObj [("top", JStr TOP); ("pipeline", JStr "3-wide decode, EX0/EX1/MEM0/MEM1 issue");
        ("axi_data_width", JInt 256); ("rv64m", JBool true); ("rv64a", JBool true);
        ("retire_depth", JInt 8); ("full_forwarding", JBool true); ("relaxed_waw", JBool true);
        ("relaxed_hazards", JBool true); ("free_branches", JBool false); ("posted_stores", JBool true);
        ("issue_window", JBool false); ("predictor", JStr "32-entry 3-bit bimodal + RAS8");
        ("trace", JBool false); ("fpu", JBool false); ("cache", JBool true);
        ("l1i", JStr "16 KiB, 4-way, 64-byte lines"); ("l1d", JStr "16 KiB, 4-way, 64-byte lines");
        ("cache_data_storage", JStr "inferred synchronous SRAM")].

Definition or_null {A} (f : A → json) (v : option A) : json :=
  match v with Some x => f x | None => JNull end.
Definition totals_json (s : Summary) : json :=
  let cache := cache_memories (s_memories s) in
  JObj [("partitioned_area_um2", JFloat (partition_total s));
        ("partitioned_sequential_area_um2", JFloat (seq_total s));
        ("inferred_memory_instances", JInt (zlen (s_memories s)));
        ("inferred_memory_bits", JInt (total_bits (s_memories s)));
        ("cache_sram_instances", JInt (zlen cache)); ("cache_sram_bits", JInt (total_bits cache));
        ("flat_area_um2", or_null JFloat (flat_total (s_flat s)));
        ("flat_mapped_cells", or_null JInt (flat_cells (s_flat s)));
        ("partition_boundary_overhead_percent", or_null JFloat (hierarchy_delta (s_flat s)));
        ("flat_map_failure", or_null JStr (flat_failure (s_flat s)))].
Definition resources_json (s : Summary) : json :=
  JObj [("configuration", configuration_json); ("totals", totals_json s);
        ("inferred_memories", JArr (memory_json <$> s_memories s));
        ("blocks", JArr (JObj ∘ row_json <$> s_rows s))].

(** [csv.DictWriter]: the keys of the first row, then the values of every row; the
    top module always has a row. *)
Definition row_fields (row : BlockRow) : list string :=
  [block row; float_repr (area_um2 row); float_repr (percent_of_total row);
   float_repr (sequential_area_um2 row); str_int (row_cells row); str_int (row_instances row);
   description row].
Definition resources_csv (rows : list BlockRow) : string :=
  csv_writer (match rows with
              | [] => []
              | first :: _ => (row_json first).*1 :: map row_fields rows
              end).

Definition summarize_resources (args : Options.Resources.Args) : prog Z :=
  partition ← read_text (Options.Resources.partition_stat args);
  modules ← lift (load_stat partition);
  _ ← lift (missing_top TOP "openrv64_top_3p missing from partitioned Yosys stat report" modules);
  let lines text := of_chars <$> splitlines text in
  hierarchy ← read_text (Options.Resources.hierarchy args);
  _ ← lift (kept_hierarchy (lines hierarchy));
  memories ← read_text (Options.Resources.memories args);
  _ ← lift (summarize modules (lines hierarchy) (lines memories) None);
  flat ← match Options.Resources.flat_stat args with
         | None => mret None
         | Some path =>
             file ← is_file path;
             if file : bool then text ← read_text path; modules ← lift (load_stat text); mret (Some modules)
             else mret None
         end;
  s ← lift (summarize modules (lines hierarchy) (lines memories) flat);
  let file name := slash (Options.Resources.out_dir args) name in
  _ ← make_dirs (Options.Resources.out_dir args);
  _ ← write_text (file "resources.csv") (resources_csv (s_rows s));
  _ ← write_text (file "resources.json") (dumps (resources_json s) +:+ newline);
  _ ← write_text (file "resources.md") (join newline (report s));
  _ ← print_lines (console s);
  mret 0.
End area.

(** ** The summary of one core *)

Section core4pf.
Import AreaReport.Core4pf.

(** [re.MULTILINE] and a pattern that starts with [^]: matches begin at the start of
    a line. *)
Fixpoint find_at_lines (fuel : nat) (start : bool) (r : regex) (s : list ascii) : list captures :=
  match fuel with
  | O => []
  | S fuel =>
      match (if start then match_at r s else None) with
      | Some (rest, caps) => caps :: find_at_lines fuel false r rest
      | None => match s with
                | [] => []
                | c :: s => find_at_lines fuel (bool_decide (c = char_of 10)) r s
                end
      end
  end.
Definition CELL_RE : regex :=
  Rep true 0 blank +>+ lit "cell" +>+ Rep true 0 blank +>+ lit "(" +>+ Rep true 0 blank
  +>+ Group "name" (many (λ c, negb (blank c) && negb (is_char ")" c))).
Definition DELAY_RE : regex :=
  lit "Delay" +>+ Rep true 0 blank +>+ lit "=" +>+ Rep true 0 blank
  +>+ Group "delay" (many (λ c, is_digit c || is_char "." c)) +>+ Rep true 0 blank +>+ lit "ps".
Definition found (name : string) (matches : list captures) : list string := omap (group name) matches.

Definition library (text : string) : list string :=
  found "name" (find_at_lines (S (String.length text)) true CELL_RE (chars text)).
(** [float(matches[-1])] of a log with a delay. *)
Definition last_delay (text : string) : result (list double) :=
  match last (found "delay" (finditer DELAY_RE (chars text))) with
  | None => Ok []
  | Some t => match py_float t with
              | Some x => Ok [x]
              | None => Err (ValueError "could not convert string to float")
              end
  end.

(** [dir.glob("*.log")], sorted: the names. *)
Definition log_names (dir : string) : prog (list string) := λ h,
  (Ok (sort_strings (omap (λ path,
         name ← last (path_parts path);
         if bool_decide (parent path = dir) && bool_decide (chars ".log" `suffix_of` name) && bool_decide (path ≠ dir)
         then Some (of_chars name) else None)
       ((map_to_list (files h)).*1 ++ elements (dirs h)))), h).
Definition log_delays (dir name : string) : prog (string * list double) :=
  text ← read_text (slash dir name); delays ← lift (last_delay text); mret (name, delays).

Definition summary_json (r : Result) : json :=
  let floating := JBool (String.eqb (variant r) "fd") in
  JObj [("configuration",
         JObj [("top", JStr TOP); ("variant", JStr (variant r)); ("rv64f", floating);
               ("rv64d", floating); ("retire_depth", JInt 16); ("l1i", JBool false);
               ("l1d", JBool false); ("trace", JBool false); ("pipelined_fp_multiply", JBool true);
               ("registered_issue_select", JBool (registered_issue_select r))]);
        ("area_um2", JFloat (area_um2 r));
        ("sequential_area_um2", JFloat (sequential_area_um2 r));
        ("mapped_library_cells", JInt (mapped_library_cells r));
        ("retained_modules", JInt (retained_modules r));
        ("worst_partition_delay_ps", or_null JFloat (worst_partition_delay_ps r));
        ("worst_partition_log", or_null JStr (worst_partition_log r));
        ("timing_scope", JStr "maximum unbuffered ABC stime delay within any retained partition");
        ("timing_qualified", JBool false); ("abc_recipe", JStr "strash-dretime-scl-nf")].

Definition summarize_core_4pf (args : Options.Core4pf.Args) : prog Z :=
  stat ← read_text (Options.Core4pf.stat args);
  modules ← lift (load_stat stat);
  _ ← lift (missing_top TOP (TOP +:+ " missing from mapped stat report") modules);
  liberty ← read_text (Options.Core4pf.liberty args);
  names ← log_names (Options.Core4pf.worker_dir args);
  logs ← each (log_delays (Options.Core4pf.worker_dir args)) names;
  r ← lift (summarize (Options.Core4pf.variant args) (Options.Core4pf.register_issue_select args)
              modules (library liberty) logs);
  let file name := slash (Options.Core4pf.out_dir args) name in
  _ ← make_dirs (Options.Core4pf.out_dir args);
  _ ← write_text (file "summary.json") (dumps (summary_json r) +:+ newline);
  _ ← write_text (file "report.md") (join newline (report r));
  _ ← print_line (console r);
  mret 0.
End core4pf.
