(* ===== verification/SessionPrograms.v ===== *)
(** * The programs that follow other programs

    [linux_boot_watch.py] reads the stream of a running simulation: [linux_boot_watch]
    prints and writes line by line what [BootWatch.watch] says of the whole stream.
    [compliance.py] runs simulations ([Compliance.main]); [compliance_files] are the
    files it and its commands may write. *)

From stdpp Require Import base numbers list strings gmap.
From Stdlib Require Import ZArith Lia Ascii.
From S2P Require Import Prelude PyText PyNumber Csv CsvText PyJson Argparse Machine.
From S2P Require Import ElfSymbols BootSignposts BootWatch Compliance.
From S2P Require Options.

Open Scope Z_scope.

(** ** Live annotation *)

Section watch.
Context (command : list string → result (list string)).

(** A row of the CSV file, if there is one. *)
Definition record_row (csv : option string) (row : list string) : prog unit :=
  match csv with Some path => append_text path (csv_writer [row]) | None => mret () end.

(** The records of a line, with the function of the last sample. *)
Fixpoint annotate (o : BootWatch.Options) (tables : list SymbolTable) (csv : option string)
    (previous : option (string * string)) (records : list Entry) : prog (option (string * string)) :=
  match records with
  | [] => mret previous
  | e :: records =>
      let symbol := symbolize tables (BootWatch.pc e) in
      let current := current_function symbol in
      if is_sample e && changes_only o && bool_decide (Some current = previous)
      then annotate o tables csv previous records
      else
        _ ← print_line (annotation o e symbol);
        _ ← record_row csv (csv_row o e symbol);
        annotate o tables csv (if is_sample e then Some current else previous) records
  end.

(** The lines of the standard input. *)
Fixpoint follow (o : BootWatch.Options) (tables : list SymbolTable) (csv : option string)
    (previous : option (string * string)) (lines : list string) : prog unit :=
  match lines with
  | [] => mret ()
  | line :: lines =>
      _ ← (if annotations_only o then mret () else print_text line);
      records ← lift (line_records line);
      previous ← annotate o tables csv previous records;
      follow o tables csv previous lines
  end.

Fixpoint missing_images (images : list ElfImage) : prog (list string) :=
  match images with
  | [] => mret []
  | i :: images =>
      file ← is_file (image_path i);
      missing ← missing_images images;
      mret (if file : bool then missing else image_path i :: missing)
  end.

Definition open_csv (csv : option string) : prog unit :=
  match csv with Some path => put_text path (csv_writer [csv_header]) | None => mret () end.

Definition linux_boot_watch (stdin : list string) (args : Options.Watch.Args) : prog Z :=
  missing ← missing_images (Options.Watch.elfs args);
  if negb (bool_decide (missing = [])) then
    _ ← each (λ path, print_error ("error: ELF does not exist: " +:+ path)) missing; mret 2
  else
    match load_symbol_tables command (Options.Watch.elfs args) (Options.Watch.nm args) with
    | Err e => _ ← print_error ("error: could not load ELF symbols: " +:+ Machine.message e); mret 2
    | Ok tables =>
        _ ← open_csv (Options.Watch.csv args);
        _ ← follow (Options.Watch.watch args) tables (Options.Watch.csv args) None stdin;
        mret 0
    end.

(** ** Line by line and as a whole *)

Lemma write_rows_app rows rows' : csv_writer (rows ++ rows') = csv_writer rows +:+ csv_writer rows'.
Proof.
  assert (∀ a b, of_chars (a ++ b) = of_chars a +:+ of_chars b) as Happ.
  { intros a b. induction a as [|c a IH]; [done|]. exact (f_equal (String c) IH). }
  unfold csv_writer. by rewrite fmap_app, join_app, Happ.
Qed.

(** The texts printed in order, and the rows added to the file. *)
Definition concat_texts (texts : list string) : string := foldr (λ a b, a +:+ b) "" texts.
Definition rows_added (csv : option string) (rows : list (list string)) (fs : gmap string string)
    : gmap string string :=
  match csv with Some path => alter (λ old, old +:+ csv_writer rows) path fs | None => fs end.
Definition emitted (csv : option string) (texts : list string) (rows : list (list string)) (h : host) : host :=
  {| files := rows_added csv rows (files h); dirs := dirs h; unwritable := unwritable h;
     out := out h +:+ concat_texts texts; err := err h |}.

Lemma concat_texts_app l l' : concat_texts (l ++ l') = concat_texts l +:+ concat_texts l'.
Proof. induction l as [|t l IH]; simpl; [done|]. by rewrite IH, append_assoc. Qed.
Lemma append_nil_r (s : string) : s +:+ "" = s.
Proof. induction s as [|c s IH]; [done|]. exact (f_equal (String c) IH). Qed.
Lemma rows_added_nil csv fs : rows_added csv [] fs = fs.
Proof.
  destruct csv as [path|]; [|done]. apply map_eq. intros path'. unfold rows_added.
  destruct (decide (path = path')) as [->|Hne]; [|by rewrite lookup_alter_ne].
  rewrite lookup_alter_eq. destruct (fs !! path'); simpl; [|done]. f_equal. apply append_nil_r.
Qed.
Lemma rows_added_app csv rows rows' fs :
  rows_added csv rows' (rows_added csv rows fs) = rows_added csv (rows ++ rows') fs.
Proof.
  destruct csv as [path|]; [|done]. apply map_eq. intros path'. unfold rows_added.
  destruct (decide (path = path')) as [->|Hne]; [|by rewrite !lookup_alter_ne].
  rewrite !lookup_alter_eq. destruct (fs !! path'); simpl; [|done]. f_equal.
  by rewrite write_rows_app, append_assoc.
Qed.
Lemma emitted_nil csv h : emitted csv [] [] h = h.
Proof. unfold emitted. rewrite rows_added_nil, append_nil_r. by destruct h. Qed.
Lemma emitted_app csv texts rows texts' rows' h :
  emitted csv texts' rows' (emitted csv texts rows h) = emitted csv (texts ++ texts') (rows ++ rows') h.
Proof. unfold emitted. simpl. by rewrite rows_added_app, concat_texts_app, append_assoc. Qed.
Lemma print_emits csv text h : print_text text h = (Ok (), emitted csv [text] [] h).
Proof. unfold print_text, emitted, with_out. simpl. by rewrite rows_added_nil, append_nil_r. Qed.

Lemma record_row_emits csv row h : record_row csv row h = (Ok (), emitted csv [] [row] h).
Proof.
  unfold record_row, append_text, emitted, with_files. rewrite append_nil_r.
  destruct csv; simpl; [done|by destruct h].
Qed.

(** What a step of [BootWatch] adds to what was printed and written. *)
Definition adds (csv : option string) (w w' : Watch) (h h' : host) : Prop :=
  ∃ texts rows', stdout w' = stdout w ++ texts ∧ BootWatch.rows w' = BootWatch.rows w ++ rows' ∧
    h' = emitted csv texts rows' h.
Lemma adds_refl csv w h : adds csv w w h h.
Proof. exists [], []. by rewrite !app_nil_r, emitted_nil. Qed.
Lemma adds_trans csv w1 w2 w3 h1 h2 h3 : adds csv w1 w2 h1 h2 → adds csv w2 w3 h2 h3 → adds csv w1 w3 h1 h3.
Proof.
  intros (t1 & r1 & E1 & R1 & ->) (t2 & r2 & E2 & R2 & ->). exists (t1 ++ t2), (r1 ++ r2).
  by rewrite E2, E1, R2, R1, !app_assoc, emitted_app.
Qed.

Lemma annotate_adds o tables csv records w h :
  let w' := foldl (handle_record o tables) w records in
  ∃ h', annotate o tables csv (previous_function w) records h = (Ok (previous_function w'), h') ∧
        adds csv w w' h h'.
Proof.
  revert w h. induction records as [|e records IH]; intros w h w'.
  { exists h. split; [done|]. apply adds_refl. }
  subst w'. cbn [annotate foldl]. set (w1 := handle_record o tables w e).
  unfold handle_record in w1. destruct (is_sample e && _ && _) eqn:Hskip; subst w1; [apply IH|].
  set (w1 := {| stdout := _ |}). set (h1 := emitted csv [annotation o e (symbolize tables (pc e)) +:+ newline]
      [csv_row o e (symbolize tables (pc e))] h).
  destruct (IH w1 h1) as (h' & Hrun & Hadds). exists h'. split.
  - rewrite <- Hrun. unfold mbind, prog_bind, print_line.
    by rewrite (print_emits csv), record_row_emits, emitted_app.
  - eapply adds_trans; [|exact Hadds]. by eexists _, _.
Qed.

Lemma follow_adds o tables csv lines w h :
  ∃ w' h', foldM (handle_line o tables) w lines = Ok w' ∧
    follow o tables csv (previous_function w) lines h = (Ok (), h') ∧ adds csv w w' h h'.
Proof.
  revert w h. induction lines as [|line lines IH]; intros w h; cbn [foldM follow].
  { exists w, h. split; [done|]. split; [done|]. apply adds_refl. }
  destruct (line_records_total line) as [records E]. set (w1 := passed o w line).
  assert (handle_line o tables w line = Ok (foldl (handle_record o tables) w1 records)) as ->
    by (unfold handle_line; by rewrite E).
  cbn [mbind result_bind].
  assert (∃ h1, (if annotations_only o then mret () else print_text line) h = (Ok (), h1) ∧ adds csv w w1 h h1)
    as (h1 & Hprint & Hadds1).
  { unfold w1, passed. destruct (annotations_only o).
    - exists h. split; [done|]. apply adds_refl.
    - exists (emitted csv [line] [] h). split; [apply print_emits|]. exists [line], []. by rewrite app_nil_r. }
  assert (previous_function w = previous_function w1) as Hp by (unfold w1, passed; by destruct (annotations_only o)).
  destruct (annotate_adds o tables csv records w1 h1) as (h2 & Hann & Hadds2).
  destruct (IH (foldl (handle_record o tables) w1 records) h2) as (w' & h' & Hw & Hrun & Hadds3).
  exists w', h'. split; [exact Hw|]. split.
  - unfold mbind, prog_bind. rewrite Hprint. unfold lift. by rewrite E, Hp, Hann.
  - eapply adds_trans; [exact Hadds1|]. by eapply adds_trans.
Qed.

Lemma put_out path text h h1 : put_text path text h = (Ok (), h1) → out h1 = out h.
Proof.
  assert (∀ l h, out (each make_dir l h).2 = out h) as Hdirs.
  { intros l. induction l as [|d l IH]; intros h0; [done|]. cbn [each]. unfold mbind, prog_bind.
    assert (out (make_dir d h0).2 = out h0) as Hd by (unfold make_dir; by repeat case_bool_decide).
    destruct (make_dir d h0) as [[[]|e] h2]; simpl in Hd; [|done]. specialize (IH h2).
    destruct (each make_dir l h2) as [[]  h3]; simpl in *; congruence. }
  unfold put_text, make_dirs. intros ([] & h2 & (us & h3 & Hm & [_ ->]%run_ret)%run_bind & Hw)%run_bind.
  apply run_write in Hw as ->. specialize (Hdirs (ancestors (parent path)) h). rewrite Hm in Hdirs. done.
Qed.

Lemma follow_watch o tables csv lines h :
  ∃ w h', watch o tables lines = Ok w ∧ follow o tables csv None lines h = (Ok (), h') ∧
    ∃ added, BootWatch.rows w = csv_header :: added ∧ h' = emitted csv (stdout w) added h.
Proof.
  destruct (follow_adds o tables csv lines
    {| stdout := []; BootWatch.rows := [csv_header]; previous_function := None |} h)
    as (w & h' & Hw & Hrun & texts & added & Hout & Hrows & ->).
  exists w. eexists. split; [done|]. split; [done|]. exists added. by rewrite Hrows, Hout.
Qed.

Lemma linux_boot_watch_output stdin args tables h h1 :
  Forall (λ i, is_Some (files h !! image_path i)) (Options.Watch.elfs args) →
  load_symbol_tables command (Options.Watch.elfs args) (Options.Watch.nm args) = Ok tables →
  open_csv (Options.Watch.csv args) h = (Ok (), h1) →
  ∃ w h', watch (Options.Watch.watch args) tables stdin = Ok w ∧
    linux_boot_watch stdin args h = (Ok 0, h') ∧ out h' = out h +:+ concat_texts (stdout w) ∧
    ∀ path, Options.Watch.csv args = Some path →
      ∃ text, files h' !! path = Some text ∧ csv_reader text = Ok (BootWatch.rows w).
Proof.
  intros Himg Htab Hopen.
  assert (missing_images (Options.Watch.elfs args) h = (Ok [], h)) as Hmiss.
  { clear Htab. induction Himg as [|i images Hi _ IH]; [done|]. cbn [missing_images].
    unfold mbind, prog_bind, is_file. cbn beta iota. rewrite IH. by rewrite bool_decide_true. }
  destruct (follow_watch (Options.Watch.watch args) tables (Options.Watch.csv args) stdin h1)
    as (w & h' & Hw & Hrun & added & Hrows & ->).
  exists w. eexists. split; [done|]. split_and!.
  - unfold linux_boot_watch, mbind, prog_bind. rewrite Hmiss. rewrite bool_decide_true by done.
    cbn [negb]. by rewrite Htab, Hopen, Hrun.
  - unfold emitted. simpl. f_equal. unfold open_csv in Hopen.
    destruct (Options.Watch.csv args); [by apply put_out in Hopen|by injection Hopen as ->].
  - intros path E. rewrite E in Hopen |- *. apply run_put in Hopen as Hf.
    unfold emitted, rows_added. simpl. rewrite lookup_alter_eq, Hf, lookup_insert_eq. eexists. split; [done|].
    by rewrite <- write_rows_app, csv_roundtrip_spec, Hrows.
Qed.
End watch.

(** C23: When the image files are there and nm answers, live annotation ends with status 0
    whatever the stream holds. It prints every line of the stream, unchanged and in order,
    with nothing but annotations between them (nothing but annotations at all with
    --annotations-only), and the CSV file is read back as the header and one row per
    annotation, those of the records of the stream. *)
Theorem live_annotation command stdin args tables h h1 :
  Forall (λ i, is_Some (files h !! image_path i)) (Options.Watch.elfs args) →
  load_symbol_tables command (Options.Watch.elfs args) (Options.Watch.nm args) = Ok tables →
  open_csv (Options.Watch.csv args) h = (Ok (), h1) →
  let o := Options.Watch.watch args in
  ∃ w added h', linux_boot_watch command stdin args h = (Ok 0, h') ∧
    watch o tables stdin = Ok w ∧
    length added = length stdin ∧ Forall (Forall (is_annotation o)) added ∧
    out h' = out h +:+ concat_texts (mjoin (zip_with (λ line annotations,
                if annotations_only o then annotations else line :: annotations) stdin added)) ∧
    ∀ path, Options.Watch.csv args = Some path →
      ∃ text, files h' !! path = Some text ∧ csv_reader text = Ok (BootWatch.rows w) ∧
              length (BootWatch.rows w) = S (length (mjoin added)).
Proof.
  intros Himg Htab Hopen o.
  destruct (linux_boot_watch_output command stdin args tables h h1 Himg Htab Hopen)
    as (w & h' & Hw & Hrun & Hout & Hcsv).
  destruct (stream_preserved o tables stdin) as (w' & added & Hw' & Hl & Ha & Hs & Hr).
  unfold o in Hw'. rewrite Hw in Hw'. injection Hw' as <-. exists w, added, h'.
  split_and!; try done; [by rewrite Hout, Hs|].
  intros path E. destruct (Hcsv path E) as (text & ? & ?). by exists text.
Qed.

(** ** Compliance runs *)

Ltac session_changes :=
  repeat first
    [ progress intros
    | solve [auto with changes]
    | apply changes_bind | apply changes_each | apply changes_put | apply changes_write
    | match goal with |- changes _ (match ?x with _ => _ end) => destruct x end
    | progress unfold build_simulator, load_image, tohost_symbol, memh_path, read_text, read_bytes, read_table,
        print_line, print_lines, put_text, make_dirs ].

Section compliance.
Context `{Environment}.

(** A file in the directory of a test; the trace of Sail is beside the log of the run. *)
Definition artifact_file (o : Compliance.Options) (path : string) : Prop :=
  (∃ test name, path = slash (artifact_dir o test) name) ∨
  ∃ test, path = slash (parent (slash (artifact_dir o test) "run.log")) "sail.log".
(** The files a command may write itself or through the commands it runs. *)
Definition compliance_files (c : Compliance.command) (path : string) : Prop :=
  touched path ∨
  match c with
  | Doctor => False
  | Run _ o | Diff _ o _ _ => artifact_file o path
  | Suite o s => artifact_file o path ∨ path = summary_path o ∨ path = junit_path o s
  end.

Lemma changes_touched {A} (m : prog A) c : changes touched m → changes (compliance_files c) m.
Proof. apply changes_weaken. intros path. by left. Qed.

Section writing.
Context (P : string → Prop) (o : Compliance.Options).
Context (Htouched : ∀ path, touched path → P path) (Hfile : ∀ path, artifact_file o path → P path).

Lemma changes_run_command command limit : changes P (run_command command limit).
Proof. eapply changes_weaken; [exact Htouched|]. apply changes_command. Qed.
Lemma artifact_in test name : P (slash (artifact_dir o test) name).
Proof. apply Hfile. left. by eexists _, _. Qed.

Lemma changes_simulate command limit : changes P (simulate command limit).
Proof.
  intros h. unfold simulate. pose proof (run_process_changes command (Some limit) h) as Hc.
  destruct (run_process command (Some limit) h) as [outcome h']. simpl in Hc |- *.
  destruct Hc as [Hf Hd Hu]. split; [|done..]. intros path Hp. apply Hf. intros Ht. by apply Hp, Htouched.
Qed.

#[local] Hint Resolve changes_run_command changes_simulate changes_make_dirs artifact_in : changes.
Lemma run_one_changes elf expected : changes P (run_one elf o expected).
Proof. unfold run_one. session_changes. Qed.

Lemma run_suite_changes s xfails total index elfs : changes P (run_suite o s xfails total index elfs).
Proof.
  revert index. induction elfs as [|elf elfs IH]; intros index; cbn [run_suite]; [session_changes|].
  apply changes_bind; [apply run_one_changes|]. session_changes.
Qed.

Lemma find_elfs_changes paths : changes P (find_elfs paths).
Proof. induction paths as [|path paths IH]; cbn [find_elfs]; session_changes. Qed.

Lemma suite_changes s :
  P (summary_path o) → P (junit_path o s) → changes P (suite_subcommand o s).
Proof.
  intros Hsummary Hjunit. unfold suite_subcommand, discover_elfs, load_xfails, write_junit, junit_case, junit_mark.
  pose proof find_elfs_changes as Hfind. pose proof run_suite_changes as Hsuite. session_changes.
Qed.
End writing.

Lemma main_changes c : changes (compliance_files c) (Compliance.main c).
Proof.
  assert (∀ path, touched path → compliance_files c path) as Ht by (intros path; by left).
  unfold Compliance.main. apply changes_catch.
  2:{ intros e k Hk. destruct (reported e); [|done]. injection Hk as <-.
      apply changes_bind; [apply changes_error|]. intros _. apply changes_ret. }
  destruct c as [|elf o|o s|elf o sail sail_config]; cbn [dispatch].
  - unfold doctor. session_changes.
  - apply changes_bind; [apply run_one_changes with (o := o); [done|by right]|]. session_changes.
  - apply suite_changes; [done| |..]; intros; by right; auto.
  - apply changes_then.
    { apply (run_one_changes _ (with_trace o)); [done|by right]. }
    intros h r h' (text & h1 & h2 & h3 & w & memh & Hran)%run_one_run.
    pose proof (changes_run_command _ Ht) as Hcmd.
    assert (compliance_files (Diff elf o sail sail_config) (slash (parent (log r)) "sail.log")) as Hlog.
    { rewrite (ran_log _ _ _ _ _ _ _ _ _ _ _ _ Hran). right. right. by eexists. }
    session_changes.
Qed.
End compliance.

(** ** A sample stream *)

Definition watched_host : host := {|
  files := {["/vmlinux" := ""]}; dirs := {["/"]}; unwritable := ∅; out := ""; err := "" |}.
Definition watch_args : Options.Watch.Args := {|
  Options.Watch.watch := {| configuration := "bp6"; annotations_only := false; changes_only := true |};
  Options.Watch.elfs := [{| image_name := "linux"; image_path := "/vmlinux" |}];
  Options.Watch.nm := "nm"; Options.Watch.csv := Some "/logs/functions.csv" |}.
Definition nm_lines (command : list string) : result (list string) :=
  Ok ["0000000080000000 T _start"; "0000000080000100 t trap"].
Definition sample_stream : list string :=
  (λ l, l +:+ newline) <$>
    ["OpenSBI v1.2"; "OpenSBI progress cycles=1000 instret=400 pc=80000010 priv=3";
     "OpenSBI progress cycles=2000 instret=800 pc=80000020 priv=3";
     "PERF SIGNPOST name=linux cycles=2100 instret=900 pc=80000100"].
Definition watch_tables : list SymbolTable :=
  default [] (to_option (load_symbol_tables nm_lines (Options.Watch.elfs watch_args) "nm")).

Lemma live_annotation_witness :
  Forall (λ i, is_Some (files watched_host !! image_path i)) (Options.Watch.elfs watch_args) ∧
  load_symbol_tables nm_lines (Options.Watch.elfs watch_args) "nm" = Ok watch_tables ∧
  ∃ h', linux_boot_watch nm_lines sample_stream watch_args watched_host = (Ok 0, h').
Proof.
  assert (Forall (λ i, is_Some (files watched_host !! image_path i)) (Options.Watch.elfs watch_args)) as Himg
    by (repeat constructor; by eexists).
  assert (load_symbol_tables nm_lines (Options.Watch.elfs watch_args) "nm" = Ok watch_tables) as Htab
    by (vm_compute; reflexivity).
  pose proof (ran (open_csv (Options.Watch.csv watch_args)) watched_host () eq_refl) as Hopen.
  split; [exact Himg|]. split; [exact Htab|].
  destruct (live_annotation nm_lines sample_stream watch_args watch_tables watched_host _ Himg Htab Hopen)
    as (w & added & h' & Hrun & _).
  exists h'. exact Hrun.
Defined.

Example stream_annotated :
  let h' := (linux_boot_watch nm_lines sample_stream watch_args watched_host).2 in
  out h' = unlines
    ["OpenSBI v1.2"; "OpenSBI progress cycles=1000 instret=400 pc=80000010 priv=3";
     "FUNCTION SAMPLE configuration=bp6 cycles=1000 instret=400 pc=0x0000000080000010 symbol=linux:_start+0x10@0x0000000080000000";
     "OpenSBI progress cycles=2000 instret=800 pc=80000020 priv=3";
     "PERF SIGNPOST name=linux cycles=2100 instret=900 pc=80000100";
     "FUNCTION SIGNPOST configuration=bp6 cycles=2100 instret=900 pc=0x0000000080000100 symbol=linux:trap+0x0@0x0000000080000100 signpost=linux"].
Proof. vm_compute. reflexivity. Qed.
