(* ===== verification/SynthFlow.v ===== *)
(** * From the mapped workers to the area summary

    [parallel_map.py] adds the areas up the retained hierarchy and
    [summarize_resources.py] takes them apart again: between the two every module has
    the area its own worker reported. *)

From stdpp Require Import base numbers list strings gmap sorting relations.
From Stdlib Require Import ZArith Lia Ascii SpecFloat.
From S2P Require Import Prelude PyText PyFloat PyDict Binary64 FloatError ParallelMap AreaReport.

Open Scope Z_scope.

(** ** The hierarchy, read by both programs *)

(** What the first program reads is what the second reads, without instance names. *)
Definition same_children (h : list (string * list string)) (k : list (string * list (string * string)))
    : Prop := ∀ m, (children_of k m).*1 = children_of h m.

Lemma children_add {A} m x (d : list (string * list A)) m' :
  children_of (add_child m x d) m' = if decide (m' = m) then children_of d m ++ [x] else children_of d m'.
Proof. unfold children_of, add_child. rewrite d_get_set. by case_decide. Qed.

Lemma same_children_line current h k line h' :
  same_children h k → hierarchy_line (current, h) line = Ok h' →
  ∃ k', kept_line (current, k) line = Ok (h'.1, k') ∧ same_children h'.2 k'.
Proof.
  intros Hs. unfold hierarchy_line, kept_line.
  destruct (match_module line) as [name|]; [intros [= <-]; by exists k|].
  destruct (match_cell line) as [[kind name]|]; [|intros [= <-]; by exists k].
  destruct current as [m|]; [|done]. intros [= <-]. eexists; split; [reflexivity|].
  intros m'. cbn [snd]. rewrite !children_add. case_decide; [|apply Hs].
  by rewrite fmap_app, Hs.
Qed.

Lemma kept_hierarchy_loaded lines hierarchy :
  load_hierarchy lines = Ok hierarchy → ∃ kept, kept_hierarchy lines = Ok kept ∧ same_children hierarchy kept.
Proof.
  unfold load_hierarchy, kept_hierarchy. intros ([current h] & Hl & [= <-])%bind_Ok.
  cut (∀ current h k s, same_children h k → foldM hierarchy_line (current, h) lines = Ok s →
    ∃ k', foldM kept_line (current, k) lines = Ok (s.1, k') ∧ same_children s.2 k').
  { intros Hgen. destruct (Hgen None [] [] (current, h)) as (k' & -> & Hs); [done|done|]. by exists k'. }
  clear. induction lines as [|line lines IH]; intros current h k s Hs Hl.
  - apply Ok_inj in Hl as <-. by exists k.
  - cbn [foldM] in *. apply bind_Ok in Hl as ([c1 h1] & H1 & Hl).
    destruct (same_children_line current h k line _ Hs H1) as (k1 & -> & Hs1). cbn [mbind result_bind].
    by apply (IH _ _ _ _ Hs1).
Qed.

(** ** The merged report *)

Section flow.
Context {R : Type} `{Num R}.

Lemma by_canonical_get (modules : list (string * Stats R)) k v :
  NoDup (canonical <$> modules.*1) →
  d_get k (by_canonical_name modules) = Some v ↔ ∃ name, canonical name = k ∧ (name, v) ∈ modules.
Proof.
  unfold by_canonical_name. induction modules as [|[n w] l IH] using rev_ind.
  { intros _. simpl. split; [done|]. by intros (? & _ & ?%elem_of_nil). }
  rewrite !fmap_app, NoDup_app. intros (Hnd & Hnew & _). rewrite foldl_app. cbn [foldl].
  rewrite d_get_set. specialize (IH Hnd). case_decide as Hk.
  - subst k. split.
    + intros [= <-]. exists n. set_solver.
    + intros (name & Hn & [Hin|Hin]%elem_of_app).
      * exfalso. apply (Hnew (canonical name)); [|rewrite Hn; set_solver].
        apply list_elem_of_fmap. exists name. split; [done|]. by apply (list_elem_of_fmap_2 fst) in Hin.
      * apply list_elem_of_singleton in Hin. by injection Hin as -> ->.
  - rewrite IH. split; intros (name & Hn & Hin); exists name; (split; [done|]).
    + apply elem_of_app. by left.
    + apply elem_of_app in Hin as [Hin|Hin]; [done|]. apply list_elem_of_singleton in Hin. by injection Hin as -> ->.
Qed.

Variables (tools : Tools (R:=R)) (args : Args).

Lemma item_Ok {A} (d : gmap string A) k v : item d k = Ok v ↔ d !! k = Some v.
Proof. unfold item. destruct (d !! k); split; by intros [= ->]. Qed.

Lemma module_list_elem pre m : m ∈ module_list pre ↔ is_Some (original_names pre !! m).
Proof.
  unfold module_list, sort_strings. rewrite merge_sort_Permutation, list_elem_of_fmap. split.
  - intros ([k v] & -> & Hin). apply elem_of_map_to_list in Hin. by exists v.
  - intros [v Hv]. exists (m, v). split; [done|]. by apply elem_of_map_to_list.
Qed.

(** The merged statistics of a module. *)
Definition merged_of (own : Stats R) (a q : R) : Stats R :=
  {| area := Some a; sequential_area := Some q; num_cells_by_type := num_cells_by_type own;
     fields := fields own |}.

Lemma merge_module_Ok names (direct : gmap string (Stats R)) (s : Accumulator (R:=R)) m name (stats : Stats R) :
  merge_module names direct s m = Ok (name, stats) ↔
  ∃ own a q, direct !! m = Some own ∧ recursive_area s !! m = Some a ∧ recursive_seq s !! m = Some q ∧
    names !! m = Some name ∧
    stats = (merged_of own a q).
Proof.
  unfold merge_module. split.
  - intros (own & Ho%item_Ok & (a & Ha%item_Ok & (q & Hq%item_Ok & (n & Hn%item_Ok & [= -> <-])%bind_Ok)
      %bind_Ok)%bind_Ok)%bind_Ok. by exists own, a, q.
  - intros (own & a & q & Ho & Ha & Hq & Hn & ->).
    rewrite (proj2 (item_Ok _ _ _) Ho). cbn [mbind result_bind].
    rewrite (proj2 (item_Ok _ _ _) Ha). cbn [mbind result_bind].
    rewrite (proj2 (item_Ok _ _ _) Hq). cbn [mbind result_bind].
    by rewrite (proj2 (item_Ok _ _ _) Hn).
Qed.

(** What a successful run went through. *)
Record run_of (pre lines : list string) (completed : list (Z * string)) (merged : list (string * Stats R))
    (hierarchy : list (string * list string)) (direct : gmap string (Stats R)) (s : Accumulator (R:=R))
    : Prop := {
  run_hierarchy : load_hierarchy lines = Ok hierarchy;
  run_children : ∀ m c, c ∈ children_of hierarchy m → c ∈ module_list pre;
  run_direct : foldM (submit tools args (original_names pre)) ∅ completed = Ok direct;
  run_areas : accumulate_all hierarchy direct (module_list pre) = Ok s;
  run_merged : Forall2 (λ m e, merge_module (original_names pre) direct s m = Ok e) (module_list pre) merged }.

Lemma main_run pre lines completed merged :
  main tools args pre lines completed = Ok merged →
  ∃ hierarchy direct s, run_of pre lines completed merged hierarchy direct s.
Proof.
  unfold main. intros ([names hierarchy] & Hprep & ([] & _ & Hx)%bind_Ok)%bind_Ok.
  apply bind_Ok in Hx as (direct & Hd & (s & Hs & Hm%mapR_Ok)%bind_Ok).
  unfold prepare in Hprep. do 2 ok_step Hprep. apply bind_Ok in Hprep as (h & Hl & Hprep).
  apply guard_Ok in Hprep as [Hmiss Hprep]. apply Ok_inj in Hprep. injection Hprep as <- <-.
  exists h, direct, s. split; try done. intros m c Hc. apply module_list_elem.
  apply negb_false_iff, bool_decide_eq_true in Hmiss.
  destruct (original_names pre !! c) as [n|] eqn:E; [by eexists|]. exfalso.
  assert (c ∈ missing_children h (original_names pre)) as Hin; [|rewrite Hmiss in Hin; by apply elem_of_nil in Hin].
  unfold missing_children, sort_strings. rewrite merge_sort_Permutation. apply list_elem_of_filter.
  split; [done|]. unfold children_of in Hc. destruct (d_get m h) as [cs|] eqn:Hg; [|by apply elem_of_nil in Hc].
  apply d_get_elem in Hg. apply list_elem_of_join. exists cs. split; [done|].
  by apply (list_elem_of_fmap_2 snd) in Hg.
Qed.

Section merged.
Variables (pre lines : list string) (completed : list (Z * string)) (merged : list (string * Stats R))
  (hierarchy : list (string * list string)) (direct : gmap string (Stats R)) (s : Accumulator (R:=R)).
Hypotheses (Hcompleted : completed ≡ₚ enumerate (module_list pre))
  (Hrun : run_of pre lines completed merged hierarchy direct s).

Lemma direct_reported m own :
  direct !! m = Some own ↔
  ∃ t, t ∈ completed ∧ task_result tools args (original_names pre) t = Ok (m, own).
Proof.
  apply (submit_tasks tools args pre completed direct); [|exact (run_direct _ _ _ _ _ _ _ Hrun)].
  rewrite Hcompleted, enumerate_snd. apply module_list_NoDup.
Qed.

Lemma direct_modules m : m ∈ module_list pre → is_Some (direct !! m).
Proof.
  intros Hm. rewrite <-(enumerate_snd (module_list pre)), <-Hcompleted in Hm.
  apply list_elem_of_fmap in Hm as (t & -> & Ht).
  destruct (submit_tasks tools args pre completed direct) as [Hok _];
    [rewrite Hcompleted, enumerate_snd; apply module_list_NoDup|exact (run_direct _ _ _ _ _ _ _ Hrun)|].
  specialize (Hok t Ht). destruct (task_result _ _ _ t) as [[m own]|] eqn:E; [|done].
  pose proof (task_result_key _ _ _ _ _ _ E) as ->. exists own. apply direct_reported. by exists t.
Qed.

Lemma settled_module m : m ∈ module_list pre → settled hierarchy direct s m.
Proof.
  intros Hm. pose proof (accumulate_all_spec hierarchy direct (module_list pre)) as Ha.
  rewrite (run_areas _ _ _ _ _ _ _ Hrun) in Ha. apply Ha; [|done].
  intros x Hx. split; [by apply direct_modules|]. intros y. apply (run_children _ _ _ _ _ _ _ Hrun).
Qed.

Lemma merged_names : NoDup (canonical <$> merged.*1) ∧
  ∀ m stats, m ∈ module_list pre →
    d_get m (by_canonical_name merged) = Some stats ↔
    ∃ name, merge_module (original_names pre) direct s m = Ok (name, stats).
Proof.
  pose proof (run_merged _ _ _ _ _ _ _ Hrun) as Hm.
  assert (canonical <$> merged.*1 = module_list pre) as Hkeys.
  { clear -Hm. induction Hm as [|m [name stats] ms l Hx _ IH]; [done|]. rewrite !fmap_cons, IH. f_equal.
    apply merge_module_Ok in Hx as (? & ? & ? & _ & _ & _ & Hn & _). by apply original_names_spec in Hn as [? _]. }
  assert (NoDup (canonical <$> merged.*1)) as Hnd by (rewrite Hkeys; apply module_list_NoDup).
  split; [done|]. intros m stats Hin. rewrite by_canonical_get by done. split.
  - intros (name & Hn & Hl). apply list_elem_of_lookup in Hl as [i Hi].
    destruct (Forall2_lookup_r _ _ _ _ _ Hm Hi) as (m' & _ & Hx). exists name.
    assert (m' = m) as ->; [|done]. rewrite <-Hn.
    apply merge_module_Ok in Hx as (? & ? & ? & _ & _ & _ & Hn' & _). by apply original_names_spec in Hn' as [<- _].
  - intros (name & Hx). apply list_elem_of_lookup in Hin as [i Hi].
    destruct (Forall2_lookup_l _ _ _ _ _ Hm Hi) as (e & He & Hx'). rewrite Hx in Hx'. apply Ok_inj in Hx' as <-.
    exists name. split; [|by eapply list_elem_of_lookup_2].
    apply merge_module_Ok in Hx as (? & ? & ? & _ & _ & _ & Hn & _). by apply original_names_spec in Hn as [? _].
Qed.

Lemma merged_stats m own :
  m ∈ module_list pre → direct !! m = Some own →
  ∃ a q, recursive_area s !! m = Some a ∧ recursive_seq s !! m = Some q ∧
    d_get m (by_canonical_name merged) =
      Some (merged_of own a q).
Proof.
  intros Hm Ho. destruct (settled_module m Hm) as [(st & Hst & Ha & Hq) _].
  eexists _, _. split; [exact Ha|]. split; [exact Hq|]. apply merged_names; [done|].
  apply module_list_elem in Hm as [name Hn]. exists name. apply merge_module_Ok.
  by eexists own, _, _.
Qed.

(** What the merged report says of a module, by the accumulated amounts. *)
Lemma reported_merged f (amounts : gmap string R) m :
  m ∈ module_list pre →
  (∀ own a q, recursive_area s !! m = Some a → recursive_seq s !! m = Some q →
     default zero (f (merged_of own a q)) = default zero (amounts !! m)) →
  reported (by_canonical_name merged) f m = default zero (amounts !! m).
Proof.
  intros Hm Hf. destruct (direct_modules m Hm) as [own Ho].
  destruct (merged_stats m own Hm Ho) as (a & q & Ha & Hq & Hd). unfold reported. rewrite Hd. by eapply Hf.
Qed.

(** The second program reads a module's amount as the first has added it up. *)
Lemma reported_total kept f (amounts : gmap string R) own_amount m :
  same_children hierarchy kept → m ∈ module_list pre →
  (∀ m own a q, recursive_area s !! m = Some a → recursive_seq s !! m = Some q →
     default zero (f (merged_of own a q)) = default zero (amounts !! m)) →
  amounts !! m = Some (total hierarchy own_amount amounts m) →
  reported (by_canonical_name merged) f m =
    foldl add own_amount ((λ c, reported (by_canonical_name merged) f (c.1)) <$> children_of kept m).
Proof.
  intros Hkept Hm Hf Ha. rewrite (reported_merged f amounts m Hm) by apply Hf.
  rewrite Ha. unfold total. cbn [default from_option id].
  rewrite <-(Hkept m), <-list_fmap_compose. f_equal. apply list_fmap_ext. intros i c Hc. simpl. symmetry.
  apply reported_merged; [|by apply Hf].
  apply (run_children _ _ _ _ _ _ _ Hrun m). rewrite <-(Hkept m).
  apply list_elem_of_fmap. exists c. split; [done|]. by eapply list_elem_of_lookup_2.
Qed.
End merged.

(** A module's reported amounts are those of its own worker with the reported amounts of
    its instances added one by one; its cells are its worker's. *)
Definition assembled (merged : list (string * Stats R)) (kept : list (string * list (string * string)))
    (module : string) (own : Stats R) : Prop :=
  (∀ f, f = area ∨ f = sequential_area →
     reported (by_canonical_name merged) f module =
       foldl add (default zero (f own))
         ((λ c, reported (by_canonical_name merged) f (c.1)) <$> children_of kept module)) ∧
  cells_of (by_canonical_name merged) module = mapped_cells own.

Lemma merged_assembled pre lines completed merged :
  completed ≡ₚ enumerate (module_list pre) →
  main tools args pre lines completed = Ok merged →
  ∃ kept, kept_hierarchy lines = Ok kept ∧
    ∀ task module own, task ∈ completed →
      task_result tools args (original_names pre) task = Ok (module, own) → assembled merged kept module own.
Proof.
  intros Hc (hierarchy & direct & s & Hrun)%main_run.
  destruct (kept_hierarchy_loaded lines hierarchy) as (kept & Hk & Hkept);
    [exact (run_hierarchy _ _ _ _ _ _ _ Hrun)|].
  exists kept. split; [done|]. intros task module own Ht Hr.
  assert (direct !! module = Some own) as Ho by (apply (direct_reported _ _ _ _ _ _ _ Hc Hrun); by exists task).
  assert (module ∈ module_list pre) as Hm.
  { rewrite <-(enumerate_snd (module_list pre)), <-Hc. pose proof (task_result_key _ _ _ _ _ _ Hr) as ->.
    by apply (list_elem_of_fmap_2 snd). }
  destruct (settled_module _ _ _ _ _ _ _ Hc Hrun module Hm) as [(st & Hst & Ha & Hq) _].
  rewrite Ho in Hst. injection Hst as <-. split.
  - intros f [-> | ->].
    + eapply (reported_total _ _ _ _ _ _ _ Hc Hrun kept area (recursive_area s)); [done|done| |exact Ha].
      intros ? ? ? ? H1 _. by rewrite H1.
    + eapply (reported_total _ _ _ _ _ _ _ Hc Hrun kept sequential_area (recursive_seq s)); [done|done| |exact Hq].
      intros ? ? ? ? _ H1. by rewrite H1.
  - destruct (merged_stats _ _ _ _ _ _ _ Hc Hrun module own Hm Ho) as (a & q & _ & _ & Hd).
    unfold cells_of. by rewrite Hd.
Qed.

(** What the summary attributes to a module is what its worker reported. *)
Definition recovered (merged : list (string * Stats R)) (kept : list (string * list (string * string)))
    (module : string) (own : Stats R) : Prop :=
  direct_of (by_canonical_name merged) kept area module = default zero (area own) ∧
  direct_of (by_canonical_name merged) kept sequential_area module = default zero (sequential_area own) ∧
  cells_of (by_canonical_name merged) module = mapped_cells own.

(** An amount the merged report gives is one of its entries'. *)
Lemma reported_entry (P : R → Prop) (merged : list (string * Stats R)) f m :
  P zero → Forall (λ e, P (default zero (f (e.2)))) merged → P (reported (by_canonical_name merged) f m).
Proof.
  intros Hz Hall. unfold reported, by_canonical_name. revert Hall.
  induction merged as [|[n w] l IH] using rev_ind; intros Hall; [done|].
  apply Forall_app in Hall as [Hl [Hw _]%Forall_cons]. rewrite foldl_app. cbn [foldl].
  rewrite d_get_set. case_decide; [done|by apply IH].
Qed.
End flow.

(** ** In exact arithmetic *)

Section exact.
Context {R : Type} `{ExactNum R}.

(** Adding an amount and taking it away again. *)
Lemma num_add_sub (a b : R) : sub (add a b) b = a.
Proof.
  assert (∀ x y : R, add x b = add y b → x = y) as Hcancel.
  { intros x y E. assert (add (sub zero b) b = (zero : R)) as Hb by apply num_sub_add.
    assert (∀ z : R, add (add z b) (sub zero b) = z) as Hz.
    { intros z. rewrite <-num_add_assoc, (num_add_comm b), Hb, num_add_comm. apply num_zero_add. }
    rewrite <-(Hz x), <-(Hz y). by rewrite E. }
  apply Hcancel. apply num_sub_add.
Qed.

Lemma foldl_add_sum (a : R) l : foldl add a l = add a (sum l).
Proof.
  revert a. induction l as [|x l IH]; intros a.
  - rewrite sum_nil. simpl. rewrite num_add_comm. by rewrite num_zero_add.
  - simpl. rewrite IH, sum_cons. by rewrite num_add_assoc.
Qed.

Lemma assembled_recovered merged kept module (own : Stats R) :
  assembled merged kept module own → recovered merged kept module own.
Proof.
  intros [Hf Hc]. split; [|split; [|done]].
  all: unfold direct_of; rewrite Hf, foldl_add_sum by auto; apply num_add_sub.
Qed.
End exact.

(** ** In doubles *)

(** The amounts of a module are non-negative and below [2 ^ 1000]. *)
Definition measured_stats (own : Stats double) : Prop :=
  measured (default zero (area own)) ∧ measured (default zero (sequential_area own)).

(** [x] is a finite double within [terms + 1] parts in [2 ^ 49] of [total] of [own]. *)
Definition near (terms : Z) (total x own : double) : Prop :=
  real x ∧ 2 ^ 49 * Z.abs (ticks x - ticks own) ≤ (terms + 1) * ticks total.

Definition approximated (merged : list (string * Stats double)) (kept : list (string * list (string * string)))
    (module : string) (own : Stats double) : Prop :=
  let modules := by_canonical_name merged in
  let instances := zlen (children_of kept module) in
  near instances (reported modules area module) (direct_of modules kept area module) (default zero (area own)) ∧
  near instances (reported modules sequential_area module) (direct_of modules kept sequential_area module)
    (default zero (sequential_area own)).

Lemma assembled_approximated merged kept module (own : Stats double) :
  assembled merged kept module own → measured_stats own → Forall measured_stats merged.*2 →
  zlen (children_of kept module) ≤ MAX_TERMS → approximated merged kept module own.
Proof.
  intros [Hf _] Hown Hall Hn.
  assert (∀ f, f = area ∨ f = sequential_area → measured (default zero (f own)) →
    Forall (λ e, measured (default zero (f (e.2)))) merged →
    near (zlen (children_of kept module)) (reported (by_canonical_name merged) f module)
      (direct_of (by_canonical_name merged) kept f module) (default zero (f own))) as Hnear.
  { intros f Hcase Ho Hm. unfold direct_of. rewrite (Hf f Hcase).
    rewrite <-(zlen_fmap (λ c, reported (by_canonical_name merged) f c.1)) in Hn |- *.
    apply remainder_error; [done| |done].
    apply Forall_fmap, Forall_true. intros c. by apply (reported_entry measured). }
  assert (∀ f, (∀ st, measured_stats st → measured (default zero (f st))) →
    Forall (λ e, measured (default zero (f (e.2)))) merged) as Hmerged.
  { intros f Hs. apply Forall_forall. intros e He. apply Hs. rewrite Forall_forall in Hall.
    by apply Hall, list_elem_of_fmap_2. }
  split; (apply Hnear; [by auto|apply Hown|apply Hmerged; by intros st []]).
Qed.

(** C3: the two programs of the flow fit together. After a successful parallel mapping,
    whatever the order in which the workers completed, the area summary reads the same
    hierarchy, finds every module in the merged report, and attributes to it the mapped
    cells of its own worker and the area and sequential area its own worker reported:
    exactly so for numbers that add and subtract exactly ([ExactNum]), and in the
    program's own doubles, whose additions round, up to rounding. When every area is
    non-negative and below 2^1000 and the module has at most 2^20 instances, the attributed
    area is finite and off by at most (instances + 1) / 2^49 of the module's merged area. *)
Theorem areas_recovered pre lines completed :
  completed ≡ₚ enumerate (module_list pre) →
  (∀ (R : Type) (N : Num R) (E : ExactNum R) tools args merged,
     main tools args pre lines completed = Ok merged →
     ∃ kept, kept_hierarchy lines = Ok kept ∧
       ∀ task module own, task ∈ completed →
         task_result tools args (original_names pre) task = Ok (module, own) →
         recovered merged kept module own) ∧
  (∀ (tools : Tools (R:=double)) args merged,
     main tools args pre lines completed = Ok merged →
     ∃ kept, kept_hierarchy lines = Ok kept ∧
       ∀ task module own, task ∈ completed →
         task_result tools args (original_names pre) task = Ok (module, own) →
         cells_of (by_canonical_name merged) module = mapped_cells own ∧
         (measured_stats own → Forall measured_stats merged.*2 →
          zlen (children_of kept module) ≤ MAX_TERMS → approximated merged kept module own)).
Proof.
  intros Hc. split; [intros R N E tools args merged Hm|intros tools args merged Hm];
    destruct (merged_assembled _ _ _ _ _ _ Hc Hm) as (kept & Hk & Hall); exists kept; (split; [done|]);
    intros task module own Ht Hr; specialize (Hall task module own Ht Hr).
  - by apply assembled_recovered.
  - split; [apply Hall|]. intros. by apply assembled_approximated.
Qed.

Definition sample_names : list string := ["\top"; "\alu"; "\add"].
Definition sample_order : list (Z * string) := [(2, "top"); (0, "add"); (1, "alu")].
Definition sample_merged : list (string * Stats Z) :=
  match main sample_tools sample_args sample_names sample_hierarchy sample_order with Ok m => m | Err _ => [] end.

Lemma sample_flow :
  sample_order ≡ₚ enumerate (module_list sample_names) ∧
  main sample_tools sample_args sample_names sample_hierarchy sample_order = Ok sample_merged ∧
  task_result sample_tools sample_args (original_names sample_names) (2, "top")
    = Ok ("top", {| area := Some 100; sequential_area := None; num_cells_by_type := []; fields := [] |}).
Proof.
  split; [|split; vm_compute; reflexivity].
  change (enumerate (module_list sample_names)) with [(0, "add"); (1, "alu"); (2, "top")].
  unfold sample_order. by rewrite (Permutation_app_comm [(2, "top")] [(0, "add"); (1, "alu")]).
Qed.

(** The same flow in doubles: the areas are tenths, and rounding shows. *)
Definition sample_stats (a q : Z) : Stats double :=
  {| area := Some (div_or_zero a 10); sequential_area := Some (div_or_zero q 10);
     num_cells_by_type := []; fields := [] |}.
Definition double_tools : Tools (R:=double) :=
  {| stat_file := λ _, None;
     run_yosys := λ _, (0, Ok [("\top", sample_stats 5 1); ("\alu", sample_stats 1 0); ("\add", sample_stats 2 2)]) |}.
Definition double_merged : list (string * Stats double) :=
  match main double_tools sample_args sample_names sample_hierarchy sample_order with Ok m => m | Err _ => [] end.
Definition sample_kept : list (string * list (string * string)) :=
  match kept_hierarchy sample_hierarchy with Ok k => k | Err _ => [] end.

Definition measuredb (x : double) : bool :=
  valid_binary PREC EMAX x && is_finite x && (0 <=? ticks x) && (ticks x <? 2 ^ 2074).
Definition measured_statsb (own : Stats double) : bool :=
  measuredb (default zero (area own)) && measuredb (default zero (sequential_area own)).
Lemma measured_decided own : measured_statsb own = true → measured_stats own.
Proof.
  assert (∀ x, measuredb x = true → measured x) as Hx
    by (intros x H; unfold measuredb in H; unfold measured, nonneg, real, valid_double; b2p; auto with lia).
  intros [Ha Hq]%andb_true_iff. split; by apply Hx.
Qed.

Lemma double_flow :
  main double_tools sample_args sample_names sample_hierarchy sample_order = Ok double_merged ∧
  task_result double_tools sample_args (original_names sample_names) (1, "alu") = Ok ("alu", sample_stats 1 0) ∧
  measured_stats (sample_stats 1 0) ∧ Forall measured_stats double_merged.*2.
Proof.
  split; [vm_compute; reflexivity|]. split; [vm_compute; reflexivity|].
  split; [apply measured_decided; vm_compute; reflexivity|].
  assert (forallb measured_statsb double_merged.*2 = true) as H by (vm_compute; reflexivity).
  apply Forall_forall. intros own Hin. apply measured_decided. rewrite forallb_forall in H.
  by apply H, list_elem_of_In.
Qed.

Lemma areas_recovered_witness :
  (∃ kept, kept_hierarchy sample_hierarchy = Ok kept ∧
     direct_of (by_canonical_name sample_merged) kept area "top" = 100) ∧
  ∃ kept, kept_hierarchy sample_hierarchy = Ok kept ∧
    approximated double_merged kept "alu" (sample_stats 1 0).
Proof.
  destruct sample_flow as (Hc & Hm & Hr).
  destruct (areas_recovered sample_names sample_hierarchy sample_order Hc) as [Hexact Hdouble]. split.
  - destruct (Hexact Z _ _ sample_tools sample_args sample_merged Hm) as (kept & Hk & Hall).
    exists kept. split; [exact Hk|].
    destruct (Hall (2, "top") "top" _ ltac:(by left) Hr) as (Ha & _ & _). exact Ha.
  - destruct double_flow as (Hm' & Hr' & Hown & Hmerged).
    destruct (Hdouble double_tools sample_args double_merged Hm') as (kept & Hk & Hall).
    exists kept. split; [exact Hk|].
    destruct (Hall (1, "alu") "alu" _ ltac:(by right; right; left) Hr') as [_ Happrox].
    apply Happrox; [exact Hown|exact Hmerged|].
    injection Hk as <-. vm_compute. discriminate.
Defined.

(** The bound allows what happens: 0.1 + 0.2 - 0.2 is not 0.1. *)
Example double_rounds :
  direct_of (by_canonical_name double_merged) sample_kept area "alu" ≠ div_or_zero 1 10.
Proof. vm_compute. discriminate. Qed.
