(* ===== verification/Programs.v ===== *)
(** * The programs as a whole

    Every program of the repository that works on files: its options, what it does
    with them, and the files it may write.  [programs_safe] bounds what a command line
    can change. *)

From stdpp Require Import base numbers list strings gmap.
From Stdlib Require Import ZArith Lia Ascii SpecFloat.
From S2P Require Import Prelude PyText Bytes PyFloat PyDict PyNumber PyJson Argparse Machine.
From S2P Require Import ImagePrograms TracePrograms SynthPrograms SessionPrograms.
From S2P Require Options SdImage KernelExtract ParallelMap BootWorkbook BootReport Compliance.

Open Scope Z_scope.

(** ** The table *)

(** [writes args] are the files the program may write; an [atomic] program writes only
    when it succeeds. *)
Record program := {
  tool : Options.tool; body : Options.arguments tool → prog Z;
  writes : Options.arguments tool → string → Prop; atomic : bool }.

Definition run (p : program) (argv : list string) : prog Z :=
  args ← parse (Options.parse (tool p)) (Options.reads (tool p)) argv; body p args.

(** No file, one file, one of two, and a file that is optional. *)
Definition no_file (path : string) : Prop := False.
Definition one_file (file path : string) : Prop := path = file.
Definition two_files (a b path : string) : Prop := path = a ∨ path = b.
Definition maybe_file (file : option string) (path : string) : Prop := file = Some path.
(** A file in a directory. *)
Definition file_in (dir path : string) : Prop := ∃ name, path = slash dir name.

Definition card_files (args : SdImage.Args * option string) (path : string) : Prop :=
  match SdImage.choose_action args.1 with
  | Ok (SdImage.Build _ _ _ output) => two_files output (default (add_suffix output ".json") args.2) path
  | _ => False
  end.

Section programs.
Context (resolve : string → string) (command : list string → result (list string)) (generated : string)
  (letter : Z → string) (dimensions : list (list BootReport.cell) → string)
  (have_openpyxl : bool) (save : list (string * BootWorkbook.Sheet BootReport.cell) → string)
  (tmp : string) (run_dts : list string → SdImage.run_result) (read_dtb : option (list Z))
  (yosys : string → Z * string * option string) (seconds : string → double)
  (completed : list (Z * string)) (stdin : list string) (riscv_nm : option string)
  `{Compliance.Environment}.

Definition programs : list program :=
  [{| tool := Options.plain_tool "make_4h_sv39_image.py" Options.FourHart.options Options.FourHart.read;
      body := make_4h_sv39_image; writes := λ a, one_file (Options.FourHart.output a); atomic := true |};
   {| tool := Options.plain_tool "make_shared_sv39_image.py" Options.Shared.options Options.Shared.read;
      body := make_shared_sv39_image; writes := λ a, one_file (Options.Shared.output a); atomic := true |};
   {| tool := Options.plain_tool "make-fpga-sd-image.py" Options.SdCard.options Options.SdCard.read;
      body := make_fpga_sd_image tmp run_dts read_dtb; writes := card_files; atomic := false |};
   {| tool := Options.plain_tool "bin2mem.py" Options.Bin2mem.options Options.Bin2mem.read;
      body := bin2mem; writes := λ a, one_file (Options.Bin2mem.output a); atomic := true |};
   {| tool := Options.plain_tool "elf2mem.py" Options.Elf2mem.options Options.Elf2mem.read;
      body := elf2mem resolve;
      writes := λ a path, one_file (Options.Elf2mem.output a) path ∨ maybe_file (Options.Elf2mem.manifest a) path;
      atomic := false |};
   {| tool := Options.plain_tool "gen_multichase_ring.py" Options.Chase.options Options.Chase.read; body := gen_multichase_ring;
      writes := λ a, one_file (Options.Chase.output a); atomic := true |};
   {| tool := Options.plain_tool "extract-riscv-kernel-function.py" Options.Kernel.options Options.Kernel.read; body := extract_riscv_kernel_function resolve;
      writes := λ a, two_files (path_text (KernelExtract.output_bin (Options.Kernel.extract a)))
                               (path_text (Options.Kernel.output_asm a)); atomic := false |};
   {| tool := Options.plain_tool "check_yosys_rom_init.py" Options.Rom.options Options.Rom.read;
      body := check_yosys_rom_init; writes := λ _, no_file; atomic := true |};
   {| tool := Options.plain_tool "check_arch_trace.py" Options.Retirement.options Options.Retirement.read;
      body := check_arch_trace resolve; writes := λ _, no_file; atomic := true |};
   {| tool := Options.plain_tool "branch_oracle_from_trace.py" Options.Oracle.options Options.Oracle.read;
      body := branch_oracle; writes := λ a, one_file (Options.Oracle.output a); atomic := true |};
   {| tool := Options.plain_tool "issue_window_experiment.py" Options.Window.options Options.Window.read; body := issue_window_experiment;
      writes := λ a, maybe_file (Options.Window.json a); atomic := true |};
   {| tool := Options.plain_tool "pipeline_trace.py" Options.Pipeline.options Options.Pipeline.read; body := pipeline_trace;
      writes := λ a, maybe_file (Options.Pipeline.output a); atomic := true |};
   {| tool := Options.plain_tool "pipeline_trace_3p.py" Options.ThreeWide.options Options.ThreeWide.read;
      body := pipeline_trace_3p; writes := λ a, maybe_file (Options.ThreeWide.output a); atomic := true |};
   {| tool := Options.plain_tool "qemu_one_insn_trace.py" Options.Qemu.options Options.Qemu.read;
      body := qemu_one_insn_trace; writes := λ a, maybe_file (Options.Qemu.output a); atomic := true |};
   {| tool := Options.plain_tool "compare_coremark_pipelines.py" Options.Coremark.options Options.Coremark.read; body := compare_coremark_pipelines command;
      writes := λ a, maybe_file (Options.Coremark.output a); atomic := true |};
   {| tool := Options.plain_tool "linux_boot_signposts.py" Options.Signposts.options Options.Signposts.read;
      body := linux_boot_signposts; writes := λ _, no_file; atomic := true |};
   {| tool := Options.plain_tool "linux_boot_pc_histogram.py" Options.Profile.options Options.Profile.read;
      body := linux_boot_pc_histogram command generated;
      writes := λ a, maybe_file (Options.Profile.output a); atomic := true |};
   {| tool := Options.plain_tool "linux_boot_report.py" Options.Report.options Options.Report.read;
      body := linux_boot_report command letter dimensions have_openpyxl save;
      writes := λ a, two_files (BootReport.csv a) (BootReport.xlsx a); atomic := false |};
   {| tool := Options.plain_tool "gem5_hpi_report.py" Options.Gem5Report.options Options.Gem5Report.read;
      body := gem5_hpi_report; writes := λ a, maybe_file (Options.Gem5Report.output a); atomic := true |};
   {| tool := Options.plain_tool "gem5_hpi_blake2s_report.py" Options.Gem5Blake2s.options Options.Gem5Blake2s.read; body := gem5_hpi_blake2s_report;
      writes := λ a, maybe_file (Options.Gem5Blake2s.output a); atomic := true |};
   {| tool := Options.plain_tool "gem5_hpi_pointer_chase_report.py" Options.Gem5Chase.options Options.Gem5Chase.read; body := gem5_hpi_pointer_chase_report;
      writes := λ a, maybe_file (Options.Gem5Chase.output a); atomic := true |};
   {| tool := Options.plain_tool "gem5_hpi_stream_report.py" Options.Gem5Stream.options Options.Gem5Stream.read; body := gem5_hpi_stream_report;
      writes := λ a, maybe_file (Options.Gem5Stream.output a); atomic := true |};
   {| tool := Options.plain_tool "gem5_hpi_pagefree_report.py" Options.Gem5Pagefree.options Options.Gem5Pagefree.read; body := gem5_hpi_pagefree_report;
      writes := λ a, maybe_file (Options.Gem5Pagefree.output a); atomic := true |};
   {| tool := Options.plain_tool "parallel_map.py" Options.TechMap.options Options.TechMap.read;
      body := parallel_map yosys seconds completed;
      writes := λ a path, one_file (Options.TechMap.out_stat a) path ∨
                          file_in (ParallelMap.worker_dir (Options.TechMap.map a)) path;
      atomic := false |};
   {| tool := Options.plain_tool "summarize_resources.py" Options.Resources.options Options.Resources.read;
      body := summarize_resources; writes := λ a, file_in (Options.Resources.out_dir a); atomic := false |};
   {| tool := Options.plain_tool "summarize-core-4pf.py" Options.Core4pf.options Options.Core4pf.read;
      body := summarize_core_4pf; writes := λ a, file_in (Options.Core4pf.out_dir a); atomic := false |};
   {| tool := Options.plain_tool "linux_boot_watch.py" Options.Watch.options Options.Watch.read;
      body := linux_boot_watch command stdin; writes := λ a, maybe_file (Options.Watch.csv a); atomic := true |};
   {| tool := Options.compliance_tool Compliance.ROOT riscv_nm; body := Compliance.main;
      writes := compliance_files; atomic := false |}].

(** ** What a program may change *)

Lemma deliver_changes output text : changes (maybe_file output) (deliver output text).
Proof. destruct output as [path|]; [by apply changes_put|apply changes_print]. Qed.

Lemma changes_log_names P dir : changes P (log_names dir).
Proof. intros h. done. Qed.
#[local] Hint Resolve changes_log_names : changes.

(** Decides whether a file may be written. *)
Ltac may_write :=
  unfold no_file, one_file, two_files, maybe_file, file_in, card_files in *; cbn beta iota in *;
  solve [eauto | congruence | left; eauto | right; eauto | left; congruence | right; congruence].
Ltac body_changes :=
  repeat first
    [ progress intros
    | solve [auto with changes]
    | apply changes_bind | apply changes_each | apply changes_catch | apply changes_put; may_write
    | apply changes_write; may_write
    | match goal with
      | |- changes _ (match ?x with _ => _ end) => destruct x eqn:?
      | H : (if ?b then Some _ else None) = Some _ |- _ => destruct b; [injection H as <-|discriminate H]
      end
    | progress unfold reporting, parser_error, read_text, read_bytes, read_table, write_bytes, deliver,
        write_or_print, gem5_output, make_dirs, print_line, print_lines ].

Lemma card_changes args : changes (card_files args) (make_fpga_sd_image tmp run_dts read_dtb args).
Proof.
  unfold make_fpga_sd_image. destruct (SdImage.choose_action args.1) as [[image|dts opensbi linux output]|e] eqn:E.
  - unfold verify_card. body_changes.
  - assert (∀ path, two_files output (default (add_suffix output ".json") args.2) path → card_files args path)
      as Hfiles by (intros path; unfold card_files; by rewrite E).
    eapply changes_weaken; [exact Hfiles|]. unfold build_card, read_boot_input. body_changes.
  - body_changes.
Qed.

Lemma parallel_changes args :
  changes (λ path, one_file (Options.TechMap.out_stat args) path ∨
                   file_in (ParallelMap.worker_dir (Options.TechMap.map args)) path)
    (parallel_map yosys seconds completed args).
Proof.
  assert (∀ file, file_in (ParallelMap.worker_dir (Options.TechMap.map args))
                    (ParallelMap.worker_file (Options.TechMap.map args) file)) as Hfile
    by (intros file; by exists file).
  unfold parallel_map, collect, worker, worker_path. body_changes.
Qed.

Lemma missing_quiet images : changes no_file (missing_images images).
Proof. induction images as [|i images IH]; cbn [missing_images]; body_changes. Qed.
Lemma follow_changes o tables csv previous lines : changes (maybe_file csv) (follow o tables csv previous lines).
Proof.
  assert (∀ previous records, changes (maybe_file csv) (annotate o tables csv previous records)) as Hann.
  { intros p records. revert p. induction records as [|e records IH]; intros p; cbn [annotate]; unfold record_row;
      body_changes; apply changes_append; may_write. }
  revert previous. induction lines as [|line lines IH]; intros previous; cbn [follow]; body_changes.
Qed.
Lemma watch_changes args :
  changes (maybe_file (Options.Watch.csv args)) (linux_boot_watch command stdin args).
Proof.
  unfold linux_boot_watch, open_csv. pose proof follow_changes as Hfollow.
  apply changes_bind; [eapply changes_weaken; [|apply missing_quiet]; by intros ? []|]. body_changes.
Qed.

Definition bounded (p : program) : Prop := ∀ args, changes (writes p args) (body p args).

Lemma programs_bounded : Forall bounded programs.
Proof.
  unfold programs. repeat (apply Forall_cons; split); [..|apply Forall_nil_2]; intros args; cbn [body writes].
  - unfold make_4h_sv39_image. body_changes.
  - unfold make_shared_sv39_image. body_changes.
  - apply card_changes.
  - unfold bin2mem. body_changes.
  - unfold elf2mem. body_changes.
  - unfold gen_multichase_ring. body_changes.
  - unfold extract_riscv_kernel_function. body_changes.
  - unfold check_yosys_rom_init. body_changes.
  - unfold check_arch_trace, discover, discover_one, check_one. body_changes.
  - unfold branch_oracle. body_changes.
  - unfold issue_window_experiment. body_changes.
  - unfold pipeline_trace. body_changes.
  - unfold pipeline_trace_3p. body_changes.
  - unfold qemu_one_insn_trace. body_changes.
  - unfold compare_coremark_pipelines. body_changes.
  - unfold linux_boot_signposts. body_changes.
  - unfold linux_boot_pc_histogram. body_changes.
  - unfold linux_boot_report. body_changes.
  - unfold gem5_hpi_report. body_changes.
  - unfold gem5_hpi_blake2s_report. body_changes.
  - unfold gem5_hpi_pointer_chase_report. body_changes.
  - unfold gem5_hpi_stream_report. body_changes.
  - unfold gem5_hpi_pagefree_report. body_changes.
  - apply parallel_changes.
  - unfold summarize_resources. body_changes.
  - unfold summarize_core_4pf, log_delays. body_changes.
  - apply watch_changes.
  - apply main_changes.
Qed.
(** ** Programs that write at the end *)

Lemma deliver_spares output text : spares (deliver output text).
Proof. destruct output as [path|]; [apply put_spares|]. apply spares_quiet, changes_quiet, changes_print. Qed.

Ltac quietly := apply changes_quiet; body_changes.
Ltac body_returns := repeat first [apply returns_ret | apply returns_print | progress unfold print_lines, print_line].
Ltac body_spares :=
  repeat first
    [ apply write_spares | apply put_spares | apply deliver_spares
    | solve [apply spares_quiet; quietly]
    | match goal with |- spares (match ?x with _ => _ end) => destruct x eqn:? end
    | progress unfold write_bytes, write_or_print ].
Ltac body_commits :=
  repeat first
    [ progress intros
    | solve [apply quiet_commits; quietly]
    | apply commits_catch; [|intros; repeat match goal with
        | H : (if ?b then Some _ else None) = Some _ |- _ => destruct b; [injection H as <-|discriminate H]
        end; quietly]
    | apply commits_status; [solve [body_spares]|solve [quietly]]
    | apply commits_bind; [solve [quietly]|]
    | apply commits_last; [solve [body_spares]|intros; solve [body_returns]]
    | match goal with |- commits (match ?x with _ => _ end) => destruct x eqn:? end
    | progress unfold reporting, put_text, gem5_output ].

Lemma follow_returns o tables csv previous lines (status : Z) :
  returns (follow o tables csv previous lines ≫= λ _, mret (M := prog) status) status.
Proof.
  intros h. destruct (follow_adds o tables csv lines
    {| BootWatch.stdout := []; BootWatch.rows := []; BootWatch.previous_function := previous |} h)
    as (w & h' & _ & Hrun & _).
  simpl in Hrun. unfold mbind, prog_bind. by rewrite Hrun.
Qed.
Lemma watch_commits args : commits (linux_boot_watch command stdin args).
Proof.
  unfold linux_boot_watch. apply commits_bind; [apply changes_quiet, missing_quiet|]. intros missing.
  destruct (negb _); [body_commits|]. destruct (ElfSymbols.load_symbol_tables _ _ _) as [tables|e]; [|body_commits].
  apply commits_last; [unfold open_csv; body_spares|]. intros _. apply follow_returns.
Qed.

Definition commits_if_atomic (p : program) : Prop := atomic p = true → ∀ args, commits (body p args).

Lemma programs_commit : Forall commits_if_atomic programs.
Proof.
  unfold programs. repeat (apply Forall_cons; split); [..|apply Forall_nil_2]; intros Ha args; cbn [body];
    try discriminate Ha.
  - unfold make_4h_sv39_image. body_commits.
  - unfold make_shared_sv39_image. body_commits.
  - unfold bin2mem. body_commits.
  - unfold gen_multichase_ring. body_commits.
  - unfold check_yosys_rom_init. body_commits.
  - unfold check_arch_trace, discover, discover_one, check_one. body_commits.
  - unfold branch_oracle. body_commits.
  - unfold issue_window_experiment. body_commits.
  - unfold pipeline_trace. body_commits.
  - unfold pipeline_trace_3p. body_commits.
  - unfold qemu_one_insn_trace. body_commits.
  - unfold compare_coremark_pipelines. body_commits.
  - unfold linux_boot_signposts. body_commits.
  - unfold linux_boot_pc_histogram. body_commits.
  - unfold gem5_hpi_report. body_commits.
  - unfold gem5_hpi_blake2s_report. body_commits.
  - unfold gem5_hpi_pointer_chase_report. body_commits.
  - unfold gem5_hpi_stream_report. body_commits.
  - unfold gem5_hpi_pagefree_report. body_commits.
  - apply watch_commits.
Qed.
(** ** Command lines *)


Lemma programs_typed : Forall (λ p, Options.command_line_typed (tool p)) programs.
Proof.
  unfold programs. repeat (apply Forall_cons; split; [|]); [..|apply Forall_nil_2]; cbn [tool];
    apply (Options.tool_typed Compliance.ROOT riscv_nm); unfold Options.tools;
    repeat first [apply list_elem_of_here | apply list_elem_of_further].
Qed.

Definition safe (p : program) : Prop := ∀ argv h,
  let '(r, h') := run p argv h in
  match Options.parse (tool p) argv with
  | Err e =>
      (e = SystemExit 0 ∧ exit_status r = 0 ∨ (∃ text, e = ExitWith text) ∧ exit_status r = 2) ∧
      files h' = files h ∧ dirs h' = dirs h
  | Ok m => ∃ args, Options.reads (tool p) m = Ok args ∧ dirs h ⊆ dirs h' ∧
      (∀ path, ¬ writes p args path → files h' !! path = files h !! path) ∧
      (atomic p = true → exit_status r ≠ 0 → files h' = files h)
  end.

Lemma commits_failed m h : commits m → exit_status (m h).1 ≠ 0 → files (m h).2 = files h.
Proof. intros Hm. specialize (Hm h). destruct (m h) as [[[]|e] h']; simpl in *; by intros. Qed.

Lemma program_safe p :
  bounded p → commits_if_atomic p → Options.command_line_typed (tool p) → safe p.
Proof.
  intros Hb Hc Ht argv h. specialize (Ht argv). unfold run, parse.
  destruct (Options.parse (tool p) argv) as [m|e].
  - destruct Ht as [args Ha]. unfold lift, mbind, prog_bind. rewrite Ha.
    pose proof (Hb args h) as [Hf Hd _]. specialize (Hc) as Hc'.
    destruct (body p args h) as [r h'] eqn:E. simpl in Hf, Hd. exists args. split_and!; try done.
    intros Hat Hs. pose proof (commits_failed _ h (Hc' Hat args)) as Hx. rewrite E in Hx. by apply Hx.
  - destruct Ht as [->|[text ->]]; simpl; split; try done; [by left|right]. split; [by exists text|done].
Qed.

(** C2: what a command line can do to the files. Each of the twenty-eight programs that
    work on files, when its parser stops, exits with status 0 for the help text and 2
    for a usage error, and changes nothing. Otherwise its options are read, only
    the files named for its output change, directories are only added, and a program
    with a single output leaves every file as it was unless it exits with status 0. *)
Theorem programs_safe : Forall safe programs.
Proof.
  pose proof programs_bounded as Hb. pose proof programs_commit as Hc. pose proof programs_typed as Ha.
  rewrite Forall_forall in *. intros p Hp. apply program_safe; auto.
Qed.
End programs.
