(* ===== verification/CardFlow.v ===== *)
(** * Building a card and checking it

    [tools/make-fpga-sd-image.py] run twice: what a run that builds leaves in the files
    is an image a run with [--verify] accepts, and the manifest beside it is the record
    that run prints. *)

From stdpp Require Import base numbers list strings gmap.
From Stdlib Require Import ZArith Lia Ascii.
From S2P Require Import Prelude PyText Bytes PyJson Argparse SdImage Machine ImagePrograms.

Open Scope Z_scope.

(** ** Images are made of bytes *)

Lemma pack_into_bytes_ok fmt buf off fs buf' :
  pack_into fmt buf off fs = Ok buf' → Forall (λ c, 0 ≤ code_size c) fmt → Forall field_bytes_ok fs →
  bytes_ok buf → bytes_ok buf'.
Proof.
  unfold pack_into. intros H Hc Hf Hb. ok_inv H. subst.
  apply slice_assign_bytes_ok; [done|]. by eapply pack_bytes_ok.
Qed.

Lemma put_entry_bytes_ok header e header' :
  put_entry header e = Ok header' → bytes_ok header → bytes_ok header'.
Proof.
  destruct e as [index e]. unfold put_entry. intros H Hh.
  destruct (encode_ascii (tag e)) as [bs|] eqn:Hbs; [|done]. apply encode_ascii_ok in Hbs.
  apply guard_Ok in H as [_ H]. eapply pack_into_bytes_ok; [exact H|by repeat constructor| |done].
  unfold entry_fields. repeat (constructor; [done|]). constructor.
Qed.

Lemma encode_header_bytes_ok entries n header : encode_header entries n = Ok header → bytes_ok header.
Proof.
  unfold encode_header. intros H. apply bind_Ok in H as (h1 & H1 & H). apply bind_Ok in H as (h2 & H2 & H).
  eapply pack_into_bytes_ok; [exact H|by repeat constructor|by repeat constructor|].
  eapply (foldM_inv (λ _ h, bytes_ok h)); [| |exact H2].
  - eapply pack_into_bytes_ok; [exact H1|by repeat constructor| |by auto with py].
    repeat (constructor; [try done|]); [|constructor]. apply bytes_ok_test. reflexivity.
  - intros. by eapply put_entry_bytes_ok.
Qed.

Lemma put_payload_bytes_ok pairs image :
  Forall (λ p : Entry * list Z, bytes_ok p.2) pairs → bytes_ok image → bytes_ok (foldl put_payload image pairs).
Proof.
  intros Hp. revert image. induction Hp as [|[e data] pairs Hd _ IH]; intros image Hi; simpl; [done|].
  apply IH. by apply slice_assign_bytes_ok.
Qed.

Lemma zip_strict_snd {A B} (P : B → Prop) (l : list A) (k : list B) pairs :
  zip_strict l k = Ok pairs → Forall P k → Forall (λ p, P p.2) pairs.
Proof.
  revert k pairs. induction l as [|x l IH]; intros [|y k] pairs H Hk; try discriminate H.
  - injection H as <-. constructor.
  - simpl in H. apply bind_Ok in H as (rest & Hr & H). injection H as <-.
    apply Forall_cons in Hk as [Hy Hk]. constructor; [done|]. by eapply IH.
Qed.

Lemma make_image_bytes_ok inputs payloads image :
  make_image inputs payloads = Ok image → Forall bytes_ok payloads → bytes_ok image.
Proof.
  unfold make_image. intros H Hp. apply bind_Ok in H as (entries & _ & H). apply bind_Ok in H as (last & _ & H).
  apply bind_Ok in H as (header & Hh & H). apply bind_Ok in H as (pairs & Hz & H). injection H as <-.
  apply put_payload_bytes_ok.
  - by eapply zip_strict_snd.
  - apply slice_assign_bytes_ok; [by auto with py|]. by eapply encode_header_bytes_ok.
Qed.

(** ** The record of a build and of a check *)

(** A record without the sources of its entries. *)
Definition without_source (e : ManifestEntry) : ManifestEntry :=
  {| m_tag := m_tag e; m_start_lba := m_start_lba e; m_sector_count := m_sector_count e;
     m_load_address := m_load_address e; m_byte_length := m_byte_length e; m_crc32 := m_crc32 e;
     m_sha256 := m_sha256 e; m_source := None |}.
Definition without_sources (m : Manifest) : Manifest :=
  {| m_format := m_format m; m_image := m_image m; m_image_bytes := m_image_bytes m;
     m_image_sectors := m_image_sectors m; m_image_sha256 := m_image_sha256 m;
     m_entries := without_source <$> m_entries m |}.

Lemma manifest_without output image entries sources m :
  manifest output image entries sources = Ok m → manifest output image entries None = Ok (without_sources m).
Proof.
  unfold manifest. intros H. apply bind_Ok in H as (records & Hr & H). injection H as <-.
  assert (mapR (manifest_entry image None) entries = Ok (without_source <$> records)) as ->; [|done].
  apply mapR_Ok. apply mapR_Ok in Hr. apply Forall2_fmap_r. eapply Forall2_impl; [exact Hr|].
  intros e r He. unfold manifest_entry in *. apply bind_Ok in He as (source & _ & He). by injection He as <-.
Qed.

(** What [build] returns of its own image. *)
Lemma build_checks dts opensbi_path linux_path output compiled opensbi linux image record :
  build dts opensbi_path linux_path output (Ok compiled) (Some opensbi) (Some linux) = (Some image, Ok record) →
  bytes_ok compiled.2 → bytes_ok opensbi → bytes_ok linux →
  bytes_ok image ∧ ∃ entries, verify_bytes output image = Ok (entries, without_sources record).
Proof.
  destruct compiled as [dts_source dtb]. unfold build. intros H H1 H2 H3.
  destruct (bool_decide (opensbi = [])); [discriminate H|]. destruct (bool_decide (linux = [])); [discriminate H|].
  destruct (negb _); [discriminate H|].
  destruct (make_image _ _) as [built|e] eqn:Hbuilt; [|discriminate H]. injection H as -> H. split.
  - eapply make_image_bytes_ok; [eassumption|]. rewrite !Forall_cons. split_and!; try assumption;
      [apply trampoline_bytes_ok|apply Forall_nil_2].
  - apply bind_Ok in H as ([entries m'] & Hv & Hm). exists entries. rewrite Hv.
    unfold verify_bytes in Hv. apply guard_Ok in Hv as [_ Hv]. apply bind_Ok in Hv as (es & _ & Hv).
    apply bind_Ok in Hv as ([] & _ & Hv). apply bind_Ok in Hv as (m'' & Hp & Hv). injection Hv as -> ->.
    apply manifest_without in Hm. rewrite Hm in Hp. by injection Hp as <-.
Qed.

Lemma build_has_image dts opensbi_path linux_path output compiled opensbi linux record :
  build dts opensbi_path linux_path output (Ok compiled) (Some opensbi) (Some linux) ≠ (None, Ok record).
Proof.
  destruct compiled as [dts_source dtb]. unfold build.
  destruct (bool_decide (opensbi = [])); [discriminate|]. destruct (bool_decide (linux = [])); [discriminate|].
  destruct (negb _); [discriminate|]. by destruct (make_image _ _).
Qed.

(** ** The two runs *)

Lemma run_boot_input text path h data h' :
  read_boot_input text path h = (Ok data, h') → bytes_ok data ∧ h' = h.
Proof.
  unfold read_boot_input, catch, read_bytes, mbind, prog_bind, read_file.
  destruct (files h !! path) as [t|]; simpl.
  - intros [= <- <-]. split; [apply bytes_of_ok|done].
  - by destruct (bool_decide _).
Qed.

Section card.
Context (tmp : string) (run_dts : list string → run_result) (read_dtb : option (list Z)).
Hypothesis tree_bytes : ∀ data, read_dtb = Some data → bytes_ok data.

Lemma compiled_bytes args dts read compiled :
  compile_dts args tmp dts read run_dts read_dtb = Ok compiled → bytes_ok compiled.2.
Proof.
  unfold compile_dts. intros H. destruct (read dts); [|done].
  apply bind_Ok in H as ([] & _ & H). apply bind_Ok in H as ([] & _ & H).
  destruct read_dtb as [data|]; [|done]. injection H as <-. by apply tree_bytes.
Qed.

Lemma build_card_run args manifest dts opensbi linux output h h' :
  build_card tmp run_dts read_dtb args manifest dts opensbi linux output h = (Ok 0, h') →
  ∃ image entries record, bytes_ok image ∧ verify_bytes output image = Ok (entries, without_sources record) ∧
    files h' = <[default (add_suffix output ".json") manifest := dumps (card_json record) +:+ newline]>
                 (<[output := text_of_bytes image]> (files h)).
Proof.
  unfold build_card. intros H.
  apply run_bind in H as (dts_source & h1 & Hdts & H). apply run_boot_input in Hdts as [_ ->].
  apply run_bind in H as (compiled & h1 & Hc & H). apply run_lift in Hc as [Hc ->]. apply compiled_bytes in Hc.
  apply run_bind in H as (opensbi_data & h1 & Ho & H). apply run_boot_input in Ho as [Ho ->].
  apply run_bind in H as (linux_data & h1 & Hl & H). apply run_boot_input in Hl as [Hl ->].
  destruct (build _ _ _ _ _ _ _) as [[image|] record] eqn:Hb.
  2:{ apply run_bind in H as ([] & h1 & _ & H). apply run_bind in H as (m & h2 & Hm & _).
      apply run_lift in Hm as [-> _]. by apply build_has_image in Hb. }
  apply run_bind in H as ([] & h1 & Hw & H). apply (run_put output (text_of_bytes image)) in Hw.
  apply run_bind in H as (m & h2 & Hm & H). apply run_lift in Hm as [-> ->].
  apply run_bind in H as ([] & h2 & Hw' & H). apply run_write in Hw' as ->.
  apply build_checks in Hb as (Hi & entries & Hv); [|done..].
  exists image, entries, m. split; [done|]. split; [done|].
  unfold print_line, print_text, mbind, prog_bind in H. simpl in H. injection H as <-. simpl. by rewrite Hw.
Qed.

Lemma run_reporting name m h h' : reporting name m h = (Ok 0, h') → m h = (Ok 0, h').
Proof.
  unfold reporting, catch. destruct (m h) as [[status|e] h1]; [done|]. by destruct (_ || _).
Qed.

(** C9: a card that was built passes its own check. When a run that builds exits with
    status 0 and its manifest is not the image itself, a run with [--verify] on the
    image it left exits with status 0, changes no file, and prints the record the
    manifest holds, without the names and hashes of the inputs. *)
Theorem card_verifies args manifest dts opensbi linux output check check_manifest h h' :
  choose_action args = Ok (Build dts opensbi linux output) →
  choose_action check = Ok (Verify output) →
  default (add_suffix output ".json") manifest ≠ output →
  make_fpga_sd_image tmp run_dts read_dtb (args, manifest) h = (Ok 0, h') →
  ∃ record,
    files h' !! default (add_suffix output ".json") manifest = Some (dumps (card_json record) +:+ newline) ∧
    make_fpga_sd_image tmp run_dts read_dtb (check, check_manifest) h'
    = (Ok 0, with_out (out h' +:+ dumps (card_json (without_sources record)) +:+ newline) h').
Proof.
  unfold make_fpga_sd_image. cbn [fst snd]. intros -> -> Hne H. apply run_reporting in H.
  apply build_card_run in H as (image & entries & record & Hi & Hv & Hf).
  exists record. split; [by rewrite Hf, lookup_insert_eq|].
  unfold reporting, catch, verify_card, read_bytes, mbind, prog_bind, read_file.
  rewrite Hf, lookup_insert_ne, lookup_insert_eq by done. cbn. rewrite bytes_of_text by done.
  unfold mbind, prog_bind, lift. by rewrite Hv.
Qed.
End card.

Definition sample_args : SdImage.Args :=
  {| a_dts := Some "b.dts"; a_opensbi := Some "sbi"; a_linux := Some "Image"; a_output := Some "out.img";
     a_image := None; memory_size := 0x10000000; hart_count := 1; timebase_frequency := 9216000;
     uart_clock_frequency := 9216000; a_cpp := "cpp"; a_dtc := "dtc" |}.
Definition sample_check : SdImage.Args :=
  {| a_dts := None; a_opensbi := None; a_linux := None; a_output := None; a_image := Some "out.img";
     memory_size := 0x10000000; hart_count := 1; timebase_frequency := 9216000;
     uart_clock_frequency := 9216000; a_cpp := "cpp"; a_dtc := "dtc" |}.
Definition sample_host : host :=
  {| files := <["b.dts" := "/dts-v1/;"]> (<["sbi" := "fw"]> {["Image" := text_of_bytes sample_linux]});
     dirs := {["."]}; unwritable := ∅; out := ""; err := "" |}.
Definition sample_run : result Z * host :=
  make_fpga_sd_image "/tmp/x" (λ _, Ran 0) (Some [7]) (sample_args, None) sample_host.

Lemma sample_builds : sample_run.1 = Ok 0.
Proof. vm_compute. reflexivity. Qed.

Lemma card_verifies_witness :
  ∃ record,
    files sample_run.2 !! "out.img.json" = Some (dumps (card_json record) +:+ newline) ∧
    make_fpga_sd_image "/tmp/x" (λ _, Ran 0) (Some [7]) (sample_check, None) sample_run.2
    = (Ok 0, with_out (out sample_run.2 +:+ dumps (card_json (without_sources record)) +:+ newline)
               sample_run.2).
Proof.
  apply (card_verifies "/tmp/x" (λ _, Ran 0) (Some [7])) with (args := sample_args) (manifest := None)
    (dts := "b.dts") (opensbi := "sbi") (linux := "Image") (output := "out.img") (h := sample_host).
  - intros data [= <-]. repeat constructor; unfold is_byte; lia.
  - reflexivity.
  - reflexivity.
  - discriminate.
  - rewrite <-sample_builds. apply surjective_pairing.
Defined.
