(* ===== verification/ReportFlow.v ===== *)
(** * The merged report as a file

    [parallel_map.py] writes the merged statistics as JSON and the summaries read them
    with [load_stat]: [merged_report_reads] says that they read the modules, areas and
    cells that were merged. *)

From stdpp Require Import base numbers list strings gmap.
From Stdlib Require Import ZArith Lia Ascii SpecFloat.
From S2P Require Import Prelude PyText PyFloat Binary64 PyDict PyNumber PyJson FloatRepr Argparse Machine SynthPrograms.
From S2P Require Options ParallelMap SynthFlow.

Open Scope Z_scope.

#[local] Existing Instance AreaReport.double_Num.

(** ** Statistics and the objects they are read from *)

(** Statistics that are those of their object. *)
Definition coherent (s : Stats) : Prop :=
  read_stats (JObj (ParallelMap.fields s)) = Ok s ∧ sound_json (JObj (ParallelMap.fields s)).

Lemma coherent_read v s : sound_json v → read_stats v = Ok s → coherent s.
Proof.
  intros Hd H. destruct v as [| | | | | |fields]; try discriminate H.
  assert (ParallelMap.fields s = fields) as Hf.
  { cbn [read_stats] in H. apply bind_Ok in H as (a & _ & H). apply bind_Ok in H as (q & _ & H).
    apply bind_Ok in H as (c & _ & H). apply bind_Ok in H as (n & _ & H). by injection H as <-. }
  unfold coherent. by rewrite Hf.
Qed.

Lemma subscript_sound v key w : sound_json v → subscript v key = Ok w → sound_json w.
Proof.
  destruct v as [| | | | | |fields]; try done. intros [_ Hd]. unfold subscript.
  destruct (d_get key fields) as [u|] eqn:E; [|done]. intros [= <-]. apply d_get_elem in E.
  induction fields as [|kv fields IH]; [by apply elem_of_nil in E|].
  destruct Hd as [Hk Hd]. apply elem_of_cons in E as [<-|E]; auto.
Qed.

(** The areas that were read are binary64 values. *)
Lemma number_valid v x : sound_json v → number v = Ok x → valid_double x.
Proof.
  destruct v as [|b|z|y|t|items|fields]; intros Hv H; try discriminate H; simpl in H.
  - injection H as <-. apply to_float_valid.
  - injection H as <-. apply to_float_valid.
  - by injection H as <-.
  - destruct (py_float t) eqn:E; [|done]. injection H as <-. by eapply py_float_valid.
Qed.
Lemma optional_number_valid fields key x :
  sound_json (JObj fields) → optional_number fields key = Ok x → valid_double (default ParallelMap.zero x).
Proof.
  intros Hf. unfold optional_number. destruct (d_get key fields) as [v|] eqn:E; [|by intros [= <-]].
  assert (sound_json v) as Hv.
  { apply (subscript_sound (JObj fields) key); [done|]. simpl. by rewrite E. }
  destruct (number v) as [y|] eqn:Ey; [|done]. intros [= <-]. by apply (number_valid v).
Qed.
Lemma coherent_valid s :
  coherent s → valid_double (default ParallelMap.zero (ParallelMap.area s)) ∧ valid_double (default ParallelMap.zero (ParallelMap.sequential_area s)).
Proof.
  intros [H Hs]. cbn [read_stats] in H. apply bind_Ok in H as (a & Ha & H). apply bind_Ok in H as (q & Hq & H).
  apply bind_Ok in H as (c & _ & H). apply bind_Ok in H as (n & _ & H). apply Ok_inj in H as <-. simpl.
  split; by eapply optional_number_valid.
Qed.
Lemma load_stat_coherent text modules :
  load_stat text = Ok modules → Forall (λ m, coherent m.2) modules.
Proof.
  unfold load_stat, read_modules. intros H. apply bind_Ok in H as (report & Hr & H). apply loads_sound in Hr.
  apply bind_Ok in H as (ms & Hm & H). apply (subscript_sound _ _ _ Hr) in Hm.
  apply bind_Ok in H as (entries & He & H). apply mapR_Ok in H.
  destruct ms as [| | | | | |fields]; try discriminate He. injection He as ->. destruct Hm as [_ Hm].
  induction H as [|e m es ms Hem _ IH]; [constructor|]. destruct Hm as [Hd Hm]. constructor; [|by apply IH].
  unfold named_stats in Hem. apply bind_Ok in Hem as (s & Hs & Hem). injection Hem as <-.
  by eapply coherent_read.
Qed.

Lemma by_canonical_name_Forall {R} (P : ParallelMap.Stats R → Prop) modules :
  Forall (λ m, P m.2) modules → Forall (λ m, P m.2) (ParallelMap.by_canonical_name modules).
Proof.
  unfold ParallelMap.by_canonical_name. induction modules as [|[n s] l IH] using rev_ind; [done|].
  rewrite foldl_app, Forall_app. intros [Hl Hs]. cbn [foldl]. apply IH in Hl. clear IH.
  apply Forall_cons_1 in Hs as [Hs _]. revert Hl. generalize (foldl (λ d '(name, stats), d_set (ParallelMap.canonical name) stats d) [] l).
  intros d. induction 1 as [|[k v] d Hv Hd IH]; simpl; [by constructor|].
  case_decide; constructor; auto.
Qed.

(** ** The merged modules *)

Section merged.
Context (yosys : string → Z * string * option string).

Lemma worker_coherent before args index name key own :
  ParallelMap.run_worker (tools yosys before) args index name = Ok (key, own) → coherent own.
Proof.
  unfold ParallelMap.run_worker, tools. cbn [ParallelMap.stat_file ParallelMap.run_yosys].
  assert (∀ text (e : exn), (modules ← load_stat text;
      match d_get (ParallelMap.canonical name) (ParallelMap.by_canonical_name modules) with
      | Some stats => Ok (ParallelMap.canonical name, stats)
      | None => Err e
      end) = Ok (key, own) → coherent own) as Hload.
  { intros text e H. apply bind_Ok in H as (ms & Hms & H). apply load_stat_coherent, by_canonical_name_Forall in Hms.
    destruct (d_get _ _) as [stats|] eqn:Hg; [|done]. injection H as _ <-.
    apply d_get_elem in Hg. rewrite Forall_forall in Hms. by apply Hms in Hg. }
  assert (∀ script path, (let '(returncode, modules) :=
      let '(code, _, report) := yosys script in
      (code, match report with Some text => load_stat text | None => Err (no_such_file "report") end) in
      raise (RuntimeError ("Yosys worker failed for " +:+ name +:+ " (see " +:+ path +:+ ")"))
        when negb (returncode =? 0);;
      modules ← modules;
      match d_get (ParallelMap.canonical name) (ParallelMap.by_canonical_name modules) with
      | Some stats => Ok (ParallelMap.canonical name, stats)
      | None => Err (ValueError ("worker stat omitted selected module " +:+ name))
      end) = Ok (key, own) → coherent own) as Hrun.
  { intros script path. destruct (yosys script) as [[code log] report]. intros H. apply guard_Ok in H as [_ H].
    destruct report as [text|]; [by eapply Hload|done]. }
  destruct (ParallelMap.reuse_workers args); [|apply Hrun].
  destruct (before _) as [text|]; [apply Hload|apply Hrun].
Qed.

(** A module of the merged report: what a worker reported, with recursive areas. *)
Definition is_merged (s : Stats) : Prop :=
  ∃ own a q, coherent own ∧ valid_double a ∧ valid_double q ∧ s = SynthFlow.merged_of own a q.

Lemma direct_coherent before args names tasks direct :
  foldM (ParallelMap.submit (tools yosys before) args names) ∅ tasks = Ok direct →
  map_Forall (λ _, coherent) direct.
Proof.
  apply (foldM_inv (λ _ d, map_Forall (λ _, coherent) d)); [apply map_Forall_empty|].
  intros don [i m] d1 d2 Hd H _. unfold ParallelMap.submit in H.
  apply bind_Ok in H as (name & _ & H). apply bind_Ok in H as ([k own] & Hr & H). injection H as <-.
  apply worker_coherent in Hr. by apply map_Forall_insert_2.
Qed.

Lemma merged_modules before args pre lines completed merged :
  ParallelMap.main (tools yosys before) args pre lines completed = Ok merged →
  NoDup merged.*1 ∧ Forall (λ m, is_merged m.2) merged.
Proof.
  intros (hierarchy & direct & s & Hrun)%SynthFlow.main_run. split.
  - apply (NoDup_fmap_1 ParallelMap.canonical).
    assert (ParallelMap.canonical <$> merged.*1 = ParallelMap.module_list pre) as ->;
      [|apply ParallelMap.module_list_NoDup].
    pose proof (SynthFlow.run_merged _ _ _ _ _ _ _ _ _ Hrun) as Hm. clear Hrun.
    induction Hm as [|m [name stats] ms l Hx _ IH]; [done|]. rewrite !fmap_cons, IH. f_equal.
    apply SynthFlow.merge_module_Ok in Hx as (? & ? & ? & _ & _ & _ & Hn & _).
    by apply ParallelMap.original_names_spec in Hn as [? _].
  - pose proof (SynthFlow.run_direct _ _ _ _ _ _ _ _ _ Hrun) as Hd. apply direct_coherent in Hd.
    pose proof (SynthFlow.run_merged _ _ _ _ _ _ _ _ _ Hrun) as Hm.
    assert (ParallelMap.amounts_in valid_double s) as [Hareas Hseqs].
    { eapply ParallelMap.accumulate_all_keeps; [|intros m own Hown; by apply coherent_valid, (Hd m)|
        exact (SynthFlow.run_areas _ _ _ _ _ _ _ _ _ Hrun)].
      intros x y. apply fadd_valid. }
    clear Hrun. induction Hm as [|m [name stats] ms l Hx _ IH]; [constructor|]. constructor; [|exact IH].
    apply SynthFlow.merge_module_Ok in Hx as (own & a & q & Ho & Ha & Hq & _ & ->).
    exists own, a, q. split; [by apply (Hd m)|]. split; [by apply (Hareas m)|]. split; [by apply (Hseqs m)|done].
Qed.
End merged.

(** ** The file *)

(** The same statistics, whatever else the objects hold. *)
Definition same_stats (m m' : string * Stats) : Prop :=
  m.1 = m'.1 ∧ ParallelMap.area m.2 = ParallelMap.area m'.2 ∧
  ParallelMap.sequential_area m.2 = ParallelMap.sequential_area m'.2 ∧
  ParallelMap.num_cells_by_type m.2 = ParallelMap.num_cells_by_type m'.2.

Lemma optional_number_set k x fields : optional_number (d_set k (JFloat x) fields) k = Ok (Some x).
Proof. unfold optional_number. by rewrite d_get_set_eq. Qed.
Lemma optional_number_other k k' v fields :
  k ≠ k' → optional_number (d_set k' v fields) k = optional_number fields k.
Proof. intros Hk. unfold optional_number. by rewrite d_get_set_ne. Qed.

Lemma stats_json_read own a q :
  coherent own →
  ∃ s, read_stats (stats_json (SynthFlow.merged_of own a q)) = Ok s ∧
    ∀ name, same_stats (name, SynthFlow.merged_of own a q) (name, s).
Proof.
  intros [Hr _]. unfold stats_json, SynthFlow.merged_of.
  cbn [ParallelMap.area ParallelMap.sequential_area ParallelMap.fields]. cbn [read_stats] in *.
  rewrite (optional_number_other "area" "sequential_area") by done. rewrite !optional_number_set. cbn [mbind result_bind].
  rewrite !d_get_set_ne by discriminate.
  apply bind_Ok in Hr as (a' & _ & Hr). apply bind_Ok in Hr as (q' & _ & Hr).
  apply bind_Ok in Hr as (cells & -> & Hr). cbn [mbind result_bind].
  apply bind_Ok in Hr as (counts & -> & Hr). cbn [mbind result_bind]. apply Ok_inj in Hr as Hown.
  eexists. split; [reflexivity|]. intros name. unfold same_stats. simpl. by rewrite <-Hown.
Qed.

Lemma put_sound key s fields : sound_json (JObj fields) → sound_json s → sound_json (JObj (d_set key s fields)).
Proof. intros H Hs. by apply (good_fields_set _ key s fields). Qed.

Lemma merged_json_sound pre merged :
  sound_json (JObj pre) → NoDup merged.*1 → Forall (λ m, is_merged m.2) merged →
  sound_json (merged_json pre merged).
Proof.
  intros Hp Hn Hm. unfold merged_json. apply put_sound; [done|]. split.
  - rewrite <-list_fmap_compose. by rewrite (list_fmap_ext _ fst) by (by intros ? [? ?]).
  - induction Hm as [|[name s] l (own & a & q & [_ Hc] & Ha & Hq & Hs) _ IH]; [done|]. simpl in Hs. subst s. rewrite fmap_cons in *. apply NoDup_cons in Hn as [_ Hn].
    cbn [foldr]. split; [|by apply IH].
    change (sound_json (JObj (d_set "sequential_area" (JFloat q) (d_set "area" (JFloat a) (ParallelMap.fields own))))).
    by do 2 (apply put_sound; [|done]).
Qed.

Lemma merged_json_read pre merged :
  Forall (λ m, is_merged m.2) merged →
  ∃ modules, read_modules (merged_json pre merged) = Ok modules ∧ Forall2 same_stats merged modules.
Proof.
  intros Hm. unfold read_modules, merged_json. cbn [subscript]. rewrite d_get_set_eq. cbn [mbind result_bind items].
  induction Hm as [|[name s] l (own & a & q & Hc & _ & _ & E) _ (modules & Hr & Hs)]; [by exists []|]. cbn [snd] in E. subst s.
  destruct (stats_json_read own a q Hc) as (s & Hread & Hsame). exists ((name, s) :: modules).
  split; [|constructor; [apply Hsame|done]].
  assert (named_stats (name, stats_json (SynthFlow.merged_of own a q)) = Ok (name, s)) as Hname
    by (unfold named_stats; cbn [fst snd]; by rewrite Hread).
  rewrite fmap_cons. cbn [mapR]. cbn [prod_map fst snd id]. rewrite Hname. cbn [mbind result_bind]. by rewrite Hr.
Qed.

Lemma read_text_plain path h text :
  files h !! path = Some text → no_return (chars text) → read_text path h = (Ok text, h).
Proof.
  intros Hf Hn. unfold read_text, mbind, prog_bind, read_file. rewrite Hf.
  assert (universal_newlines (chars text) = chars text) as ->; [|by rewrite of_chars_chars].
  induction Hn as [|c s Hc _ IH]; [done|]. simpl. destruct (Ascii.eqb_spec c CsvText.CR) as [->|_]; [done|].
  by rewrite IH.
Qed.

(** A report that was written, read by [load_stat]. *)
Lemma merged_text_reads path h pre merged :
  sound_json (JObj pre) → NoDup merged.*1 → Forall (λ m, is_merged m.2) merged →
  files h !! path = Some (dumps (merged_json pre merged) +:+ newline) →
  ∃ modules, (text ← read_text path; lift (load_stat text)) h = (Ok modules, h) ∧
    Forall2 same_stats merged modules.
Proof.
  intros Hp Hn Hm Hfile. destruct (merged_json_read pre merged Hm) as (modules & Hr & Hs).
  exists modules. split; [|done].
  assert (valid (merged_json pre merged)) as Hv by (by apply sound_valid, merged_json_sound).
  unfold mbind, prog_bind. rewrite (read_text_plain path h _ Hfile).
  - unfold load_stat, lift. unfold newline. rewrite loads_dumps_line by done. cbn [mbind result_bind]. by rewrite Hr.
  - unfold newline, dumps. rewrite chars_app, !chars_of_chars. apply Forall_app_2; [by apply dump_no_return|].
    by repeat constructor.
Qed.

Section report.
Context (yosys : string → Z * string * option string) (seconds : string → double)
  (completed : list (Z * string)).

Lemma parallel_map_run options h h' :
  let args := Options.TechMap.map options in
  slash (ParallelMap.worker_dir args) "timing.json" ≠ Options.TechMap.out_stat options →
  parallel_map yosys seconds completed options h = (Ok 0, h') →
  ∃ before pre names lines merged, sound_json (JObj pre) ∧
    ParallelMap.main (tools yosys before) args names lines completed = Ok merged ∧
    files h' !! Options.TechMap.out_stat options = Some (dumps (merged_json pre merged) +:+ newline).
Proof.
  intros args Hne. unfold parallel_map. fold args.
  destruct (ParallelMap.fast args && _); [done|]. destruct (_ <? 1); [done|]. intros H.
  apply run_bind in H as ([] & h1 & _ & H). apply run_bind in H as ([] & h2 & _ & H).
  apply run_bind in H as (pre_text & h3 & _ & H).
  apply run_bind in H as (pre_data & h4 & Hp & H). apply run_lift in Hp as [Hp ->]. apply loads_sound in Hp.
  apply run_bind in H as (modules & h4 & _ & H). apply run_bind in H as (hierarchy & h5 & _ & H).
  apply run_bind in H as ([names kept] & h6 & _ & H). apply run_bind in H as ([] & h7 & _ & H).
  apply run_bind in H as ([] & h7' & _ & H).
  apply run_bind in H as (before & h8 & _ & H). apply run_bind in H as (elapsed & h9 & _ & H).
  apply run_bind in H as (merged & h10 & Hm & H). apply run_lift in Hm as [Hm ->].
  apply run_bind in H as (pre & h11 & Hi & H). apply run_lift in Hi as [Hi ->].
  apply run_bind in H as ([] & h12 & Hw & H). apply run_write in Hw as ->.
  apply run_bind in H as ([] & h13 & Hw & H). apply run_write in Hw as ->. injection H as <-.
  destruct pre_data as [| | | | | |fields]; try discriminate Hi. injection Hi as ->.
  exists before, pre, modules.*1, (of_chars <$> splitlines hierarchy), merged. split; [done|]. split; [done|].
  cbn. by rewrite lookup_insert_ne, lookup_insert_eq.
Qed.

(** C13: what [parallel_map.py] writes, [load_stat] of the summaries reads. When a run
    exits with status 0, and does not overwrite its report with the timings, the file
    it names is the report of merged modules, and reading it gives the same modules in
    the same order with exactly the areas that were added up, as binary64 values, and
    the cells the workers reported. *)
Theorem merged_report_reads options h h' :
  slash (ParallelMap.worker_dir (Options.TechMap.map options)) "timing.json"
    ≠ Options.TechMap.out_stat options →
  parallel_map yosys seconds completed options h = (Ok 0, h') →
  ∃ before names lines merged,
    ParallelMap.main (tools yosys before) (Options.TechMap.map options) names lines completed = Ok merged ∧
    ∃ modules,
      (text ← read_text (Options.TechMap.out_stat options); lift (load_stat text)) h' = (Ok modules, h') ∧
      Forall2 same_stats merged modules.
Proof.
  intros Hne H. destruct (parallel_map_run _ _ _ Hne H) as (before & pre & names & lines & merged & Hp & Hm & Hf).
  exists before, names, lines, merged. split; [done|].
  destruct (merged_modules _ _ _ _ _ _ _ Hm) as [Hn Hall]. by apply (merged_text_reads _ _ pre).
Qed.
End report.

(** ** A run *)

Definition sample_module (area : Z) (cells : list (string * json)) : json :=
  JObj [("area", JFloat (to_float area)); ("num_cells_by_type", JObj cells)].
Definition sample_report : json :=
  JObj [("modules", JObj [("top", sample_module 100 []); ("alu", sample_module 10 [("add", JInt 3)])])].
Definition sample_options : Options.TechMap.Args :=
  {| Options.TechMap.yosys := "yosys"; Options.TechMap.pre_stat := "pre.json";
     Options.TechMap.hierarchy := "hierarchy.txt"; Options.TechMap.out_stat := "out.json";
     Options.TechMap.map :=
       {| ParallelMap.checkpoint := "c.il"; ParallelMap.liberty := "l.lib"; ParallelMap.constraint := "c.sdc";
          ParallelMap.worker_dir := "work"; ParallelMap.requested_jobs := 2; ParallelMap.reuse_workers := false;
          ParallelMap.fast := false; ParallelMap.abc_script := None |} |}.
Definition sample_host : host :=
  {| files := <["pre.json" := dumps sample_report]>
                {["hierarchy.txt" := unlines ["module top"; "  cell alu u_alu "; "  cell alu u_alu2 "; "module alu"]]};
     dirs := {["."]}; unwritable := ∅; out := ""; err := "" |}.
Definition sample_yosys (script : string) : Z * string * option string := (0, "", Some (dumps sample_report)).
Definition sample_run : result Z * host :=
  parallel_map sample_yosys (λ _, to_float 1) [(1, "top"); (0, "alu")] sample_options sample_host.

Lemma sample_run_maps : sample_run.1 = Ok 0.
Proof. vm_compute. reflexivity. Qed.

Example sample_reads :
  (map (λ m, (m.1, ParallelMap.area m.2, ParallelMap.num_cells_by_type m.2)) <$>
     ((text ← read_text "out.json"; lift (load_stat text)) sample_run.2).1)
  = Ok [("alu", Some (to_float 10), [("add", 3)]); ("top", Some (to_float 120), [])].
Proof. vm_compute. reflexivity. Qed.

Lemma merged_report_reads_witness :
  ∃ before names lines merged,
    ParallelMap.main (tools sample_yosys before) (Options.TechMap.map sample_options) names lines
      [(1, "top"); (0, "alu")] = Ok merged ∧
    ∃ modules,
      (text ← read_text "out.json"; lift (load_stat text)) sample_run.2 = (Ok modules, sample_run.2) ∧
      Forall2 same_stats merged modules.
Proof.
  apply (merged_report_reads sample_yosys (λ _, to_float 1) [(1, "top"); (0, "alu")] sample_options sample_host).
  - vm_compute. discriminate.
  - rewrite <-sample_run_maps. apply surjective_pairing.
Defined.
